(* ===== verification/_CoqProject ===== *)
-Q . S2P
Prelude.v
Prog.v
BinderUapi.v
RefBase.v
Parcel.v
ParcelData.v
ParcelWire.v
ParcelHelpers.v
Registry.v
RegistryLock.v
Interceptor.v
Protocol.v
Peer.v
IoctlHook.v
HookTime.v
CText.v
Sys.v
Maps.v
ProcUtils.v
Target.v
RemoteCall.v
Inject.v
Device.v
Resources.v
Tracee.v
InjectSpec.v
LinkStubs.v
UniqueFd.v
KeyModes.v
AliasCache.v
KeystoreHooks.v
KeystoreRuns.v
KeystoreEnd.v
SoftwareOps.v
ListEntries.v
TypeHelpers.v
LightRefBase.v
StringTypes.v
Interfaces.v
Tee.v
Persistence.v
PatchLevels.v
