(* ===== verification/Prelude.v ===== *)
(** * TrickyStoreOSS: a verification library

    TrickyStoreOSS intercepts the binder transactions of Android's keystore process.
    Its native layer (src/app/src/main/cpp) has two programs: [inject], which loads a
    library into the running keystore with ptrace, and that library, which hooks the
    [ioctl] of the keystore's libbinder and passes chosen transactions through an
    interceptor object that lives in the module's own process.  This development models
    both, with the vendored headers their behaviour rests on, and of the module's process
    (src/app/src/main/java) the interceptor object and the decisions of its hooks.

    ** How the parts interact

    [inject/main.cpp] attaches to the keystore, sends it the descriptor of the library,
    makes it call [android_dlopen_ext] and then the library's [entry].  [entry] installs
    [intercepted_ioctl_function].  After every read from the driver the hook walks the
    commands in the read buffer; a transaction whose target is registered is pointed at
    a stub object, and its own target and code are queued for the thread.  libbinder then
    delivers it to [BinderStub::onTransact], which takes the queue's front, offers the
    transaction to the interceptor before and after the target runs, and answers.  The
    interceptor registers itself with a transaction of the backdoor code.  On its side of
    the protocol [BinderInterceptor] hands the transaction to a hook, which answers by the
    mode of the caller's packages and by what it remembers of the caller's keys.

    ** Foundations

    - Prelude.v: machine words as integers with their wrap-around, bytes, flat memory,
      and the tactics and hints of the development.
    - Prog.v: programs as trees of calls to an environment ([prog]), their executions
      ([exec], [run]), postconditions over all executions ([wp], under assumptions on the
      environment [wpa] and [wpv], with a log [wpc]) and equality of
      executions [peq], for which binding is [Proper].  [Out] is an exhausted bound,
      [Crash] undefined behaviour, a null dereference or an uncaught exception.

    ** The hooked process

    - BinderUapi.v: external/linux-kernel/include/android/binder.h: the C layout rules,
      the structs, the ioctl words and both command protocols.
    - RefBase.v: utils/RefBase.h and utils/StrongPointer.h: [wp] and [sp] statement by
      statement; the counters behind them are calls of the platform ([refE]), and [nets]
      is what a program adds to one of them.
    - Parcel.v: utils/Errors.h, and the parcel operations the interceptor uses as a class
      ([ParcelOps]) with its documented laws ([ParcelLaws]) and a concrete instance.
    - Registry.v: [InterceptorRegistration], [shouldInterceptTransaction],
      [handleRegisterInterceptor] and [BinderInterceptor::onTransact] of
      binder_interceptor.cpp, over [std::map] as the standard describes it.
    - RegistryLock.v: the critical sections under [registry_mutex_], one call of the map
      at a time, interleaved between threads by a step relation.
    - Interceptor.v: [handleInterceptedTransaction] and [BinderStub::onTransact].
    - Protocol.v: what the interceptor protocol promises for each pair of policies of the
      interceptor, and that the stub refines it.
    - Peer.v: interceptors/BinderInterceptor.kt, the other end of the protocol, on parcels
      as Java sees them ([JavaParcel], [JavaLaws]).
    - IoctlHook.v: [processBinderTransaction], [processBinderWriteRead],
      [intercepted_ioctl_function], [initializeBinderInterception] and [entry].
    - HookTime.v: the loop of the hook ends, with a bound on its calls.

    ** Typed data in parcels

    - ParcelData.v: the [writeData] and [readData] templates of binder/Parcel.h, by
      recursion over an inductive type of C++ types; the member functions they end in are
      the class [DataOps], what Parcel.h documents of them [DataLaws].
    - ParcelWire.v: the wire format as a predicate, the round trip, the types of what is
      read, and a parcel of tokens on which the laws hold.
    - ParcelHelpers.v: the named wrappers, LightFlattenable objects, vector sizes and
      binders of an interface class.

    ** The injector

    - CText.v, Sys.v: the conversions of the C library the source uses, and its system
      calls as a signature [sysE].
    - Maps.v: maps/maps.cpp, [MapInfo::Scan].
    - ProcUtils.v: inject/utils.cpp and utils.hpp: registers and memory of the tracee,
      remote calls on four architectures, waiting, SELinux contexts, [UniqueFd].
    - Inject.v: inject/main.cpp, with one definition per lambda and helper; [with_fd] and
      [with_attachment] are the scopes of its guards.
    - Target.v: the memory of the tracee, and the calling conventions as a reference.
    - RemoteCall.v: a remote call puts the tracee where the convention says, and returns.
    - Device.v: an environment in which an injection on arm64 can be run.
    - Resources.v, Tracee.v: the descriptors, handles and tracees an injection holds, and
      the ptrace state machine it has to respect.
    - InjectSpec.v: the other properties of the injector.

    ** The module's process

    - KeyModes.v: target.txt and the questions of config/Config.kt; GenerateKeyRoute.kt,
      GetKeyEntryPostPolicy.kt, AttestationTrustClass.kt.
    - AliasCache.v: CertificateAliasCache.kt and PassthroughKeyRegistry.kt as one record of
      maps, over an abstract type of keystore responses ([Response]).
    - KeystoreHooks.v: the hooks of Keystore2Interceptor.kt and SecurityLevelInterceptor.kt,
      one definition per transaction and side; the parsed request, the keystore's reply and
      what the cryptography makes of them are arguments.
    - KeystoreRuns.v: whole transactions and arbitrary sequences of hooks.
    - KeystoreEnd.v: the hooks of [getKeyEntry] as the interceptor object behind the stub.
    - SoftwareOps.v: SoftwareOperationBinder.kt: which operations a forged key serves, and
      their life, over an engine that is a parameter.
    - ListEntries.v: the merging of forged keys into the keystore's listings.
    - Tee.v: the probing thread of AttestUtils.kt with its retry policy, bootstrap and
      classification of failures (tee/*.kt), over the platform's answers and its clock.
    - PatchLevels.v: security_patch.txt (Config.kt) and the patch level of a component
      (AndroidUtils.kt).
    - Persistence.v: PersistenceManager.kt: the file format as a writer and a reader, and the
      states the directory of key files goes through.

    ** Libraries around them

    - LinkStubs.v: stub/stub_binder.cpp and stub_utils.cpp: the results of the link-time
      stand-ins, the class layouts they assert, and the interceptor run on them.
    - UniqueFd.v: android-base/unique_fd.h over a store of objects, with the platform's
      owner tags as a checker.
    - LightRefBase.v: utils/LightRefBase.h, the counter's atomic operations as the steps of
      threads that hold and hand over references.
    - TypeHelpers.v: utils/TypeHelpers.h over a store of constructed cells: traits, orders,
      hashes, and the construct, destroy, copy and move loops [Vector] hands its base class.
    - StringTypes.v: the comparisons, wrappers and static strings of utils/String8.h and
      utils/String16.h.
    - Interfaces.v: binder/IInterface.h: the casts between binder objects and interfaces,
      default implementations, and the compile-time allow list.

    ** What the theorems show

    - The hook changes exactly the transactions that have to be intercepted, equals a
      parse of the buffer into commands, ends, and lets only root reach the interceptor
      through the backdoor (IoctlHook, HookTime).
    - The stub follows the interceptor protocol, does not fault whatever the interceptor
      answers, and runs the target when the interceptor fails; a failure after the target
      ran makes it run twice, and a target registered as its own interceptor, which nothing
      forbids, also gets the offers (Interceptor, Protocol).  Of the queue it takes the
      oldest entry, for which the target runs unless it is gone ([stub_onTransact_queue]).
    - Registration replaces or inserts one entry, changes nothing when it fails, and keeps
      the reference counts (Registry); it aborts only when the allocator refuses the room for
      the number of codes the message announces ([registration_abort]).  The smart pointers
      keep the counts too, [force_set] and what is given up without a decrement accounted for
      (RefBase).  Any threads' registrations and lookups, on any well-formed registry, are
      linearizable in an order that respects which returned before another began, free of
      races and of deadlock (RegistryLock).
    - With the Kotlin interceptor as the peer, a hook runs on the caller's transaction and
      identity and its result is what the caller gets; the message it registers with is the
      one the native side reads (Peer).
    - A plain AUTO caller gets the real keystore's replies, or is refused exactly when it
      names a grant without [GET_INFO]; no caller is served a key it
      neither owns nor was granted; keys tracked for their real chain have no forged
      material (KeystoreRuns, KeystoreHooks); the first holds through the stub, the protocol
      and the hooks together (KeystoreEnd).  A usage limit bounds the completed operations
      (SoftwareOps), a merged listing loses and repeats nothing (ListEntries).  [unresolved_grantee_served],
      [second_reply_is_patched], [leaf_forward_keeps_file], [patch_leaf_any_owner],
      [granted_update_stale], [paging_skips_real_keys] and [restart_restores_uses] are the
      cases the module gets wrong.
    - Typed data is read back as it was written, given UTF-8 strings and memory where the
      code does not check for it, and what is read has its type, but for vectors of
      enumerations over [bool] ([bool_enum_out_of_range]) (ParcelWire, ParcelHelpers).
    - The probing thread ends after at most ten probes and keeps what the last one decided
      (Tee).  A key that was saved is loaded with every field the file format has a place for
      ([kept_params]; [loaded_curve_size] is a consequence of those it has none for).  While a
      key is saved its file is the old or the new one, unless the rename fails: the copy made
      then has moments with no file or part of one ([copy_gap], [aborted_copy]) (Persistence).
      security_patch.txt is read as it is
      documented (PatchLevels).
    - An object counted by [LightRefBase] is deleted once, after its last reference is gone
      (LightRefBase); the loops that move elements are simultaneous moves (TypeHelpers);
      the operators of the string classes follow one order (StringTypes); casting a binder
      object to an interface loses no identity (Interfaces).
    - A remote call respects the calling convention but for the red zone of x86-64, and
      ends; an injection releases what it holds, restores the registers when it succeeds,
      and keeps to the ptrace protocol unless sending the descriptor fails (RemoteCall,
      Resources, Tracee).
    - Handing over the descriptor makes its calls in order, each on the target's socket, and
      closes it, in a target that takes every request and to which the message can be sent
      (InjectSpec, [transfer_over_calls]).
    - The memory map is parsed back from its text, addresses are translated between the
      processes, strings and names are built as meant (Maps, InjectSpec).

    ** Bounds

    The loops whose length the environment decides take a number of rounds [fuel] and end
    in [Out] without it: waiting for the tracee ([wait_for_trace], [remote_post_call]).
    [remote_call_completes] gives the number of rounds that is enough.  The walk over the
    read buffer takes one more round than there are bytes, and HookTime.v shows that it
    is never exhausted.  The probing thread's two loops have ten attempts and 181 polls, which
    [startTeeStateInitialization_decides] shows are enough.  All other recursion is
    structural.

    ** Not modelled

    Log output; the hooking library (a submodule whose directory is empty; its calls are
    events); the bodies of libbinder, libutils and bionic, which are not in the
    repository.  Threads of the keystore interleave in RegistryLock.v only; elsewhere every
    read of the registry is a call of the environment, and a hook of the module runs in one
    step.  Of the module's process: the hooks for platforms before keystore2, certificates
    and key boxes (calls into cryptography libraries), what a loss of power leaves of files
    written without [fsync], the parsing of the attestation
    certificate, the boot key and hash, and the start-up of the daemon.  Of the platform's headers: the methods
    that only forward to a declared function ([Vector] to [VectorImpl], the classes of
    libbinder). *)

From stdpp Require Export base list numbers option gmap strings.
From Stdlib Require Export ZArith Lia.
From Stdlib Require Import Strings.Byte.

#[global] Open Scope Z_scope.

(** ** Machine words

    A [w]-bit unsigned integer is a [Z]; [wrap w z] is the value a [w]-bit
    object holds after [z] was stored in it.  [sext w z] reads the same bits as
    a two's complement signed integer. *)

Definition wrap (w z : Z) : Z := z mod 2 ^ w.

Definition sext (w z : Z) : Z :=
  let u := wrap w z in if u <? 2 ^ (w - 1) then u else u - 2 ^ w.

Definition in_word (w z : Z) : Prop := 0 <= z < 2 ^ w.

#[global] Instance in_word_dec w z : Decision (in_word w z).
Proof. unfold in_word. apply _. Defined.

(** ** Bytes and their little-endian grouping *)

Abbreviation byte := Byte.byte.

#[global] Instance byte_eq_dec : EqDecision byte := Byte.byte_eq_dec.

Definition byte_val (b : byte) : Z := Z.of_N (Byte.to_N b).

Definition byte_of (z : Z) : byte :=
  match Byte.of_N (Z.to_N (z mod 256)) with Some b => b | None => Byte.x00 end.

Fixpoint le_encode (n : nat) (z : Z) : list byte :=
  match n with
  | O => []
  | S n => byte_of z :: le_encode n (z / 256)
  end.

Fixpoint le_decode (bs : list byte) : Z :=
  match bs with
  | [] => 0
  | b :: bs => byte_val b + 256 * le_decode bs
  end.

(** ** Lists as flat memory

    [load off n m] is the [n] bytes of [m] that start at offset [off], and
    [store off bs m] overwrites the bytes there; both fail when the access is
    not inside [m]. *)

Definition load (off n : nat) (m : list byte) : option (list byte) :=
  if decide (off + n <= length m)%nat then Some (take n (drop off m)) else None.

Definition store (off : nat) (bs m : list byte) : option (list byte) :=
  if decide (off + length bs <= length m)%nat
  then Some (take off m ++ bs ++ drop (off + length bs) m) else None.

Definition load_le (off n : nat) (m : list byte) : option Z := le_decode <$> load off n m.

Definition store_le (off n : nat) (z : Z) (m : list byte) : option (list byte) :=
  store off (le_encode n z) m.

#[global] Arguments load : simpl never.
#[global] Arguments store : simpl never.
#[global] Arguments load_le : simpl never.
#[global] Arguments store_le : simpl never.

(** ** Automation *)

Create HintDb s2p.
Create Rewrite HintDb s2p.

(** [split_if] destructs a test of the goal or of a hypothesis; [boolp] turns
    boolean hypotheses into propositions. *)
Ltac split_if :=
  match goal with
  | |- context [if ?b then _ else _] => destruct b eqn:?
  | H : context [if ?b then _ else _] |- _ => destruct b eqn:?
  end.

Ltac boolp :=
  repeat match goal with
  | H : (_ && _) = true |- _ => apply andb_prop in H; destruct H
  | H : (_ || _) = false |- _ => apply orb_false_elim in H; destruct H
  | H : (_ =? _) = true |- _ => apply Z.eqb_eq in H
  | H : (_ =? _) = false |- _ => apply Z.eqb_neq in H
  | H : (_ <? _) = true |- _ => apply Z.ltb_lt in H
  | H : (_ <? _) = false |- _ => apply Z.ltb_ge in H
  | H : (_ <=? _) = true |- _ => apply Z.leb_le in H
  | H : (_ <=? _) = false |- _ => apply Z.leb_gt in H
  | H : negb _ = true |- _ => apply negb_true_iff in H
  | H : negb _ = false |- _ => apply negb_false_iff in H
  | H : bool_decide _ = true |- _ => apply bool_decide_eq_true in H
  | H : bool_decide _ = false |- _ => apply bool_decide_eq_false in H
  end.

(** ** Words: lemmas *)

Lemma wrap_range w z : 0 <= w -> in_word w (wrap w z).
Proof. intros. apply Z.mod_pos_bound. apply Z.pow_pos_nonneg; lia. Qed.

Lemma wrap_small w z : in_word w z -> wrap w z = z.
Proof. apply Z.mod_small. Qed.

Lemma wrap_wrap w z : 0 <= w -> wrap w (wrap w z) = wrap w z.
Proof. intros. apply wrap_small, wrap_range; done. Qed.

Lemma testbit_above w z i : 0 <= w <= i -> in_word w z -> Z.testbit z i = false.
Proof.
  intros Hw [Hz Hz']. destruct (decide (z = 0)) as [->|]; [apply Z.bits_0|].
  apply Z.bits_above_log2; [done|]. apply Z.log2_lt_pow2; [lia|].
  pose proof (Z.pow_le_mono_r 2 w i). lia.
Qed.

#[export] Hint Resolve wrap_range : s2p.
#[export] Hint Rewrite wrap_wrap using lia : s2p.

(** ** Bytes: lemmas *)

Lemma byte_val_range b : 0 <= byte_val b < 256.
Proof.
  unfold byte_val. pose proof (Byte.to_N_bounded b). lia.
Qed.

Lemma byte_of_val b : byte_of (byte_val b) = b.
Proof.
  unfold byte_of. rewrite Z.mod_small by apply byte_val_range.
  unfold byte_val. rewrite N2Z.id, Byte.of_to_N. done.
Qed.

Lemma byte_val_of z : byte_val (byte_of z) = z mod 256.
Proof.
  unfold byte_of. pose proof (Z.mod_pos_bound z 256 ltac:(lia)).
  destruct (Byte.of_N (Z.to_N (z mod 256))) eqn:E.
  - apply Byte.to_of_N in E. unfold byte_val. rewrite E, Z2N.id; lia.
  - apply Byte.of_N_None_iff in E. lia.
Qed.

Lemma byte_of_mod z n : 0 < n -> byte_of (z mod (256 * n)) = byte_of z.
Proof.
  intros. unfold byte_of. do 3 f_equal. rewrite Z.rem_mul_r by lia.
  rewrite Z.mul_comm, Z_mod_plus_full. by rewrite Z.mod_mod.
Qed.

Lemma length_le_encode n z : length (le_encode n z) = n.
Proof. revert z. induction n; simpl; auto. Qed.

Lemma le_decode_encode n z : le_decode (le_encode n z) = z mod 256 ^ Z.of_nat n.
Proof.
  revert z. induction n as [|n IH]; intros z; simpl le_decode.
  - by rewrite Z.mod_1_r.
  - rewrite IH, byte_val_of, Nat2Z.inj_succ, Z.pow_succ_r by lia.
    rewrite (Z.rem_mul_r z 256) by (try apply Z.pow_nonzero; lia). done.
Qed.

Lemma le_decode_range bs : 0 <= le_decode bs < 256 ^ Z.of_nat (length bs).
Proof.
  induction bs as [|b bs IH]; [simpl; lia|].
  cbn [le_decode length]. pose proof (byte_val_range b).
  rewrite Nat2Z.inj_succ, Z.pow_succ_r by lia. nia.
Qed.

Lemma le_encode_decode bs : le_encode (length bs) (le_decode bs) = bs.
Proof.
  induction bs as [|b bs IH]; [done|]. cbn [le_decode le_encode length].
  pose proof (byte_val_range b).
  rewrite (Z.mul_comm 256), Z.div_add, Z.div_small, Z.add_0_l, IH by lia.
  f_equal. rewrite <-(byte_of_val b) at 2. unfold byte_of at 1 2.
  rewrite Z_mod_plus_full. done.
Qed.

Lemma le_decode_encode_small n z :
  0 <= z < 256 ^ Z.of_nat n -> le_decode (le_encode n z) = z.
Proof. intros. rewrite le_decode_encode. by apply Z.mod_small. Qed.

#[export] Hint Rewrite length_le_encode : s2p.

(** ** Flat memory: lemmas *)

Lemma load_Some off n m bs :
  load off n m = Some bs <-> (off + n <= length m)%nat /\ bs = take n (drop off m).
Proof. unfold load. case_decide; intuition congruence. Qed.

Lemma load_length off n m bs : load off n m = Some bs -> length bs = n.
Proof. intros [? ->]%load_Some. rewrite length_take, length_drop. lia. Qed.

Lemma load_in_bounds off n m : (off + n <= length m)%nat -> is_Some (load off n m).
Proof. intros. unfold load. rewrite decide_True by done. eauto. Qed.

Lemma load_le_in_bounds off n m : (off + n <= length m)%nat -> is_Some (load_le off n m).
Proof. intros. unfold load_le. destruct (load_in_bounds off n m) as [? ->]; eauto. Qed.

Lemma load_le_range off n m z :
  load_le off n m = Some z -> 0 <= z < 256 ^ Z.of_nat n.
Proof.
  unfold load_le. intros (bs & Hl & ->)%fmap_Some.
  apply load_length in Hl. subst n. apply le_decode_range.
Qed.

Lemma store_in_bounds off bs m :
  (off + length bs <= length m)%nat -> is_Some (store off bs m).
Proof. intros. unfold store. rewrite decide_True by done. eauto. Qed.

Lemma store_length off bs m m' : store off bs m = Some m' -> length m' = length m.
Proof.
  unfold store. case_decide; intros; simplify_eq.
  rewrite !length_app, length_take, length_drop. lia.
Qed.

(** A memory cut as [pre ++ mid ++ post]: the access at [length pre] sees [mid]. *)
Lemma load_app pre mid post : load (length pre) (length mid) (pre ++ mid ++ post) = Some mid.
Proof.
  unfold load. rewrite !length_app, decide_True by lia.
  by rewrite drop_app_length, take_app_length.
Qed.

Lemma store_app pre mid post bs :
  length bs = length mid ->
  store (length pre) bs (pre ++ mid ++ post) = Some (pre ++ bs ++ post).
Proof.
  intros Hl. unfold store. rewrite !length_app, decide_True by lia.
  rewrite take_app_length, Hl. do 3 f_equal.
  rewrite <-drop_drop, drop_app_length, drop_app_length. done.
Qed.

Lemma load_le_app pre mid post n :
  length mid = n -> load_le (length pre) n (pre ++ mid ++ post) = Some (le_decode mid).
Proof. intros <-. unfold load_le. by rewrite load_app. Qed.

(** The same access seen from inside [mid]. *)
Lemma load_le_local pre mid post o n :
  (o + n <= length mid)%nat ->
  load_le (length pre + o) n (pre ++ mid ++ post) = load_le o n mid.
Proof.
  intros Ho. unfold load_le, load. rewrite !length_app, !decide_True by lia.
  rewrite <-drop_drop, drop_app_length, drop_app_le, take_app_le; try done; [|lia].
  rewrite length_drop. lia.
Qed.

Lemma store_le_local pre mid post o n z :
  (o + n <= length mid)%nat ->
  store_le (length pre + o) n z (pre ++ mid ++ post) =
    (fun mid' => pre ++ mid' ++ post) <$> store_le o n z mid.
Proof.
  intros Ho. unfold store_le, store. rewrite length_le_encode, !length_app, !decide_True by lia.
  simpl. f_equal. rewrite take_app_ge by lia.
  replace (length pre + o - length pre)%nat with o by lia.
  rewrite (drop_app_ge pre) by lia.
  replace (length pre + o + n - length pre)%nat with (o + n)%nat by lia.
  rewrite take_app_le, drop_app_le by lia. by rewrite <-!app_assoc.
Qed.

Lemma store_le_Some off n z m :
  (off + n <= length m)%nat ->
  exists m', store_le off n z m = Some m' /\ length m' = length m.
Proof.
  intros H. unfold store_le. destruct (store_in_bounds off (le_encode n z) m) as [m' Hm].
  - by rewrite length_le_encode.
  - exists m'. split; [done|]. by eapply store_length.
Qed.
