(* ===== verification/Prog.v ===== *)
(** * Programs with effects

    The C++ of the repository calls code it does not contain: the kernel, the
    dynamic linker, libbinder, libutils.  A piece of it is modelled as a
    [prog E A]: a tree that issues calls of the signature [E] and continues with
    whatever the environment answers.  [exec p t r] says that [p] can make the
    calls and receive the answers listed in the trace [t], and end with [r];
    [run] executes a program against one concrete environment.  A property
    proved for every [exec] holds whatever the environment does, other threads
    and processes included.

    An execution ends with [Done a], with [Timeout] when the fuel given to a
    loop of the source ran out, or with [Fault] when the C++ would read or write
    outside an object or call through a null pointer. *)

From S2P Require Import Prelude.
Local Open Scope Z_scope.

Inductive outcome (A : Type) : Type :=
| Done (a : A)
| Timeout
| Fault.
Arguments Done {A} a.
Arguments Timeout {A}.
Arguments Fault {A}.

Section prog.
Context {E : Type -> Type}.

Inductive prog (A : Type) : Type :=
| Ret (a : A)
| Vis {X : Type} (e : E X) (k : X -> prog A)
| Out
| Crash.
Arguments Ret {A} a.
Arguments Vis {A X} e k.
Arguments Out {A}.
Arguments Crash {A}.

Inductive event : Type :=
| Event {X : Type} (e : E X) (x : X).

(** One call of the environment. *)
Definition call {X : Type} (e : E X) : prog X := Vis e Ret.

Fixpoint pbind {A B : Type} (f : A -> prog B) (p : prog A) : prog B :=
  match p with
  | Ret a => f a
  | Vis e k => Vis e (fun x => pbind f (k x))
  | Out => Out
  | Crash => Crash
  end.

#[global] Instance prog_ret : MRet prog := fun A a => Ret a.
#[global] Instance prog_bind : MBind prog := fun A B f p => pbind f p.

(** [when b p] is [if (b) { p }]. *)
Definition when (b : bool) (p : prog unit) : prog unit := if b then p else mret tt.

(** ** Executions *)

Inductive exec {A : Type} : prog A -> list event -> outcome A -> Prop :=
| exec_ret a : exec (Ret a) [] (Done a)
| exec_vis {X} (e : E X) k x t r :
    exec (k x) t r -> exec (Vis e k) (Event e x :: t) r
| exec_out : exec Out [] Timeout
| exec_crash : exec Crash [] Fault.

(** [run h p s]: the execution of [p] in which the environment with state [s]
    answers as [h] says. *)
Fixpoint run {S A : Type} (h : forall X, E X -> S -> X * S) (p : prog A) (s : S)
  : outcome A * S * list event :=
  match p with
  | Ret a => (Done a, s, [])
  | Vis e k =>
      let '(x, s1) := h _ e s in
      let '(r, s2, t) := run h (k x) s1 in
      (r, s2, Event e x :: t)
  | Out => (Timeout, s, [])
  | Crash => (Fault, s, [])
  end.

(** ** Postconditions over all executions *)

Fixpoint wp {A : Type} (p : prog A) (Q : outcome A -> list event -> Prop) : Prop :=
  match p with
  | Ret a => Q (Done a) []
  | Vis e k => forall x, wp (k x) (fun r t => Q r (Event e x :: t))
  | Out => Q Timeout []
  | Crash => Q Fault []
  end.

(** What a continuation has to establish after [p] ended with [r] and trace [t]. *)
Definition bindQ {A B : Type} (f : A -> prog B) (Q : outcome B -> list event -> Prop)
  : outcome A -> list event -> Prop :=
  fun r t =>
    match r with
    | Done a => wp (f a) (fun r' t' => Q r' (t ++ t'))
    | Timeout => Q Timeout t
    | Fault => Q Fault t
    end.

Lemma wp_mono {A} (p : prog A) (Q Q' : outcome A -> list event -> Prop) :
  (forall r t, Q r t -> Q' r t) -> wp p Q -> wp p Q'.
Proof.
  revert Q Q'. induction p as [| X e k IH | |]; simpl; intros Q Q' HQ; auto.
  intros H x. eapply IH; [|apply H]. simpl. auto.
Qed.

Lemma wp_bind {A B} (f : A -> prog B) (p : prog A) Q :
  wp p (bindQ f Q) -> wp (p ≫= f) Q.
Proof.
  unfold mbind, prog_bind.
  revert Q. induction p as [a | X e k IH | |]; simpl; intros Q; auto.
Qed.

Lemma wp_call {X B} (e : E X) (f : X -> prog B) Q :
  (forall x, wp (f x) (fun r t => Q r (Event e x :: t))) -> wp (call e ≫= f) Q.
Proof. done. Qed.

Lemma wp_bind_inv {A B} (f : A -> prog B) (p : prog A) Q :
  wp (p ≫= f) Q -> wp p (bindQ f Q).
Proof.
  unfold mbind, prog_bind.
  revert Q. induction p as [a | X e k IH | |]; simpl; intros Q; auto.
  intros H x. exact (IH x _ (H x)).
Qed.

(** [wp] is exactly "every execution satisfies [Q]". *)
Lemma wp_exec {A} (p : prog A) Q :
  wp p Q <-> (forall t r, exec p t r -> Q r t).
Proof.
  split.
  - intros H t r He. revert Q H. induction He; simpl; intros Q H; auto.
    apply (IHHe (fun r t => Q r (Event e x :: t))). apply H.
  - revert Q. induction p as [a | X e k IH | |]; simpl; intros Q H.
    + apply H. constructor.
    + intros x. apply IH. intros t r He. apply H. by constructor.
    + apply H. constructor.
    + apply H. constructor.
Qed.

Lemma wp_and {A} (p : prog A) Q1 Q2 :
  wp p Q1 -> wp p Q2 -> wp p (fun r t => Q1 r t /\ Q2 r t).
Proof. rewrite !wp_exec. auto. Qed.

Lemma wp_true {A} (p : prog A) (Q : outcome A -> list event -> Prop) :
  (forall r t, Q r t) -> wp p Q.
Proof. intros. apply wp_exec. auto. Qed.

Lemma run_bind {S A B} (h : forall X, E X -> S -> X * S) (f : A -> prog B) (p : prog A) s r s1 t :
  run h p s = (r, s1, t) ->
  run h (p ≫= f) s =
    match r with
    | Done a => let '(r2, s2, t2) := run h (f a) s1 in (r2, s2, t ++ t2)
    | Timeout => (Timeout, s1, t)
    | Fault => (Fault, s1, t)
    end.
Proof.
  unfold mbind, prog_bind. revert s r s1 t.
  induction p as [a | X e k IH | |]; simpl; intros s r s1 t H; simplify_eq; try done.
  - by destruct (run h (f a) s1) as [[r2 s2] t2].
  - destruct (h X e s) as [x s']. destruct (run h (k x) s') as [[r' s2] t2] eqn:Hr. simplify_eq.
    rewrite (IH x s' _ _ _ Hr). destruct r as [a| |]; try done.
    by destruct (run h (f a) s1) as [[r2 s3] t3].
Qed.

Lemma run_exec {S A} (h : forall X, E X -> S -> X * S) (p : prog A) s r s' t :
  run h p s = (r, s', t) -> exec p t r.
Proof.
  revert s r s' t. induction p as [a | X e k IH | |]; simpl; intros s r s' t H;
    simplify_eq; try constructor.
  destruct (h X e s) as [x s1]. destruct (run h (k x) s1) as [[r2 s2] t2] eqn:Er.
  simplify_eq. constructor. eauto.
Qed.

Lemma run_exec' {S A} (h : forall X, E X -> S -> X * S) (p : prog A) s :
  exec p (run h p s).2 (run h p s).1.1.
Proof. destruct (run h p s) as [[r s'] t] eqn:Hr. simpl. by eapply run_exec. Qed.

Lemma run_forall {S A} (Ev : event -> Prop) (h : forall X, E X -> S -> X * S) (p : prog A) s :
  (forall X (e : E X) s, Ev (Event e (h X e s).1)) -> Forall Ev (run h p s).2.
Proof.
  intros HE. revert s. induction p as [a | X e k IH | |]; simpl; intros s; try constructor.
  pose proof (HE X e s) as He. destruct (h X e s) as [x s1]. specialize (IH x s1).
  destruct (run h (k x) s1) as [[r s2] t]. by constructor.
Qed.

Lemma exec_bind_inv {A B} (f : A -> prog B) (p : prog A) t r :
  exec (p ≫= f) t r ->
  (exists a t1 t2, t = t1 ++ t2 /\ exec p t1 (Done a) /\ exec (f a) t2 r) \/
  (exec p t Timeout /\ r = Timeout) \/ (exec p t Fault /\ r = Fault).
Proof.
  revert t r. pose (Q := fun (r : outcome B) t =>
    (exists a t1 t2, t = t1 ++ t2 /\ exec p t1 (Done a) /\ exec (f a) t2 r) \/
    (exec p t Timeout /\ r = Timeout) \/ (exec p t Fault /\ r = Fault)).
  apply (wp_exec (p ≫= f) Q). apply wp_bind, wp_exec. intros t [a| |] He; unfold Q; simpl.
  - apply wp_exec. intros t' r He'. left. eauto 10.
  - auto.
  - auto.
Qed.

Lemma exec_bind {A B} (f : A -> prog B) (p : prog A) t1 t2 a r :
  exec p t1 (Done a) -> exec (f a) t2 r -> exec (p ≫= f) (t1 ++ t2) r.
Proof.
  intros He H2. remember (Done a) as o eqn:Eo. revert Eo.
  induction He; intros; simplify_eq; simpl.
  - done.
  - constructor. by apply IHHe.
Qed.

Lemma wp_run {S A} (h : forall X, E X -> S -> X * S) (p : prog A) s Q :
  wp p Q -> Q (run h p s).1.1 (run h p s).2.
Proof.
  intros H. destruct (run h p s) as [[r s'] t] eqn:Er. simpl.
  apply run_exec in Er. by apply wp_exec with (1 := H).
Qed.

(** ** Postconditions under an assumption on the environment

    [wpa A p Q]: every execution of [p] in which each answer satisfies [A]
    satisfies [Q].  [wpv] is the total-correctness form for the result alone:
    the program ends, without fault, and its result satisfies [Q]. *)

Definition wpa (A : event -> Prop) {X : Type} (p : prog X)
    (Q : outcome X -> list event -> Prop) : Prop :=
  wp p (fun r t => Forall A t -> Q r t).

Definition wpv (A : event -> Prop) {X : Type} (p : prog X) (Q : X -> Prop) : Prop :=
  wpa A p (fun r _ => match r with Done x => Q x | _ => False end).

Lemma wpa_mono A {X} (p : prog X) (Q Q' : outcome X -> list event -> Prop) :
  wpa A p Q -> (forall r t, Forall A t -> Q r t -> Q' r t) -> wpa A p Q'.
Proof. intros H HQ. eapply wp_mono; [|exact H]. simpl. auto. Qed.

Lemma wpa_ret A {X} (x : X) Q : Q (Done x) [] -> wpa A (mret x) Q.
Proof. intros H _. exact H. Qed.

Lemma wpa_call A {X} (e : E X) Q :
  (forall x, A (Event e x) -> Q (Done x) [Event e x]) -> wpa A (call e) Q.
Proof. intros H x HA. apply Forall_cons in HA as [HA _]. by apply H. Qed.

Lemma wpa_bind A {X Y} (p : prog X) (f : X -> prog Y) Q :
  wpa A p (fun r t =>
    match r with
    | Done x => wpa A (f x) (fun r' t' => Q r' (t ++ t'))
    | Timeout => Q Timeout t
    | Fault => Q Fault t
    end) ->
  wpa A (p ≫= f) Q.
Proof.
  intros H. apply wp_bind. eapply wp_mono; [|exact H]. simpl. intros [x| |] t Ht; simpl; auto.
  apply wp_exec. intros t' r He. intros [Ha Hb]%Forall_app.
  specialize (Ht Ha). eapply wp_exec in Ht; [|exact He]. auto.
Qed.

Lemma wpa_exec A {X} (p : prog X) Q :
  wpa A p Q <-> (forall t r, exec p t r -> Forall A t -> Q r t).
Proof. unfold wpa. rewrite wp_exec. reflexivity. Qed.

Lemma wpv_mono A {X} (p : prog X) (Q Q' : X -> Prop) :
  wpv A p Q -> (forall x, Q x -> Q' x) -> wpv A p Q'.
Proof. intros H HQ. eapply wpa_mono; [exact H|]. intros [x| |] t _; auto. Qed.

Lemma wpv_env (A A' : event -> Prop) {X} (p : prog X) (Q : X -> Prop) :
  (forall ev, A' ev -> A ev) -> wpv A p Q -> wpv A' p Q.
Proof.
  intros HA H. eapply wp_mono; [|exact H]. simpl. intros r t Ht Ht'.
  apply Ht. eapply Forall_impl; eauto.
Qed.

Lemma wpv_ret A {X} (x : X) (Q : X -> Prop) : Q x -> wpv A (mret x) Q.
Proof. intros H _. exact H. Qed.

Lemma wpv_call A {X} (e : E X) (Q : X -> Prop) :
  (forall x, A (Event e x) -> Q x) -> wpv A (call e) Q.
Proof. intros H. by apply wpa_call. Qed.

Lemma wpv_bind A {X Y} (p : prog X) (f : X -> prog Y) Q :
  wpv A p (fun x => wpv A (f x) Q) -> wpv A (p ≫= f) Q.
Proof.
  intros H. apply wpa_bind. eapply wpa_mono; [exact H|]. intros [x| |] t _; auto.
Qed.

Lemma wpv_exec A {X} (p : prog X) Q :
  wpv A p Q -> forall t r, exec p t r -> Forall A t -> exists x, r = Done x /\ Q x.
Proof.
  intros H t r He HA. eapply wpa_exec in H; [|exact He|exact HA].
  destruct r; naive_solver.
Qed.

(** ** Measures of a trace *)

Fixpoint tsum (f : event -> Z) (t : list event) : Z :=
  match t with
  | [] => 0
  | e :: t => f e + tsum f t
  end.

Lemma tsum_app f t1 t2 : tsum f (t1 ++ t2) = tsum f t1 + tsum f t2.
Proof. induction t1; simpl; lia. Qed.

(** [wpc A f p Q]: the program ends, without fault, and [Q] holds of its result
    and of the list of observations [f] makes of its trace. *)
Definition wpc {B} (A : event -> Prop) (f : event -> list B) {X : Type} (p : prog X)
    (Q : X -> list B -> Prop) : Prop :=
  wpa A p (fun r t => match r with Done x => Q x (t ≫= f) | _ => False end).

Lemma wpc_mono {B} A (f : event -> list B) {X} (p : prog X) (Q Q' : X -> list B -> Prop) :
  wpc A f p Q -> (forall x l, Q x l -> Q' x l) -> wpc A f p Q'.
Proof. intros H HQ. eapply wpa_mono; [exact H|]. intros [x| |] t _; auto. Qed.

(** A stronger assumption on the environment. *)
Lemma wpc_env {B} (A A' : event -> Prop) (f : event -> list B) {X} (p : prog X)
    (Q : X -> list B -> Prop) :
  (forall ev, A' ev -> A ev) -> wpc A f p Q -> wpc A' f p Q.
Proof.
  intros HA H. eapply wp_mono; [|exact H]. simpl. intros r t Ht Ht'.
  apply Ht. eapply Forall_impl; eauto.
Qed.

Lemma wpc_ret {B} A (f : event -> list B) {X} (x : X) (Q : X -> list B -> Prop) :
  Q x [] -> wpc A f (mret x) Q.
Proof. intros H _. exact H. Qed.

Lemma wpc_call {B} A (f : event -> list B) {X} (e : E X) (Q : X -> list B -> Prop) :
  (forall x, A (Event e x) -> Q x (f (Event e x))) -> wpc A f (call e) Q.
Proof. intros H. apply wpa_call. intros x Hx. simpl. rewrite app_nil_r. auto. Qed.

Lemma wpc_bind {B} A (f : event -> list B) {X Y} (p : prog X) (k : X -> prog Y) Q :
  wpc A f p (fun x l => wpc A f (k x) (fun y l' => Q y (l ++ l'))) -> wpc A f (p ≫= k) Q.
Proof.
  intros H. apply wpa_bind. eapply wpa_mono; [exact H|]. intros [x| |] t _; auto.
  intros Hx. eapply wpa_mono; [exact Hx|]. intros [y| |] t' _; auto.
  by rewrite bind_app.
Qed.

Lemma wpc_wpv {B} A (f : event -> list B) {X} (p : prog X) (Q : X -> Prop) :
  wpv A p Q -> wpc A f p (fun x _ => Q x).
Proof. done. Qed.

(** What the assumption says of single observations holds of the whole log. *)
Lemma wpc_observed {B} A (f : event -> list B) (R : B -> Prop) {X} (p : prog X) Q :
  (forall ev, A ev -> Forall R (f ev)) -> wpc A f p Q ->
  wpc A f p (fun x l => Q x l /\ Forall R l).
Proof.
  intros HR H. eapply wpa_mono; [exact H|]. intros [x| |] t Ht; try done. intros HQ. split; [done|]. clear HQ.
  induction Ht as [|ev t Hev _ IH]; [constructor|]. rewrite bind_cons. apply Forall_app. auto.
Qed.

(** The property on the execution one environment produces. *)
Lemma wpc_run {B S} A (f : event -> list B) {X} (p : prog X) Q
    (h : forall X, E X -> S -> X * S) s :
  wpc A f p Q -> Forall A (run h p s).2 ->
  exists x, (run h p s).1.1 = Done x /\ Q x ((run h p s).2 ≫= f).
Proof.
  intros H HA. eapply wpa_exec in H; [|apply (run_exec' h p s)|exact HA].
  destruct (run h p s).1.1; naive_solver.
Qed.

Lemma wpc_exec {B} A (f : event -> list B) {X} (p : prog X) Q :
  wpc A f p Q ->
  forall t r, exec p t r -> Forall A t -> exists x, r = Done x /\ Q x (t ≫= f).
Proof.
  intros H t r He HA. eapply wpa_exec in H; [|exact He|exact HA].
  destruct r; naive_solver.
Qed.

End prog.

Arguments prog : clear implicits.
Arguments event : clear implicits.
Arguments Ret {E A} a.
Arguments Vis {E A X} e k.
Arguments Out {E A}.
Arguments Crash {E A}.

#[export] Hint Rewrite @tsum_app : s2p.
#[export] Hint Constructors exec : s2p.

(** ** Signatures inside signatures

    [Sub F E]: the calls of [F] are among those of [E].  A component is written
    against the signature it needs and used at any larger one. *)

Class Sub (F E : Type -> Type) := {
  inj : forall X, F X -> E X;
  prj : forall X, E X -> option (F X);
  prj_inj : forall X (e : F X), prj X (inj X e) = Some e
}.
Arguments inj {F E _ X} e.
Arguments prj {F E _ X} e.

#[export] Instance Sub_refl E : Sub E E :=
  {| inj := fun _ e => e; prj := fun _ e => Some e; prj_inj := fun _ _ => eq_refl |}.

Definition trigger {F E} `{Sub F E} {X} (e : F X) : prog E X := call (inj e).

(** A measure of the calls of [F] in a trace over [E]. *)
Definition on {F E} `{Sub F E} (f : forall X, F X -> X -> Z) (ev : event E) : Z :=
  match ev with
  | Event e x => match prj e with Some e' => f _ e' x | None => 0 end
  end.

Lemma on_inj {F E} `{Sub F E} (f : forall X, F X -> X -> Z) X (e : F X) x :
  on f (Event (inj e) x) = f X e x.
Proof. unfold on. by rewrite prj_inj. Qed.

#[export] Hint Rewrite @on_inj : s2p.

Lemma wp_trigger {F E} `{Sub F E} {X} (e : F X) (Q : outcome X -> list (event E) -> Prop) :
  (forall x, Q (Done x) [Event (inj e) x]) -> wp (trigger e) Q.
Proof. auto. Qed.

Lemma wpv_trigger {F E} `{Sub F E} A {X} (e : F X) (Q : X -> Prop) :
  (forall x, A (Event (inj e) x) -> Q x) -> wpv A (trigger e) Q.
Proof. apply wpv_call. Qed.

Lemma wpa_trigger {F E} `{Sub F E} A {X} (e : F X) (Q : outcome X -> list (event E) -> Prop) :
  (forall x, A (Event (inj e) x) -> Q (Done x) [Event (inj e) x]) -> wpa A (trigger e) Q.
Proof. apply wpa_call. Qed.

Lemma wpv_when {E} A (b : bool) (p : prog E unit) Q :
  (if b then wpv A p Q else Q tt) -> wpv A (when b p) Q.
Proof. destruct b; [done|]. apply wpv_ret. Qed.

Lemma wpc_trigger {F E} `{Sub F E} {B} A (f : event E -> list B) {X} (e : F X)
    (Q : X -> list B -> Prop) :
  (forall x, A (Event (inj e) x) -> Q x (f (Event (inj e) x))) -> wpc A f (trigger e) Q.
Proof. apply wpc_call. Qed.

Lemma wpc_when {E} {B} A (f : event E -> list B) (b : bool) (p : prog E unit) Q :
  (if b then wpc A f p Q else Q tt []) -> wpc A f (when b p) Q.
Proof. destruct b; [done|]. apply wpc_ret. Qed.

(** ** Equivalence of programs

    Two programs are equivalent when they have the same executions. *)

Definition peq {E A} (p q : prog E A) : Prop := forall t r, exec p t r <-> exec q t r.
Infix "≃" := peq (at level 70) : stdpp_scope.

#[export] Instance peq_equiv {E A} : Equivalence (@peq E A).
Proof.
  split.
  - intros p t r. reflexivity.
  - intros p q H t r. symmetry. apply H.
  - intros p q s H1 H2 t r. etransitivity; [apply H1|apply H2].
Qed.

Section peq.
Context {E : Type -> Type}.

Lemma exec_bind_out {A B} (f : A -> prog E B) (p : prog E A) t :
  exec p t Timeout -> exec (p ≫= f) t Timeout.
Proof.
  intros He. remember Timeout as o eqn:Eo. revert Eo.
  induction He; intros; simplify_eq; simpl; constructor. by apply IHHe.
Qed.

Lemma exec_bind_crash {A B} (f : A -> prog E B) (p : prog E A) t :
  exec p t Fault -> exec (p ≫= f) t Fault.
Proof.
  intros He. remember Fault as o eqn:Eo. revert Eo.
  induction He; intros; simplify_eq; simpl; constructor. by apply IHHe.
Qed.

Lemma exec_bind_iff {A B} (f : A -> prog E B) (p : prog E A) t r :
  exec (p ≫= f) t r <->
  (exists a t1 t2, t = t1 ++ t2 /\ exec p t1 (Done a) /\ exec (f a) t2 r) \/
  (exec p t Timeout /\ r = Timeout) \/ (exec p t Fault /\ r = Fault).
Proof.
  split; [apply exec_bind_inv|].
  intros [(a & t1 & t2 & -> & H1 & H2)|[[H ->]|[H ->]]];
    eauto using exec_bind, exec_bind_out, exec_bind_crash.
Qed.

(** Congruence: the continuations need to agree on the values [p] can end with. *)
Lemma peq_bind_done {A B} (p : prog E A) (f g : A -> prog E B) :
  (forall a t, exec p t (Done a) -> f a ≃ g a) -> p ≫= f ≃ p ≫= g.
Proof.
  intros H t r. rewrite !exec_bind_iff. split.
  - intros [(a & t1 & t2 & -> & H1 & H2)|?]; [|by right].
    left. exists a, t1, t2. split_and!; try done. by eapply H.
  - intros [(a & t1 & t2 & -> & H1 & H2)|?]; [|by right].
    left. exists a, t1, t2. split_and!; try done. by eapply H.
Qed.

#[global] Instance peq_bind {A B} :
  Proper (pointwise_relation A peq ==> peq ==> peq) (@mbind (prog E) prog_bind A B).
Proof.
  intros f g Hf p q Hp. transitivity (p ≫= g).
  - apply peq_bind_done. intros a t _. apply Hf.
  - assert (forall t r, exec p t r <-> exec q t r) as Hp' by exact Hp.
    intros t r. rewrite !exec_bind_iff. by setoid_rewrite Hp'.
Qed.

Lemma bind_ret_l {A B} (a : A) (f : A -> prog E B) : mret a ≫= f ≃ f a.
Proof. done. Qed.

Lemma bind_ret_r {A} (p : prog E A) : p ≫= (fun a => mret a) ≃ p.
Proof.
  intros t r. rewrite exec_bind_iff. split.
  - intros [(a & t1 & t2 & -> & H1 & H2)|[[? ->]|[? ->]]]; try done.
    inversion H2; subst. by rewrite app_nil_r.
  - intros He. destruct r as [a| |]; [|by right; left|by right; right].
    left. exists a, t, []. rewrite app_nil_r. by repeat constructor.
Qed.

Lemma bind_assoc {A B C} (p : prog E A) (f : A -> prog E B) (g : B -> prog E C) :
  (p ≫= f) ≫= g ≃ p ≫= (fun a => f a ≫= g).
Proof.
  intros t r. rewrite !exec_bind_iff. setoid_rewrite exec_bind_iff. split.
  - intros [(b & t1 & t2 & -> & [(a & t3 & t4 & -> & H1 & H2)|[[? ?]|[? ?]]] & H3)
           |[[[(a & t3 & t4 & -> & H1 & H2)|[[? ?]|[? ?]]] ->]
            |[[(a & t3 & t4 & -> & H1 & H2)|[[? ?]|[? ?]]] ->]]]; try done; auto.
    + left. exists a, t3, (t4 ++ t2). rewrite app_assoc. split_and!; try done.
      left. by exists b, t4, t2.
    + left. exists a, t3, t4. split_and!; try done. auto.
    + left. exists a, t3, t4. split_and!; try done. auto.
  - intros [(a & t1 & t2 & -> & H1 & [(b & t3 & t4 & -> & H2 & H3)|[[? ->]|[? ->]]])
           |[[? ->]|[? ->]]]; try tauto.
    + left. exists b, (t1 ++ t3), t4. rewrite app_assoc. split_and!; try done.
      left. by exists a, t1, t3.
    + right. left. split; [|done]. left. by exists a, t1, t2.
    + right. right. split; [|done]. left. by exists a, t1, t2.
Qed.

Lemma peq_wp {A} (p q : prog E A) Q : p ≃ q -> wp p Q -> wp q Q.
Proof. rewrite !wp_exec. intros Hpq H t r He. by apply H, Hpq. Qed.

Lemma wpv_peq {X} A (p q : prog E X) (Q : X -> Prop) : p ≃ q -> wpv A p Q -> wpv A q Q.
Proof. apply peq_wp. Qed.

(** A value an execution ends with satisfies what [wp] proves of every one. *)
Lemma wp_done {A} (p : prog E A) (Q : A -> Prop) t a :
  wp p (fun r _ => match r with Done a => Q a | _ => True end) -> exec p t (Done a) -> Q a.
Proof. rewrite wp_exec. intros H He. exact (H _ _ He). Qed.
End peq.

(** Run the binds whose value is known. *)
Ltac bind_ret :=
  repeat match goal with
  | |- context [mbind ?f (mret ?a)] => change (mbind f (mret a)) with (f a); cbv beta iota
  end.

(** [wpv_step] decomposes a program at its head; [wpv_go] goes on until a call
    of a defined operation. *)
Ltac wpv_step :=
  lazymatch goal with
  | |- wpv _ (_ ≫= _) _ => apply wpv_bind
  | |- wpv _ (mret _) _ => apply wpv_ret
  | |- wpv _ (trigger _) _ => apply wpv_trigger; intros
  | |- wpv _ (call _) _ => apply wpv_call; intros
  | |- wpv _ (when _ _) _ => apply wpv_when
  | |- wpv _ (if ?b then _ else _) _ => destruct b eqn:?
  | |- wpv _ (let '(_, _) := ?x in _) _ => destruct x eqn:?
  | |- if ?b then _ else _ => destruct b eqn:?
  end.

Ltac destruct_units := repeat match goal with u : unit |- _ => destruct u end.

Ltac wpv_go := repeat (wpv_step; destruct_units).

Ltac wpc_step :=
  lazymatch goal with
  | |- wpc _ _ (_ ≫= _) _ => apply wpc_bind
  | |- wpc _ _ (mret _) _ => apply wpc_ret
  | |- wpc _ _ (trigger _) _ => apply wpc_trigger; intros
  | |- wpc _ _ (call _) _ => apply wpc_call; intros
  | |- wpc _ _ (when _ _) _ => apply wpc_when
  | |- wpc _ _ (if ?b then _ else _) _ => destruct b eqn:?
  | |- wpc _ _ (let '(_, _) := ?x in _) _ => destruct x eqn:?
  | |- if ?b then _ else _ => destruct b eqn:?
  end.

Ltac wpc_go := repeat (wpc_step; destruct_units).
