(* ===== verification/BinderUapi.v ===== *)
(** * The binder driver's user-space interface (linux-kernel/include/android/binder.h)

    Struct layouts, ioctl request numbers and the return and command protocols
    of the binder driver, as the header declares them.  The C layout rules
    (natural alignment, trailing padding, unions, [__packed]) are executable, so
    the sizes that the [_IOR]/[_IOW] macros put in the command words are
    computed from the struct declarations and not copied from a dump. *)

From S2P Require Import Prelude.
Local Open Scope Z_scope.

(** ** C types and their layout *)

Inductive ctype : Type :=
| U8 | S16 | U32 | S32 | U64 | S64
| Array (n : nat) (t : ctype)
| Struct (fs : list (string * ctype))
| Packed (fs : list (string * ctype))
| Union (fs : list (string * ctype)).

Definition align_up (n a : nat) : nat := ((n + a - 1) / a * a)%nat.

Fixpoint alignof (t : ctype) : nat :=
  match t with
  | U8 => 1
  | S16 => 2
  | U32 | S32 => 4
  | U64 | S64 => 8
  | Array _ t => alignof t
  | Packed _ => 1
  | Struct fs | Union fs => fold_right (fun f m => Nat.max (alignof f.2) m) 1%nat fs
  end.

Fixpoint sizeof (t : ctype) : nat :=
  match t with
  | U8 => 1
  | S16 => 2
  | U32 | S32 => 4
  | U64 | S64 => 8
  | Array n t => n * sizeof t
  | Packed fs => fold_right (fun f m => sizeof f.2 + m)%nat 0%nat fs
  | Union fs =>
      align_up (fold_right (fun f m => Nat.max (sizeof f.2) m) 0%nat fs) (alignof t)
  | Struct fs =>
      align_up (fold_left (fun o f => align_up o (alignof f.2) + sizeof f.2)%nat fs 0%nat)
               (alignof t)
  end.

(** Byte offset of a field of a struct (a union's fields are all at 0). *)
Fixpoint struct_offset (fs : list (string * ctype)) (o : nat) (f : string) : option nat :=
  match fs with
  | [] => None
  | (g, t) :: fs =>
      let o := align_up o (alignof t) in
      if decide (f = g) then Some o else struct_offset fs (o + sizeof t) f
  end.

Definition offsetof (t : ctype) (f : string) : option nat :=
  match t with
  | Struct fs => struct_offset fs 0 f
  | Union fs => if decide (f ∈ fs.*1) then Some 0%nat else None
  | _ => None
  end.

(** ** Flattened objects *)

Definition B_PACK_CHARS (c1 c2 c3 c4 : Z) : Z :=
  Z.lor (Z.lor (Z.lor (Z.shiftl c1 24) (Z.shiftl c2 16)) (Z.shiftl c3 8)) c4.

Definition B_TYPE_LARGE : Z := 0x85.

Definition BINDER_TYPE : list (string * Z) :=
  [("BINDER_TYPE_BINDER", B_PACK_CHARS 115 98 42 B_TYPE_LARGE);
   ("BINDER_TYPE_WEAK_BINDER", B_PACK_CHARS 119 98 42 B_TYPE_LARGE);
   ("BINDER_TYPE_HANDLE", B_PACK_CHARS 115 104 42 B_TYPE_LARGE);
   ("BINDER_TYPE_WEAK_HANDLE", B_PACK_CHARS 119 104 42 B_TYPE_LARGE);
   ("BINDER_TYPE_FD", B_PACK_CHARS 102 100 42 B_TYPE_LARGE);
   ("BINDER_TYPE_FDA", B_PACK_CHARS 102 100 97 B_TYPE_LARGE);
   ("BINDER_TYPE_PTR", B_PACK_CHARS 112 116 42 B_TYPE_LARGE)]%string.

(** [BINDER_IPC_32BIT] is not defined by the build: sizes and pointers are 64 bits. *)
Definition binder_size_t : ctype := U64.
Definition binder_uintptr_t : ctype := U64.

Definition binder_object_header : ctype := Struct [("type", U32)].

Definition flat_binder_object : ctype :=
  Struct [("hdr", binder_object_header); ("flags", U32);
          ("u", Union [("binder", binder_uintptr_t); ("handle", U32)]);
          ("cookie", binder_uintptr_t)].

Definition binder_fd_object : ctype :=
  Struct [("hdr", binder_object_header); ("pad_flags", U32);
          ("u", Union [("pad_binder", binder_uintptr_t); ("fd", U32)]);
          ("cookie", binder_uintptr_t)].

Definition binder_buffer_object : ctype :=
  Struct [("hdr", binder_object_header); ("flags", U32);
          ("buffer", binder_uintptr_t); ("length", binder_size_t);
          ("parent", binder_size_t); ("parent_offset", binder_size_t)].

Definition binder_fd_array_object : ctype :=
  Struct [("hdr", binder_object_header); ("pad", U32);
          ("num_fds", binder_size_t); ("parent", binder_size_t);
          ("parent_offset", binder_size_t)].

(** ** Structs of the ioctl interface *)

Definition binder_write_read : ctype :=
  Struct [("write_size", binder_size_t); ("write_consumed", binder_size_t);
          ("write_buffer", binder_uintptr_t); ("read_size", binder_size_t);
          ("read_consumed", binder_size_t); ("read_buffer", binder_uintptr_t)].

Definition binder_version : ctype := Struct [("protocol_version", S32)].

Definition BINDER_CURRENT_PROTOCOL_VERSION : Z := 8.

Definition binder_node_debug_info : ctype :=
  Struct [("ptr", binder_uintptr_t); ("cookie", binder_uintptr_t);
          ("has_strong_ref", U32); ("has_weak_ref", U32)].

Definition binder_node_info_for_ref : ctype :=
  Struct [("handle", U32); ("strong_count", U32); ("weak_count", U32);
          ("reserved1", U32); ("reserved2", U32); ("reserved3", U32)].

Definition binder_freeze_info : ctype :=
  Struct [("pid", U32); ("enable", U32); ("timeout_ms", U32)].

Definition binder_frozen_status_info : ctype :=
  Struct [("pid", U32); ("sync_recv", U32); ("async_recv", U32)].

Definition binder_frozen_state_info : ctype :=
  Struct [("cookie", binder_uintptr_t); ("is_frozen", U32); ("reserved", U32)].

Definition binder_extended_error : ctype :=
  Struct [("id", U32); ("command", U32); ("param", S32)].

(** ** ioctl request words

    The [_IO*] macros of linux/ioctl.h: 8 bits of number, 8 of type, 14 of
    argument size and 2 of direction. *)

Definition IOC_NONE : Z := 0.
Definition IOC_WRITE : Z := 1.
Definition IOC_READ : Z := 2.

Definition IOC (dir ty nr size : Z) : Z :=
  Z.lor (Z.lor (Z.lor (Z.shiftl dir 30) (Z.shiftl ty 8)) nr) (Z.shiftl size 16).

Definition IOC_SIZE (nr : Z) : Z := Z.land (Z.shiftr nr 16) 0x3fff.

#[global] Arguments IOC_SIZE : simpl never.

Definition IO (ty nr : Z) : Z := IOC IOC_NONE ty nr 0.
Definition IOR (ty nr : Z) (t : ctype) : Z := IOC IOC_READ ty nr (Z.of_nat (sizeof t)).
Definition IOW (ty nr : Z) (t : ctype) : Z := IOC IOC_WRITE ty nr (Z.of_nat (sizeof t)).
Definition IOWR (ty nr : Z) (t : ctype) : Z :=
  IOC (Z.lor IOC_READ IOC_WRITE) ty nr (Z.of_nat (sizeof t)).

Definition chr_b : Z := 98.
Definition chr_c : Z := 99.
Definition chr_r : Z := 114.

Definition BINDER_WRITE_READ : Z := IOWR chr_b 1 binder_write_read.

Definition binder_ioctls : list (string * Z) :=
  [("BINDER_WRITE_READ", BINDER_WRITE_READ);
   ("BINDER_SET_IDLE_TIMEOUT", IOW chr_b 3 S64);
   ("BINDER_SET_MAX_THREADS", IOW chr_b 5 U32);
   ("BINDER_SET_IDLE_PRIORITY", IOW chr_b 6 S32);
   ("BINDER_SET_CONTEXT_MGR", IOW chr_b 7 S32);
   ("BINDER_THREAD_EXIT", IOW chr_b 8 S32);
   ("BINDER_VERSION", IOWR chr_b 9 binder_version);
   ("BINDER_GET_NODE_DEBUG_INFO", IOWR chr_b 11 binder_node_debug_info);
   ("BINDER_GET_NODE_INFO_FOR_REF", IOWR chr_b 12 binder_node_info_for_ref);
   ("BINDER_SET_CONTEXT_MGR_EXT", IOW chr_b 13 flat_binder_object);
   ("BINDER_FREEZE", IOW chr_b 14 binder_freeze_info);
   ("BINDER_GET_FROZEN_INFO", IOWR chr_b 15 binder_frozen_status_info);
   ("BINDER_ENABLE_ONEWAY_SPAM_DETECTION", IOW chr_b 16 U32);
   ("BINDER_GET_EXTENDED_ERROR", IOWR chr_b 17 binder_extended_error)]%string.

Definition transaction_flags : list (string * Z) :=
  [("TF_ONE_WAY", 0x01); ("TF_ROOT_OBJECT", 0x04); ("TF_STATUS_CODE", 0x08);
   ("TF_ACCEPT_FDS", 0x10); ("TF_CLEAR_BUF", 0x20); ("TF_UPDATE_TXN", 0x40)]%string.

Definition binder_transaction_data : ctype :=
  Struct [("target", Union [("handle", U32); ("ptr", binder_uintptr_t)]);
          ("cookie", binder_uintptr_t); ("code", U32); ("flags", U32);
          ("sender_pid", S32); ("sender_euid", U32);
          ("data_size", binder_size_t); ("offsets_size", binder_size_t);
          ("data", Union [("ptr", Struct [("buffer", binder_uintptr_t);
                                          ("offsets", binder_uintptr_t)]);
                          ("buf", Array 8 U8)])].

Definition binder_transaction_data_secctx : ctype :=
  Struct [("transaction_data", binder_transaction_data); ("secctx", binder_uintptr_t)].

Definition binder_transaction_data_sg : ctype :=
  Struct [("transaction_data", binder_transaction_data); ("buffers_size", binder_size_t)].

Definition binder_ptr_cookie : ctype :=
  Struct [("ptr", binder_uintptr_t); ("cookie", binder_uintptr_t)].

Definition binder_handle_cookie : ctype :=
  Packed [("handle", U32); ("cookie", binder_uintptr_t)].

Definition binder_pri_desc : ctype := Struct [("priority", S32); ("desc", U32)].

Definition binder_pri_ptr_cookie : ctype :=
  Struct [("priority", S32); ("ptr", binder_uintptr_t); ("cookie", binder_uintptr_t)].

(** ** The return protocol: what the driver puts in the read buffer *)

Definition BR_TRANSACTION_SEC_CTX : Z := IOR chr_r 2 binder_transaction_data_secctx.
Definition BR_TRANSACTION : Z := IOR chr_r 2 binder_transaction_data.
Definition BR_NOOP : Z := IO chr_r 12.

(** Each command with the size of the payload its declaration names. *)
Definition binder_driver_return_protocol : list (string * Z * nat) :=
  [("BR_ERROR", IOR chr_r 0 S32, sizeof S32);
   ("BR_OK", IO chr_r 1, 0%nat);
   ("BR_TRANSACTION_SEC_CTX", BR_TRANSACTION_SEC_CTX, sizeof binder_transaction_data_secctx);
   ("BR_TRANSACTION", BR_TRANSACTION, sizeof binder_transaction_data);
   ("BR_REPLY", IOR chr_r 3 binder_transaction_data, sizeof binder_transaction_data);
   ("BR_ACQUIRE_RESULT", IOR chr_r 4 S32, sizeof S32);
   ("BR_DEAD_REPLY", IO chr_r 5, 0%nat);
   ("BR_TRANSACTION_COMPLETE", IO chr_r 6, 0%nat);
   ("BR_INCREFS", IOR chr_r 7 binder_ptr_cookie, sizeof binder_ptr_cookie);
   ("BR_ACQUIRE", IOR chr_r 8 binder_ptr_cookie, sizeof binder_ptr_cookie);
   ("BR_RELEASE", IOR chr_r 9 binder_ptr_cookie, sizeof binder_ptr_cookie);
   ("BR_DECREFS", IOR chr_r 10 binder_ptr_cookie, sizeof binder_ptr_cookie);
   ("BR_ATTEMPT_ACQUIRE", IOR chr_r 11 binder_pri_ptr_cookie, sizeof binder_pri_ptr_cookie);
   ("BR_NOOP", BR_NOOP, 0%nat);
   ("BR_SPAWN_LOOPER", IO chr_r 13, 0%nat);
   ("BR_FINISHED", IO chr_r 14, 0%nat);
   ("BR_DEAD_BINDER", IOR chr_r 15 binder_uintptr_t, sizeof binder_uintptr_t);
   ("BR_CLEAR_DEATH_NOTIFICATION_DONE", IOR chr_r 16 binder_uintptr_t, sizeof binder_uintptr_t);
   ("BR_FAILED_REPLY", IO chr_r 17, 0%nat);
   ("BR_FROZEN_REPLY", IO chr_r 18, 0%nat);
   ("BR_ONEWAY_SPAM_SUSPECT", IO chr_r 19, 0%nat);
   ("BR_TRANSACTION_PENDING_FROZEN", IO chr_r 20, 0%nat);
   ("BR_FROZEN_BINDER", IOR chr_r 21 binder_frozen_state_info, sizeof binder_frozen_state_info);
   ("BR_CLEAR_FREEZE_NOTIFICATION_DONE", IOR chr_r 22 binder_uintptr_t,
     sizeof binder_uintptr_t)]%string.

(** ** The command protocol: what a process writes to the driver *)

Definition binder_driver_command_protocol : list (string * Z * nat) :=
  [("BC_TRANSACTION", IOW chr_c 0 binder_transaction_data, sizeof binder_transaction_data);
   ("BC_REPLY", IOW chr_c 1 binder_transaction_data, sizeof binder_transaction_data);
   ("BC_ACQUIRE_RESULT", IOW chr_c 2 S32, sizeof S32);
   ("BC_FREE_BUFFER", IOW chr_c 3 binder_uintptr_t, sizeof binder_uintptr_t);
   ("BC_INCREFS", IOW chr_c 4 U32, sizeof U32);
   ("BC_ACQUIRE", IOW chr_c 5 U32, sizeof U32);
   ("BC_RELEASE", IOW chr_c 6 U32, sizeof U32);
   ("BC_DECREFS", IOW chr_c 7 U32, sizeof U32);
   ("BC_INCREFS_DONE", IOW chr_c 8 binder_ptr_cookie, sizeof binder_ptr_cookie);
   ("BC_ACQUIRE_DONE", IOW chr_c 9 binder_ptr_cookie, sizeof binder_ptr_cookie);
   ("BC_ATTEMPT_ACQUIRE", IOW chr_c 10 binder_pri_desc, sizeof binder_pri_desc);
   ("BC_REGISTER_LOOPER", IO chr_c 11, 0%nat);
   ("BC_ENTER_LOOPER", IO chr_c 12, 0%nat);
   ("BC_EXIT_LOOPER", IO chr_c 13, 0%nat);
   ("BC_REQUEST_DEATH_NOTIFICATION", IOW chr_c 14 binder_handle_cookie,
     sizeof binder_handle_cookie);
   ("BC_CLEAR_DEATH_NOTIFICATION", IOW chr_c 15 binder_handle_cookie,
     sizeof binder_handle_cookie);
   ("BC_DEAD_BINDER_DONE", IOW chr_c 16 binder_uintptr_t, sizeof binder_uintptr_t);
   ("BC_TRANSACTION_SG", IOW chr_c 17 binder_transaction_data_sg,
     sizeof binder_transaction_data_sg);
   ("BC_REPLY_SG", IOW chr_c 18 binder_transaction_data_sg, sizeof binder_transaction_data_sg);
   ("BC_REQUEST_FREEZE_NOTIFICATION", IOW chr_c 19 binder_handle_cookie,
     sizeof binder_handle_cookie);
   ("BC_CLEAR_FREEZE_NOTIFICATION", IOW chr_c 20 binder_handle_cookie,
     sizeof binder_handle_cookie);
   ("BC_FREEZE_NOTIFICATION_DONE", IOW chr_c 21 binder_uintptr_t,
     sizeof binder_uintptr_t)]%string.

(** ** Lemmas *)

Lemma IOC_SIZE_range c : 0 <= c -> 0 <= IOC_SIZE c < 2 ^ 14.
Proof.
  intros. unfold IOC_SIZE. change 0x3fff with (Z.ones 14).
  rewrite Z.land_ones by lia. apply Z.mod_pos_bound. lia.
Qed.

(** [IOC_SIZE] reads back the size field of every request word whose fields are
    inside their bit ranges. *)
Lemma IOC_SIZE_IOC dir ty nr size :
  in_word 2 dir -> in_word 8 ty -> in_word 8 nr -> in_word 14 size ->
  IOC_SIZE (IOC dir ty nr size) = size.
Proof.
  unfold IOC_SIZE, IOC. intros Hd Ht Hn Hs.
  apply Z.bits_inj'. intros i Hi.
  change 0x3fff with (Z.ones 14).
  rewrite Z.land_spec, Z.shiftr_spec, !Z.lor_spec by lia.
  destruct (decide (i < 14)).
  - rewrite Z.ones_spec_low, andb_true_r by lia.
    rewrite (Z.shiftl_spec_low dir) by lia.
    rewrite (Z.shiftl_spec size), (Z.shiftl_spec ty) by lia.
    rewrite (testbit_above 8 ty), (testbit_above 8 nr) by (done || lia).
    simpl. f_equal. lia.
  - rewrite Z.ones_spec_high, andb_false_r by lia.
    symmetry. apply (testbit_above 14); [lia|done].
Qed.

(** The command words of a protocol are pairwise distinct 32-bit values whose
    size field is the size of the declared payload. *)
Definition protocol_ok (p : list (string * Z * nat)) : bool :=
  bool_decide (NoDup (p.*1).*2) &&
  forallb (fun '(_, c, n) => bool_decide (in_word 32 c) && (IOC_SIZE c =? Z.of_nat n)) p.

Lemma protocol_ok_spec p :
  protocol_ok p = true ->
  NoDup (p.*1).*2 /\
  forall s c n, (s, c, n) ∈ p -> in_word 32 c /\ IOC_SIZE c = Z.of_nat n.
Proof.
  unfold protocol_ok. intros [H1 H2]%andb_prop. boolp. split; [done|].
  intros s c n Hin. rewrite forallb_forall in H2.
  specialize (H2 _ (proj1 (list_elem_of_In _ _) Hin)). simpl in H2. boolp. done.
Qed.

(** The fields the interceptor touches are where the C compiler puts them. *)
Lemma transaction_data_layout :
  sizeof binder_transaction_data = 64%nat /\
  sizeof binder_transaction_data_secctx = 72%nat /\
  offsetof binder_transaction_data_secctx "transaction_data" = Some 0%nat /\
  offsetof binder_transaction_data "target" = Some 0%nat /\
  offsetof binder_transaction_data "cookie" = Some 8%nat /\
  offsetof binder_transaction_data "code" = Some 16%nat /\
  offsetof binder_transaction_data "flags" = Some 20%nat /\
  offsetof binder_transaction_data "sender_pid" = Some 24%nat /\
  offsetof binder_transaction_data "sender_euid" = Some 28%nat.
Proof. by vm_compute. Qed.

(** In both protocols of the driver the command words are pairwise distinct
    32-bit values, and [_IOC_SIZE] of a command is the size of the struct its
    declaration names; in particular a command word tells the payload length. *)
Theorem protocol_words_sound :
  Forall (fun p =>
    NoDup (p.*1).*2 /\
    forall s c n, (s, c, n) ∈ p -> in_word 32 c /\ IOC_SIZE c = Z.of_nat n)
  [binder_driver_return_protocol; binder_driver_command_protocol].
Proof.
  apply Forall_cons; split; [|apply Forall_singleton];
    apply protocol_ok_spec; vm_compute; reflexivity.
Qed.
