(* ===== verification/RefBase.v ===== *)
(** * Strong and weak references (utils/RefBase.h, utils/StrongPointer.h)

    The class templates [wp] and [sp] of libutils are headers of the repository
    and are modelled statement by statement; the reference counts behind them
    ([RefBase::incStrong], [weakref_type::incWeak], ...) live in the platform's
    libutils and are calls of the signature [refE].  A pointer is its address,
    0 the null pointer; an upcast of the binder classes keeps the address. *)

From S2P Require Import Prelude Prog.
Local Open Scope Z_scope.

(** The member functions of [RefBase] and [RefBase::weakref_type] that the
    templates call; [obj] is a [RefBase*], [refs] a [weakref_type*]. *)
Inductive refE : Type -> Type :=
| IncStrong (obj : Z) : refE unit
| IncStrongRequireStrong (obj : Z) : refE unit
| DecStrong (obj : Z) : refE unit
| ForceIncStrong (obj : Z) : refE unit
| GetWeakRefs (obj : Z) : refE Z
| CreateWeak (obj : Z) : refE Z
| IncWeak (refs : Z) : refE unit
| DecWeak (refs : Z) : refE unit
| AttemptIncStrong (refs : Z) : refE bool
| NewObject : refE Z.

(** ** wp<T> *)

Record wp_t := Wp { m_ptr : Z; m_refs : Z }.

#[export] Instance wp_t_eq_dec : EqDecision wp_t.
Proof. solve_decision. Defined.

Definition wp_null : wp_t := Wp 0 0.

(** The orderings: [<] compares the objects and only then the reference blocks,
    [==] compares the reference blocks. *)
Definition wp_ltb (a b : wp_t) : bool :=
  if m_ptr a =? m_ptr b then m_refs a <? m_refs b else m_ptr a <? m_ptr b.

Definition wp_gtb (a b : wp_t) : bool :=
  if m_ptr a =? m_ptr b then m_refs b <? m_refs a else m_ptr b <? m_ptr a.

Definition wp_eqb (a b : wp_t) : bool := m_refs a =? m_refs b.
Definition wp_neqb (a b : wp_t) : bool := negb (wp_eqb a b).
Definition wp_leb (a b : wp_t) : bool := negb (wp_gtb a b).
Definition wp_geb (a b : wp_t) : bool := negb (wp_ltb a b).

Section refs.
Context {E : Type -> Type} `{!Sub refE E}.
Abbreviation M := (prog E).

(** [wp<T>::fromExisting] *)
Definition wp_fromExisting (other : Z) : M wp_t :=
  if other =? 0 then mret wp_null
  else refs ← trigger (GetWeakRefs other);
       _ ← trigger (IncWeak refs);
       mret (Wp other refs).

(** [wp(T * )] and [wp(U * )] *)
Definition wp_of_ptr (other : Z) : M wp_t :=
  refs ← (if other =? 0 then mret 0 else trigger (CreateWeak other));
  mret (Wp other refs).

(** [operator=(T * )] and [operator=(U * )] *)
Definition wp_assign_ptr (this : wp_t) (other : Z) : M wp_t :=
  newRefs ← (if other =? 0 then mret 0 else trigger (CreateWeak other));
  _ ← when (negb (m_ptr this =? 0)) (trigger (DecWeak (m_refs this)));
  mret (Wp other newRefs).

(** the copy constructor *)
Definition wp_copy (other : wp_t) : M wp_t :=
  _ ← when (negb (m_ptr other =? 0)) (trigger (IncWeak (m_refs other)));
  mret (Wp (m_ptr other) (m_refs other)).

(** [wp(const wp<U>&)] *)
Definition wp_convert (other : wp_t) : M wp_t :=
  if negb (m_ptr other =? 0)
  then _ ← trigger (IncWeak (m_refs other)); mret (Wp (m_ptr other) (m_refs other))
  else mret (Wp (m_ptr other) 0).

(** [wp(const sp<T>&)] and [wp(const sp<U>&)]; an [sp] is its [m_ptr] *)
Definition wp_of_sp (other : Z) : M wp_t :=
  refs ← (if other =? 0 then mret 0 else trigger (CreateWeak other));
  mret (Wp other refs).

(** [~wp] *)
Definition wp_destroy (this : wp_t) : M unit :=
  when (negb (m_ptr this =? 0)) (trigger (DecWeak (m_refs this))).

(** [operator=(const wp<T>&)] and [operator=(const wp<U>&)] *)
Definition wp_assign (this other : wp_t) : M wp_t :=
  let otherRefs := m_refs other in
  let otherPtr := m_ptr other in
  _ ← when (negb (otherPtr =? 0)) (trigger (IncWeak otherRefs));
  _ ← when (negb (m_ptr this =? 0)) (trigger (DecWeak (m_refs this)));
  mret (Wp otherPtr otherRefs).

(** [operator=(const sp<T>&)] and [operator=(const sp<U>&)] *)
Definition wp_assign_sp (this : wp_t) (other : Z) : M wp_t :=
  newRefs ← (if negb (other =? 0) then trigger (CreateWeak other) else mret 0);
  let otherPtr := other in
  _ ← when (negb (m_ptr this =? 0)) (trigger (DecWeak (m_refs this)));
  mret (Wp otherPtr newRefs).

Definition wp_set_object_and_refs (this : wp_t) (other refs : Z) : M wp_t :=
  _ ← when (negb (other =? 0)) (trigger (IncWeak refs));
  _ ← when (negb (m_ptr this =? 0)) (trigger (DecWeak (m_refs this)));
  mret (Wp other refs).

(** [promote]: an [sp] that owns a strong reference, or null *)
Definition wp_promote (this : wp_t) : M Z :=
  if negb (m_ptr this =? 0)
  then ok ← trigger (AttemptIncStrong (m_refs this));
       mret (if ok : bool then m_ptr this else 0)
  else mret 0.

Definition wp_clear (this : wp_t) : M wp_t :=
  if negb (m_ptr this =? 0)
  then _ ← trigger (DecWeak (m_refs this)); mret (Wp 0 0)
  else mret this.

(** ** sp<T>: the pointer it holds *)

(** [sp<T>::make]: the object is new, so not null *)
Definition sp_make : M Z :=
  t ← trigger NewObject;
  _ ← trigger (IncStrong t);
  mret t.

Definition sp_fromExisting (other : Z) : M Z :=
  if negb (other =? 0)
  then _ ← trigger (IncStrongRequireStrong other); mret other
  else mret 0.

(** [sp(T * )] and [sp(U * )] *)
Definition sp_of_ptr (other : Z) : M Z :=
  _ ← when (negb (other =? 0)) (trigger (IncStrong other));
  mret other.

(** [operator=(T * )] and [operator=(U * )]; the re-read of [m_ptr] that reports a
    data race sees what the first read saw *)
Definition sp_assign_ptr (this other : Z) : M Z :=
  let oldPtr := this in
  _ ← when (negb (other =? 0)) (trigger (IncStrong other));
  _ ← when (negb (oldPtr =? 0)) (trigger (DecStrong oldPtr));
  mret other.

(** the copy constructors *)
Definition sp_copy (other : Z) : M Z :=
  _ ← when (negb (other =? 0)) (trigger (IncStrong other));
  mret other.

(** the move constructors: the new pointer and what [other] holds after *)
Definition sp_move (other : Z) : M (Z * Z) := mret (other, 0).

(** [sp<T>::cast] *)
Definition sp_cast (other : Z) : M Z := sp_fromExisting other.

(** [~sp] *)
Definition sp_destroy (this : Z) : M unit :=
  when (negb (this =? 0)) (trigger (DecStrong this)).

(** [operator=(const sp<T>&)] and [operator=(const sp<U>&)] *)
Definition sp_assign (this other : Z) : M Z :=
  let oldPtr := this in
  let otherPtr := other in
  _ ← when (negb (otherPtr =? 0)) (trigger (IncStrong otherPtr));
  _ ← when (negb (oldPtr =? 0)) (trigger (DecStrong oldPtr));
  mret otherPtr.

(** [operator=(sp<T>&&)] and [operator=(sp<U>&&)]: the new pointer and what [other] holds
    after, which is stored last, so it is what a variable moved to itself holds. *)
Definition sp_move_assign (this other : Z) : M (Z * Z) :=
  let oldPtr := this in
  _ ← when (negb (oldPtr =? 0)) (trigger (DecStrong oldPtr));
  mret (other, 0).

(** [force_set]: the object is used without a test, and what [this] held is overwritten
    without a [decStrong] *)
Definition sp_force_set (other : Z) : M Z :=
  if other =? 0 then Crash
  else _ ← trigger (ForceIncStrong other); mret other.

Definition sp_clear (this : Z) : M Z :=
  let oldPtr := this in
  if negb (oldPtr =? 0)
  then _ ← trigger (DecStrong oldPtr); mret 0
  else mret this.

(** An [sp] argument passed by value, or converted to another [sp] type: a copy
    that lives as long as the call. *)
Definition by_value {A} (p : Z) (k : Z -> M A) : M A :=
  param ← sp_copy p;
  r ← k param;
  _ ← sp_destroy param;
  mret r.

(** [release] gives up ownership without touching the count. *)
Definition sp_release (this : Z) : M (Z * Z) := mret (this, 0).
End refs.

(** ** Orders *)

(** [<] on [wp] is a strict total order on (object, reference block) pairs. *)
Lemma wp_ltb_irrefl a : wp_ltb a a = false.
Proof. unfold wp_ltb. rewrite Z.eqb_refl. apply Z.ltb_irrefl. Qed.

Lemma wp_ltb_spec a b :
  wp_ltb a b = true <->
  m_ptr a < m_ptr b \/ (m_ptr a = m_ptr b /\ m_refs a < m_refs b).
Proof.
  unfold wp_ltb. destruct (Z.eqb_spec (m_ptr a) (m_ptr b)); rewrite Z.ltb_lt; lia.
Qed.

Lemma wp_ltb_trans a b c :
  wp_ltb a b = true -> wp_ltb b c = true -> wp_ltb a c = true.
Proof. rewrite !wp_ltb_spec. lia. Qed.

Lemma wp_ltb_total a b : wp_ltb a b = false -> wp_ltb b a = false -> a = b.
Proof.
  rewrite <-!not_true_iff_false, !wp_ltb_spec. destruct a, b; simpl. intros.
  f_equal; lia.
Qed.

#[export] Hint Resolve wp_ltb_irrefl wp_ltb_trans wp_ltb_total : s2p.

(** The invariant stated at RefBase.h:524: a reference block belongs to one
    object for ever ([owner]), and both pointers are null together. *)
Definition wp_ok (owner : Z -> Z) (w : wp_t) : Prop := m_ptr w = owner (m_refs w).

Lemma wp_eqb_eq owner a b : wp_ok owner a -> wp_ok owner b -> (wp_eqb a b = true <-> a = b).
Proof.
  unfold wp_ok, wp_eqb. rewrite Z.eqb_eq. destruct a, b; simpl.
  intros -> ->. split; [by intros ->|congruence].
Qed.

(** ** Counting references

    [weak_delta r] and [strong_delta o] are the effect of a call on the weak
    count of reference block [r] and on the strong count of object [o], a block
    being [owner]ed by one object. *)

Definition delta1 (x y : Z) : Z := if x =? y then 1 else 0.

Definition weak_delta (r : Z) (X : Type) (e : refE X) : X -> Z :=
  match e in refE X return X -> Z with
  | CreateWeak _ => fun r' => delta1 r r'
  | IncWeak r' => fun _ => delta1 r r'
  | DecWeak r' => fun _ => - delta1 r r'
  | _ => fun _ => 0
  end.

Definition strong_delta (owner : Z -> Z) (o : Z) (X : Type) (e : refE X) : X -> Z :=
  match e in refE X return X -> Z with
  | IncStrong o' | IncStrongRequireStrong o' | ForceIncStrong o' => fun _ => delta1 o o'
  | DecStrong o' => fun _ => - delta1 o o'
  | AttemptIncStrong refs => fun ok => if ok : bool then delta1 o (owner refs) else 0
  | _ => fun _ => 0
  end.

(** What a live smart pointer holds. *)
Definition wp_held (r : Z) (w : wp_t) : Z :=
  if negb (m_ptr w =? 0) then delta1 r (m_refs w) else 0.
Definition sp_held (o p : Z) : Z := if negb (p =? 0) then delta1 o p else 0.

Fixpoint lsum {A} (f : A -> Z) (l : list A) : Z :=
  match l with [] => 0 | x :: l => f x + lsum f l end.

Lemma lsum_app {A} (f : A -> Z) l1 l2 : lsum f (l1 ++ l2) = lsum f l1 + lsum f l2.
Proof. induction l1; simpl; lia. Qed.

Lemma lsum_insert {A} (f : A -> Z) (l : list A) i x y :
  l !! i = Some x -> lsum f (<[i:=y]> l) = lsum f l - f x + f y.
Proof.
  revert i. induction l as [|z l IH]; intros [|i] Hi; simplify_eq/=; [lia|].
  rewrite (IH i Hi). lia.
Qed.

Lemma lsum_delete {A} (f : A -> Z) (l : list A) i x :
  l !! i = Some x -> lsum f (delete i l) = lsum f l - f x.
Proof.
  revert i. induction l as [|z l IH]; intros [|i] Hi; simplify_eq/=; [lia|].
  change (delete (S i) (z :: l)) with (z :: delete i l). simpl. rewrite (IH i Hi). lia.
Qed.

(** *** Programs over [wp] variables

    A C++ scope holds a list of live [wp] objects; constructors add one,
    assignments replace one, a destructor removes one. *)
Inductive wp_op : Type :=
| WFromExisting (other : Z)
| WOfPtr (other : Z)
| WOfSp (other : Z)
| WCopy (i : nat)
| WConvert (i : nat)
| WAssign (i j : nat)
| WAssignPtr (i : nat) (other : Z)
| WAssignSp (i : nat) (other : Z)
| WSetObjectAndRefs (i : nat) (other refs : Z)
| WClear (i : nat)
| WDestroy (i : nat).

Section programs.
Context {E : Type -> Type} `{!Sub refE E}.
Abbreviation M := (prog E).

(** Uses of a variable that is not live do not compile. *)
Definition wp_step (o : wp_op) (vs : list wp_t) : M (list wp_t) :=
  let push (m : M wp_t) := w ← m; mret (vs ++ [w]) in
  let with1 (i : nat) (k : wp_t -> M (list wp_t)) :=
    match vs !! i with Some w => k w | None => mret vs end in
  let set (i : nat) (m : M wp_t) := w ← m; mret (<[i:=w]> vs) in
  match o with
  | WFromExisting p => push (wp_fromExisting p)
  | WOfPtr p => push (wp_of_ptr p)
  | WOfSp p => push (wp_of_sp p)
  | WCopy i => with1 i (fun w => push (wp_copy w))
  | WConvert i => with1 i (fun w => push (wp_convert w))
  | WAssign i j => with1 i (fun w => with1 j (fun v => set i (wp_assign w v)))
  | WAssignPtr i p => with1 i (fun w => set i (wp_assign_ptr w p))
  | WAssignSp i p => with1 i (fun w => set i (wp_assign_sp w p))
  | WSetObjectAndRefs i p r => with1 i (fun w => set i (wp_set_object_and_refs w p r))
  | WClear i => with1 i (fun w => set i (wp_clear w))
  | WDestroy i => with1 i (fun w => _ ← wp_destroy w; mret (delete i vs))
  end.

Fixpoint wp_run (os : list wp_op) (vs : list wp_t) : M (list wp_t) :=
  match os with
  | [] => mret vs
  | o :: os => vs ← wp_step o vs; wp_run os vs
  end.
End programs.

(** *** Net effect of an operation on the counts *)

Section accounting.
Context {E : Type -> Type} `{!Sub refE E}.
Abbreviation M := (prog E).

(** [nets d m f]: [m] terminates with some [a] and the calls it made change
    the count measured by [d] by [f a]. *)
Definition nets {A} (d : forall X, refE X -> X -> Z) (m : M A) (f : A -> Z) : Prop :=
  wp m (fun o t => exists a, o = Done a /\ tsum (on d) t = f a).

Lemma nets_ret {A} d (a : A) f : f a = 0 -> nets d (mret a) f.
Proof. intros H. exists a. by rewrite H. Qed.

Lemma nets_trigger {X} d (e : refE X) (f : X -> Z) :
  (forall x, d X e x = f x) -> nets d (trigger e) f.
Proof.
  intros H. apply wp_trigger. intros x. exists x. split; [done|].
  cbn [tsum]. rewrite on_inj, H. lia.
Qed.

Lemma nets_bind {A B} d (m : M A) (k : A -> M B) f g :
  nets d m f -> (forall a, nets d (k a) (fun b => g b - f a)) -> nets d (m ≫= k) g.
Proof.
  intros Hm Hk. apply wp_bind. eapply wp_mono; [|exact Hm].
  intros o t (a & -> & Ha). simpl. eapply wp_mono; [|apply Hk].
  intros o' t' (b & -> & Hb). exists b. split; [done|]. rewrite tsum_app. lia.
Qed.

Lemma nets_when d b (m : M unit) z :
  nets d m (fun _ => z) -> nets d (when b m) (fun _ => if b then z else 0).
Proof. intros H. destruct b; [done|]. by apply nets_ret. Qed.

Lemma nets_ext {A} d (m : M A) f g : nets d m f -> (forall a, f a = g a) -> nets d m g.
Proof. intros H He. eapply wp_mono; [|exact H]. intros o t (a & -> & Ha). exists a. by rewrite <-He. Qed.
End accounting.

(** Operations that leave a count alone. *)
Section unchanged.
Context {E : Type -> Type} `{!Sub refE E}.

Lemma nets0_bind {A B} d (m : prog E A) (k : A -> prog E B) :
  nets d m (fun _ => 0) -> (forall a, nets d (k a) (fun _ => 0)) ->
  nets d (m ≫= k) (fun _ => 0).
Proof. intros Hm Hk. eapply nets_bind; [exact Hm|]. intros a. apply Hk. Qed.

Lemma nets0_when d b (m : prog E unit) :
  nets d m (fun _ => 0) -> nets d (when b m) (fun _ => 0).
Proof. intros H. destruct b; [done|]. by apply nets_ret. Qed.

(** A call that is not one of [refE]. *)
Lemma nets0_call {X} d (e : E X) : prj e = None -> nets d (call e) (fun _ => 0).
Proof. intros H x. exists x. split; [done|]. cbn [tsum on]. by rewrite H. Qed.
End unchanged.

Ltac nets0 :=
  repeat match goal with
  | |- nets _ (mret _) _ => by apply nets_ret
  | |- nets _ (trigger _) _ => by apply nets_trigger
  | |- nets _ (call _) _ => by apply nets0_call
  | |- nets _ (_ ≫= _) _ => apply nets0_bind; [|intros]
  | |- nets _ (when _ _) _ => apply nets0_when
  | |- nets _ (if ?b then _ else _) _ => destruct b
  | |- nets _ (match ?x with _ => _ end) _ => destruct x
  end.

(** [nets_auto] follows the binds of an operation and leaves arithmetic. *)
Ltac nets_auto :=
  repeat match goal with
  | |- nets _ (mret _) _ => apply nets_ret
  | |- nets _ (trigger _) _ => apply nets_trigger; intros
  | |- nets _ (_ ≫= _) _ => eapply nets_bind; [|intros]
  | |- nets _ (when _ _) _ => apply nets_when
  | |- nets _ (if ?b then _ else _) _ => destruct b eqn:?
  end; simpl; try reflexivity.

Section accounting_ops.
Context {E : Type -> Type} `{!Sub refE E}.
Variable r : Z.
Abbreviation wnets m f := (nets (E := E) (weak_delta r) m f).

Ltac t := unfold wp_held, wp_null; simpl; rewrite ?Z.sub_0_r; repeat split_if; boolp; try lia.

Lemma if_ret_create other :
  wnets (if other =? 0 then mret 0 else trigger (CreateWeak other))
        (fun refs => if other =? 0 then 0 else delta1 r refs).
Proof. destruct (other =? 0); [by apply nets_ret|by apply nets_trigger]. Qed.

Lemma when_inc (b : bool) refs :
  wnets (when b (trigger (IncWeak refs))) (fun _ => if b then delta1 r refs else 0).
Proof. by apply nets_when, nets_trigger. Qed.

Lemma when_dec (b : bool) refs :
  wnets (when b (trigger (DecWeak refs))) (fun _ => if b then - delta1 r refs else 0).
Proof. by apply nets_when, nets_trigger. Qed.

Lemma wp_fromExisting_net other : wnets (wp_fromExisting other) (wp_held r).
Proof.
  unfold wp_fromExisting. destruct (other =? 0) eqn:Ho; [by apply nets_ret|].
  eapply (nets_bind _ _ _ (fun _ => 0)); [by apply nets_trigger|intros refs].
  eapply (nets_bind _ _ _ (fun _ => delta1 r refs)); [by apply nets_trigger|intros []].
  apply nets_ret. t.
Qed.

Lemma wp_of_ptr_net other : wnets (wp_of_ptr other) (wp_held r).
Proof.
  eapply nets_bind; [apply if_ret_create|intros refs]. apply nets_ret. t.
Qed.

Lemma wp_of_sp_net other : wnets (wp_of_sp other) (wp_held r).
Proof. apply wp_of_ptr_net. Qed.

Lemma wp_copy_net w : wnets (wp_copy w) (wp_held r).
Proof. eapply nets_bind; [apply when_inc|intros []]. apply nets_ret. t. Qed.

Lemma wp_convert_net w : wnets (wp_convert w) (wp_held r).
Proof.
  unfold wp_convert. destruct (negb (m_ptr w =? 0)) eqn:Hw; boolp.
  - eapply (nets_bind _ _ _ (fun _ => delta1 r (m_refs w))); [by apply nets_trigger|intros []].
    apply nets_ret. t.
  - apply nets_ret. t.
Qed.

Lemma wp_destroy_net w : wnets (wp_destroy w) (fun _ => - wp_held r w).
Proof. eapply nets_ext; [apply when_dec|intros]. t. Qed.

Lemma wp_assign_net w v : wnets (wp_assign w v) (fun w' => wp_held r w' - wp_held r w).
Proof.
  eapply nets_bind; [apply when_inc|intros []].
  eapply nets_bind; [apply when_dec|intros []]. apply nets_ret. t.
Qed.

Lemma wp_assign_ptr_net w p : wnets (wp_assign_ptr w p) (fun w' => wp_held r w' - wp_held r w).
Proof.
  eapply nets_bind; [apply if_ret_create|intros refs].
  eapply nets_bind; [apply when_dec|intros []]. apply nets_ret. t.
Qed.

Lemma wp_assign_sp_net w p : wnets (wp_assign_sp w p) (fun w' => wp_held r w' - wp_held r w).
Proof.
  unfold wp_assign_sp. destruct (p =? 0) eqn:Hp; cbn [negb].
  - eapply (nets_bind _ _ _ (fun _ => 0)); [by apply nets_ret|intros refs].
    eapply nets_bind; [apply when_dec|intros []]. apply nets_ret. t.
  - eapply (nets_bind _ _ _ (delta1 r)); [by apply nets_trigger|intros refs].
    eapply nets_bind; [apply when_dec|intros []]. apply nets_ret. t.
Qed.

Lemma wp_set_object_and_refs_net w p rf :
  wnets (wp_set_object_and_refs w p rf) (fun w' => wp_held r w' - wp_held r w).
Proof.
  eapply nets_bind; [apply when_inc|intros []].
  eapply nets_bind; [apply when_dec|intros []]. apply nets_ret. t.
Qed.

Lemma wp_clear_net w : wnets (wp_clear w) (fun w' => wp_held r w' - wp_held r w).
Proof.
  unfold wp_clear. destruct (negb (m_ptr w =? 0)) eqn:Hw; boolp.
  - eapply (nets_bind _ _ _ (fun _ => - delta1 r (m_refs w))); [by apply nets_trigger|intros []].
    apply nets_ret. t.
  - apply nets_ret. t.
Qed.
End accounting_ops.

#[export] Hint Resolve wp_fromExisting_net wp_of_ptr_net wp_of_sp_net wp_copy_net
  wp_convert_net wp_destroy_net wp_assign_net wp_assign_ptr_net wp_assign_sp_net
  wp_set_object_and_refs_net wp_clear_net : s2p.

(** *** The accounting of weak references *)

Section weak_accounting.
Context {E : Type -> Type} `{!Sub refE E}.
Variable r : Z.

Lemma push_net (m : prog E wp_t) vs :
  nets (weak_delta r) m (wp_held r) ->
  nets (weak_delta r) (w ← m; mret (vs ++ [w]))
       (fun vs' => lsum (wp_held r) vs' - lsum (wp_held r) vs).
Proof.
  intros H. eapply nets_bind; [exact H|intros w]. apply nets_ret.
  rewrite lsum_app. simpl. lia.
Qed.

Lemma set_net (m : prog E wp_t) vs i w :
  vs !! i = Some w ->
  nets (weak_delta r) m (fun w' => wp_held r w' - wp_held r w) ->
  nets (weak_delta r) (w ← m; mret (<[i:=w]> vs))
       (fun vs' => lsum (wp_held r) vs' - lsum (wp_held r) vs).
Proof.
  intros Hi H. eapply nets_bind; [exact H|intros w']. apply nets_ret.
  rewrite (lsum_insert _ _ _ _ _ Hi). lia.
Qed.

Lemma wp_step_net o vs :
  nets (weak_delta r) (wp_step (E := E) o vs)
       (fun vs' => lsum (wp_held r) vs' - lsum (wp_held r) vs).
Proof.
  assert (Hnop : nets (E := E) (weak_delta r) (mret vs)
    (fun vs' => lsum (wp_held r) vs' - lsum (wp_held r) vs)) by (apply nets_ret; lia).
  destruct o; simpl; repeat case_match; eauto using push_net with s2p;
    try (eapply set_net; eauto with s2p; fail).
  eapply nets_bind; [apply wp_destroy_net|intros []]. apply nets_ret.
  erewrite lsum_delete by eassumption. lia.
Qed.

(** C28: for every program over [wp] variables (construction from pointers,
    strong and weak pointers, copy, assignment, clear, destruction, in any
    order), whatever the platform answers, the program ends and the net change
    it made to the weak count of every reference block is the number of live
    [wp] variables that hold the block: no weak reference leaks or is dropped
    twice. *)
Theorem wp_weak_accounting (os : list wp_op) :
  wp (wp_run (E := E) os [])
     (fun o t => exists vs, o = Done vs /\
        tsum (on (weak_delta r)) t = lsum (wp_held r) vs).
Proof.
  assert (H : forall vs, nets (weak_delta r) (wp_run (E := E) os vs)
    (fun vs' => lsum (wp_held r) vs' - lsum (wp_held r) vs)).
  { induction os as [|o os IH]; intros vs; simpl; [apply nets_ret; lia|].
    eapply nets_bind; [apply wp_step_net|intros vs1]. eapply nets_ext; [apply IH|].
    intros; simpl; lia. }
  eapply wp_mono; [|apply (H [])]. intros o t (vs & -> & Hvs). exists vs.
  simpl in Hvs. split; [done|lia].
Qed.
End weak_accounting.

(** ** The accounting of strong references

    The live [sp] variables, and the pointers they gave up without a [decStrong]: those a
    [release] handed to the caller, who now owes it, and those a [force_set] overwrote. *)
Record sp_scope := SpScope { live : list Z; released : list Z }.

Inductive sp_op : Type :=
| SMake
| SFromExisting (other : Z)
| SOfPtr (other : Z)
| SPromote (w : wp_t)
| SCopy (i : nat)
| SCast (i : nat)
| SMove (i : nat)
| SAssign (i j : nat)
| SAssignPtr (i : nat) (other : Z)
| SMoveAssign (i j : nat)
| SForceSet (i : nat) (other : Z)
| SClear (i : nat)
| SRelease (i : nat)
| SDestroy (i : nat).

Section sp_programs.
Context {E : Type -> Type} `{!Sub refE E}.
Abbreviation M := (prog E).

Definition sp_step (o : sp_op) (s : sp_scope) : M sp_scope :=
  let vs := live s in
  let ok vs := SpScope vs (released s) in
  let push (m : M Z) := p ← m; mret (ok (vs ++ [p])) in
  let with1 (i : nat) (k : Z -> M sp_scope) :=
    match vs !! i with Some p => k p | None => mret s end in
  let set (i : nat) (m : M Z) := p ← m; mret (ok (<[i:=p]> vs)) in
  match o with
  | SMake => push sp_make
  | SFromExisting p => push (sp_fromExisting p)
  | SOfPtr p => push (sp_of_ptr p)
  | SPromote w => push (wp_promote w)
  | SCopy i => with1 i (fun p => push (sp_copy p))
  | SCast i => with1 i (fun p => push (sp_cast p))
  | SMove i => with1 i (fun p => '(q, p') ← sp_move p; mret (ok (<[i:=p']> vs ++ [q])))
  | SAssign i j => with1 i (fun p => with1 j (fun q => set i (sp_assign p q)))
  | SAssignPtr i q => with1 i (fun p => set i (sp_assign_ptr p q))
  | SMoveAssign i j =>
      with1 i (fun p => with1 j (fun q =>
        '(p', q') ← sp_move_assign p q; mret (ok (<[j:=q']> (<[i:=p']> vs)))))
  | SForceSet i q => with1 i (fun p => q ← sp_force_set q;
                                       mret (SpScope (<[i:=q]> vs) (released s ++ [p])))
  | SClear i => with1 i (fun p => set i (sp_clear p))
  | SRelease i => with1 i (fun p => '(q, p') ← sp_release p;
                                    mret (SpScope (<[i:=p']> vs) (released s ++ [q])))
  | SDestroy i => with1 i (fun p => _ ← sp_destroy p; mret (ok (delete i vs)))
  end.

Fixpoint sp_run (os : list sp_op) (s : sp_scope) : M sp_scope :=
  match os with
  | [] => mret s
  | o :: os => s ← sp_step o s; sp_run os s
  end.
End sp_programs.

Definition sp_op_ok (owner : Z -> Z) (o : sp_op) : Prop :=
  match o with SPromote w => wp_ok owner w | SForceSet _ other => other <> 0 | _ => True end.

Definition sp_owed (o : Z) (s : sp_scope) : Z :=
  lsum (sp_held o) (live s) + lsum (sp_held o) (released s).

Section strong_accounting.
Context {E : Type -> Type} `{!Sub refE E}.
Variables (owner : Z -> Z) (o : Z).
Hypothesis Ho : o <> 0.
Abbreviation snets m f := (nets (E := E) (strong_delta owner o) m f).
Abbreviation owed := (sp_owed o).

Ltac t := unfold sp_held, delta1; simpl; repeat split_if; boolp; subst; try lia.

Lemma when_inc_s (p : Z) :
  snets (when (negb (p =? 0)) (trigger (IncStrong p))) (fun _ => sp_held o p).
Proof. by apply (nets_when _ _ _ (delta1 o p)), nets_trigger. Qed.

Lemma when_dec_s (p : Z) :
  snets (when (negb (p =? 0)) (trigger (DecStrong p))) (fun _ => - sp_held o p).
Proof.
  eapply nets_ext; [by apply (nets_when _ _ _ (- delta1 o p)), nets_trigger|].
  intros. t.
Qed.

Lemma sp_make_net : snets sp_make (sp_held o).
Proof.
  eapply (nets_bind _ _ _ (fun _ => 0)); [by apply nets_trigger|intros p].
  eapply (nets_bind _ _ _ (fun _ => delta1 o p)); [by apply nets_trigger|intros []].
  apply nets_ret. t.
Qed.

Lemma sp_of_ptr_net p : snets (sp_of_ptr p) (sp_held o).
Proof. eapply nets_bind; [apply when_inc_s|intros []]. apply nets_ret. lia. Qed.

Lemma sp_fromExisting_net p : snets (sp_fromExisting p) (sp_held o).
Proof.
  unfold sp_fromExisting. destruct (negb (p =? 0)) eqn:Hp.
  - eapply (nets_bind _ _ _ (fun _ => delta1 o p)); [by apply nets_trigger|intros []].
    apply nets_ret. unfold sp_held. rewrite Hp. lia.
  - by apply nets_ret.
Qed.

Lemma wp_promote_net w : wp_ok owner w -> snets (wp_promote w) (sp_held o).
Proof.
  unfold wp_ok, wp_promote. intros Hw. destruct (negb (m_ptr w =? 0)) eqn:Hp.
  - eapply (nets_bind _ _ _ (fun ok : bool => if ok then delta1 o (m_ptr w) else 0)).
    + apply nets_trigger. intros x. simpl. by rewrite Hw.
    + intros [|]; apply nets_ret; t.
  - by apply nets_ret.
Qed.

Lemma sp_assign_net p q : snets (sp_assign p q) (fun p' => sp_held o p' - sp_held o p).
Proof.
  eapply nets_bind; [apply when_inc_s|intros []].
  eapply nets_bind; [apply when_dec_s|intros []]. apply nets_ret. lia.
Qed.

Lemma sp_clear_net p : snets (sp_clear p) (fun p' => sp_held o p' - sp_held o p).
Proof.
  unfold sp_clear. destruct (negb (p =? 0)) eqn:Hp; boolp.
  - eapply (nets_bind _ _ _ (fun _ => - delta1 o p)); [by apply nets_trigger|intros []].
    apply nets_ret. t.
  - apply nets_ret. t.
Qed.

Lemma sp_force_set_net p : p <> 0 -> snets (sp_force_set p) (sp_held o).
Proof.
  intros Hp. unfold sp_force_set. destruct (Z.eqb_spec p 0); [done|].
  eapply (nets_bind _ _ _ (fun _ => delta1 o p)); [by apply nets_trigger|intros []].
  apply nets_ret. t.
Qed.

Lemma sp_push_net (m : prog E Z) s :
  snets m (sp_held o) ->
  snets (p ← m; mret (SpScope (live s ++ [p]) (released s))) (fun s' => owed s' - owed s).
Proof.
  intros H. eapply nets_bind; [exact H|intros p]. apply nets_ret. unfold sp_owed. simpl.
  rewrite lsum_app. simpl. lia.
Qed.

Lemma sp_set_net (m : prog E Z) s i p :
  live s !! i = Some p -> snets m (fun p' => sp_held o p' - sp_held o p) ->
  snets (p ← m; mret (SpScope (<[i:=p]> (live s)) (released s))) (fun s' => owed s' - owed s).
Proof.
  intros Hi H. eapply nets_bind; [exact H|intros p']. apply nets_ret. unfold sp_owed. simpl.
  rewrite (lsum_insert _ _ _ _ _ Hi). lia.
Qed.

Lemma sp_step_net op s :
  sp_op_ok owner op -> snets (sp_step op s) (fun s' => owed s' - owed s).
Proof.
  intros Hop. assert (Hnop : snets (mret s) (fun s' => owed s' - owed s))
    by (apply nets_ret; lia).
  destruct op; cbn [sp_step]; repeat case_match; simplify_eq; eauto using sp_push_net, sp_make_net,
    sp_of_ptr_net, sp_fromExisting_net, wp_promote_net, sp_set_net, sp_assign_net,
    sp_clear_net.
  - simpl. apply nets_ret. unfold sp_owed; simpl. rewrite lsum_app.
    erewrite lsum_insert by eassumption. simpl. unfold sp_held at 3. simpl. lia.
  - match goal with Hi : live s !! i = Some ?x, Hj : live s !! j = Some ?y |- _ =>
      rename x into p; rename y into q; rename Hi into Hi'; rename Hj into Hj' end.
    destruct (decide (i = j)) as [<-|Hne].
    + simplify_eq. eapply (nets_bind _ _ _ (fun '(_, q') => sp_held o q' - sp_held o p)).
      * eapply nets_bind; [apply when_dec_s|intros []]. apply nets_ret.
        change (sp_held o 0) with 0. lia.
      * intros [p' q']. apply nets_ret. unfold sp_owed; simpl.
        rewrite list_insert_insert_eq, (lsum_insert _ _ _ _ _ Hi'). lia.
    + eapply (nets_bind _ _ _
        (fun '(p', q') => sp_held o p' + sp_held o q' - sp_held o p - sp_held o q)).
      * eapply nets_bind; [apply when_dec_s|intros []]. apply nets_ret.
        unfold sp_held at 2. simpl. lia.
      * intros [p' q']. apply nets_ret. unfold sp_owed; simpl.
        rewrite (lsum_insert _ (<[i:=p']> (live s)) _ q) by (by rewrite list_lookup_insert_ne).
        rewrite (lsum_insert _ _ _ _ _ Hi'). lia.
  - eapply nets_bind; [by apply sp_force_set_net|intros q]. apply nets_ret.
    unfold sp_owed; simpl. rewrite lsum_app. erewrite lsum_insert by eassumption. simpl. lia.
  - simpl. apply nets_ret. unfold sp_owed; simpl. rewrite lsum_app.
    erewrite lsum_insert by eassumption. simpl. unfold sp_held at 3. simpl. lia.
  - eapply nets_bind; [apply when_dec_s|intros []]. apply nets_ret. unfold sp_owed; simpl.
    erewrite lsum_delete by eassumption. lia.
Qed.

(** C29: for every program over [sp] variables (construction, copy, cast, move, the
    assignments, a variable assigned or moved to itself included, clear, release, [force_set],
    destruction) whose [promote]s start from weak pointers that satisfy the class invariant
    and whose [force_set]s are given an object, whatever the platform answers, the program
    ends and its net change to the strong count of an object is the number of live [sp]
    variables that hold it plus the number of times one gave it up without a [decStrong]. *)
Theorem sp_strong_accounting (os : list sp_op) :
  Forall (sp_op_ok owner) os ->
  wp (sp_run (E := E) os (SpScope [] []))
     (fun r t => exists s, r = Done s /\ tsum (on (strong_delta owner o)) t = sp_owed o s).
Proof.
  intros Hos.
  assert (H : forall s, snets (sp_run os s) (fun s' => owed s' - owed s)).
  { induction Hos as [|op os Hop _ IH]; intros s; simpl; [apply nets_ret; lia|].
    eapply nets_bind; [by apply sp_step_net|intros s1]. eapply nets_ext; [apply IH|].
    intros; simpl; lia. }
  eapply wp_mono; [|apply (H (SpScope [] []))]. intros r t (s & -> & Hs). exists s.
  unfold sp_owed in *. simpl in Hs. split; [done|lia].
Qed.
End strong_accounting.

Lemma sp_strong_accounting_witness :
  wp (sp_run (E := refE) [SMake; SCopy 0; SMove 1; SPromote (Wp 16 7); SMoveAssign 0 0; SForceSet 0 16;
              SRelease 0; SDestroy 2]
             (SpScope [] []))
     (fun r t => exists s, r = Done s /\
        tsum (on (strong_delta (fun _ => 16) 16)) t = sp_owed 16 s).
Proof. apply sp_strong_accounting; [lia|]. by repeat constructor. Defined.
