(* ===== verification/Parcel.v ===== *)
(** * libbinder as the interceptor uses it (utils/Errors.h, binder/Parcel.h)

    [Parcel] and the binder objects are implemented by the platform: the headers
    of the repository declare them and the stub library only satisfies the
    linker.  Parcels are a type class of operations, [ParcelOps], and what
    Parcel.h documents of them is the class of laws [ParcelLaws].  Calls that
    leave the library (transactions, the calling identity, reference counts,
    memory allocation) are the signature [binderE]. *)

From S2P Require Import Prelude Prog RefBase.
Local Open Scope Z_scope.

(** ** Status codes *)

Definition OK : Z := 0.
Definition NO_ERROR : Z := OK.
Definition UNKNOWN_ERROR : Z := -2147483647 - 1.
Definition NO_MEMORY : Z := -12.
Definition INVALID_OPERATION : Z := -38.
Definition BAD_VALUE : Z := -22.
Definition BAD_TYPE : Z := UNKNOWN_ERROR + 1.
Definition NAME_NOT_FOUND : Z := -2.
Definition PERMISSION_DENIED : Z := -1.
Definition NO_INIT : Z := -19.
Definition ALREADY_EXISTS : Z := -17.
Definition DEAD_OBJECT : Z := -32.
Definition FAILED_TRANSACTION : Z := UNKNOWN_ERROR + 2.
Definition BAD_INDEX : Z := -75.
Definition NOT_ENOUGH_DATA : Z := -61.
Definition WOULD_BLOCK : Z := -11.
Definition TIMED_OUT : Z := -110.
Definition UNKNOWN_TRANSACTION : Z := -74.
Definition FDS_NOT_ALLOWED : Z := UNKNOWN_ERROR + 7.
Definition UNEXPECTED_NULL : Z := UNKNOWN_ERROR + 8.

Definition status_codes : list Z :=
  [OK; UNKNOWN_ERROR; NO_MEMORY; INVALID_OPERATION; BAD_VALUE; BAD_TYPE; NAME_NOT_FOUND;
   PERMISSION_DENIED; NO_INIT; ALREADY_EXISTS; DEAD_OBJECT; FAILED_TRANSACTION; BAD_INDEX;
   NOT_ENOUGH_DATA; WOULD_BLOCK; TIMED_OUT; UNKNOWN_TRANSACTION; FDS_NOT_ALLOWED;
   UNEXPECTED_NULL].

(** ** Parcels: the operations used

    A write returns its status and the parcel after it.  The readers with an
    output pointer return a status and the value; the others return the value
    alone, 0 when there is nothing to read. *)
Class ParcelOps (P : Type) := {
  p_new : P;
  p_writeStrongBinder : P -> Z -> Z * P;
  p_writeInt32 : P -> Z -> Z * P;
  p_writeUint32 : P -> Z -> Z * P;
  p_writeUint64 : P -> Z -> Z * P;
  p_appendFrom : P -> P -> Z -> Z -> Z * P;
  p_dataSize : P -> Z;
  p_dataPosition : P -> Z;
  p_rewind : P -> P;
  p_freeData : P -> P;
  p_readStrongBinder : P -> (Z * Z) * P;
  p_readInt32 : P -> (Z * Z) * P;
  p_readUint32 : P -> (Z * Z) * P;
  p_readInt32_value : P -> Z * P;
  p_readUint64_value : P -> Z * P
}.

(** The contents of a parcel as the values written to it: a binder, a 32-bit
    word or a 64-bit word. *)
Inductive tok : Type :=
| TBinder (b : Z)
| T32 (w : Z)
| T64 (w : Z).

#[export] Instance tok_eq_dec : EqDecision tok.
Proof. solve_decision. Defined.

Section sizes.
(** size of a flattened binder object in a parcel *)
Variable binder_size : Z.

Definition tok_size (t : tok) : Z :=
  match t with TBinder _ => binder_size | T32 _ => 4 | T64 _ => 8 end.

Definition toks_size (ts : list tok) : Z := lsum tok_size ts.
End sizes.

(** Documented behaviour of [Parcel]: a write that succeeds at the end of the
    data appends its value and advances the position; a read in the order of the
    writes returns the value and advances; [appendFrom] appends the given byte
    range of another parcel; [dataSize] and [dataPosition] count bytes. *)
Class ParcelLaws (P : Type) `{!ParcelOps P} := {
  binder_size : Z;
  binder_size_pos : 0 < binder_size;
  consumed : P -> list tok;
  unread : P -> list tok;
  contents p := consumed p ++ unread p;
  new_contents : consumed p_new = [] /\ unread p_new = [];
  dataSize_contents p : p_dataSize p = toks_size binder_size (contents p);
  dataPosition_consumed p : p_dataPosition p = toks_size binder_size (consumed p);
  rewind_contents p : consumed (p_rewind p) = [] /\ unread (p_rewind p) = contents p;
  freeData_contents p : consumed (p_freeData p) = [] /\ unread (p_freeData p) = [];
  writeStrongBinder_ok p b p' :
    p_writeStrongBinder p b = (OK, p') -> unread p = [] ->
    consumed p' = consumed p ++ [TBinder b] /\ unread p' = [];
  writeInt32_ok p z p' :
    p_writeInt32 p z = (OK, p') -> unread p = [] ->
    consumed p' = consumed p ++ [T32 (wrap 32 z)] /\ unread p' = [];
  writeUint32_ok p z p' :
    p_writeUint32 p z = (OK, p') -> unread p = [] ->
    consumed p' = consumed p ++ [T32 (wrap 32 z)] /\ unread p' = [];
  writeUint64_ok p z p' :
    p_writeUint64 p z = (OK, p') -> unread p = [] ->
    consumed p' = consumed p ++ [T64 (wrap 64 z)] /\ unread p' = [];
  appendFrom_ok p q start len p' a b c :
    p_appendFrom p q start len = (OK, p') -> unread p = [] ->
    contents q = a ++ b ++ c -> toks_size binder_size a = start ->
    toks_size binder_size b = len ->
    consumed p' = consumed p ++ b /\ unread p' = [];
  readStrongBinder_ok p b r :
    unread p = TBinder b :: r -> b <> 0 ->
    exists p', p_readStrongBinder p = ((OK, b), p') /\
               consumed p' = consumed p ++ [TBinder b] /\ unread p' = r;
  readStrongBinder_nonnull p b p' : p_readStrongBinder p = ((OK, b), p') -> b <> 0;
  readInt32_ok p w r :
    unread p = T32 w :: r ->
    exists p', p_readInt32 p = ((OK, sext 32 w), p') /\
               p_readInt32_value p = (sext 32 w, p') /\
               consumed p' = consumed p ++ [T32 w] /\ unread p' = r;
  readUint32_ok p w r :
    unread p = T32 w :: r ->
    exists p', p_readUint32 p = ((OK, wrap 32 w), p') /\
               consumed p' = consumed p ++ [T32 w] /\ unread p' = r;
  readUint64_ok p w r :
    unread p = T64 w :: r ->
    exists p', p_readUint64_value p = (wrap 64 w, p') /\
               consumed p' = consumed p ++ [T64 w] /\ unread p' = r
}.

(** ** Calls that leave the library *)

Inductive binderE (P : Type) : Type -> Type :=
| RefCall {X} (e : refE X) : binderE P X
(** [obj->localBinder()] *)
| LocalBinder (obj : Z) : binderE P Z
(** [obj->transact(code, data, reply, flags)]: the status and the reply after *)
| Transact (obj code : Z) (data : P) (reply : option P) (flags : Z)
  : binderE P (Z * option P)
| GetCallingUid : binderE P Z
| GetCallingPid : binderE P Z
(** whether the allocator provides that many bytes *)
| Allocate (bytes : Z) : binderE P bool.
Arguments RefCall {P X} e.
Arguments LocalBinder {P} obj.
Arguments Transact {P} obj code data reply flags.
Arguments GetCallingUid {P}.
Arguments GetCallingPid {P}.
Arguments Allocate {P} bytes.

#[export] Instance Sub_ref_binder P : Sub refE (binderE P) := {|
  inj := fun X e => RefCall e;
  prj := fun X e => match e with RefCall e => Some e | _ => None end;
  prj_inj := fun X e => eq_refl
|}.

(** ** A parcel that keeps the tokens themselves

    A concrete instance of the laws, used to evaluate the model. *)
Module TokParcel.
Record t := Make { t_done : list tok; t_rest : list tok }.

Definition bsize : Z := 24.

(** Cut a token list at a byte count that falls between two tokens. *)
Fixpoint cut (n : Z) (ts : list tok) : option (list tok * list tok) :=
  if n =? 0 then Some ([], ts)
  else match ts with
       | [] => None
       | x :: ts =>
           if n <? tok_size bsize x then None
           else '(a, b) ← cut (n - tok_size bsize x) ts; Some (x :: a, b)
       end.

Definition write (p : t) (x : tok) : Z * t :=
  match t_rest p with
  | [] => (OK, Make (t_done p ++ [x]) [])
  | _ => (INVALID_OPERATION, p)
  end.

Definition append (p q : t) (start len : Z) : Z * t :=
  match t_rest p with
  | [] =>
      match cut start (t_done q ++ t_rest q) with
      | Some (_, b) =>
          match cut len b with
          | Some (m, _) => (OK, Make (t_done p ++ m) [])
          | None => (BAD_VALUE, p)
          end
      | None => (BAD_VALUE, p)
      end
  | _ => (INVALID_OPERATION, p)
  end.

#[global] Instance ops : ParcelOps t := {|
  p_new := Make [] [];
  p_writeStrongBinder p b := write p (TBinder b);
  p_writeInt32 p z := write p (T32 (wrap 32 z));
  p_writeUint32 p z := write p (T32 (wrap 32 z));
  p_writeUint64 p z := write p (T64 (wrap 64 z));
  p_appendFrom := append;
  p_dataSize p := toks_size bsize (t_done p ++ t_rest p);
  p_dataPosition p := toks_size bsize (t_done p);
  p_rewind p := Make [] (t_done p ++ t_rest p);
  p_freeData p := Make [] [];
  p_readStrongBinder p :=
    match t_rest p with
    | TBinder b :: r =>
        if b =? 0 then ((UNEXPECTED_NULL, 0), p)
        else ((OK, b), Make (t_done p ++ [TBinder b]) r)
    | _ => ((BAD_TYPE, 0), p)
    end;
  p_readInt32 p :=
    match t_rest p with
    | T32 w :: r => ((OK, sext 32 w), Make (t_done p ++ [T32 w]) r)
    | _ => ((NOT_ENOUGH_DATA, 0), p)
    end;
  p_readUint32 p :=
    match t_rest p with
    | T32 w :: r => ((OK, wrap 32 w), Make (t_done p ++ [T32 w]) r)
    | _ => ((NOT_ENOUGH_DATA, 0), p)
    end;
  p_readInt32_value p :=
    match t_rest p with
    | T32 w :: r => (sext 32 w, Make (t_done p ++ [T32 w]) r)
    | _ => (0, p)
    end;
  p_readUint64_value p :=
    match t_rest p with
    | T64 w :: r => (wrap 64 w, Make (t_done p ++ [T64 w]) r)
    | _ => (0, p)
    end
|}.

Lemma cut_app a b : cut (toks_size bsize a) (a ++ b) = Some (a, b).
Proof.
  induction a as [|x a IH]; simpl; [by destruct b|].
  assert (0 < tok_size bsize x) by (destruct x; simpl; unfold bsize; lia).
  assert (0 <= toks_size bsize a).
  { clear. induction a as [|y a IH]; simpl; [unfold toks_size; simpl; lia|].
    unfold toks_size in *. simpl. destruct y; simpl; unfold bsize in *; lia. }
  unfold toks_size in *. simpl.
  destruct (Z.eqb_spec (tok_size bsize x + lsum (tok_size bsize) a) 0); [lia|].
  destruct (Z.ltb_spec (tok_size bsize x + lsum (tok_size bsize) a) (tok_size bsize x)); [lia|].
  replace (tok_size bsize x + lsum (tok_size bsize) a - tok_size bsize x)
    with (lsum (tok_size bsize) a) by lia.
  by rewrite IH.
Qed.

Lemma write_ok p x p' :
  write p x = (OK, p') -> t_rest p = [] -> t_done p' = t_done p ++ [x] /\ t_rest p' = [].
Proof. unfold write. destruct p as [d [|]]; simpl; intros; by simplify_eq. Qed.

#[global] Instance laws : ParcelLaws t.
Proof.
  refine {| binder_size := bsize; consumed := t_done; unread := t_rest |};
    try (intros; by eauto using write_ok).
  - intros p q start len p' a b c H Hr Hc <- <-. revert H. simpl. unfold append.
    rewrite Hr. rewrite Hc, cut_app, cut_app. intros; by simplify_eq.
  - intros p b r Hr Hb. simpl. rewrite Hr. destruct (Z.eqb_spec b 0); [done|]. eauto.
  - intros p b p'. simpl. repeat case_match; intros; simplify_eq; boolp; done.
  - intros p w r Hr. simpl. rewrite Hr. eauto 10.
  - intros p w r Hr. simpl. rewrite Hr. eauto 10.
  - intros p w r Hr. simpl. rewrite Hr. eauto 10.
Defined.
End TokParcel.
