(* ===== verification/ParcelData.v ===== *)
(** * Typed data in parcels (binder/Parcel.h)

    The templates [writeData] and [readData] serialise a value by recursion over
    its C++ type.  The types they accept are the inductive type [ty], their values
    [val], and the two families of overloads are one Fixpoint each.  The member
    functions they end in are implemented by the platform: they are the class
    [DataOps], and what Parcel.h documents of them is [DataLaws].  The wire format
    is the predicate [chunk]; writing produces it and reading takes it back. *)

From S2P Require Import Prelude Parcel.
Local Open Scope Z_scope.

(** ** Types and values *)

Inductive scalar : Type :=
| Sbool | Sint8 | Suint8 | Schar16 | Sint32 | Suint32 | Sint64 | Suint64 | Sfloat | Sdouble.

#[export] Instance scalar_eq_dec : EqDecision scalar.
Proof. solve_decision. Defined.

(** The holders of nullable data. *)
Inductive holder : Type := Optional | UniquePtr | SharedPtr.

Inductive ty : Type :=
| Scalar (s : scalar)
| Enum (underlying : scalar)
| String16
| StdString
| UniqueFdT
(** a class derived from [Parcelable] *)
| ParcelableT (class : Z)
(** [sp<IBinder>] *)
| Sp
| Nullable (h : holder) (t : ty)
| Vector (t : ty)
| Array (t : ty) (n : nat).

(** Integers as their values, floating-point numbers as their bits, an object of a
    class as a number its class interprets, a binder as its address. *)
Inductive val : Type :=
| VInt (z : Z)
| VString16 (units : list Z)
| VString (chars : list byte)
| VFd (fd : Z)
| VObj (x : Z)
| VBinder (b : Z)
| VNull
| VPresent (v : val)
| VList (vs : list val).

Definition sizeof (s : scalar) : nat :=
  match s with
  | Sbool | Sint8 | Suint8 => 1
  | Schar16 => 2
  | Sint32 | Suint32 | Sfloat => 4
  | Sint64 | Suint64 | Sdouble => 8
  end%nat.

Definition signed (s : scalar) : bool :=
  match s with Sint8 | Sint32 | Sint64 => true | _ => false end.

Definition bits (s : scalar) : Z := 8 * Z.of_nat (sizeof s).

Definition in_range (s : scalar) (z : Z) : Prop :=
  match s with
  | Sbool => z = 0 \/ z = 1
  | _ => if signed s then - 2 ^ (bits s - 1) <= z < 2 ^ (bits s - 1) else in_word (bits s) z
  end.

(** Conversion of the bits of an object to a scalar. *)
Definition of_bits (s : scalar) (z : Z) : Z :=
  if signed s then sext (bits s) z else wrap (bits s) z.

(** [is_pointer_equivalent_array_v] *)
Definition is_pointer_equivalent_array (t : ty) : option scalar :=
  match t with
  | Scalar Sbool | Scalar Schar16 => None
  | Scalar s => Some s
  | Enum s => if (sizeof s =? 1)%nat || (sizeof s =? 4)%nat then Some s else None
  | _ => None
  end.

(** [is_parcel_nullable_type_v] holds of the holders; this is what they may hold, and
    the int32 that stands for null *)
Definition kNonNullParcelableFlag : Z := 1.
Definition kNullParcelableFlag : Z := 0.
Definition kNullVectorSize : Z := -1.

Definition null_flag (t : ty) : option Z :=
  match t with
  | Vector _ | String16 | StdString => Some kNullVectorSize
  | ParcelableT _ => Some kNullParcelableFlag
  | Array _ _ => Some kNullVectorSize
  | _ => None
  end.

(** ** The member functions of Parcel *)

(** One name per pair of a writer and its reader. *)
Inductive prim : Type :=
| PBool | PByte | PChar | PInt32 | PUint32 | PInt64 | PUint64 | PFloat | PDouble
| PString16 | PUtf8 | PFd | PStrongBinder.

Class DataOps (P : Type) := {
  (** [writeBool], ..., [writeStrongBinder]: the status *)
  d_write : prim -> val -> P -> Z * P;
  (** [readBool], ..., [readStrongBinder]: the status and the value *)
  d_read : prim -> P -> (Z * val) * P;
  d_readNullableStrongBinder : P -> (Z * val) * P;
  (** [write(data, len)] *)
  d_write_bytes : list byte -> P -> Z * P;
  (** [writeInplace(len)]: the address, if it is not null; and stores there *)
  d_writeInplace : Z -> P -> option Z * P;
  d_store : Z -> list byte -> P -> P;
  (** [readInplace(len)]: the address, if it is not null; and the memory there *)
  d_readInplace : Z -> P -> option Z * P;
  d_load : Z -> nat -> P -> list byte;
  d_dataPosition : P -> Z;
  d_setDataPosition : Z -> P -> P;
  d_dataAvail : P -> Z;
  (** [new (std::nothrow)]: whether it gives an object *)
  d_new : P -> bool;
  (** [writeToParcel], [readFromParcel] of the class *)
  d_writeToParcel : Z -> Z -> P -> Z * P;
  d_readFromParcel : Z -> P -> (Z * Z) * P
}.

Definition INT32_MAX : Z := 2 ^ 31 - 1.
Definition EOVERFLOW : Z := 75.

Section data.
Context {P : Type} `{!DataOps P}.
(** bits of [size_t] *)
Variable size_bits : Z.

Definition SIZE_MAX : Z := 2 ^ size_bits - 1.

(** ** writeData *)

(** The overloads for scalars. *)
Definition write_scalar (s : scalar) (z : Z) (p : P) : Z * P :=
  match s with
  | Sbool => d_write PBool (VInt z) p
  | Sint8 => d_write PByte (VInt z) p
  | Suint8 => d_write PByte (VInt (sext 8 z)) p
  | Schar16 => d_write PChar (VInt z) p
  | Sint32 => d_write PInt32 (VInt z) p
  | Suint32 => d_write PUint32 (VInt z) p
  | Sint64 => d_write PInt64 (VInt z) p
  | Suint64 => d_write PUint64 (VInt z) p
  | Sfloat => d_write PFloat (VInt z) p
  | Sdouble => d_write PDouble (VInt z) p
  end.

Definition write_int32 (z : Z) (p : P) : Z * P := write_scalar Sint32 z p.

(** The element loop: it stops at the first status that is not OK. *)
Fixpoint write_all (f : val -> P -> Z * P) (vs : list val) (p : P) : Z * P :=
  match vs with
  | [] => (OK, p)
  | v :: vs =>
      let '(status, p) := f v p in
      if negb (status =? OK) then (status, p) else write_all f vs p
  end.

Definition int_of (v : val) : Z := match v with VInt z => z | _ => 0 end.

(** The memory of an array of scalars. *)
Definition array_bytes (size : nat) (vs : list val) : list byte :=
  vs ≫= fun v => le_encode size (int_of v).

(** Not a value of the type: C++ does not compile it. *)
Definition ill_typed (p : P) : Z * P := (BAD_TYPE, p).

Fixpoint writeData (t : ty) (v : val) (p : P) {struct t} : Z * P :=
  match t, v with
  | Scalar s, VInt z => write_scalar s z p
  | Enum s, VInt z => write_scalar s z p
  | String16, VString16 _ => d_write PString16 v p
  | StdString, VString _ => d_write PUtf8 v p
  | UniqueFdT, VFd _ => d_write PFd v p
  | ParcelableT class, VObj x =>
      let '(status, p) := write_int32 kNonNullParcelableFlag p in
      if negb (status =? OK) then (status, p) else d_writeToParcel class x p
  | Sp, VBinder _ => d_write PStrongBinder v p
  | Nullable _ t', VNull =>
      match null_flag t' with Some flag => write_int32 flag p | None => ill_typed p end
  | Nullable _ t', VPresent v' => writeData t' v' p
  | Vector t', VList vs =>
      if INT32_MAX <? Z.of_nat (length vs) then (BAD_VALUE, p)
      else
        let '(_, p) := write_int32 (Z.of_nat (length vs)) p in
        match is_pointer_equivalent_array t' with
        | Some s =>
            if SIZE_MAX / Z.of_nat (sizeof s) <? Z.of_nat (length vs) then (BAD_VALUE, p)
            else d_write_bytes (array_bytes (sizeof s) vs) p
        | None =>
            match t' with
            | Scalar _ =>
                let '(data, p) :=
                  d_writeInplace (wrap size_bits (Z.of_nat (length vs * sizeof Sint32))) p in
                match data with
                | None => (BAD_VALUE, p)
                | Some data => (OK, d_store data (array_bytes (sizeof Sint32) vs) p)
                end
            | _ => write_all (writeData t') vs p
            end
        end
  | Array t' n, VList vs =>
      let '(status, p) := write_int32 (Z.of_nat n) p in
      if negb (status =? OK) then (status, p)
      else
        match is_pointer_equivalent_array t' with
        | Some s => d_write_bytes (array_bytes (sizeof s) vs) p
        | None => write_all (writeData t') vs p
        end
  | _, _ => ill_typed p
  end.

(** ** readData *)

Definition read_scalar (s : scalar) (p : P) : (Z * val) * P :=
  match s with
  | Sbool => d_read PBool p
  | Sint8 => d_read PByte p
  | Suint8 => let '((status, v), p) := d_read PByte p in ((status, VInt (wrap 8 (int_of v))), p)
  | Schar16 => d_read PChar p
  | Sint32 => d_read PInt32 p
  | Suint32 => d_read PUint32 p
  | Sint64 => d_read PInt64 p
  | Suint64 => d_read PUint64 p
  | Sfloat => d_read PFloat p
  | Sdouble => d_read PDouble p
  end.

Definition read_int32 (p : P) : (Z * Z) * P :=
  let '((status, v), p) := d_read PInt32 p in ((status, int_of v), p).

(** [n] elements; the first status that is not OK ends the loop. *)
Fixpoint read_all (f : P -> (Z * val) * P) (n : nat) (p : P) : (Z * list val) * P :=
  match n with
  | O => ((OK, []), p)
  | S n =>
      let '((status, v), p) := f p in
      if negb (status =? OK) then ((status, []), p)
      else let '((status, vs), p) := read_all f n p in ((status, v :: vs), p)
  end.

(** An array of [n] scalars from its memory. *)
Fixpoint array_values (s : scalar) (n : nat) (bs : list byte) : list val :=
  match n with
  | O => []
  | S n => VInt (of_bits s (le_decode (take (sizeof s) bs))) :: array_values s n (drop (sizeof s) bs)
  end.

(** [static_cast<bool>] and [static_cast<char16_t>] of an int32 *)
Definition cast_int32 (s : scalar) (z : Z) : Z :=
  match s with Sbool => if z =? 0 then 0 else 1 | _ => wrap (bits s) z end.

Definition as_list (r : (Z * list val) * P) : (Z * val) * P :=
  let '((status, vs), p) := r in ((status, VList vs), p).

Definition failed (status : Z) (p : P) : (Z * val) * P := ((status, VNull), p).

(** The elements of a vector of [size], after its checks; [read] is [readData] of the
    element type, and [nullable] is READ_FLAG_SP_NULLABLE: null binders may be read. *)
Definition vector_body (t' : ty) (read : bool -> P -> (Z * val) * P) (nullable : bool) (size : Z)
    (p : P) : (Z * val) * P :=
  match is_pointer_equivalent_array t' with
  | Some s =>
      let dataLen := size * Z.of_nat (sizeof s) in
      if SIZE_MAX <? dataLen then failed (- EOVERFLOW) p
      else
        let '(data, p) := d_readInplace dataLen p in
        match data with
        | None => failed BAD_VALUE p
        | Some data =>
            ((OK, VList (array_values s (Z.to_nat size) (d_load data (Z.to_nat dataLen) p))), p)
        end
  | None =>
      match t' with
      | Scalar s =>
          let '(data, p) := d_readInplace (wrap size_bits (size * Z.of_nat (sizeof Sint32))) p in
          match data with
          | None => failed BAD_VALUE p
          | Some data =>
              ((OK, VList ((fun v => VInt (cast_int32 s (int_of v))) <$>
                            array_values Sint32 (Z.to_nat size)
                              (d_load data (Z.to_nat size * sizeof Sint32) p))), p)
          end
      | Sp =>
          as_list (read_all (if nullable then d_readNullableStrongBinder
                             else d_read PStrongBinder) (Z.to_nat size) p)
      | _ => as_list (read_all (read false) (Z.to_nat size) p)
      end
  end.

(** The elements of an array of [n]. *)
Definition array_body (t' : ty) (read : bool -> P -> (Z * val) * P) (nullable : bool) (n : nat)
    (p : P) : (Z * val) * P :=
  match is_pointer_equivalent_array t' with
  | Some s =>
      let '(data, p) := d_readInplace (Z.of_nat (n * sizeof s)) p in
      match data with
      | None => failed BAD_VALUE p
      | Some data => ((OK, VList (array_values s n (d_load data (n * sizeof s) p))), p)
      end
  | None =>
      match t' with
      | Sp =>
          as_list (read_all (if nullable then d_readNullableStrongBinder
                             else d_read PStrongBinder) n p)
      | Array _ _ => as_list (read_all (read nullable) n p)
      | _ => as_list (read_all (read false) n p)
      end
  end.

Fixpoint readData (t : ty) (nullable : bool) (p : P) {struct t} : (Z * val) * P :=
  match t with
  | Scalar s | Enum s => read_scalar s p
  | String16 => d_read PString16 p
  | StdString => d_read PUtf8 p
  | UniqueFdT => d_read PFd p
  | ParcelableT class =>
      let '((status, present), p) := read_int32 p in
      if negb (status =? OK) then failed status p
      else if negb (present =? kNonNullParcelableFlag) then failed UNEXPECTED_NULL p
      else let '((status, x), p) := d_readFromParcel class p in ((status, VObj x), p)
  | Sp => d_read PStrongBinder p
  | Nullable h t' =>
      let startPos := d_dataPosition p in
      let '((status, peek), p) := read_int32 p in
      if negb (status =? OK) then failed status p
      else
        match null_flag t' with
        | None => failed BAD_TYPE p
        | Some flag =>
            if peek =? flag then ((OK, VNull), p)
            else if match h with Optional => false | _ => negb (d_new p) end
            then failed NO_MEMORY p
            else
              let p := d_setDataPosition startPos p in
              let '((status, v), p) :=
                readData t' (match t' with Vector _ | Array _ _ => true | _ => false end) p in
              ((status, VPresent v), p)
        end
  | Vector t' =>
      let '((status, size), p) := read_int32 p in
      if negb (status =? OK) then failed status p
      else if size <? 0 then failed UNEXPECTED_NULL p
      else if d_dataAvail p <? size then failed BAD_VALUE p
      else vector_body t' (readData t') nullable size p
  | Array t' n =>
      let '((status, size), p) := read_int32 p in
      if negb (status =? OK) then failed status p
      else if size <? 0 then failed UNEXPECTED_NULL p
      else if negb (size =? Z.of_nat n) then failed BAD_VALUE p
      else array_body t' (readData t') nullable n p
  end.
End data.

(** ** Well-formed UTF-8

    A [std::string] travels as UTF-16, so its bytes come back only if they encode
    characters: no stray or missing continuation bytes, no overlong forms, no surrogates. *)
Definition byte_in (lo hi : Z) (b : byte) : bool :=
  let z := Z.of_N (Byte.to_N b) in (lo <=? z) && (z <=? hi).

Abbreviation continuation := (byte_in 0x80 0xbf).

Fixpoint valid_utf8 (s : list byte) : bool :=
  match s with
  | [] => true
  | b1 :: s1 =>
      if byte_in 0 0x7f b1 then valid_utf8 s1
      else match s1 with
      | [] => false
      | b2 :: s2 =>
          if byte_in 0xc2 0xdf b1 then continuation b2 && valid_utf8 s2
          else match s2 with
          | [] => false
          | b3 :: s3 =>
              if byte_in 0xe0 0xef b1 then
                byte_in (if byte_in 0xe0 0xe0 b1 then 0xa0 else 0x80)
                        (if byte_in 0xed 0xed b1 then 0x9f else 0xbf) b2 &&
                continuation b3 && valid_utf8 s3
              else match s3 with
              | [] => false
              | b4 :: s4 =>
                  byte_in 0xf0 0xf4 b1 &&
                  byte_in (if byte_in 0xf0 0xf0 b1 then 0x90 else 0x80)
                          (if byte_in 0xf4 0xf4 b1 then 0x8f else 0xbf) b2 &&
                  continuation b3 && continuation b4 && valid_utf8 s4
              end
          end
      end
  end.

(** "a" and U+20AC; an overlong "/"; a surrogate. *)
Example utf8_tests :
  map valid_utf8 [[Byte.x61; Byte.xe2; Byte.x82; Byte.xac]; [Byte.xc0; Byte.xaf];
                  [Byte.xed; Byte.xa0; Byte.x80]] = [true; false; false].
Proof. reflexivity. Qed.

(** The strings of a value. *)
Fixpoint utf8_val (v : val) : bool :=
  match v with
  | VString chars => valid_utf8 chars
  | VPresent v => utf8_val v
  | VList vs => forallb utf8_val vs
  | _ => true
  end.

(** ** What Parcel.h documents of the member functions

    The data of a parcel is a list of cells (bytes, some of which stand for objects);
    [d_contents] is all of it and [d_remaining] what follows the position.  Every
    value is written as a chunk that the reader of the same name takes back (a string of
    bytes if it is UTF-8), and a chunk is at least one byte. *)
Class DataLaws (P : Type) `{!DataOps P} := {
  cell : Type;
  d_contents : P -> list cell;
  d_remaining : P -> list cell;
  (** the chunk of a value, and of raw bytes with their padding *)
  encodes : prim -> val -> list cell -> Prop;
  raw : list byte -> list cell;
  (** chunks of objects of a class *)
  obj_chunk : Z -> Z -> list cell -> Prop;
  encodes_nonempty k v c : encodes k v c -> c <> [];
  raw_length bs : (length bs <= length (raw bs))%nat;
  write_appends k v p p' :
    d_write k v p = (OK, p') ->
    exists c, encodes k v c /\ d_contents p' = d_contents p ++ c;
  write_bytes_appends bs p p' :
    d_write_bytes bs p = (OK, p') -> d_contents p' = d_contents p ++ raw bs;
  writeInplace_appends n p data p' bs :
    d_writeInplace n p = (Some data, p') -> Z.of_nat (length bs) = n ->
    d_contents (d_store data bs p') = d_contents p ++ raw bs;
  writeToParcel_appends class x p p' :
    d_writeToParcel class x p = (OK, p') ->
    exists c, obj_chunk class x c /\ d_contents p' = d_contents p ++ c;
  read_back k v c rest q :
    encodes k v c -> d_remaining q = c ++ rest -> k <> PFd ->
    (k = PStrongBinder -> v <> VBinder 0) -> (k = PUtf8 -> utf8_val v = true) ->
    exists q', d_read k q = ((OK, v), q') /\
               d_remaining q' = rest /\ d_contents q' = d_contents q;
  readNullableStrongBinder_back v c rest q :
    encodes PStrongBinder v c -> d_remaining q = c ++ rest ->
    exists q', d_readNullableStrongBinder q = ((OK, v), q') /\
               d_remaining q' = rest /\ d_contents q' = d_contents q;
  readInplace_back bs rest q :
    d_remaining q = raw bs ++ rest ->
    exists data q', d_readInplace (Z.of_nat (length bs)) q = (Some data, q') /\
               d_load data (length bs) q' = bs /\
               d_remaining q' = rest /\ d_contents q' = d_contents q;
  readFromParcel_back class x c rest q :
    obj_chunk class x c -> d_remaining q = c ++ rest ->
    exists q', d_readFromParcel class q = ((OK, x), q') /\
               d_remaining q' = rest /\ d_contents q' = d_contents q;
  (** a string starts with its length, which is not the null size *)
  peek_string k v c rest q :
    k = PString16 \/ k = PUtf8 -> encodes k v c -> d_remaining q = c ++ rest ->
    exists z q', d_read PInt32 q = ((OK, VInt z), q') /\ z <> kNullVectorSize /\
                 d_contents q' = d_contents q;
  setDataPosition_back q q' :
    d_contents q' = d_contents q ->
    d_remaining (d_setDataPosition (d_dataPosition q) q') = d_remaining q /\
    d_contents (d_setDataPosition (d_dataPosition q) q') = d_contents q;
  dataAvail_remaining q : d_dataAvail q = Z.of_nat (length (d_remaining q))
}.
