(* ===== verification/ParcelWire.v ===== *)
(** * The wire format of typed data

    [chunk] states what a value of a type looks like in a parcel, and [typed] which
    values a type has.  Against what Parcel.h documents of the member functions,
    [writeData] produces chunks, [readData] takes them back, and what it reads of any
    parcel is a value of the type.  The module [TokenParcel] is a parcel that keeps the
    values it is given, on which the documented laws hold. *)

From S2P Require Import Prelude Parcel ParcelData.
Local Open Scope Z_scope.

(** ** The values of a type *)

(** [typed t nullable v]: [v] is a value of type [t] that can be read; null binders
    only where the flag allows them. *)
Fixpoint typed (t : ty) (nullable : bool) (v : val) {struct t} : Prop :=
  match t, v with
  | Scalar s, VInt z | Enum s, VInt z => in_range s z
  | String16, VString16 _ | StdString, VString _ | UniqueFdT, VFd _ | ParcelableT _, VObj _ => True
  | Sp, VBinder b => b <> 0
  | Nullable _ t', VNull => is_Some (null_flag t')
  | Nullable _ t', VPresent v' =>
      is_Some (null_flag t') /\
      typed t' (match t' with Vector _ | Array _ _ => true | _ => false end) v'
  | Vector t', VList vs =>
      Forall (fun v =>
        match t' with
        | Sp => exists b, v = VBinder b /\ (nullable = false -> b <> 0)
        | _ => typed t' false v
        end) vs
  | Array t' n, VList vs =>
      length vs = n /\
      Forall (fun v =>
        match t' with
        | Sp => exists b, v = VBinder b /\ (nullable = false -> b <> 0)
        | Array _ _ => typed t' nullable v
        | _ => typed t' false v
        end) vs
  | _, _ => False
  end.

(** [occurs test t]: a type that [test] holds of occurs in [t]. *)
Fixpoint occurs (test : ty -> bool) (t : ty) : bool :=
  test t || match t with Nullable _ t | Vector t | Array t _ => occurs test t | _ => false end.

(** Descriptors are duplicated when they are read. *)
Definition is_fd (t : ty) : bool := match t with UniqueFdT => true | _ => false end.

(** Vectors and arrays of enumerations over [bool]: the overloads copy their bytes, also
    those that no [bool] has. *)
Definition is_bool_enum (t : ty) : bool := match t with Enum Sbool => true | _ => false end.

Definition is_bool_enums (t : ty) : bool :=
  match t with Vector t | Array t _ => is_bool_enum t | _ => false end.

(** Types whose data is read into a new object, and types with a length in front. *)
Definition is_heap (t : ty) : bool :=
  match t with Nullable UniquePtr _ | Nullable SharedPtr _ => true | _ => false end.

Definition is_vector (t : ty) : bool := match t with Vector _ => true | _ => false end.

(** [static_assert(N <= std::numeric_limits<int32_t>::max())] *)
Definition is_big_array (t : ty) : bool :=
  match t with Array _ n => INT32_MAX <? Z.of_nat n | _ => false end.

(** The memory of every vector of the value, as 32-bit words, has a size. *)
Fixpoint fits (size_bits : Z) (t : ty) (v : val) {struct t} : Prop :=
  match t, v with
  | Nullable _ t', VPresent v' => fits size_bits t' v'
  | Vector t', VList vs =>
      Z.of_nat (length vs * sizeof Sint32) <= SIZE_MAX size_bits /\ Forall (fits size_bits t') vs
  | Array t' _, VList vs => Forall (fits size_bits t') vs
  | _, _ => True
  end.

Section laws.
Context {P : Type} `{!DataOps P} `{L : !DataLaws P}.
Variable size_bits : Z.
Hypothesis size_bits_ok : 32 <= size_bits.
(** There is memory for a word: the vector overload does not look at the status of
    the write of the length. *)
Definition words_written : Prop := forall z (p : P),
  in_range Sint32 z -> exists p', d_write PInt32 (VInt z) p = (OK, p').

(** There is memory for the objects that are read. *)
Definition objects_made : Prop := forall q : P, d_new q = true.
Abbreviation cell := (@cell P _ L).

(** ** The wire format *)

Definition scalar_prim (s : scalar) : prim :=
  match s with
  | Sbool => PBool | Sint8 | Suint8 => PByte | Schar16 => PChar | Sint32 => PInt32
  | Suint32 => PUint32 | Sint64 => PInt64 | Suint64 => PUint64 | Sfloat => PFloat
  | Sdouble => PDouble
  end.

Definition scalar_wire (s : scalar) (z : Z) : Z :=
  match s with Suint8 => sext 8 z | _ => z end.

Definition scalar_chunk (s : scalar) (z : Z) (c : list cell) : Prop :=
  encodes (scalar_prim s) (VInt (scalar_wire s z)) c.

(** Consecutive chunks. *)
Definition chunks (f : val -> list cell -> Prop) (vs : list val) (c : list cell) : Prop :=
  exists cs, Forall2 f vs cs /\ c = concat cs.

(** A length, then the elements. *)
Definition counted (n : nat) (body : list cell -> Prop) (c : list cell) : Prop :=
  exists c1 c2, scalar_chunk Sint32 (Z.of_nat n) c1 /\ body c2 /\ c = c1 ++ c2.

Fixpoint chunk (t : ty) (v : val) (c : list cell) {struct t} : Prop :=
  match t, v with
  | Scalar s, VInt z => scalar_chunk s z c
  | Enum s, VInt z => scalar_chunk s z c
  | String16, VString16 _ => encodes PString16 v c
  | StdString, VString _ => encodes PUtf8 v c
  | UniqueFdT, VFd _ => encodes PFd v c
  | ParcelableT class, VObj x =>
      exists c1 c2, scalar_chunk Sint32 kNonNullParcelableFlag c1 /\ obj_chunk class x c2 /\
                    c = c1 ++ c2
  | Sp, VBinder _ => encodes PStrongBinder v c
  | Nullable _ t', VNull =>
      match null_flag t' with Some flag => scalar_chunk Sint32 flag c | None => False end
  | Nullable _ t', VPresent v' => chunk t' v' c
  | Vector t', VList vs =>
      Z.of_nat (length vs) <= INT32_MAX /\
      counted (length vs) (fun c2 =>
        match is_pointer_equivalent_array t' with
        | Some s => c2 = raw (array_bytes (sizeof s) vs) /\
                    Z.of_nat (length vs) <= SIZE_MAX size_bits / Z.of_nat (sizeof s)
        | None =>
            match t' with
            | Scalar _ => c2 = raw (array_bytes (sizeof Sint32) vs) /\
                          Z.of_nat (length vs * sizeof Sint32) <= SIZE_MAX size_bits
            | _ => chunks (chunk t') vs c2
            end
        end) c
  | Array t' n, VList vs =>
      counted n (fun c2 =>
        match is_pointer_equivalent_array t' with
        | Some s => c2 = raw (array_bytes (sizeof s) vs)
        | None => chunks (chunk t') vs c2
        end) c
  | _, _ => False
  end.

(** ** Writing produces the wire format *)

Lemma write_scalar_chunk s z p p' :
  write_scalar s z p = (OK, p') ->
  exists c, scalar_chunk s z c /\ d_contents p' = d_contents p ++ c.
Proof. destruct s; apply write_appends. Qed.

Lemma write_int32_chunk z p :
  words_written -> in_range Sint32 z ->
  exists p' c, write_int32 z p = (OK, p') /\ scalar_chunk Sint32 z c /\
               d_contents p' = d_contents p ++ c.
Proof.
  intros write_int32_ok Hz. destruct (write_int32_ok z p Hz) as [p' Hp']. exists p'.
  destruct (write_appends _ _ _ _ Hp') as (c & Hc & Ha). by exists c.
Qed.

(** The overloads that look at the status. *)
Lemma write_int32_then z p (k : P -> Z * P) p' :
  (let '(status, p) := write_int32 z p in
   if negb (status =? OK) then (status, p) else k p) = (OK, p') ->
  exists p1 c, scalar_chunk Sint32 z c /\ d_contents p1 = d_contents p ++ c /\ k p1 = (OK, p').
Proof.
  destruct (write_int32 z p) as [status p1] eqn:Hw.
  destruct (Z.eqb_spec status OK) as [->|Hst]; cbn [negb]; [|congruence].
  intros Hk. destruct (write_appends _ _ _ _ Hw) as (c & Hc & Ha). by exists p1, c.
Qed.

Lemma count_range n : Z.of_nat n <= INT32_MAX -> in_range Sint32 (Z.of_nat n).
Proof.
  unfold INT32_MAX, in_range. cbn [signed]. change (2 ^ 31) with 2147483648.
  change (2 ^ (bits Sint32 - 1)) with 2147483648. lia.
Qed.

Lemma write_all_chunks (f : val -> P -> Z * P) g vs p p' :
  (forall v p p', v ∈ vs -> f v p = (OK, p') ->
    exists c, g v c /\ d_contents p' = d_contents p ++ c) ->
  write_all f vs p = (OK, p') ->
  exists c, chunks g vs c /\ d_contents p' = d_contents p ++ c.
Proof.
  revert p. induction vs as [|v vs IH]; intros p Hf Hp; simpl in Hp.
  - simplify_eq. exists []. rewrite app_nil_r. split; [|done]. by exists [].
  - destruct (f v p) as [st p1] eqn:Hv. destruct (st =? OK) eqn:Hst; cbn [negb] in Hp; boolp;
      [|by simplify_eq]. subst st.
    destruct (Hf v p p1 ltac:(set_solver) Hv) as (c1 & Hc1 & Ha1).
    destruct (IH p1 (fun v' q q' Hin => Hf v' q q' ltac:(set_solver)) Hp) as (c2 & (cs & Hcs & ->) & Ha2).
    exists (c1 ++ concat cs). split; [|by rewrite Ha2, Ha1, app_assoc].
    exists (c1 :: cs). split; [by constructor|done].
Qed.

Lemma ill_typed_failed (p p' : P) : ill_typed p = (OK, p') -> False.
Proof. by intros [= ?]. Qed.

Lemma counted_appends n body p p1 p' c1 :
  scalar_chunk Sint32 (Z.of_nat n) c1 -> d_contents p1 = d_contents p ++ c1 ->
  (exists c2, body c2 /\ d_contents p' = d_contents p1 ++ c2) ->
  exists c, counted n body c /\ d_contents p' = d_contents p ++ c.
Proof.
  intros Hc1 Ha1 (c2 & Hc2 & Ha2). exists (c1 ++ c2). split; [by exists c1, c2|].
  by rewrite Ha2, Ha1, app_assoc.
Qed.

Lemma length_array_bytes size vs : length (array_bytes size vs) = (length vs * size)%nat.
Proof.
  unfold array_bytes. induction vs as [|v vs IH]; csimpl; [done|].
  by rewrite length_app, length_le_encode, IH.
Qed.

Lemma size_word z : 0 <= z <= SIZE_MAX size_bits -> wrap size_bits z = z.
Proof. intros. apply wrap_small. unfold SIZE_MAX, in_word in *. lia. Qed.

(** What a type's writer appends, as the induction needs it. *)
Definition appends (t : ty) : Prop :=
  occurs is_big_array t = false -> (occurs is_vector t = true -> words_written) ->
  forall v p p', fits size_bits t v -> writeData size_bits t v p = (OK, p') ->
    exists c, chunk t v c /\ d_contents p' = d_contents p ++ c.

Lemma elements_append t vs p p' :
  appends t -> occurs is_big_array t = false -> (occurs is_vector t = true -> words_written) ->
  Forall (fits size_bits t) vs ->
  write_all (writeData size_bits t) vs p = (OK, p') ->
  exists c, chunks (chunk t) vs c /\ d_contents p' = d_contents p ++ c.
Proof.
  intros Ht Hb Hww Hf. apply write_all_chunks. intros v q q' Hin. apply Ht; [done|done|]. by rewrite Forall_forall in Hf; apply Hf.
Qed.

Lemma vector_appends t vs p p' :
  appends t -> occurs is_big_array t = false -> words_written ->
  fits size_bits (Vector t) (VList vs) ->
  writeData size_bits (Vector t) (VList vs) p = (OK, p') ->
  exists c, chunk (Vector t) (VList vs) c /\ d_contents p' = d_contents p ++ c.
Proof using size_bits_ok.
  cbn [writeData fits]. intros Ht Hb Hww [Hsz Hf].
  destruct (INT32_MAX <? Z.of_nat (length vs)) eqn:Hmax; boolp; [by intros [= ?]|].
  destruct (write_int32_chunk (Z.of_nat (length vs)) p Hww) as (p1 & c1 & -> & Hc1 & Ha1);
    [by apply count_range|].
  intros Hp. cbn [chunk]. match goal with |- exists c, (_ /\ counted ?n ?body c) /\ _ =>
    enough (exists c, counted n body c /\ d_contents p' = d_contents p ++ c) as (c & ? & ?)
      by by exists c end.
  apply (counted_appends _ _ p p1 p' c1); [done|done|].
  destruct (is_pointer_equivalent_array t) as [s|].
  - destruct (_ <? _) eqn:Hlim in Hp; boolp; [by simplify_eq|].
    exists (raw (array_bytes (sizeof s) vs)). split; [done|]. by apply write_bytes_appends.
  - destruct t; try (by apply elements_append).
    destruct (d_writeInplace _ p1) as [[data|] p2] eqn:Hd; [|by simplify_eq].
    injection Hp as <-. exists (raw (array_bytes (sizeof Sint32) vs)). split; [done|].
    eapply writeInplace_appends; [exact Hd|]. rewrite length_array_bytes, size_word; lia.
Qed.

(** What a write that succeeds appends is the value in the wire format. *)
Lemma writeData_chunk t : appends t.
Proof using size_bits_ok.
  induction t as [s|s| | | |class| |h t IH|t IH|t IH n]; intros Hb Hww v p p' Hf; destruct v;
    try (by intros ?%ill_typed_failed);
    try (by apply write_scalar_chunk); try (by apply write_appends); cbn [occurs] in Hb, Hww; boolp.
  - cbn [writeData]. intros (p1 & c1 & Hc1 & Ha1 & Hp)%write_int32_then.
    destruct (writeToParcel_appends _ _ _ _ Hp) as (c2 & Hc2 & Ha2).
    exists (c1 ++ c2). split; [by exists c1, c2|]. by rewrite Ha2, Ha1, app_assoc.
  - cbn [writeData chunk]. destruct (null_flag t); [apply write_scalar_chunk|].
    by intros ?%ill_typed_failed.
  - by apply IH.
  - apply vector_appends; auto.
  - cbn [writeData]. intros (p1 & c1 & Hc1 & Ha1 & Hp)%write_int32_then.
    apply (counted_appends _ _ p p1 p' c1); [done|done|].
    destruct (is_pointer_equivalent_array t) as [s|].
    + exists (raw (array_bytes (sizeof s) vs)). split; [done|]. by apply write_bytes_appends.
    + by apply elements_append; [apply IH|..].
Qed.

(** ** Reading takes the wire format back *)

Lemma scalar_chunk_nonempty s z c : scalar_chunk s z c -> c <> [].
Proof. apply encodes_nonempty. Qed.

Lemma counted_nonempty n body c : counted n body c -> c <> [].
Proof.
  intros (c1 & c2 & Hc1 & _ & ->) [-> _]%app_nil. by apply scalar_chunk_nonempty in Hc1.
Qed.

Lemma chunk_nonempty t v c : chunk t v c -> c <> [].
Proof.
  revert v c. induction t as [s|s| | | |class| |h t IH|t IH|t IH n]; intros v c;
    destruct v; cbn [chunk]; try done; try apply encodes_nonempty.
  - intros (c1 & c2 & Hc1 & _ & ->) [-> _]%app_nil. by apply scalar_chunk_nonempty in Hc1.
  - destruct (null_flag t); [apply encodes_nonempty|done].
  - apply IH.
  - intros [_ Hc]. by eapply counted_nonempty.
  - apply counted_nonempty.
Qed.

Lemma chunks_length f vs c :
  (forall v c, f v c -> c <> []) -> chunks f vs c -> (length vs <= length c)%nat.
Proof.
  intros Hf (cs & Hcs & ->). induction Hcs as [|v c vs cs Hv Hcs IH]; simpl; [lia|].
  rewrite length_app. apply Hf in Hv. destruct c; [done|]. simpl. lia.
Qed.

(** *** Scalars *)

Lemma sext_range w z : 0 < w -> - 2 ^ (w - 1) <= z < 2 ^ (w - 1) -> sext w (wrap w z) = z.
Proof.
  intros Hw Hz. unfold sext, wrap. rewrite Z.mod_mod by (apply Z.pow_nonzero; lia).
  assert (2 ^ w = 2 * 2 ^ (w - 1)) as Hp.
  { rewrite <-Z.pow_succ_r by lia. f_equal. lia. }
  destruct (decide (0 <= z)).
  - rewrite Z.mod_small by lia. destruct (Z.ltb_spec z (2 ^ (w - 1))); lia.
  - replace (z mod 2 ^ w) with (z + 2 ^ w).
    + destruct (Z.ltb_spec (z + 2 ^ w) (2 ^ (w - 1))); lia.
    + symmetry. rewrite <-(Z.mod_small (z + 2 ^ w) (2 ^ w)) by lia.
      rewrite <-(Z_mod_plus_full z 1). f_equal. lia.
Qed.

Lemma of_bits_bytes s z : in_range s z -> of_bits s (le_decode (le_encode (sizeof s) z)) = z.
Proof.
  intros Hz. rewrite le_decode_encode. unfold of_bits.
  replace (256 ^ Z.of_nat (sizeof s)) with (2 ^ bits s) by by destruct s.
  change (z mod 2 ^ bits s) with (wrap (bits s) z). unfold in_range in Hz.
  destruct (signed s) eqn:Hs.
  - apply sext_range; [by destruct s|]. by destruct s.
  - rewrite wrap_wrap by by destruct s. apply wrap_small. destruct s; try done.
    unfold in_word. change (2 ^ bits Sbool) with 256. lia.
Qed.

Lemma array_values_bytes s vs :
  Forall (fun v => exists z, v = VInt z /\ in_range s z) vs ->
  array_values s (length vs) (array_bytes (sizeof s) vs) = vs.
Proof.
  induction 1 as [|v vs (z & -> & Hz) Hvs IH]; [done|]. cbn [length array_values].
  change (array_bytes (sizeof s) (VInt z :: vs)) with
    (le_encode (sizeof s) z ++ array_bytes (sizeof s) vs).
  rewrite take_app_length', drop_app_length' by (by rewrite length_le_encode).
  by rewrite of_bits_bytes, IH.
Qed.

(** *** Readers *)

(** [reads f v c]: [f] takes the chunk [c] back as [v]. *)
Definition reads {A} (f : P -> (Z * A) * P) (v : A) (c : list cell) : Prop :=
  forall q rest, d_remaining q = c ++ rest ->
    exists q', f q = ((OK, v), q') /\ d_remaining q' = rest /\ d_contents q' = d_contents q.

Lemma read_int32_back z c : scalar_chunk Sint32 z c -> reads read_int32 z c.
Proof.
  intros Hc q rest Hq. destruct (read_back PInt32 (VInt z) c rest q) as (q' & Hr & Hq'); try done.
  exists q'. unfold read_int32. by rewrite Hr.
Qed.

Lemma read_scalar_back s z c : in_range s z -> scalar_chunk s z c -> reads (read_scalar s) (VInt z) c.
Proof.
  intros Hz Hc q rest Hq. unfold scalar_chunk in Hc.
  assert (exists q', d_read (scalar_prim s) q = ((OK, VInt (scalar_wire s z)), q') /\
            d_remaining q' = rest /\ d_contents q' = d_contents q) as (q' & Hr & Hq').
  { apply (read_back _ _ c); try done; by destruct s. }
  exists q'. destruct s; try exact (conj Hr Hq'). cbn [read_scalar scalar_prim scalar_wire] in *.
  rewrite Hr. cbn [int_of]. split; [|done]. do 3 f_equal.
  unfold sext. assert (in_word 8 z) as Hz8 by exact Hz. rewrite (wrap_small 8 z) by done.
  destruct (Z.ltb_spec z (2 ^ (8 - 1))); [by apply wrap_small|].
  unfold wrap. rewrite <-(Z_mod_plus_full _ 1). replace (z - 2 ^ 8 + 1 * 2 ^ 8) with z by lia.
  by apply Z.mod_small.
Qed.

Lemma read_all_back f g vs c :
  (forall v c, v ∈ vs -> g v c -> reads f v c) -> chunks g vs c ->
  reads (read_all f (length vs)) vs c.
Proof.
  intros Hf (cs & Hcs & ->). induction Hcs as [|v c vs cs Hv Hcs IH]; intros q rest Hq.
  - by exists q.
  - cbn [length read_all]. simpl in Hq. rewrite <-app_assoc in Hq.
    destruct (Hf v c ltac:(set_solver) Hv q _ Hq) as (q1 & -> & Hq1 & Hc1).
    rewrite Z.eqb_refl. cbn [negb].
    destruct (IH (fun v c Hin => Hf v c ltac:(set_solver)) q1 rest Hq1) as (q2 & -> & Hq2 & Hc2).
    exists q2. by rewrite Hc2.
Qed.

Lemma readInplace_array size vs c rest q :
  c = raw (array_bytes size vs) -> d_remaining q = c ++ rest ->
  exists data q', d_readInplace (Z.of_nat (length vs * size)) q = (Some data, q') /\
    d_load data (length vs * size) q' = array_bytes size vs /\
    d_remaining q' = rest /\ d_contents q' = d_contents q.
Proof.
  intros -> Hq. destruct (readInplace_back _ _ _ Hq) as (data & q' & Hr).
  exists data, q'. by rewrite length_array_bytes in Hr.
Qed.

(** A null flag is told apart from the data. *)
Lemma peek_chunk t nullable v c flag q rest :
  null_flag t = Some flag -> typed t nullable v -> chunk t v c -> d_remaining q = c ++ rest ->
  exists z q', read_int32 q = ((OK, z), q') /\ z <> flag /\ d_contents q' = d_contents q.
Proof.
  intros Hf Ht Hc Hq.
  assert (forall n c2, 0 <= n -> scalar_chunk Sint32 n c2 ->
            (exists rest2, c = c2 ++ rest2) -> n <> flag ->
            exists z q', read_int32 q = ((OK, z), q') /\ z <> flag /\ d_contents q' = d_contents q)
    as Hint.
  { intros n c2 Hn Hc2 [rest2 ->] Hnf. rewrite <-app_assoc in Hq.
    destruct (read_int32_back _ _ Hc2 _ _ Hq) as (q' & Hr & _ & Hcq). by exists n, q'. }
  assert (forall k, k = PString16 \/ k = PUtf8 -> encodes k v c -> flag = kNullVectorSize ->
            exists z q', read_int32 q = ((OK, z), q') /\ z <> flag /\ d_contents q' = d_contents q)
    as Hstr.
  { intros k Hk Hk' ->. destruct (peek_string k v c rest q Hk Hk' Hq) as (z & q' & Hr & Hz & Hcq).
    exists z, q'. unfold read_int32. by rewrite Hr. }
  destruct t; simplify_eq; destruct v; try done; cbn [null_flag chunk] in *; simplify_eq.
  - apply (Hstr PString16); auto.
  - apply (Hstr PUtf8); auto.
  - destruct Hc as (c1 & c2 & Hc1 & _ & ->). apply (Hint 1 c1); [lia|done|by exists c2|done].
  - destruct Hc as [_ (c1 & c2 & Hc1 & _ & ->)].
    eapply (Hint _ c1); [|done|by exists c2|unfold kNullVectorSize]; lia.
  - destruct Hc as (c1 & c2 & Hc1 & _ & ->).
    eapply (Hint _ c1); [|done|by exists c2|unfold kNullVectorSize]; lia.
Qed.

(** *** Elements of vectors and arrays *)

Lemma read_binders_back nullable vs c :
  Forall (fun v => exists b, v = VBinder b /\ (nullable = false -> b <> 0)) vs ->
  chunks (chunk Sp) vs c ->
  reads (read_all (if nullable : bool then d_readNullableStrongBinder else d_read PStrongBinder)
           (length vs)) vs c.
Proof.
  intros Hvs Hc. apply (read_all_back _ (chunk Sp)); [|done].
  intros v c' Hin Hv q rest Hq. rewrite Forall_forall in Hvs.
  destruct (Hvs v Hin) as (b & -> & Hb). cbn [chunk] in Hv. destruct nullable.
  - by apply (readNullableStrongBinder_back _ c').
  - apply (read_back _ _ c'); try done. intros _ [= ->]. by destruct (Hb eq_refl).
Qed.

Lemma pe_values t s nullable vs :
  is_pointer_equivalent_array t = Some s ->
  Forall (fun v => typed t nullable v) vs ->
  Forall (fun v => exists z, v = VInt z /\ in_range s z) vs.
Proof.
  intros Ht Hvs. eapply Forall_impl; [exact Hvs|]. intros v Hv.
  destruct t as [s'|s'| | | | | | | |]; try done.
  - destruct v; try done. exists z. split; [done|]. by destruct s'; cbn in Ht; simplify_eq.
  - destruct v; try done. exists z. split; [done|]. cbn in Ht. by destruct (_ || _); simplify_eq.
Qed.

(** The int32 form of the elements of a vector of bool or char16_t. *)
Lemma cast_values s vs :
  s = Sbool \/ s = Schar16 ->
  Forall (fun v => typed (Scalar s) false v) vs ->
  (fun v => VInt (cast_int32 s (int_of v))) <$>
    array_values Sint32 (length vs) (array_bytes (sizeof Sint32) vs) = vs.
Proof.
  intros Hs Hvs.
  assert (Forall (fun v => exists z, v = VInt z /\ in_range Sint32 z) vs) as Hz.
  { eapply Forall_impl; [exact Hvs|]. intros v Hv. destruct v; try done. exists z.
    split; [done|]. cbn [typed] in Hv. unfold in_range. cbn [signed].
    change (2 ^ (bits Sint32 - 1)) with 2147483648.
    destruct Hs as [->| ->]; cbn [in_range signed] in Hv; [lia|].
    unfold in_word in Hv. change (2 ^ bits Schar16) with 65536 in Hv. lia. }
  rewrite array_values_bytes by done.
  induction Hvs as [|v vs Hv Hvs IH]; [done|]. apply Forall_cons in Hz as [_ Hz].
  rewrite fmap_cons, IH by done. f_equal. destruct v; try done. cbn [int_of typed] in *.
  f_equal. destruct Hs as [->| ->]; cbn in Hv.
  - by destruct Hv as [->| ->].
  - by apply wrap_small.
Qed.

(** A length is read back, and passes the checks of the vector overload. *)
Lemma read_size_back n (body : list cell -> Prop) c q rest :
  counted n body c -> (forall c2, body c2 -> (n <= length c2)%nat) -> d_remaining q = c ++ rest ->
  exists c2 q1, body c2 /\ read_int32 q = ((OK, Z.of_nat n), q1) /\
    d_remaining q1 = c2 ++ rest /\ d_contents q1 = d_contents q /\
    (d_dataAvail q1 <? Z.of_nat n) = false.
Proof.
  intros (c1 & c2 & Hc1 & Hc2 & ->) Hlen Hq. rewrite <-app_assoc in Hq.
  destruct (read_int32_back _ _ Hc1 _ _ Hq) as (q1 & Hr & Hq1 & Hcq).
  exists c2, q1. split_and!; try done. apply Z.ltb_ge.
  rewrite dataAvail_remaining, Hq1, length_app. apply Hlen in Hc2. lia.
Qed.

Lemma raw_array_length size vs :
  (0 < size)%nat -> (length vs <= length (raw (array_bytes size vs) : list cell))%nat.
Proof.
  intros Hs. pose proof (raw_length (array_bytes size vs)) as Hr.
  rewrite length_array_bytes in Hr. nia.
Qed.

(** What a type's reader promises, as the induction needs it. *)
Definition back (t : ty) : Prop :=
  occurs is_fd t = false -> (occurs is_heap t = true -> objects_made) ->
  forall nullable v c, utf8_val v = true -> typed t nullable v -> chunk t v c ->
    reads (readData size_bits t nullable) v c.

Lemma elements_back t nullable vs c :
  back t -> occurs is_fd t = false -> (occurs is_heap t = true -> objects_made) ->
  forallb utf8_val vs = true -> Forall (typed t nullable) vs -> chunks (chunk t) vs c ->
  reads (read_all (readData size_bits t nullable) (length vs)) vs c.
Proof.
  intros Hback Hfd Hnew Hu Hvs Hc. apply (read_all_back _ (chunk t)); [|done].
  intros v c' Hin Hv. rewrite Forall_forall in Hvs. rewrite forallb_forall in Hu.
  apply Hback; [done|done|by apply Hu, list_elem_of_In|by apply Hvs|done].
Qed.

Lemma reads_list f vs c : reads f vs c -> reads (fun q => as_list (f q)) (VList vs) c.
Proof.
  intros Hf q rest Hq. destruct (Hf q rest Hq) as (q' & Hr & Hq'). exists q'. by rewrite Hr.
Qed.

(** Scalars packed in memory. *)
Lemma packed_back t s nullable vs c2 q rest :
  is_pointer_equivalent_array t = Some s -> Forall (typed t nullable) vs ->
  c2 = raw (array_bytes (sizeof s) vs) -> d_remaining q = c2 ++ rest ->
  exists data q', d_readInplace (Z.of_nat (length vs * sizeof s)) q = (Some data, q') /\
    array_values s (length vs) (d_load data (length vs * sizeof s) q') = vs /\
    d_remaining q' = rest /\ d_contents q' = d_contents q.
Proof.
  intros Hpe Hvs Hc Hq. destruct (readInplace_array _ _ _ _ _ Hc Hq) as (data & q' & Hr & Hl & Hq').
  exists data, q'. split; [done|]. split; [|done]. rewrite Hl.
  by eapply array_values_bytes, pe_values.
Qed.

Lemma elem_typed_pe t s nullable vs :
  is_pointer_equivalent_array t = Some s ->
  Forall (fun v => match t with
                   | Sp => exists b, v = VBinder b /\ (nullable = false -> b <> 0)
                   | _ => typed t false v
                   end) vs -> Forall (typed t false) vs.
Proof. by destruct t. Qed.

(** The two scalars that travel as words. *)
Lemma words_back s vs c2 q rest :
  is_pointer_equivalent_array (Scalar s) = None -> Forall (typed (Scalar s) false) vs ->
  c2 = raw (array_bytes (sizeof Sint32) vs) ->
  Z.of_nat (length vs * sizeof Sint32) <= SIZE_MAX size_bits -> d_remaining q = c2 ++ rest ->
  exists data q',
    d_readInplace (wrap size_bits (Z.of_nat (length vs) * Z.of_nat (sizeof Sint32))) q =
      (Some data, q') /\
    (fun v => VInt (cast_int32 s (int_of v))) <$>
      array_values Sint32 (length vs) (d_load data (length vs * sizeof Sint32) q') = vs /\
    d_remaining q' = rest /\ d_contents q' = d_contents q.
Proof.
  intros Hpe Hvs Hc Hsz Hq.
  destruct (readInplace_array _ _ _ _ _ Hc Hq) as (data & q' & Hr & Hl & Hq').
  exists data, q'. rewrite <-Nat2Z.inj_mul, size_word by lia. split; [done|]. split; [|done].
  rewrite Hl. apply cast_values; [|done]. destruct s; auto; done.
Qed.

(** The elements of a vector. *)
Lemma vector_body_back t nullable vs c2 q rest :
  back t -> occurs is_fd t = false -> (occurs is_heap t = true -> objects_made) ->
  forallb utf8_val vs = true -> typed (Vector t) nullable (VList vs) ->
  (match is_pointer_equivalent_array t with
   | Some s => c2 = raw (array_bytes (sizeof s) vs) /\
               Z.of_nat (length vs) <= SIZE_MAX size_bits / Z.of_nat (sizeof s)
   | None =>
       match t with
       | Scalar _ => c2 = raw (array_bytes (sizeof Sint32) vs) /\
                     Z.of_nat (length vs * sizeof Sint32) <= SIZE_MAX size_bits
       | _ => chunks (chunk t) vs c2
       end
   end) ->
  d_remaining q = c2 ++ rest ->
  exists q', vector_body size_bits t (readData size_bits t) nullable (Z.of_nat (length vs)) q =
      ((OK, VList vs), q') /\
    d_remaining q' = rest /\ d_contents q' = d_contents q.
Proof.
  intros Hback Hfd Hnew Hu Hty Hc Hq. unfold vector_body. cbn [typed] in Hty. rewrite Nat2Z.id.
  destruct (is_pointer_equivalent_array t) as [s|] eqn:Hpe.
  - destruct Hc as [Hc Hlim]. apply (elem_typed_pe t s) in Hty; [|done].
    destruct (packed_back t s _ vs c2 q rest Hpe Hty Hc Hq) as (data & q' & Hr & Hv & Hq').
    exists q'. replace (SIZE_MAX size_bits <? _) with false.
    + by rewrite <-Nat2Z.inj_mul, Hr, Nat2Z.id, Hv.
    + symmetry. apply Z.ltb_ge. assert (0 < Z.of_nat (sizeof s)) by by destruct s.
      pose proof (Z.mul_div_le (SIZE_MAX size_bits) (Z.of_nat (sizeof s))). nia.
  - destruct t; try exact (reads_list _ _ _ (elements_back _ _ _ _ Hback Hfd Hnew Hu Hty Hc) _ _ Hq).
    + destruct Hc as [Hc Hsz].
      destruct (words_back s vs c2 q rest Hpe Hty Hc Hsz Hq) as (data & q' & -> & Hv & Hq').
      exists q'. by rewrite Hv.
    + exact (reads_list _ _ _ (read_binders_back _ _ _ Hty Hc) _ _ Hq).
Qed.

(** The elements of an array. *)
Lemma array_body_back t nullable vs c2 q rest :
  back t -> occurs is_fd t = false -> (occurs is_heap t = true -> objects_made) ->
  forallb utf8_val vs = true -> typed (Array t (length vs)) nullable (VList vs) ->
  (match is_pointer_equivalent_array t with
   | Some s => c2 = raw (array_bytes (sizeof s) vs)
   | None => chunks (chunk t) vs c2
   end) ->
  d_remaining q = c2 ++ rest ->
  exists q', array_body t (readData size_bits t) nullable (length vs) q = ((OK, VList vs), q') /\
    d_remaining q' = rest /\ d_contents q' = d_contents q.
Proof.
  intros Hback Hfd Hnew Hu Hty Hc Hq. unfold array_body. cbn [typed] in Hty. destruct Hty as (_ & Hty).
  destruct (is_pointer_equivalent_array t) as [s|] eqn:Hpe.
  - assert (Forall (typed t false) vs) as Hvs by by destruct t.
    destruct (packed_back t s _ vs c2 q rest Hpe Hvs Hc Hq) as (data & q' & Hr & Hv & Hq').
    exists q'. by rewrite Hr, Hv.
  - destruct t; try exact (reads_list _ _ _ (elements_back _ _ _ _ Hback Hfd Hnew Hu Hty Hc) _ _ Hq).
    exact (reads_list _ _ _ (read_binders_back _ _ _ Hty Hc) _ _ Hq).
Qed.

(** A vector's body is long enough for the coarse bound on its size. *)
Lemma vector_body_length t vs c2 :
  (match is_pointer_equivalent_array t with
   | Some s => c2 = raw (array_bytes (sizeof s) vs) /\
               Z.of_nat (length vs) <= SIZE_MAX size_bits / Z.of_nat (sizeof s)
   | None =>
       match t with
       | Scalar _ => c2 = raw (array_bytes (sizeof Sint32) vs) /\
                     Z.of_nat (length vs * sizeof Sint32) <= SIZE_MAX size_bits
       | _ => chunks (chunk t) vs c2
       end
   end) -> (length vs <= length (c2 : list cell))%nat.
Proof.
  destruct (is_pointer_equivalent_array t) as [s|] eqn:Hpe.
  - intros [-> _]. apply raw_array_length. by destruct s; simpl; lia.
  - destruct t; try (by apply chunks_length, chunk_nonempty).
    intros [-> _]. apply raw_array_length. simpl. lia.
Qed.

(** The overloads with a flag in front. *)
Lemma parcelable_back class x c nullable :
  chunk (ParcelableT class) (VObj x) c ->
  reads (readData size_bits (ParcelableT class) nullable) (VObj x) c.
Proof.
  intros (c1 & c2 & Hc1 & Hc2 & ->) q rest Hq. rewrite <-app_assoc in Hq.
  destruct (read_int32_back _ _ Hc1 _ _ Hq) as (q1 & Hr & Hq1 & Hcq1). cbn [readData].
  rewrite Hr, !Z.eqb_refl. cbn [negb].
  destruct (readFromParcel_back _ _ _ _ _ Hc2 Hq1) as (q2 & -> & Hq2 & Hcq2).
  exists q2. by rewrite Hcq2.
Qed.

Lemma nullable_null_back h t c nullable :
  chunk (Nullable h t) VNull c -> reads (readData size_bits (Nullable h t) nullable) VNull c.
Proof.
  cbn [chunk]. intros Hc q rest Hq. cbn [readData].
  destruct (null_flag t) as [flag|]; [|done].
  destruct (read_int32_back _ _ Hc _ _ Hq) as (q1 & -> & Hq1). exists q1.
  by rewrite Z.eqb_refl; cbn [negb]; rewrite Z.eqb_refl.
Qed.

Lemma nullable_present_back h t v c nullable :
  back t -> occurs is_fd t = false -> (occurs is_heap (Nullable h t) = true -> objects_made) ->
  utf8_val v = true -> typed (Nullable h t) nullable (VPresent v) -> chunk t v c ->
  reads (readData size_bits (Nullable h t) nullable) (VPresent v) c.
Proof.
  intros Hback Hfd Hnew Hu [[flag Hf] Hty] Hc q rest Hq. cbn [readData].
  destruct (peek_chunk _ _ _ _ _ _ _ Hf Hty Hc Hq) as (z & q1 & -> & Hz & Hcq1).
  rewrite Z.eqb_refl. cbn [negb]. rewrite Hf. apply Z.eqb_neq in Hz as ->.
  replace (match h with Optional => false | _ => negb (d_new q1) end) with false
    by (destruct h; [done|by rewrite (Hnew eq_refl)..]).
  assert (occurs is_heap t = true -> objects_made) as Hnew'
    by (intros H; apply Hnew; cbn [occurs]; rewrite H; apply orb_true_r).
  destruct (setDataPosition_back q q1 Hcq1) as [Hrem Hcon].
  destruct (Hback Hfd Hnew' _ _ _ Hu Hty Hc (d_setDataPosition (d_dataPosition q) q1) rest) as (q2 & -> & Hq2 & Hcq2).
  { by rewrite Hrem. }
  exists q2. by rewrite Hcq2.
Qed.

Lemma vector_back t vs c nullable :
  back t -> occurs is_fd t = false -> (occurs is_heap t = true -> objects_made) ->
  forallb utf8_val vs = true -> typed (Vector t) nullable (VList vs) -> chunk (Vector t) (VList vs) c ->
  reads (readData size_bits (Vector t) nullable) (VList vs) c.
Proof.
  intros Hback Hfd Hnew Hu Hty [_ Hc] q rest Hq. cbn [readData].
  destruct (read_size_back _ _ _ _ _ Hc (vector_body_length t vs) Hq)
    as (c2 & q1 & Hc2 & -> & Hq1 & Hcq1 & Hav).
  rewrite Z.eqb_refl. cbn [negb]. rewrite (proj2 (Z.ltb_ge _ 0)) by lia. rewrite Hav.
  destruct (vector_body_back _ nullable _ _ _ _ Hback Hfd Hnew Hu Hty Hc2 Hq1) as (q2 & -> & Hq2 & Hcq2).
  exists q2. by rewrite Hcq2.
Qed.

Lemma array_back t vs c nullable :
  back t -> occurs is_fd t = false -> (occurs is_heap t = true -> objects_made) ->
  forallb utf8_val vs = true -> typed (Array t (length vs)) nullable (VList vs) ->
  chunk (Array t (length vs)) (VList vs) c ->
  reads (readData size_bits (Array t (length vs)) nullable) (VList vs) c.
Proof.
  intros Hback Hfd Hnew Hu Hty (c1 & c2 & Hc1 & Hc2 & ->) q rest Hq. rewrite <-app_assoc in Hq. cbn [readData].
  destruct (read_int32_back _ _ Hc1 _ _ Hq) as (q1 & -> & Hq1 & Hcq1).
  rewrite !Z.eqb_refl. cbn [negb]. rewrite (proj2 (Z.ltb_ge _ 0)) by lia.
  destruct (array_body_back _ nullable _ _ _ _ Hback Hfd Hnew Hu Hty Hc2 Hq1) as (q2 & -> & Hq2 & Hcq2).
  exists q2. by rewrite Hcq2.
Qed.

(** The readers take back the wire format, for every type. *)
Lemma readData_back t : back t.
Proof.
  induction t as [s|s| | | |class| |h t IH|t IH|t IH n]; intros Hfd Hnew nullable v c Hu Hty Hc;
    destruct v; try done; try (intros q rest Hq; by apply (read_back _ _ c)); cbn [occurs] in Hfd;
    boolp.
  - by apply read_scalar_back.
  - by apply read_scalar_back.
  - by apply parcelable_back.
  - intros q rest Hq. apply (read_back _ _ c); try done. by intros _ [= ->].
  - by apply nullable_null_back.
  - by apply nullable_present_back.
  - by apply vector_back.
  - destruct Hty as [<- Hty]. by apply array_back.
Qed.

End laws.

(** ** What is read has the type *)

Definition prim_typed (k : prim) (v : val) : Prop :=
  match k, v with
  | PBool, VInt z => in_range Sbool z
  | PByte, VInt z => in_range Sint8 z
  | PChar, VInt z => in_range Schar16 z
  | PInt32, VInt z => in_range Sint32 z
  | PUint32, VInt z => in_range Suint32 z
  | PInt64, VInt z => in_range Sint64 z
  | PUint64, VInt z => in_range Suint64 z
  | PFloat, VInt z => in_range Sfloat z
  | PDouble, VInt z => in_range Sdouble z
  | PString16, VString16 _ | PUtf8, VString _ | PFd, VFd _ => True
  | PStrongBinder, VBinder b => b <> 0
  | _, _ => False
  end.

(** The readers' C++ types; reading null as a binder that may not be null fails. *)
Class TypedReads (P : Type) `{!DataOps P} := {
  read_typed k q v q' : d_read k q = ((OK, v), q') -> prim_typed k v;
  readNullable_typed q v q' :
    d_readNullableStrongBinder q = ((OK, v), q') -> exists b, v = VBinder b
}.

Lemma sext_in_range w z : 0 < w -> - 2 ^ (w - 1) <= sext w z < 2 ^ (w - 1).
Proof.
  intros Hw. unfold sext. pose proof (wrap_range w z ltac:(lia)) as Hz. unfold in_word in Hz.
  assert (2 ^ w = 2 * 2 ^ (w - 1)) as Hp.
  { rewrite <-Z.pow_succ_r by lia. f_equal. lia. }
  destruct (Z.ltb_spec (wrap w z) (2 ^ (w - 1))); lia.
Qed.

Lemma of_bits_in_range s z : s <> Sbool -> in_range s (of_bits s z).
Proof.
  intros Hs. unfold of_bits, in_range.
  destruct s; try done; cbn [signed]; try (by apply sext_in_range); by apply wrap_range.
Qed.

Lemma array_values_typed s n bs :
  s <> Sbool -> Forall (fun v => exists z, v = VInt z /\ in_range s z) (array_values s n bs).
Proof.
  intros Hs. revert bs. induction n as [|n IH]; intros bs; constructor; [|apply IH].
  eexists. split; [done|]. by apply of_bits_in_range.
Qed.

Lemma length_array_values s n bs : length (array_values s n bs) = n.
Proof. revert bs. induction n as [|n IH]; intros bs; simpl; [done|]. by rewrite IH. Qed.

Section read_typed.
Context {P : Type} `{!DataOps P} `{!TypedReads P}.
Variable size_bits : Z.

Lemma read_scalar_typed s q v q' :
  read_scalar s q = ((OK, v), q') -> typed (Scalar s) false v.
Proof.
  destruct s; cbn [read_scalar]; try (by intros Hr%read_typed; destruct v).
  destruct (d_read PByte q) as [[st v'] q1]. intros [= ? <- <-]. by apply wrap_range.
Qed.

Lemma read_all_typed (f : P -> (Z * val) * P) (Q : val -> Prop) n :
  (forall q v q', f q = ((OK, v), q') -> Q v) ->
  forall q vs q', read_all f n q = ((OK, vs), q') -> length vs = n /\ Forall Q vs.
Proof.
  intros Hf. induction n as [|n IH]; intros q vs q'; simpl.
  - intros [= <- <-]. done.
  - destruct (f q) as [[st v] q1] eqn:Hv. destruct (st =? OK) eqn:Hst; cbn [negb]; boolp;
      [|congruence]. subst st.
    destruct (read_all f n q1) as [[st vs'] q2] eqn:Hvs. intros [= -> <- <-].
    destruct (IH _ _ _ Hvs) as [<- Hall]. split; [done|]. constructor; [by eapply Hf|done].
Qed.

(** The elements of vectors and arrays. *)
Lemma packed_typed t s n bs :
  is_pointer_equivalent_array t = Some s -> is_bool_enum t = false ->
  Forall (typed t false) (array_values s n bs).
Proof.
  intros Hpe Hb. eapply Forall_impl; [apply (array_values_typed s)|].
  - intros ->. destruct t as [s|s| | | | | | | |]; try done; by destruct s.
  - intros v (z & -> & Hz). destruct t as [s'|s'| | | | | | | |]; try done.
    + destruct s'; cbn in Hpe; simplify_eq; exact Hz.
    + cbn in Hpe. destruct (_ || _); simplify_eq. exact Hz.
Qed.

Lemma cast_typed s n bs :
  is_pointer_equivalent_array (Scalar s) = None ->
  Forall (typed (Scalar s) false)
    ((fun v => VInt (cast_int32 s (int_of v))) <$> array_values Sint32 n bs).
Proof.
  intros Hpe. apply Forall_fmap, Forall_forall. intros v _. destruct s; try done; simpl.
  - destruct (_ =? 0); auto.
  - by apply wrap_range.
Qed.

Lemma binders_typed nullable n q vs q' :
  read_all (if nullable : bool then d_readNullableStrongBinder else d_read PStrongBinder) n q =
    ((OK, vs), q') ->
  length vs = n /\
  Forall (fun v => exists b, v = VBinder b /\ (nullable = false -> b <> 0)) vs.
Proof.
  apply read_all_typed. intros q1 v q2. destruct nullable.
  - intros [b ->]%readNullable_typed. by exists b.
  - intros Hr%read_typed. destruct v; try done. by exists b.
Qed.

Definition reads_typed (t : ty) : Prop :=
  occurs is_bool_enums t = false ->
  forall nullable q v q', readData size_bits t nullable q = ((OK, v), q') -> typed t nullable v.

Lemma as_list_inv (r : (Z * list val) * P) v q' :
  as_list r = ((OK, v), q') -> exists vs, r = ((OK, vs), q') /\ v = VList vs.
Proof. destruct r as [[st vs] q1]. intros [= -> <- <-]. by exists vs. Qed.

Lemma vector_body_typed t nullable size q v q' :
  reads_typed t -> occurs is_bool_enums t = false -> is_bool_enum t = false ->
  vector_body size_bits t (readData size_bits t) nullable size q = ((OK, v), q') ->
  typed (Vector t) nullable v.
Proof.
  intros IH Hb Hhead. unfold vector_body, failed.
  destruct (is_pointer_equivalent_array t) as [s|] eqn:Hpe.
  - destruct (_ <? _); [by intros [= ?]|]. destruct (d_readInplace _ q) as [[data|] q1]; [|done].
    intros [= <- <-]. pose proof (packed_typed t s (Z.to_nat size)
      (d_load data (Z.to_nat (size * Z.of_nat (sizeof s))) q1) Hpe Hhead) as Hall.
    cbn [typed]. by destruct t.
  - destruct t; try (intros (vs & Hr & ->)%as_list_inv; cbn [typed];
      by eapply read_all_typed; [|exact Hr]; intros ???; apply IH).
    + destruct (d_readInplace _ q) as [[data|] q1]; [|done]. intros [= <- <-].
      by apply cast_typed.
    + intros (vs & Hr & ->)%as_list_inv. by apply binders_typed in Hr as [_ Hr].
Qed.

Lemma array_body_typed t nullable n q v q' :
  reads_typed t -> occurs is_bool_enums t = false -> is_bool_enum t = false ->
  array_body t (readData size_bits t) nullable n q = ((OK, v), q') ->
  typed (Array t n) nullable v.
Proof.
  intros IH Hb Hhead. unfold array_body, failed.
  destruct (is_pointer_equivalent_array t) as [s|] eqn:Hpe.
  - destruct (d_readInplace _ q) as [[data|] q1]; [|done]. intros [= <- <-].
    split; [apply length_array_values|].
    pose proof (packed_typed t s n (d_load data (n * sizeof s) q1) Hpe Hhead).
    by destruct t.
  - destruct t; try (intros (vs & Hr & ->)%as_list_inv; cbn [typed];
      by eapply read_all_typed; [|exact Hr]; intros ???; apply IH).
    intros (vs & Hr & ->)%as_list_inv. by apply binders_typed in Hr as [<- Hr].
Qed.

(** A status that is not OK is the answer. *)
Lemma status_ok {A} (st : Z) (r k : (Z * A) * P) v q' :
  (if negb (st =? OK) then r else k) = ((OK, v), q') -> r.1.1 = st ->
  st = OK /\ k = ((OK, v), q').
Proof.
  destruct (st =? OK) eqn:Hst; cbn [negb]; boolp; [done|]. by intros -> <-.
Qed.

(** C31: whatever a parcel holds, a value that [readData] answers with OK is a value
    of the type it was asked for: scalars in the range of their width, arrays of their
    length, null binders only under a nullable container.  The members that read single
    values are taken to answer values of their C++ types ([TypedReads]); the claim is about
    what the templates make of them and of the bytes they copy.  Vectors and arrays of
    enumerations over [bool] are left out: [bool_enum_out_of_range] shows one that is read
    with a value it cannot have. *)
Theorem readData_typed (t : ty) (nullable : bool) (q : P) (v : val) (q' : P) :
  occurs is_bool_enums t = false ->
  readData size_bits t nullable q = ((OK, v), q') -> typed t nullable v.
Proof.
  intros Hb. revert nullable q v q'. revert Hb. change (reads_typed t).
  induction t as [s|s| | | |class| |h t IH|t IH|t IH n]; intros Hb nullable q v q';
    cbn [readData]; try (by intros Hr%read_typed; destruct v); cbn [occurs] in Hb; boolp.
  - by intros ?%read_scalar_typed.
  - by intros ?%read_scalar_typed.
  - destruct (read_int32 q) as [[st present] q1]. unfold failed.
    intros [-> Hr]%status_ok; [|done]. destruct (negb _); [done|].
    destruct (d_readFromParcel class q1) as [[st x] q2]. by simplify_eq.
  - destruct (read_int32 q) as [[st peek] q1]. unfold failed.
    intros [-> Hr]%status_ok; [|done]. destruct (null_flag t) as [flag|] eqn:Hf; [|done].
    destruct (peek =? flag); [simplify_eq; by exists flag|].
    destruct (match h with Optional => _ | _ => _ end); [done|].
    destruct (readData size_bits t _ _) as [[st v'] q2] eqn:Ht. simplify_eq.
    split; [by exists flag|]. by eapply IH.
  - destruct (read_int32 q) as [[st size] q1]. unfold failed.
    intros [-> Hr]%status_ok; [|done]. destruct (size <? 0); [done|].
    destruct (_ <? size); [done|]. by eapply vector_body_typed.
  - destruct (read_int32 q) as [[st size] q1]. unfold failed.
    intros [-> Hr]%status_ok; [|done]. destruct (size <? 0); [done|].
    destruct (negb _); [done|]. by eapply array_body_typed.
Qed.
End read_typed.

(** ** A parcel of tokens *)

#[export] Instance prim_eq_dec : EqDecision prim.
Proof. solve_decision. Defined.

#[export] Instance in_range_dec s z : Decision (in_range s z).
Proof. unfold in_range. destruct s; apply _. Defined.

#[export] Instance prim_typed_dec k v : Decision (prim_typed k v).
Proof. destruct k, v; simpl; apply _. Defined.

Module TokenParcel.

Inductive token : Type :=
| Tok (k : prim) (v : val)
| Raw (b : byte)
| Obj (class x : Z).

Record parcel : Type := { toks : list token; pos : nat }.

Definition append (c : list token) (p : parcel) : parcel :=
  {| toks := toks p ++ c; pos := length (toks p ++ c) |}.

Definition left (p : parcel) : list token := drop (pos p) (toks p).

Definition advance (n : nat) (p : parcel) : parcel := {| toks := toks p; pos := pos p + n |}.

(** A null binder can be stored. *)
Definition storable (k : prim) (v : val) : bool :=
  bool_decide (prim_typed k v) ||
  match k, v with PStrongBinder, VBinder _ => true | _, _ => false end.

Definition is_string (k : prim) : bool :=
  match k with PString16 | PUtf8 => true | _ => false end.

Definition length_of (v : val) : Z :=
  match v with
  | VString16 u => Z.of_nat (length u)
  | VString s => Z.of_nat (length s)
  | _ => 0
  end.

(** Strings have their length in front. *)
Definition tokens (k : prim) (v : val) : list token :=
  if is_string k
  then [Tok PInt32 (VInt (Z.min (length_of v) INT32_MAX)); Tok k v]
  else [Tok k v].

Definition read_tok (k : prim) (p : parcel) : (Z * val) * parcel :=
  let at_ n := match left p !! n with
               | Some (Tok k' v) =>
                   if decide (k' = k /\ prim_typed k v) then ((OK, v), advance (S n) p)
                   else ((BAD_TYPE, VNull), p)
               | _ => ((BAD_TYPE, VNull), p)
               end in
  if is_string k then at_ 1%nat else at_ 0%nat.

Definition byte_at (t : token) : byte := match t with Raw b => b | _ => Byte.x00 end.

#[global] Instance ops : DataOps parcel := {
  d_write k v p := if storable k v then (OK, append (tokens k v) p) else (BAD_TYPE, p);
  d_read := read_tok;
  d_readNullableStrongBinder p :=
    match left p with
    | Tok PStrongBinder (VBinder b) :: _ => ((OK, VBinder b), advance 1 p)
    | _ => ((BAD_TYPE, VNull), p)
    end;
  d_write_bytes bs p := (OK, append (Raw <$> bs) p);
  d_writeInplace n p :=
    (Some (Z.of_nat (length (toks p))), append (replicate (Z.to_nat n) (Raw Byte.x00)) p);
  d_store a bs p :=
    {| toks := take (Z.to_nat a) (toks p) ++ (Raw <$> bs) ++
               drop (Z.to_nat a + length bs) (toks p);
       pos := pos p |};
  d_readInplace n p :=
    if decide (n <= Z.of_nat (length (left p)))
    then (Some (Z.of_nat (pos p)), advance (Z.to_nat n) p) else (None, p);
  d_load a n p := byte_at <$> take n (drop (Z.to_nat a) (toks p));
  d_dataPosition p := Z.of_nat (pos p);
  d_setDataPosition z p := {| toks := toks p; pos := Z.to_nat z |};
  d_dataAvail p := Z.of_nat (length (left p));
  d_new _ := true;
  d_writeToParcel class x p := (OK, append [Obj class x] p);
  d_readFromParcel class p :=
    match left p with
    | Obj class' x :: _ =>
        if class' =? class then ((OK, x), advance 1 p) else ((BAD_TYPE, 0), p)
    | _ => ((BAD_TYPE, 0), p)
    end
}.

Lemma left_advance c rest p : left p = c ++ rest -> left (advance (length c) p) = rest.
Proof.
  unfold left, advance. simpl. intros Hl. by rewrite <-drop_drop, Hl, drop_app_length.
Qed.

Lemma advance_from n c rest p : left p = c ++ rest -> n = length c -> left (advance n p) = rest.
Proof. intros Hl ->. by apply left_advance. Qed.

Lemma bytes_of_raw (bs : list byte) : byte_at <$> (Raw <$> bs) = bs.
Proof. induction bs as [|b bs IH]; csimpl; [done|]. by rewrite IH. Qed.

#[global, refine] Instance laws : DataLaws parcel := {
  cell := token;
  d_contents := toks;
  d_remaining := left;
  encodes k v c := storable k v = true /\ c = tokens k v;
  raw bs := Raw <$> bs;
  obj_chunk class x c := c = [Obj class x]
}.
Proof.
  - intros k v c [_ ->]. unfold tokens. by destruct (is_string k).
  - intros bs. by rewrite length_fmap.
  - intros k v p p'. simpl. destruct (storable k v) eqn:Hs; [|done]. intros [= <-]. by eexists.
  - by intros bs p p' [= <-].
  - intros n p data p' bs [= <- <-] Hn. simpl. rewrite Nat2Z.id, take_app_length, <-drop_drop.
    rewrite drop_app_length, drop_ge by (rewrite length_replicate; lia). by rewrite app_nil_r.
  - intros class x p p' [= <-]. by eexists.
  - intros k v c rest q [Hs ->] Hq Hfd Hsb.
    assert (prim_typed k v) as Hty.
    { unfold storable in Hs. apply orb_true_iff in Hs as [Hs|Hs]; [by boolp|].
      destruct k, v; try done. intros ->. by apply Hsb. }
    exists (advance (length (tokens k v)) q). split; [|split; [by apply left_advance|done]].
    simpl. unfold read_tok, tokens in *. rewrite Hq.
    destruct (is_string k); cbn; by rewrite decide_True.
  - intros v c rest q [Hs ->] Hq. exists (advance 1 q).
    assert (exists b, v = VBinder b) as [b ->].
    { unfold storable in Hs. apply orb_true_iff in Hs as [Hs|Hs]; boolp; destruct v; try done; eauto. }
    simpl. rewrite Hq. cbn. split; [done|]. split; [by eapply advance_from|done].
  - intros bs rest q Hq. exists (Z.of_nat (pos q)), (advance (length bs) q). cbn [d_readInplace ops].
    rewrite Hq, length_app, length_fmap, decide_True by lia. rewrite !Nat2Z.id.
    split; [done|]. split; [|split; [eapply advance_from; [exact Hq|symmetry; apply length_fmap]|done]].
    cbn. rewrite Nat2Z.id. change (drop (pos q) (toks q)) with (left q). rewrite Hq.
    rewrite take_app_length' by (symmetry; apply length_fmap). apply bytes_of_raw.
  - intros class x c rest q -> Hq. exists (advance 1 q). simpl. rewrite Hq. cbn.
    rewrite Z.eqb_refl. split; [done|]. split; [by eapply advance_from|done].
  - intros k v c rest q Hk [Hs ->] Hq.
    assert (is_string k = true) as Hstr by by destruct Hk as [->| ->].
    unfold tokens in Hq. rewrite Hstr in Hq.
    set (n := Z.min (length_of v) INT32_MAX) in Hq.
    assert (0 <= n <= INT32_MAX) as Hn.
    { subst n. unfold INT32_MAX. destruct v; simpl length_of; lia. }
    exists n, (advance 1 q). simpl. unfold read_tok. rewrite Hq. cbn [app lookup list_lookup is_string].
    rewrite decide_True; [split; [done|]; split; [unfold kNullVectorSize; lia|done]|].
    split; [done|]. rewrite <-(Z2Nat.id n) by lia. apply count_range. lia.
  - intros q q' Hc. simpl in *. unfold left. simpl. by rewrite Nat2Z.id, Hc.
  - done.
Defined.

Lemma write_int32_ok z (p : parcel) :
  in_range Sint32 z -> exists p', d_write PInt32 (VInt z) p = (OK, p').
Proof.
  intros Hz. exists (append (tokens PInt32 (VInt z)) p). cbn [d_write ops]. unfold storable.
  by rewrite bool_decide_true.
Qed.

#[global] Instance typed_reads : TypedReads parcel.
Proof.
  split.
  - intros k q v q'. simpl. unfold read_tok.
    assert (forall n, match left q !! n with
       | Some (Tok k' v0) =>
           if decide (k' = k /\ prim_typed k v0) then ((OK, v0), advance (S n) q)
           else ((BAD_TYPE, VNull), q)
       | _ => ((BAD_TYPE, VNull), q)
       end = ((OK, v), q') -> prim_typed k v) as Hat.
    { intros n. destruct (left q !! n) as [[k' v'| |]|]; try done. case_decide; [|done].
      intros [= <- <-]. tauto. }
    destruct (is_string k); apply Hat.
  - intros q v q'. simpl. destruct (left q) as [|[[] []| |] ?]; try done.
    intros [= <- <-]. by eexists.
Qed.
End TokenParcel.

(** ** Examples *)

Module ParcelSample.
Import TokenParcel.

(** [std::unique_ptr<std::vector<std::optional<std::vector<sp<IBinder>>>>>], with a null
    inside. *)
Definition t1 : ty := Nullable UniquePtr (Vector (Nullable Optional (Vector Sp))).

Definition v1 : val :=
  VPresent (VList [VNull; VPresent (VList [VBinder 5; VBinder 0]); VPresent (VList [])]).

Definition empty : parcel := {| toks := []; pos := 0 |}.

Definition written : parcel := (writeData 64 t1 v1 empty).2.

Example v1_written : (writeData 64 t1 v1 empty).1 = OK.
Proof. reflexivity. Qed.

Example v1_read :
  (readData 64 t1 false {| toks := toks written; pos := 0 |}).1 = (OK, v1).
Proof. reflexivity. Qed.

(** A null binder is refused where no nullable container is around it. *)
Example null_refused :
  (readData 64 (Vector Sp) false
     {| toks := toks (writeData 64 (Vector Sp) (VList [VBinder 0]) empty).2; pos := 0 |}).1.1 =
  BAD_TYPE.
Proof. reflexivity. Qed.

(** A length that is more than what is left is refused before anything is read. *)
Example length_refused :
  (readData 64 (Vector StdString) false
     {| toks := [Tok PInt32 (VInt 1000)]; pos := 0 |}).1 = (BAD_VALUE, VNull).
Proof. reflexivity. Qed.

Example matrix_read :
  let t := Array (Array (Scalar Suint8) 2) 2 in
  let v := VList [VList [VInt 1; VInt 255]; VList [VInt 7; VInt 0]] in
  (readData 64 t false {| toks := toks (writeData 64 t v empty).2; pos := 0 |}).1 = (OK, v).
Proof. reflexivity. Qed.
End ParcelSample.

(** A vector of an enumeration over [bool] is read with whatever byte the parcel has. *)
Lemma bool_enum_out_of_range :
  exists q v q', readData (P := TokenParcel.parcel) 64 (Vector (Enum Sbool)) false q = ((OK, v), q') /\
    v = VList [VInt 2] /\ ~ typed (Vector (Enum Sbool)) false v.
Proof.
  exists {| TokenParcel.toks := [TokenParcel.Tok PInt32 (VInt 1); TokenParcel.Raw Byte.x02];
            TokenParcel.pos := 0 |}.
  eexists _, _. split; [reflexivity|]. split; [reflexivity|].
  cbn. intros [H _]%Forall_cons. by destruct H.
Qed.


Lemma readData_typed_witness :
  typed ParcelSample.t1 false ParcelSample.v1.
Proof.
  apply (readData_typed (P := TokenParcel.parcel) 64 ParcelSample.t1 false
    {| TokenParcel.toks := TokenParcel.toks ParcelSample.written; TokenParcel.pos := 0 |}
    ParcelSample.v1 ParcelSample.written).
  - reflexivity.
  - reflexivity.
Defined.

(** ** Vectors whose memory does not fit in [size_t] *)

(** Where the memory of a vector of [bool] or [char16_t] does not fit in [size_t]
    (2^30 elements on a 32-bit platform), the vector overload reserves fewer bytes than
    it then stores: the multiplication has no check, unlike the one for packed types. *)
Theorem vector_words_overflow {P : Type} `{!DataOps P} (size_bits : Z) (s : scalar)
    (vs : list val) (p p1 p2 : P) (status data : Z) :
  0 <= size_bits -> is_pointer_equivalent_array (Scalar s) = None ->
  Z.of_nat (length vs) <= INT32_MAX -> ~ fits size_bits (Vector (Scalar s)) (VList vs) ->
  write_int32 (Z.of_nat (length vs)) p = (status, p1) ->
  d_writeInplace (wrap size_bits (Z.of_nat (length vs) * 4)) p1 = (Some data, p2) ->
  exists n bs, d_writeInplace n p1 = (Some data, p2) /\ n < Z.of_nat (length bs) /\
    writeData size_bits (Vector (Scalar s)) (VList vs) p = (OK, d_store data bs p2).
Proof.
  intros Hw Hpe Hlen Hfits Hwi Hd. exists (wrap size_bits (Z.of_nat (length vs) * 4)).
  exists (array_bytes (sizeof Sint32) vs).
  assert (2 ^ size_bits <= Z.of_nat (length vs) * 4) as Hbig.
  { apply Z.nlt_ge. intros Hlt. apply Hfits. cbn [fits]. split; [|by apply Forall_forall].
    unfold SIZE_MAX. rewrite Nat2Z.inj_mul. simpl sizeof. lia. }
  pose proof (wrap_range size_bits (Z.of_nat (length vs) * 4) Hw) as Hr.
  split; [done|]. split.
  - rewrite length_array_bytes, Nat2Z.inj_mul. simpl sizeof. unfold in_word in Hr. lia.
  - cbn [writeData]. rewrite (proj2 (Z.ltb_ge INT32_MAX _)) by done. rewrite Hwi, Hpe.
    rewrite Nat2Z.inj_mul. change (Z.of_nat (sizeof Sint32)) with 4. by rewrite Hd.
Qed.

Lemma length_bools : Z.of_nat (length (replicate (Z.to_nat (2 ^ 30)) (VInt 1))) = 2 ^ 30.
Proof. rewrite length_replicate. by rewrite Z2Nat.id. Qed.

Lemma vector_words_overflow_witness :
  exists n bs (p : TokenParcel.parcel),
    (d_writeInplace n (TokenParcel.append [TokenParcel.Tok PInt32 (VInt (2 ^ 30))]
                         ParcelSample.empty) =
       (Some 1, TokenParcel.append [TokenParcel.Tok PInt32 (VInt (2 ^ 30))] ParcelSample.empty)) /\
    n < Z.of_nat (length bs) /\
    writeData 32 (Vector (Scalar Sbool)) (VList (replicate (Z.to_nat (2 ^ 30)) (VInt 1)))
      ParcelSample.empty = (OK, d_store 1 bs p).
Proof.
  destruct (vector_words_overflow 32 Sbool (replicate (Z.to_nat (2 ^ 30)) (VInt 1))
    ParcelSample.empty
    (TokenParcel.append [TokenParcel.Tok PInt32 (VInt (2 ^ 30))] ParcelSample.empty)
    (TokenParcel.append [TokenParcel.Tok PInt32 (VInt (2 ^ 30))] ParcelSample.empty) OK 1)
    as (n & bs & Hn & Hlt & Hw).
  - done.
  - done.
  - rewrite length_bools. done.
  - cbn [fits]. intros [Hsz _]. rewrite Nat2Z.inj_mul, length_bools in Hsz. by vm_compute in Hsz.
  - rewrite length_bools. reflexivity.
  - rewrite length_bools. reflexivity.
  - eexists n, bs, _. split; [exact Hn|]. split; [exact Hlt|exact Hw].
Defined.
