(* ===== verification/ParcelHelpers.v ===== *)
(** * The other templates of binder/Parcel.h

    The named wrappers of [writeData] and [readData] (enum, parcelable and fixed-array
    variants), objects that follow the LightFlattenable protocol, sizes of vectors, and
    binders of an interface class.  Flattenable.h is not part of the repository: the
    protocol is the class [FlattenOps], what it promises is [FlattenLaws]. *)

From S2P Require Import Prelude Parcel ParcelData ParcelWire.
Local Open Scope Z_scope.

(** ** Wrappers *)

(** How the outer object is passed: by itself, or in a holder. *)
Inductive passed : Type := Plain | Held (h : holder).

Definition pass (c : passed) (t : ty) : ty :=
  match c with Plain => t | Held h => Nullable h t end.

Inductive wrapper : Type :=
| EnumVector (underlying : scalar) (c : passed)
| ParcelableVector (class : Z) (element : passed) (c : passed)
| NullableParcelable (class : Z) (h : holder)
| FixedArray (t : ty) (n : nat) (c : passed).

(** The type whose overload the wrapper calls. *)
Definition wrapped (w : wrapper) : ty :=
  match w with
  | EnumVector s c => pass c (Vector (Enum s))
  | ParcelableVector class e c => pass c (Vector (pass e (ParcelableT class)))
  | NullableParcelable class h => Nullable h (ParcelableT class)
  | FixedArray t n c => pass c (Array t n)
  end.

(** The combinations that Parcel.h declares. *)
Definition writer_declared (w : wrapper) : bool :=
  match w with
  | EnumVector _ (Plain | Held Optional | Held UniquePtr) => true
  | ParcelableVector _ (Held Optional) (Held Optional)
  | ParcelableVector _ (Held UniquePtr) (Held UniquePtr)
  | ParcelableVector _ (Held UniquePtr) (Held SharedPtr)
  | ParcelableVector _ (Held Optional) (Held SharedPtr)
  | ParcelableVector _ Plain Plain => true
  | NullableParcelable _ (Optional | UniquePtr) => true
  | FixedArray _ _ (Plain | Held Optional) => true
  | _ => false
  end.

Definition reader_declared (w : wrapper) : bool :=
  match w with
  | EnumVector _ (Plain | Held Optional | Held UniquePtr) => true
  | ParcelableVector _ (Held Optional) (Held Optional)
  | ParcelableVector _ (Held UniquePtr) (Held UniquePtr)
  | ParcelableVector _ Plain Plain => true
  | NullableParcelable _ (Optional | UniquePtr) => true
  | FixedArray _ _ (Plain | Held Optional) => true
  | _ => false
  end.

(** ** LightFlattenable *)

Class FlattenOps (T : Type) := {
  fl_getFlattenedSize : T -> Z;
  fl_isFixedSize : T -> bool;
  (** [flatten(buffer, size)]: the status and the bytes stored in the buffer *)
  fl_flatten : T -> Z -> Z * list byte;
  fl_unflatten : T -> list byte -> Z * T
}.

(** An object that was flattened is restored from its bytes, and whether the size is
    fixed, and that size, are properties of the class. *)
Class FlattenLaws (T : Type) `{!FlattenOps T} := {
  flattened_size_nonneg (val : T) : 0 <= fl_getFlattenedSize val;
  flatten_length (val : T) size bs :
    fl_flatten val size = (NO_ERROR, bs) -> Z.of_nat (length bs) = size;
  unflatten_flatten (val val0 : T) bs :
    fl_flatten val (fl_getFlattenedSize val) = (NO_ERROR, bs) ->
    fl_unflatten val0 bs = (NO_ERROR, val);
  fixed_by_class (val val0 : T) : fl_isFixedSize val = fl_isFixedSize val0;
  size_by_class (val val0 : T) :
    fl_isFixedSize val = true -> fl_getFlattenedSize val = fl_getFlattenedSize val0
}.

Section helpers.
Context {P : Type} `{!DataOps P}.
Variable size_bits : Z.

Definition write_wrapper (w : wrapper) (v : val) (p : P) : Z * P :=
  writeData size_bits (wrapped w) v p.

Definition read_wrapper (w : wrapper) (p : P) : (Z * val) * P :=
  readData size_bits (wrapped w) false p.

(** *** write and read of a LightFlattenable *)

Section light.
Context {T : Type} `{!FlattenOps T}.

Definition flatten_inplace (val : T) (size : Z) (p : P) : Z * P :=
  if negb (size =? 0) then
    let '(buffer, p) := d_writeInplace size p in
    match buffer with
    | None => (NO_MEMORY, p)
    | Some buffer =>
        let '(status, bs) := fl_flatten val size in (status, d_store buffer bs p)
    end
  else (NO_ERROR, p).

Definition write_light (val : T) (p : P) : Z * P :=
  let size := fl_getFlattenedSize val in
  if negb (fl_isFixedSize val) then
    if INT32_MAX <? size then (BAD_VALUE, p)
    else
      let '(err, p) := write_int32 size p in
      if negb (err =? NO_ERROR) then (err, p) else flatten_inplace val size p
  else flatten_inplace val size p.

Definition unflatten_inplace (val : T) (size : Z) (p : P) : (Z * T) * P :=
  if negb (size =? 0) then
    let '(buffer, p) := d_readInplace size p in
    match buffer with
    | None => ((NO_MEMORY, val), p)
    | Some buffer => (fl_unflatten val (d_load buffer (Z.to_nat size) p), p)
    end
  else ((NO_ERROR, val), p).

Definition read_light (val : T) (p : P) : (Z * T) * P :=
  if fl_isFixedSize val then unflatten_inplace val (fl_getFlattenedSize val) p
  else
    let '((err, s), p) := read_int32 p in
    if negb (err =? NO_ERROR) then ((err, val), p)
    else unflatten_inplace val (wrap size_bits s) p.
End light.

(** *** Sizes of vectors *)

Definition writeVectorSize (n : nat) (p : P) : Z * P :=
  if INT32_MAX <? Z.of_nat n then (BAD_VALUE, p) else write_int32 (Z.of_nat n) p.

(** [std::optional] and [std::unique_ptr]: [None] is the null vector. *)
Definition writeVectorSize_nullable (n : option nat) (p : P) : Z * P :=
  match n with None => write_int32 (-1) p | Some n => writeVectorSize n p end.

(** [readOutVectorSizeWithCheck] is implemented by the platform. *)
Section sizes.
Variable readOutVectorSizeWithCheck : Z -> P -> (Z * Z) * P.
Context {A : Type} (sizeof_A : Z) (default : A).

(** [val->resize(size)] of a vector *)
Definition resize (n : nat) (val : list A) : list A :=
  take n val ++ replicate (n - length val) default.

Definition resizeOutVector (val : list A) (p : P) : (Z * list A) * P :=
  let '((err, size), p) := readOutVectorSizeWithCheck sizeof_A p in
  if negb (err =? NO_ERROR) then ((err, val), p)
  else if size <? 0 then ((UNEXPECTED_NULL, val), p)
  else ((OK, resize (Z.to_nat size) val), p).

Definition resizeOutVector_nullable (val : option (list A)) (p : P) : (Z * option (list A)) * P :=
  let '((err, size), p) := readOutVectorSizeWithCheck sizeof_A p in
  if negb (err =? NO_ERROR) then ((err, val), p)
  else if 0 <=? size then ((OK, Some (replicate (Z.to_nat size) default)), p)
  else ((OK, None), p).
End sizes.

(** *** Binders of an interface class *)

(** [asInterface] and [asBinder] of the class: addresses, 0 for null. *)
Section interfaces.
Variables asInterface asBinder : Z -> Z.

Definition interface_cast (obj : Z) : Z := asInterface obj.

Definition writeStrongBinder_of (val : Z) (p : P) : Z * P :=
  d_write PStrongBinder (VBinder (asBinder val)) p.

Definition binder_of (v : val) : Z := match v with VBinder b => b | _ => 0 end.

(** The status, and what is assigned to [*val] if it is assigned. *)
Definition readStrongBinder_as (p : P) : (Z * option Z) * P :=
  let '((ret, tmp), p) := d_read PStrongBinder p in
  if ret =? OK then
    let val := interface_cast (binder_of tmp) in
    if val =? 0 then ((UNKNOWN_ERROR, Some val), p) else ((ret, Some val), p)
  else ((ret, None), p).

Definition readNullableStrongBinder_as (p : P) : (Z * option Z) * P :=
  let '((ret, tmp), p) := d_readNullableStrongBinder p in
  if ret =? OK then
    let val := interface_cast (binder_of tmp) in
    let ret := if (val =? 0) && negb (binder_of tmp =? 0) then UNKNOWN_ERROR else ret in
    ((ret, Some val), p)
  else ((ret, None), p).
End interfaces.
End helpers.

(** ** Every reader has its writer *)

Lemma reader_has_writer w : reader_declared w = true -> writer_declared w = true.
Proof.
  destruct w as [s [|[]]|class [|[]] [|[]]|class []|t n [|[]]]; simpl; done.
Qed.

(** ** Round trips *)

Section roundtrip.
Context {P : Type} `{!DataOps P} `{!DataLaws P}.
Variable size_bits : Z.
Hypothesis size_bits_ok : 32 <= size_bits.

Lemma flatten_inplace_chunk {T} `{!FlattenOps T} `{!FlattenLaws T} (val : T) size (p p' : P) :
  size <> 0 -> flatten_inplace val size p = (NO_ERROR, p') ->
  exists bs, fl_flatten val size = (NO_ERROR, bs) /\ d_contents p' = d_contents p ++ raw bs.
Proof.
  unfold flatten_inplace. intros Hsz. apply Z.eqb_neq in Hsz as ->. cbn [negb].
  destruct (d_writeInplace size p) as [[buffer|] p1] eqn:Hw; [|done].
  destruct (fl_flatten val size) as [status bs] eqn:Hf. intros [= -> <-]. exists bs.
  split; [done|]. eapply writeInplace_appends; [exact Hw|]. by eapply flatten_length.
Qed.

Lemma unflatten_inplace_back {T} `{!FlattenOps T} `{!FlattenLaws T} (val val0 : T) bs rest (q : P) :
  fl_getFlattenedSize val <> 0 -> fl_flatten val (fl_getFlattenedSize val) = (NO_ERROR, bs) ->
  d_remaining q = raw bs ++ rest ->
  exists q', unflatten_inplace val0 (fl_getFlattenedSize val) q = ((NO_ERROR, val), q') /\
             d_remaining q' = rest /\ d_contents q' = d_contents q.
Proof.
  unfold unflatten_inplace. intros Hsz Hf Hq. apply Z.eqb_neq in Hsz as ->. cbn [negb].
  destruct (readInplace_back bs rest q Hq) as (data & q' & Hr & Hl & Hq').
  rewrite (flatten_length _ _ _ Hf) in Hr. exists q'. rewrite Hr. split; [|done].
  rewrite <-(flatten_length _ _ _ Hf), Nat2Z.id, Hl. by rewrite (unflatten_flatten val val0 bs Hf).
Qed.

(** An object that follows the LightFlattenable protocol, of fixed size or not, is
    read back as it was written, whatever object it is read into. *)
Theorem read_light_write_light {T : Type} `{!FlattenOps T} `{!FlattenLaws T} (val val0 : T)
    (p p' : P) :
  fl_getFlattenedSize val <> 0 -> write_light val p = (NO_ERROR, p') ->
  exists c, d_contents p' = d_contents p ++ c /\
    forall q rest, d_remaining q = c ++ rest ->
      exists q', read_light size_bits val0 q = ((NO_ERROR, val), q') /\
                 d_remaining q' = rest /\ d_contents q' = d_contents q.
Proof using size_bits_ok.
  intros Hsz. unfold write_light, read_light. rewrite (fixed_by_class val0 val).
  destruct (fl_isFixedSize val) eqn:Hfix; cbn [negb].
  - intros (bs & Hf & Ha)%flatten_inplace_chunk; [|done]. exists (raw bs). split; [done|].
    rewrite <-(size_by_class val val0 Hfix). intros q rest. by apply unflatten_inplace_back.
  - destruct (INT32_MAX <? _) eqn:Hmax; [done|]. boolp.
    destruct (write_int32 _ p) as [err p1] eqn:Hw.
    destruct (err =? NO_ERROR) eqn:He; cbn [negb]; boolp; [|congruence].
    subst err. destruct (write_appends _ _ _ _ Hw) as (c1 & Hc1 & Ha1).
    intros (bs & Hf & Ha2)%flatten_inplace_chunk; [|done]. exists (c1 ++ raw bs).
    split; [by rewrite Ha2, Ha1, app_assoc|]. intros q rest Hq. rewrite <-app_assoc in Hq.
    destruct (read_int32_back _ _ Hc1 _ _ Hq) as (q1 & -> & Hq1 & Hcq1).
    change (negb (OK =? NO_ERROR)) with false.
    rewrite (size_word size_bits). 2:{
      pose proof (flattened_size_nonneg val). unfold SIZE_MAX, INT32_MAX in *.
      pose proof (Z.pow_le_mono_r 2 32 size_bits). lia. }
    destruct (unflatten_inplace_back val val0 bs rest q1 Hsz Hf Hq1) as (q2 & -> & Hq2 & Hcq2).
    exists q2. by rewrite Hcq2.
Qed.

(** The size of a vector that may be null is read back as it was written, where the
    platform's check accepts it. *)
Lemma vector_size_roundtrip {A : Type} (check : Z -> P -> (Z * Z) * P) (elm : Z) (default : A)
    (n : option nat) (p p' : P) :
  (forall q q' size, read_int32 q = ((OK, size), q') -> check elm q = ((NO_ERROR, size), q')) ->
  writeVectorSize_nullable n p = (OK, p') ->
  exists c, d_contents p' = d_contents p ++ c /\
    forall q rest val, d_remaining q = c ++ rest ->
      exists q', resizeOutVector_nullable check elm default val q =
          ((OK, (fun n => replicate n default) <$> n), q') /\
        d_remaining q' = rest.
Proof.
  intros Hcheck Hw.
  assert (exists z, write_int32 z p = (OK, p') /\
            match n with None => z = -1 | Some n => z = Z.of_nat n end) as (z & Hz & Hn).
  { destruct n as [n|]; [|by exists (-1)]. simpl in Hw. unfold writeVectorSize in Hw.
    destruct (_ <? _) in Hw; [done|]. by eexists. }
  destruct (write_appends _ _ _ _ Hz) as (c & Hc & Ha). exists c. split; [done|].
  intros q rest val Hq. destruct (read_int32_back _ _ Hc _ _ Hq) as (q' & Hr & Hq' & _).
  exists q'. unfold resizeOutVector_nullable. rewrite (Hcheck _ _ _ Hr). cbn.
  destruct n as [n|]; subst z; [|done]. rewrite (proj2 (Z.leb_le 0 _)) by lia.
  by rewrite Nat2Z.id.
Qed.
End roundtrip.

(** ** A byte string as a LightFlattenable *)

Module BlobSample.

#[global] Instance blob_ops : FlattenOps (list byte) := {
  fl_getFlattenedSize bs := Z.of_nat (length bs);
  fl_isFixedSize _ := false;
  fl_flatten bs size :=
    if Z.of_nat (length bs) =? size then (NO_ERROR, bs) else (NO_MEMORY, []);
  fl_unflatten _ bs := (NO_ERROR, bs)
}.

#[global] Instance blob_laws : FlattenLaws (list byte).
Proof.
  split; simpl; try done.
  - intros val. lia.
  - intros val size bs. destruct (Z.eqb_spec (Z.of_nat (length val)) size); [|done].
    by intros [= <-].
  - intros val val0 bs. rewrite Z.eqb_refl. by intros [= <-].
Qed.

Definition blob : list byte := [Byte.x01; Byte.x02; Byte.x03].

(** A negative size is taken for a size beyond the data. *)
Example negative_size_refused :
  (read_light 64 ([] : list byte)
     {| TokenParcel.toks := [TokenParcel.Tok PInt32 (VInt (-1))]; TokenParcel.pos := 0 |}).1 =
  (NO_MEMORY, []).
Proof. vm_compute. reflexivity. Qed.
End BlobSample.

Lemma read_light_write_light_witness :
  exists c, d_contents (write_light BlobSample.blob ParcelSample.empty).2 =
      d_contents ParcelSample.empty ++ c /\
    forall q rest, d_remaining q = c ++ rest ->
      exists q', read_light 64 [] q = ((NO_ERROR, BlobSample.blob), q') /\
                 d_remaining q' = rest /\ d_contents q' = d_contents q.
Proof.
  apply (read_light_write_light (P := TokenParcel.parcel) 64 ltac:(lia) BlobSample.blob []
    ParcelSample.empty (write_light BlobSample.blob ParcelSample.empty).2).
  - done.
  - reflexivity.
Defined.
