(* ===== verification/Registry.v ===== *)
(** * The interceptor registry (binder_interceptor.cpp, BinderInterceptor)

    [std::map<wp<IBinder>, InterceptorRegistration>] is modelled as the standard
    describes it: the entries in increasing key order, two keys being the same
    when neither is less than the other.  [handleRegisterInterceptor] and
    [shouldInterceptTransaction] are translated on top of it. *)

From S2P Require Import Prelude Prog RefBase Parcel.
Local Open Scope Z_scope.

(** ** Ordered maps *)

Section omap.
Context {K V : Type} (ltb : K -> K -> bool).

(** entries strictly below [k], and the rest: the position of [lower_bound] *)
Fixpoint lower_bound (k : K) (m : list (K * V)) : list (K * V) * list (K * V) :=
  match m with
  | [] => ([], [])
  | e :: m' => if ltb e.1 k then let '(a, b) := lower_bound k m' in (e :: a, b)
               else ([], m)
  end.

Definition map_find (k : K) (m : list (K * V)) : option V :=
  match (lower_bound k m).2 with
  | (k', v) :: _ => if ltb k k' then None else Some v
  | [] => None
  end.

Fixpoint sorted (m : list (K * V)) : Prop :=
  match m with
  | [] => True
  | e :: m => Forall (fun e' => ltb e.1 e'.1 = true) m /\ sorted m
  end.
End omap.

(** ** State *)

Record InterceptorRegistration := {
  reg_target_binder : wp_t;
  reg_interceptor_binder : Z;
  reg_codes : list Z
}.

Abbreviation registry := (list (wp_t * InterceptorRegistration)).

Definition kRegisterInterceptor : Z := 1.

Section decision.
Context {E : Type -> Type} `{!Sub refE E}.

(** [shouldInterceptTransaction]: the lookup converts its argument to a
    [wp<IBinder>] that dies with the statement. *)
Definition shouldInterceptTransaction (reg : registry) (target_binder : wp_t) (code : Z)
  : prog E bool :=
  key ← wp_convert target_binder;
  let it := map_find wp_ltb key reg in
  _ ← wp_destroy key;
  match it with
  | None => mret false
  | Some r =>
      let codes := reg_codes r in
      mret (bool_decide (codes = []) || existsb (fun c => c =? code) codes)
  end.
(** [emplace_hint(iterator, weak_target, InterceptorRegistration{weak_target,
    interceptor_binder})]: the parameters of the constructor, the temporary, and
    the pair of the map.  [wp] has no move constructor, so moving one copies it. *)
Definition new_registration (weak_target : wp_t) (interceptor_binder : Z)
  : prog E (wp_t * InterceptorRegistration) :=
  target ← wp_copy weak_target;
  interceptor ← sp_copy interceptor_binder;
  temp_target ← wp_copy target;
  '(temp_interceptor, interceptor) ← sp_move interceptor;
  _ ← sp_destroy interceptor;
  _ ← wp_destroy target;
  key ← wp_copy weak_target;
  map_target ← wp_copy temp_target;
  '(map_interceptor, temp_interceptor) ← sp_move temp_interceptor;
  _ ← sp_destroy temp_interceptor;
  _ ← wp_destroy temp_target;
  mret (key, {| reg_target_binder := map_target;
                reg_interceptor_binder := map_interceptor; reg_codes := [] |}).
End decision.

Section registry.
Context {P : Type} `{!ParcelOps P}.
Abbreviation M := (prog (binderE P)).

(** The loop that reads the allow-list: [None] when a read fails. *)
Fixpoint read_codes (n : nat) (data : P) (codes : list Z) : option (list Z) * P :=
  match n with
  | O => (Some codes, data)
  | S n =>
      let '((st, c), data) := p_readUint32 data in
      if negb (st =? OK) then (None, data) else read_codes n data (codes ++ [c])
  end.

(** The critical section of [handleRegisterInterceptor]. *)
Definition register_locked (reg : registry) (target_binder interceptor_binder : Z)
    (codes : list Z) : M registry :=
  weak_target ← wp_of_sp target_binder;
  let '(below, rest) := lower_bound wp_ltb weak_target reg in
  let set_codes r := {| reg_target_binder := reg_target_binder r;
                        reg_interceptor_binder := reg_interceptor_binder r;
                        reg_codes := codes |} in
  reg' ←
    (match rest with
     | (k, r) :: rest' =>
         if wp_neqb k weak_target
         then '(k', r') ← new_registration weak_target interceptor_binder;
              mret (below ++ (k', set_codes r') :: rest)
         else i ← sp_assign (reg_interceptor_binder r) interceptor_binder;
              mret (below ++ (k, set_codes {| reg_target_binder := reg_target_binder r;
                                              reg_interceptor_binder := i;
                                              reg_codes := reg_codes r |}) :: rest')
     | [] => '(k', r') ← new_registration weak_target interceptor_binder;
             mret (below ++ [(k', set_codes r')])
     end);
  _ ← wp_destroy weak_target;
  mret reg'.

(** [codes.reserve(count)]: memory the allocator refuses throws, and nothing
    catches. *)
Definition reserve (count : Z) : M unit :=
  if count =? 0 then mret tt
  else ok ← call (Allocate (count * 4));
       if ok : bool then mret tt else Crash.

(** [handleRegisterInterceptor]: the status and the registry.  The two [sp]
    that the parcel filled are released on every path. *)
Definition handleRegisterInterceptor (reg : registry) (data : P) : M (Z * registry) :=
  let '((st, target_binder), data) := p_readStrongBinder data in
  if negb (st =? OK) then _ ← sp_destroy target_binder; mret (BAD_VALUE, reg)
  else if target_binder =? 0 then Crash
  else
    local ← call (LocalBinder target_binder);
    if local =? 0 then _ ← sp_destroy target_binder; mret (BAD_VALUE, reg)
    else
      let '((st, interceptor_binder), data) := p_readStrongBinder data in
      if negb (st =? OK)
      then _ ← sp_destroy interceptor_binder; _ ← sp_destroy target_binder;
           mret (BAD_VALUE, reg)
      else
        let '((st, count), data) := p_readInt32 data in
        if negb (st =? OK)
        then _ ← sp_destroy interceptor_binder; _ ← sp_destroy target_binder;
             mret (BAD_VALUE, reg)
        else
          let count := if count <? 0 then 0 else count in
          _ ← reserve count;
          match read_codes (Z.to_nat count) data [] with
          | (None, _) =>
              _ ← sp_destroy interceptor_binder; _ ← sp_destroy target_binder;
              mret (BAD_VALUE, reg)
          | (Some codes, _) =>
              reg' ← register_locked reg target_binder interceptor_binder codes;
              _ ← sp_destroy interceptor_binder; _ ← sp_destroy target_binder;
              mret (OK, reg')
          end.

(** [BinderInterceptor::onTransact] *)
Definition onTransact (reg : registry) (code : Z) (data : P) : M (Z * registry) :=
  if code =? kRegisterInterceptor then handleRegisterInterceptor reg data
  else mret (UNKNOWN_TRANSACTION, reg).
End registry.

(** ** Ordered maps: lemmas *)

Section omap_lemmas.
Context {K V : Type} (ltb : K -> K -> bool).
Hypothesis irrefl : forall a, ltb a a = false.
Hypothesis trans : forall a b c, ltb a b = true -> ltb b c = true -> ltb a c = true.
Hypothesis total : forall a b, ltb a b = false -> ltb b a = false -> a = b.
Implicit Types (m : list (K * V)).

Lemma lower_bound_spec k m a b :
  lower_bound ltb k m = (a, b) ->
  m = a ++ b /\ Forall (fun e => ltb e.1 k = true) a /\
  match b with [] => True | e :: _ => ltb e.1 k = false end.
Proof.
  revert a b. induction m as [|e m IH]; simpl; intros a b H; simplify_eq; [done|].
  destruct (ltb e.1 k) eqn:He; simplify_eq; [|done].
  destruct (lower_bound ltb k m) as [a' b']. simplify_eq.
  destruct (IH _ _ eq_refl) as (-> & Ha & Hb). eauto.
Qed.

Lemma sorted_app m1 m2 :
  sorted ltb (m1 ++ m2) <->
  sorted ltb m1 /\ sorted ltb m2 /\
  Forall (fun e => Forall (fun e' => ltb e.1 e'.1 = true) m2) m1.
Proof.
  induction m1 as [|e m1 IH]; simpl; [intuition auto|].
  rewrite IH, Forall_app, Forall_cons. tauto.
Qed.

(** Below the insertion point keys are smaller, from it on they are larger or
    it is the key itself. *)
Lemma lower_bound_above k m a b :
  sorted ltb m -> lower_bound ltb k m = (a, b) ->
  match b with
  | [] => True
  | e :: b' => (ltb k e.1 = true \/ e.1 = k) /\ Forall (fun e' => ltb k e'.1 = true) b'
  end.
Proof.
  intros Hs Hl. destruct (lower_bound_spec _ _ _ _ Hl) as (-> & _ & Hb).
  apply sorted_app in Hs as (_ & Hs & _). destruct b as [|e b']; [done|].
  simpl in Hs. destruct Hs as [Hf _].
  assert (ltb k e.1 = true \/ e.1 = k) as Hk.
  { destruct (ltb k e.1) eqn:He; eauto. }
  split; [done|]. eapply Forall_impl; [exact Hf|]. simpl. intros e' He'.
  destruct Hk as [Hk| <-]; eauto.
Qed.

Lemma map_find_In k v m : sorted ltb m -> (map_find ltb k m = Some v <-> (k, v) ∈ m).
Proof.
  intros Hs. unfold map_find. destruct (lower_bound ltb k m) as [a b] eqn:Hl.
  pose proof (lower_bound_above _ _ _ _ Hs Hl) as Hab.
  destruct (lower_bound_spec _ _ _ _ Hl) as (-> & Ha & Hb). simpl.
  rewrite elem_of_app.
  assert (Hna : (k, v) ∉ a).
  { intros Hin. rewrite Forall_forall in Ha. apply Ha in Hin. simpl in Hin.
    by rewrite irrefl in Hin. }
  destruct b as [|[k' v'] b]; [set_solver|]. simpl in *. destruct Hab as [Hk Hbs].
  assert (Hnb : (k, v) ∉ b).
  { intros Hin. rewrite Forall_forall in Hbs. apply Hbs in Hin. simpl in Hin.
    by rewrite irrefl in Hin. }
  rewrite elem_of_cons. destruct Hk as [Hk| ->].
  - rewrite Hk. split; [done|]. intros [?|[?|?]]; try done; simplify_eq.
    by rewrite irrefl in Hk.
  - rewrite irrefl. split; [intros; simplify_eq; auto|].
    intros [?|[?|?]]; try done; simplify_eq; done.
Qed.

(** Insertion at, and replacement of, the entry [lower_bound] points to. *)
Lemma sorted_insert k v m a b :
  sorted ltb m -> lower_bound ltb k m = (a, b) ->
  match b with e :: _ => e.1 <> k | [] => True end ->
  sorted ltb (a ++ (k, v) :: b).
Proof.
  intros Hs Hl Hne. pose proof (lower_bound_above _ _ _ _ Hs Hl) as Hab.
  destruct (lower_bound_spec _ _ _ _ Hl) as (-> & Ha & Hb).
  apply sorted_app in Hs as (Hsa & Hsb & Hx). apply sorted_app. simpl.
  split_and!; try done.
  - destruct b as [|e b]; [done|]. destruct Hab as [[?|?] ?]; [|done]. by constructor.
  - rewrite Forall_forall in Ha, Hx |- *. intros e He. constructor; simpl; auto.
Qed.

Lemma sorted_replace k v v' m a b :
  m = a ++ (k, v) :: b -> sorted ltb m -> sorted ltb (a ++ (k, v') :: b).
Proof.
  intros -> Hs. apply sorted_app in Hs as (Hsa & Hsb & Hx). apply sorted_app.
  split_and!; try done.
  rewrite Forall_forall in Hx |- *. intros e He. specialize (Hx e He).
  inversion Hx; subst. by constructor.
Qed.
End omap_lemmas.

Lemma find_insert `{EqDecision K} {V} (ltb : K -> K -> bool) (m m' : list (K * V)) k v a b :
  (forall a, ltb a a = false) ->
  (forall a b c, ltb a b = true -> ltb b c = true -> ltb a c = true) ->
  (forall a b, ltb a b = false -> ltb b a = false -> a = b) ->
  sorted ltb m -> lower_bound ltb k m = (a, b) ->
  m' = (match b with
        | e :: b' => if decide (e.1 = k) then a ++ (k, v) :: b' else a ++ (k, v) :: b
        | [] => a ++ [(k, v)] end) ->
  sorted ltb m' /\
  forall w, map_find ltb w m' = if decide (w = k) then Some v else map_find ltb w m.
Proof.
  intros Hi Ht Htot Hs Hl Hm'.
  assert (Hs' : sorted ltb m').
  { subst m'. destruct b as [|[k' v'] b']; [by eapply sorted_insert|].
    case_decide; simpl in *; subst; [|by eapply sorted_insert].
    destruct (lower_bound_spec _ _ _ _ _ Hl) as (-> & _). by eapply sorted_replace. }
  assert (Hin : forall w x, (w, x) ∈ m' <-> (w = k /\ x = v) \/ (w <> k /\ (w, x) ∈ m)).
  { pose proof (lower_bound_above _ Ht Htot _ _ _ _ Hs Hl) as Hab.
    destruct (lower_bound_spec _ _ _ _ _ Hl) as (Hm & Ha & _).
    assert (Hna : forall x, (k, x) ∉ a).
    { intros x Hx. rewrite Forall_forall in Ha. apply Ha in Hx. simpl in Hx. congruence. }
    assert (Hnb : forall x e b', b = e :: b' -> (k, x) ∉ b').
    { intros x e b' -> Hx. destruct Hab as [_ Hb]. rewrite Forall_forall in Hb.
      apply Hb in Hx. simpl in Hx. congruence. }
    intros w x. subst m m'. destruct (decide (w = k)) as [->|Hw].
    - assert ((k, x) ∈ (match b with e :: b' => if decide (e.1 = k) then a ++ (k, v) :: b'
                                                else a ++ (k, v) :: b
                                   | [] => a ++ [(k, v)] end) <-> x = v) as ->; [|tauto].
      destruct b as [|e b']; [|specialize (Hnb x _ _ eq_refl); case_decide as He];
        rewrite elem_of_app, !elem_of_cons, ?elem_of_nil, ?pair_eq; try tauto.
      + specialize (Hna x). tauto.
      + specialize (Hna x). tauto.
      + specialize (Hna x). destruct e as [k' x']. simpl in He. rewrite ?pair_eq.
        intuition congruence.
    - assert (forall y, (w, x) = (k, y) <-> False) as Hwk by (intros; rewrite pair_eq; tauto).
      destruct b as [|[k' x'] b']; [|case_decide as He]; simpl in *; subst;
        rewrite !elem_of_app, !elem_of_cons, ?elem_of_nil, ?Hwk; tauto. }
  split; [done|]. intros w. apply option_eq. intros x.
  rewrite map_find_In by done. rewrite Hin. case_decide.
  - split; [intros [[_ ->]|[? _]]; done|intros; simplify_eq; auto].
  - rewrite map_find_In by done. tauto.
Qed.

(** ** The registry as a finite map *)

(** Environments whose reference blocks have one owner, whose local objects say
    so and whose allocator has the room a registration asks for. *)
Definition registry_env {P} (owner : Z -> Z) (ev : event (binderE P)) : Prop :=
  match ev with
  | Event e x =>
      match e in binderE _ X return X -> Prop with
      | RefCall r =>
          match r in refE X return X -> Prop with
          | CreateWeak o | GetWeakRefs o => fun refs => owner refs = o
          | _ => fun _ => True
          end
      | LocalBinder _ => fun local => local <> 0
      | Allocate _ => fun ok => ok = true
      | _ => fun _ => True
      end x
  end.

(** Keys obey the class invariant of [wp], an entry names its own key, and the
    entries are in key order. *)
Definition entry_ok (owner : Z -> Z) (e : wp_t * InterceptorRegistration) : Prop :=
  wp_ok owner e.1 /\ reg_target_binder e.2 = e.1.

Definition registry_ok (owner : Z -> Z) (reg : registry) : Prop :=
  sorted wp_ltb reg /\ Forall (entry_ok owner) reg.

Abbreviation lookup_target w reg := (map_find wp_ltb w reg).

(** What a registration of [w] does to the map. *)
Definition registered (w : wp_t) (interceptor : Z) (codes : list Z) (reg reg' : registry) : Prop :=
  forall w', lookup_target w' reg' =
    if decide (w' = w)
    then Some {| reg_target_binder := w; reg_interceptor_binder := interceptor;
                 reg_codes := codes |}
    else lookup_target w' reg.

Section registry_props.
Context {P : Type} `{!ParcelOps P}.
Variable owner : Z -> Z.
Abbreviation A := (registry_env (P := P) owner).

Lemma wpv_wp_of_sp p (Q : wp_t -> Prop) :
  p <> 0 -> (forall w, m_ptr w = p -> wp_ok owner w -> Q w) -> wpv A (wp_of_sp p) Q.
Proof.
  intros Hp HQ. unfold wp_of_sp. apply wpv_bind. destruct (Z.eqb_spec p 0); [done|].
  apply wpv_trigger. simpl. intros refs Hr. apply wpv_ret. by apply HQ.
Qed.

Lemma wpv_wp_copy w (Q : wp_t -> Prop) : Q w -> wpv A (wp_copy w) Q.
Proof. intros. unfold wp_copy. wpv_go; by destruct w. Qed.

Lemma wpv_wp_destroy w (Q : unit -> Prop) : Q tt -> wpv A (wp_destroy w) Q.
Proof. intros. unfold wp_destroy. by wpv_go. Qed.

Lemma wpv_sp_copy p (Q : Z -> Prop) : Q p -> wpv A (sp_copy p) Q.
Proof. intros. unfold sp_copy. by wpv_go. Qed.

Lemma wpv_sp_assign p q (Q : Z -> Prop) : Q q -> wpv A (sp_assign p q) Q.
Proof. intros. unfold sp_assign. by wpv_go. Qed.

Lemma wpv_sp_destroy p (Q : unit -> Prop) : Q tt -> wpv A (sp_destroy p) Q.
Proof. intros. unfold sp_destroy. by wpv_go. Qed.

Lemma wpv_new_registration w i (Q : wp_t * InterceptorRegistration -> Prop) :
  Q (w, {| reg_target_binder := w; reg_interceptor_binder := i; reg_codes := [] |}) ->
  wpv A (new_registration w i) Q.
Proof.
  intros. unfold new_registration, sp_move.
  apply wpv_bind, wpv_wp_copy, wpv_bind, wpv_sp_copy, wpv_bind, wpv_wp_copy,
    wpv_bind, wpv_ret, wpv_bind, wpv_sp_destroy, wpv_bind, wpv_wp_destroy,
    wpv_bind, wpv_wp_copy, wpv_bind, wpv_wp_copy,
    wpv_bind, wpv_ret, wpv_bind, wpv_sp_destroy, wpv_bind, wpv_wp_destroy.
  by apply wpv_ret.
Qed.

Lemma registry_find_insert (w : wp_t) v (reg reg' a b : registry) :
  sorted wp_ltb reg -> lower_bound wp_ltb w reg = (a, b) ->
  reg' = (match b with
          | e :: b' => if decide (e.1 = w) then a ++ (w, v) :: b' else a ++ (w, v) :: b
          | [] => a ++ [(w, v)] end) ->
  sorted wp_ltb reg' /\
  forall w', lookup_target w' reg' = if decide (w' = w) then Some v else lookup_target w' reg.
Proof. intros Hs Hl He. eapply find_insert; eauto using wp_ltb_irrefl, wp_ltb_trans, wp_ltb_total. Qed.

(** An entry put where [lower_bound] points, in place of the one with its key. *)
Lemma registry_ok_insert w i codes (reg reg' below rest : registry) :
  registry_ok owner reg -> wp_ok owner w -> lower_bound wp_ltb w reg = (below, rest) ->
  let v := {| reg_target_binder := w; reg_interceptor_binder := i; reg_codes := codes |} in
  reg' = (match rest with
          | e :: b' => if decide (e.1 = w) then below ++ (w, v) :: b'
                       else below ++ (w, v) :: rest
          | [] => below ++ [(w, v)] end) ->
  registry_ok owner reg' /\ registered w i codes reg reg'.
Proof.
  intros [Hs Hok] Hw Hl v He.
  destruct (registry_find_insert w v _ _ _ _ Hs Hl He) as [Hs' Hf]. split; [split|]; [done| |done].
  destruct (lower_bound_spec _ _ _ _ _ Hl) as (-> & _). apply Forall_app in Hok as [Hb Hr].
  assert (Hv : entry_ok owner (w, v)) by done.
  subst reg'. destruct rest as [|e rest]; [|apply Forall_cons in Hr as [He Hr]; case_decide];
    apply Forall_app; repeat (constructor; try done).
Qed.

(** The entry there has the key exactly when it has the key's reference block. *)
Lemma registry_hit w (reg below rest : registry) k r :
  registry_ok owner reg -> wp_ok owner w -> lower_bound wp_ltb w reg = (below, (k, r) :: rest) ->
  reg_target_binder r = k /\ wp_neqb k w = bool_decide (k <> w).
Proof.
  intros [_ Hok] Hw Hl. destruct (lower_bound_spec _ _ _ _ _ Hl) as (-> & _).
  apply Forall_app in Hok as [_ Hr]. apply Forall_cons in Hr as [[Hk Hrk] _]. split; [exact Hrk|].
  unfold wp_neqb. destruct (wp_eqb k w) eqn:Hkw; simpl; symmetry.
  - apply bool_decide_eq_false. apply (wp_eqb_eq owner) in Hkw; [|done..]. tauto.
  - apply bool_decide_eq_true. intros ->. unfold wp_eqb in Hkw. by rewrite Z.eqb_refl in Hkw.
Qed.

Lemma register_locked_spec reg target interceptor codes :
  registry_ok owner reg -> target <> 0 ->
  wpv A (register_locked reg target interceptor codes) (fun reg' =>
    registry_ok owner reg' /\
    exists w, m_ptr w = target /\ wp_ok owner w /\ registered w interceptor codes reg reg').
Proof.
  intros Hreg Ht. unfold register_locked.
  apply wpv_bind, wpv_wp_of_sp; [done|]. intros w Hw Hwok.
  destruct (lower_bound wp_ltb w reg) as [below rest] eqn:Hl.
  pose proof (fun reg' => registry_ok_insert w interceptor codes reg reg' below rest Hreg Hwok Hl)
    as Hins. simpl in Hins.
  assert (Hdone : forall reg', registry_ok owner reg' /\ registered w interceptor codes reg reg' ->
    wpv A (_ ← wp_destroy w; mret reg') (fun reg' => registry_ok owner reg' /\
      exists w, m_ptr w = target /\ wp_ok owner w /\ registered w interceptor codes reg reg')).
  { intros reg' []. apply wpv_bind, wpv_wp_destroy, wpv_ret. eauto. }
  apply wpv_bind. destruct rest as [|[k r] rest'].
  - by apply wpv_bind, wpv_new_registration, wpv_ret, Hdone, Hins.
  - destruct (registry_hit _ _ _ _ _ _ Hreg Hwok Hl) as [Hrk ->]. case_bool_decide as Hk.
    + apply wpv_bind, wpv_new_registration, wpv_ret, Hdone, Hins. by rewrite decide_False.
    + apply wpv_bind, wpv_sp_assign, wpv_ret, Hdone, Hins.
      simpl. rewrite decide_True by done. by subst.
Qed.

(** ** Registration *)

(** The loop stops at the first unreadable code, and otherwise reads exactly
    the number asked for. *)
Lemma read_codes_length n data acc codes data' :
  read_codes n data acc = (Some codes, data') -> length codes = (length acc + n)%nat.
Proof.
  revert data acc. induction n as [|n IH]; simpl; intros data acc H; simplify_eq; [lia|].
  destruct (p_readUint32 data) as [[st c] d]. destruct (st =? OK); simplify_eq/=.
  apply IH in H. rewrite length_app in H. simpl in H. lia.
Qed.

Lemma wpv_reserve n : wpv A (reserve n) (fun _ => True).
Proof.
  unfold reserve. wpv_go; [done|..]; simpl in *; subst; done.
Qed.
End registry_props.

(** The arguments of a registration as the client writes them: the target, the
    interceptor and an array of transaction codes (a count, then the codes). *)
Definition registration_message (target interceptor count : Z) (codes : list Z) : list tok :=
  TBinder target :: TBinder interceptor :: T32 count :: map T32 codes.

Section registration.
Context {P : Type} `{!ParcelOps P} `{!ParcelLaws P}.
Variable owner : Z -> Z.
Abbreviation A := (registry_env (P := P) owner).

Lemma read_codes_ok (data : P) (codes acc : list Z) rest :
  unread data = map T32 codes ++ rest ->
  exists data', read_codes (length codes) data acc = (Some (acc ++ map (wrap 32) codes), data').
Proof.
  revert data acc. induction codes as [|c codes IH]; simpl; intros data acc Hu.
  - rewrite app_nil_r. eauto.
  - destruct (readUint32_ok _ _ _ Hu) as (d & Hr & _ & Hu'). rewrite Hr. simpl.
    destruct (IH d (acc ++ [wrap 32 c]) Hu') as [d' ->].
    rewrite <-app_assoc. simpl. eauto.
Qed.

(** A well-formed registration message makes exactly one change to the
    registry, seen as a finite map: the target is mapped to the interceptor and
    the allow-list of the message (empty for a negative count), replacing what
    was there; the key order, and every other target, stay as they were. *)
Lemma handleRegisterInterceptor_registers (reg : registry) (data : P)
    (target interceptor count : Z) (codes : list Z) (rest : list tok) :
  registry_ok owner reg ->
  target <> 0 -> interceptor <> 0 ->
  Z.of_nat (length codes) = Z.max 0 (sext 32 count) ->
  unread data = registration_message target interceptor count codes ++ rest ->
  wpv A (handleRegisterInterceptor reg data) (fun '(st, reg') =>
    st = OK /\ registry_ok owner reg' /\
    exists w, m_ptr w = target /\ wp_ok owner w /\
              registered w interceptor (map (wrap 32) codes) reg reg').
Proof.
  intros Hreg Ht Hi Hn Hu. unfold registration_message in Hu. simpl in Hu.
  unfold handleRegisterInterceptor.
  destruct (readStrongBinder_ok _ _ _ Hu Ht) as (d1 & -> & _ & Hu1). cbn [OK negb Z.eqb].
  destruct (Z.eqb_spec target 0) as [|_]; [done|].
  apply wpv_bind, wpv_call. simpl. intros local Hl. destruct (Z.eqb_spec local 0) as [|_]; [done|].
  destruct (readStrongBinder_ok _ _ _ Hu1 Hi) as (d2 & -> & _ & Hu2). cbn [OK negb Z.eqb].
  destruct (readInt32_ok _ _ _ Hu2) as (d3 & -> & _ & _ & Hu3). cbn [OK negb Z.eqb].
  set (n := if sext 32 count <? 0 then 0 else sext 32 count).
  assert (Hlen : Z.to_nat n = length codes).
  { unfold n. destruct (Z.ltb_spec (sext 32 count) 0); lia. }
  apply wpv_bind. eapply wpv_mono; [apply wpv_reserve|]. intros [] _.
  destruct (read_codes_ok d3 codes [] rest Hu3) as [d4 Hrc]. rewrite Hlen, Hrc. simpl.
  apply wpv_bind. eapply wpv_mono; [by apply register_locked_spec|].
  intros reg' (Hok & w & Hw). 
  apply wpv_bind, wpv_sp_destroy, wpv_bind, wpv_sp_destroy, wpv_ret. eauto.
Qed.
End registration.


(** The sizes of the allocations that were refused. *)
Definition refused {P} (ev : event (binderE P)) : list Z :=
  match ev with
  | Event e x =>
      match e in binderE _ X return X -> list Z with
      | Allocate bytes => fun ok => if ok : bool then [] else [bytes]
      | _ => fun _ => []
      end x
  end.

Section registration_errors.
Context {P : Type} `{!ParcelOps P} `{!ParcelLaws P}.
Abbreviation A := (fun _ : event (binderE P) => True).

(** The count a registration message carries, before its codes. *)
Definition message_count (data : P) : Z :=
  (p_readInt32 (p_readStrongBinder (p_readStrongBinder data).2).2).1.2.

Ltac go := repeat (wpc_step || (progress unfold sp_destroy, wp_destroy, wp_of_sp, wp_copy, sp_move,
  sp_copy, sp_assign, new_registration)); destruct_units; simpl in *; eauto.

Lemma register_locked_total (reg : registry) target interceptor codes :
  wpc A refused (register_locked reg target interceptor codes) (fun _ l => l = []).
Proof.
  unfold register_locked.
  apply wpc_bind, (wpc_mono _ _ _ (fun _ l => l = [])); [by go|]. intros w l ->.
  destruct (lower_bound wp_ltb w reg) as [below rest].
  apply wpc_bind, (wpc_mono _ _ _ (fun _ l => l = [])); [|intros ? l ->; by go].
  destruct rest as [|[k r] rest']; [by go|]. destruct (wp_neqb k w); by go.
Qed.

(** What a registration can end in: a status, and then no allocation was refused; or the
    abort of the process, when the allocator refused the room for the codes that the
    message announces. *)
Definition registration_outcome (reg : registry) (data : P) (r : outcome (Z * registry))
    (l : list Z) : Prop :=
  match r with
  | Done (st, reg') => l = [] /\ (st = OK \/ (st = BAD_VALUE /\ reg' = reg))
  | Fault => 0 < message_count data /\ l = [message_count data * 4]
  | Timeout => False
  end.

Lemma register_codes_total (reg : registry) (n : nat) target i (d data : P) :
  wpc A refused
    (match read_codes n d [] with
     | (None, _) => _ ← sp_destroy i; _ ← sp_destroy target; mret (BAD_VALUE, reg)
     | (Some codes, _) =>
         reg' ← register_locked reg target i codes;
         _ ← sp_destroy i; _ ← sp_destroy target; mret (OK, reg')
     end) (fun x l => registration_outcome reg data (Done x) l).
Proof.
  destruct (read_codes n d []) as [[codes|] d4]; [|by go].
  apply wpc_bind. eapply wpc_mono; [apply register_locked_total|]. intros reg' l ->. by go.
Qed.

(** C25: a registration is atomic whatever a caller puts in the message.  It ends, with
    [OK], or with [BAD_VALUE] and the registry as it was: a half-read allow-list is never
    visible.  The one fault is the allocator's: room for as many codes as the message
    announces is asked for before any is read, and when that is refused the process
    aborts.  A well-formed message for which there is room is answered [OK], and maps the
    target to its interceptor and codes. *)
Theorem handleRegisterInterceptor_atomic (reg : registry) (data : P) :
  wpa A (handleRegisterInterceptor reg data)
    (fun r t => registration_outcome reg data r (t ≫= refused)) /\
  forall owner target interceptor count codes rest,
    registry_ok owner reg -> target <> 0 -> interceptor <> 0 ->
    Z.of_nat (length codes) = Z.max 0 (sext 32 count) ->
    unread data = registration_message target interceptor count codes ++ rest ->
    wpv (registry_env owner) (handleRegisterInterceptor reg data) (fun '(st, reg') =>
      st = OK /\ registry_ok owner reg' /\
      exists w, m_ptr w = target /\ wp_ok owner w /\
                registered w interceptor (map (wrap 32) codes) reg reg').
Proof.
  split; [|intros; by eapply handleRegisterInterceptor_registers].
  assert (Hout : forall p : prog (binderE P) (Z * registry),
    wpc A refused p (fun x l => registration_outcome reg data (Done x) l) ->
    wpa A p (fun r t => registration_outcome reg data r (t ≫= refused))).
  { intros p H. eapply wpa_mono; [exact H|]. by intros [x| |] t _. }
  assert (Hbad : forall st', st' = BAD_VALUE -> registration_outcome reg data (Done (st', reg)) [])
    by (intros ? ->; split; auto).
  unfold handleRegisterInterceptor, message_count in *.
  destruct (p_readStrongBinder data) as [[st target] d1] eqn:Hr1.
  destruct (Z.eqb_spec st OK) as [->|_]; cbn [negb]; [|apply Hout; by go].
  pose proof (readStrongBinder_nonnull _ _ _ Hr1) as Ht.
  destruct (Z.eqb_spec target 0) as [|_]; [done|].
  apply wpa_bind, wpa_call. intros local _. simpl.
  destruct (local =? 0); [apply Hout; by go|].
  destruct (p_readStrongBinder d1) as [[st1 i] d2] eqn:Hr2. destruct (negb (st1 =? OK)); [apply Hout; by go|].
  destruct (p_readInt32 d2) as [[st2 count] d3] eqn:Hr3. destruct (negb (st2 =? OK)); [apply Hout; by go|].
  set (n := if count <? 0 then 0 else count).
  unfold reserve. destruct (Z.eqb_spec n 0) as [|Hn].
  { apply Hout, wpc_bind, wpc_ret. apply register_codes_total. }
  apply wpa_bind, wpa_bind, wpa_call. intros ok _. destruct ok; simpl.
  - apply wpa_ret. apply Hout, register_codes_total.
  - intros _. unfold registration_outcome, message_count. simpl. rewrite Hr1. simpl. rewrite Hr2. simpl. rewrite Hr3. simpl.
    unfold n in *. destruct (Z.ltb_spec count 0); [done|]. split; [lia|done].
Qed.

(** A message of three values can make the process abort. *)
Lemma registration_abort (reg : registry) (data : P) (target interceptor count : Z) :
  target <> 0 -> interceptor <> 0 -> 0 < sext 32 count ->
  unread data = [TBinder target; TBinder interceptor; T32 count] ->
  exec (handleRegisterInterceptor reg data)
    [Event (LocalBinder target) target; Event (Allocate (sext 32 count * 4)) false] Fault.
Proof.
  intros Ht Hi Hn Hu. unfold handleRegisterInterceptor.
  destruct (readStrongBinder_ok _ _ _ Hu Ht) as (d1 & -> & _ & Hu1). cbn [OK negb Z.eqb].
  destruct (Z.eqb_spec target 0) as [|Ht0]; [done|].
  apply (exec_bind _ _ [_] [_] target); [by repeat constructor|].
  destruct (Z.eqb_spec target 0) as [|_]; [done|].
  destruct (readStrongBinder_ok _ _ _ Hu1 Hi) as (d2 & -> & _ & Hu2). cbn [OK negb Z.eqb].
  destruct (readInt32_ok _ _ _ Hu2) as (d3 & -> & _ & _ & Hu3). cbn [OK negb Z.eqb].
  destruct (Z.ltb_spec (sext 32 count) 0); [lia|]. unfold reserve.
  destruct (Z.eqb_spec (sext 32 count) 0); [lia|]. repeat constructor.
Qed.
End registration_errors.

Section decision_spec.
Context {E : Type -> Type} `{!Sub refE E}.

(** ** The decision to intercept *)

(** What the registry says of a transaction for [w]. *)
Definition wants (reg : registry) (w : wp_t) (code : Z) : bool :=
  match lookup_target w reg with
  | None => false
  | Some r => bool_decide (reg_codes r = []) || existsb (fun c => c =? code) (reg_codes r)
  end.

Lemma shouldInterceptTransaction_wants A (reg : registry) (w : wp_t) (code : Z) Q :
  (m_ptr w = 0 -> m_refs w = 0) -> Q (wants reg w code) ->
  wpv A (shouldInterceptTransaction (E := E) reg w code) Q.
Proof.
  intros Hnull HQ. unfold shouldInterceptTransaction.
  assert (Hkey : wpv A (wp_convert (E := E) w) (fun k => k = w)).
  { unfold wp_convert. wpv_go; destruct w as [p r]; simpl in *; boolp; [done|].
    subst p. by rewrite Hnull. }
  apply wpv_bind. eapply wpv_mono; [exact Hkey|]. intros ? ->.
  unfold wants in HQ. apply wpv_bind. unfold wp_destroy. wpv_go.
  all: destruct (lookup_target w reg) as [r|]; by apply wpv_ret.
Qed.

(** A transaction is intercepted exactly when its target is registered and
    its code is on the target's allow-list or the list is empty. *)
Theorem shouldInterceptTransaction_spec (reg : registry) (w : wp_t) (code : Z) :
  (m_ptr w = 0 -> m_refs w = 0) ->
  wpv (fun _ => True) (shouldInterceptTransaction (E := E) reg w code) (fun b =>
    b = true <->
    exists r, lookup_target w reg = Some r /\ (reg_codes r = [] \/ code ∈ reg_codes r)).
Proof.
  intros Hnull. apply shouldInterceptTransaction_wants; [done|]. unfold wants.
  destruct (lookup_target w reg) as [r|]; [|naive_solver].
  rewrite orb_true_iff, bool_decide_eq_true, existsb_exists.
  setoid_rewrite Z.eqb_eq. setoid_rewrite <-list_elem_of_In. naive_solver.
Qed.
End decision_spec.

(** ** Reference accounting of the registry *)

(** Weak references to block [r] and strong references to object [o] that the
    registry holds. *)
Definition registry_weak (r : Z) (reg : registry) : Z :=
  lsum (fun e => wp_held r e.1 + wp_held r (reg_target_binder e.2)) reg.

Definition registry_strong (o : Z) (reg : registry) : Z :=
  lsum (fun e => sp_held o (reg_interceptor_binder e.2)) reg.

Section registry_accounting.
Context {P : Type}.
Abbreviation M := (prog (binderE P)).

Lemma weak_no_strong r p :
  nets (E := binderE P) (weak_delta r) (sp_copy p) (fun _ => 0) /\
  nets (E := binderE P) (weak_delta r) (sp_destroy p) (fun _ => 0) /\
  forall q, nets (E := binderE P) (weak_delta r) (sp_assign p q) (fun _ => 0).
Proof.
  assert (H : forall (b : bool) (e : refE unit), (forall x, weak_delta r _ e x = 0) ->
    nets (E := binderE P) (weak_delta r) (when b (trigger e)) (fun _ => 0)).
  { intros b e He. eapply nets_ext; [by apply (nets_when _ _ _ 0), nets_trigger|]. by destruct b. }
  split_and!; intros; unfold sp_copy, sp_assign, sp_destroy; [|by apply H|].
  - eapply nets_bind; [by apply H|intros []]. by apply nets_ret.
  - eapply nets_bind; [by apply H|intros []]. eapply nets_bind; [by apply H|intros []].
    by apply nets_ret.
Qed.

Lemma strong_no_weak owner o :
  (forall p, nets (E := binderE P) (strong_delta owner o) (wp_of_sp p) (fun _ => 0)) /\
  (forall w, nets (E := binderE P) (strong_delta owner o) (wp_copy w) (fun _ => 0)) /\
  (forall w, nets (E := binderE P) (strong_delta owner o) (wp_destroy w) (fun _ => 0)).
Proof.
  assert (H : forall (b : bool) (e : refE unit), (forall x, strong_delta owner o _ e x = 0) ->
    nets (E := binderE P) (strong_delta owner o) (when b (trigger e)) (fun _ => 0)).
  { intros b e He. eapply nets_ext; [by apply (nets_when _ _ _ 0), nets_trigger|]. by destruct b. }
  split_and!; intros; unfold wp_of_sp, wp_copy, wp_destroy.
  - eapply (nets_bind _ _ _ (fun _ => 0)); [|intros refs; by apply nets_ret].
    destruct (p =? 0); [by apply nets_ret|by apply nets_trigger].
  - eapply nets_bind; [by apply H|intros []]. by apply nets_ret.
  - by apply H.
Qed.

Lemma new_registration_weak r w i :
  nets (E := binderE P) (weak_delta r) (new_registration w i)
       (fun e => wp_held r e.1 + wp_held r (reg_target_binder e.2)).
Proof.
  unfold new_registration.
  eapply nets_bind; [apply wp_copy_net|intros t].
  eapply nets_bind; [apply weak_no_strong|intros s].
  eapply nets_bind; [apply wp_copy_net|intros t'].
  eapply nets_bind; [by apply (nets_ret _ _ (fun _ => 0))|intros [s1 s2]].
  eapply nets_bind; [apply weak_no_strong|intros []].
  eapply nets_bind; [apply wp_destroy_net|intros []].
  eapply nets_bind; [apply wp_copy_net|intros k].
  eapply nets_bind; [apply wp_copy_net|intros m].
  eapply nets_bind; [by apply (nets_ret _ _ (fun _ => 0))|intros [s3 s4]].
  eapply nets_bind; [apply weak_no_strong|intros []].
  eapply nets_bind; [apply wp_destroy_net|intros []]. apply nets_ret. simpl. lia.
Qed.

Lemma new_registration_strong owner o w i :
  o <> 0 ->
  nets (E := binderE P) (strong_delta owner o) (new_registration w i)
       (fun e => sp_held o (reg_interceptor_binder e.2)).
Proof.
  intros Ho. unfold new_registration.
  assert (Hmove : forall s, nets (E := binderE P) (strong_delta owner o) (sp_move s)
    (fun '(p, q) => sp_held o p + sp_held o q - sp_held o s)).
  { intros s. apply nets_ret. unfold sp_held at 2. simpl. lia. }
  eapply nets_bind; [apply strong_no_weak|intros t].
  eapply nets_bind; [by apply sp_of_ptr_net|intros s].
  eapply nets_bind; [apply strong_no_weak|intros t'].
  eapply nets_bind; [apply Hmove|intros [s1 s2]].
  eapply nets_bind; [by apply when_dec_s|intros []].
  eapply nets_bind; [apply strong_no_weak|intros []].
  eapply nets_bind; [apply strong_no_weak|intros k].
  eapply nets_bind; [apply strong_no_weak|intros m].
  eapply nets_bind; [apply Hmove|intros [s3 s4]].
  eapply nets_bind; [by apply when_dec_s|intros []].
  eapply nets_bind; [apply strong_no_weak|intros []]. apply nets_ret. simpl. lia.
Qed.

(** The critical section of a registration is balanced: the change it makes
    to the weak count of a block, and to the strong count of an object, is the
    change in what the registry holds.  Replacing an entry releases the
    interceptor it replaces, and the temporary weak pointer is released. *)
Theorem register_locked_accounting (owner : Z -> Z) (r o : Z) (reg : registry)
    (target interceptor : Z) (codes : list Z) :
  o <> 0 ->
  nets (E := binderE P) (weak_delta r) (register_locked reg target interceptor codes)
       (fun reg' => registry_weak r reg' - registry_weak r reg) /\
  nets (E := binderE P) (strong_delta owner o) (register_locked reg target interceptor codes)
       (fun reg' => registry_strong o reg' - registry_strong o reg).
Proof.
  intros Ho. unfold register_locked, registry_weak, registry_strong. split.
  - eapply nets_bind; [apply wp_of_sp_net|intros w].
    destruct (lower_bound wp_ltb w reg) as [below rest] eqn:Hl.
    apply lower_bound_spec in Hl as (-> & _).
    eapply (nets_bind _ _ _ (fun reg' => registry_weak r reg' - registry_weak r (below ++ rest)));
      unfold registry_weak.
    + destruct rest as [|[k e] rest']; [|destruct (wp_neqb k w)].
      * eapply nets_bind; [apply new_registration_weak|intros [k' r']]. apply nets_ret.
        rewrite !lsum_app. simpl. lia.
      * eapply nets_bind; [apply new_registration_weak|intros [k' r']]. apply nets_ret.
        rewrite !lsum_app. simpl. lia.
      * eapply nets_bind; [apply weak_no_strong|intros i]. apply nets_ret.
        rewrite !lsum_app. simpl. lia.
    + intros reg'. eapply nets_bind; [apply wp_destroy_net|intros []]. apply nets_ret. lia.
  - eapply nets_bind; [apply strong_no_weak|intros w].
    destruct (lower_bound wp_ltb w reg) as [below rest] eqn:Hl.
    apply lower_bound_spec in Hl as (-> & _).
    eapply (nets_bind _ _ _ (fun reg' => registry_strong o reg' - registry_strong o (below ++ rest)));
      unfold registry_strong.
    + destruct rest as [|[k e] rest']; [|destruct (wp_neqb k w)].
      * eapply nets_bind; [by apply new_registration_strong|intros [k' r']]. apply nets_ret.
        rewrite !lsum_app. simpl. lia.
      * eapply nets_bind; [by apply new_registration_strong|intros [k' r']]. apply nets_ret.
        rewrite !lsum_app. simpl. lia.
      * eapply nets_bind; [by apply sp_assign_net|intros i]. apply nets_ret.
        rewrite !lsum_app. simpl. lia.
    + intros reg'. eapply nets_bind; [apply strong_no_weak|intros []]. apply nets_ret. lia.
Qed.
End registry_accounting.

(** ** A concrete environment

    One service, object 16 with reference block 7, and one interceptor, object 32
    with block 9, over the token parcel. *)
Module Sample.
Abbreviation P := TokParcel.t.

Definition service : Z := 16.
Definition interceptor : Z := 32.
Definition block (o : Z) : Z := if o =? service then 7 else if o =? interceptor then 9 else 0.
Definition owner (refs : Z) : Z :=
  if refs =? 7 then service else if refs =? 9 then interceptor else 0.

Definition ref_answer {X} (e : refE X) : X :=
  match e in refE X return X with
  | CreateWeak o | GetWeakRefs o => block o
  | AttemptIncStrong _ => true
  | NewObject => 48
  | _ => tt
  end.

Definition message (ts : list tok) : P := TokParcel.Make [] ts.
Definition written (ts : list tok) : P := TokParcel.Make ts [].

Definition key : wp_t := Wp service 7.
Definition reg : registry :=
  [(key, {| reg_target_binder := key; reg_interceptor_binder := interceptor;
            reg_codes := [3] |})].

Definition request : P := message [T32 5; TBinder interceptor].
Definition reply : P := written [].

Lemma reg_ok : registry_ok owner reg.
Proof. split; [by vm_compute|]. by repeat constructor. Qed.

(** A registry of four services, to look at the order of the keys. *)
Definition entry (p refs i : Z) (codes : list Z) : wp_t * InterceptorRegistration :=
  (Wp p refs, {| reg_target_binder := Wp p refs; reg_interceptor_binder := i;
                 reg_codes := codes |}).

(** Registering object 16 again replaces its entry; object 8 goes in front. *)
Definition answer (X : Type) (e : binderE P X) (s : unit) : X * unit :=
  (match e in binderE _ X return X with
   | RefCall r => ref_answer r
   | LocalBinder o => o
   | Transact _ _ _ reply _ => (OK, reply)
   | GetCallingUid => 10123
   | GetCallingPid => 777
   | Allocate _ => true
   end, s).

Example register_again :
  (run answer (handleRegisterInterceptor reg
     (message (registration_message service 64 2 [1; 2]))) tt).1.1 =
    Done (OK, [entry 16 7 64 [1; 2]]).
Proof. by vm_compute. Qed.

Example register_new :
  (run answer (handleRegisterInterceptor reg
     (message (registration_message 8 64 (-1 mod 2 ^ 32) []))) tt).1.1 =
    Done (OK, [entry 8 0 64 []; entry 16 7 32 [3]]).
Proof. by vm_compute. Qed.

Example register_short :
  (run answer (handleRegisterInterceptor reg
     (message (registration_message service 64 3 [1; 2]))) tt).1.1 =
    Done (BAD_VALUE, reg).
Proof. by vm_compute. Qed.
End Sample.

Lemma handleRegisterInterceptor_atomic_witness :
  wpv (registry_env Sample.owner)
      (handleRegisterInterceptor Sample.reg
         (Sample.message (registration_message Sample.service 64 2 [1; 2] ++ [T32 9])))
      (fun '(st, reg') =>
         st = OK /\ registry_ok Sample.owner reg' /\
         exists w, m_ptr w = Sample.service /\ wp_ok Sample.owner w /\
                   registered w 64 [1; 2] Sample.reg reg').
Proof.
  apply (proj2 (handleRegisterInterceptor_atomic Sample.reg
    (Sample.message (registration_message Sample.service 64 2 [1; 2] ++ [T32 9])))
    Sample.owner Sample.service 64 2 [1; 2] [T32 9]); first apply Sample.reg_ok; by vm_compute.
Defined.

Lemma shouldInterceptTransaction_spec_witness :
  wpv (fun _ => True)
      (shouldInterceptTransaction (E := refE) Sample.reg Sample.key 3) (fun b =>
      b = true <->
      exists r, lookup_target Sample.key Sample.reg = Some r /\
                (reg_codes r = [] \/ 3 ∈ reg_codes r)).
Proof. apply (shouldInterceptTransaction_spec Sample.reg Sample.key 3). done. Defined.

Lemma register_locked_accounting_witness :
  nets (E := binderE TokParcel.t) (weak_delta 7) (register_locked Sample.reg 16 64 [1])
       (fun reg' => registry_weak 7 reg' - registry_weak 7 Sample.reg) /\
  nets (E := binderE TokParcel.t) (strong_delta Sample.owner 32)
       (register_locked Sample.reg 16 64 [1])
       (fun reg' => registry_strong 32 reg' - registry_strong 32 Sample.reg).
Proof. apply (register_locked_accounting Sample.owner 7 32 Sample.reg 16 64 [1]). done. Defined.
