(* ===== verification/RegistryLock.v ===== *)
(** * The lock of the registry (binder_interceptor.cpp, BinderInterceptor)

    Every thread of the process runs the hook, so the registry is read and written
    concurrently, under the [std::shared_mutex] [interceptor_registry_lock_].  Here the
    critical sections are translated access by access, and run by any number of threads
    whose calls interleave freely.  A thread is one section; a thread of the process that
    runs several in a row is several of these, each begun after the one before has
    returned.

    The atomic registry is a finite map from targets to interceptors and allow-lists on
    which each operation acts in one step, between the first call of its section and its
    return; the threads refine it, never race for the registry and never block each other
    for good. *)

From S2P Require Import Prelude Prog RefBase Registry.
Local Open Scope Z_scope.

(** ** The accesses to shared state *)

(** The members of [std::shared_mutex] that the guards call, and the registry, which any
    thread can read and write at any time. *)
Inductive lockE : Type -> Type :=
| LockShared : lockE unit
| UnlockShared : lockE unit
| LockExclusive : lockE unit
| UnlockExclusive : lockE unit
| ReadRegistry : lockE registry
| WriteRegistry (reg : registry) : lockE unit.

Inductive sharedE : Type -> Type :=
| LockCall {X} (e : lockE X) : sharedE X
| CountCall {X} (e : refE X) : sharedE X.

#[export] Instance Sub_lock_shared : Sub lockE sharedE := {|
  inj := fun X e => LockCall e;
  prj := fun X e => match e with LockCall e => Some e | _ => None end;
  prj_inj := fun _ _ => eq_refl |}.

#[export] Instance Sub_ref_shared : Sub refE sharedE := {|
  inj := fun X e => CountCall e;
  prj := fun X e => match e with CountCall e => Some e | _ => None end;
  prj_inj := fun _ _ => eq_refl |}.

(** ** The critical sections *)

Section sections.
Abbreviation M := (prog sharedE).

(** [ReadGuard guard{interceptor_registry_lock_}] around a block *)
Definition with_read {A} (body : M A) : M A :=
  _ ← trigger LockShared; x ← body; _ ← trigger UnlockShared; mret x.

(** [WriteGuard write_guard{interceptor_registry_lock_}] around a block *)
Definition with_write {A} (body : M A) : M A :=
  _ ← trigger LockExclusive; x ← body; _ ← trigger UnlockExclusive; mret x.

(** [find]: an iterator is the position of the entry, [None] is [end()]. *)
Definition find_it (key : wp_t) (reg : registry) : option nat :=
  let '(below, rest) := lower_bound wp_ltb key reg in
  match rest with
  | (k, _) :: _ => if wp_ltb key k then None else Some (length below)
  | [] => None
  end.

(** [it->second]: an access to the registry after the lookup *)
Definition deref (it : nat) : M InterceptorRegistration :=
  reg ← trigger ReadRegistry;
  match reg !! it with Some e => mret e.2 | None => Crash end.

Definition shouldIntercept_section (target_binder : wp_t) (code : Z) : M bool :=
  with_read (
    key ← wp_convert target_binder;
    reg ← trigger ReadRegistry;
    let it := find_it key reg in
    _ ← wp_destroy key;
    match it with
    | None => mret false
    | Some it =>
        r ← deref it;
        let codes := reg_codes r in
        mret (bool_decide (codes = []) || existsb (fun c => c =? code) codes)
    end).

(** The lookup of [handleInterceptedTransaction]: the strong reference to the
    interceptor is taken inside. *)
Definition lookup_section (target_binder : Z) : M (option Z) :=
  with_read (
    key ← wp_of_sp target_binder;
    reg ← trigger ReadRegistry;
    let iterator := find_it key reg in
    _ ← wp_destroy key;
    match iterator with
    | None => mret None
    | Some it =>
        r ← deref it;
        interceptor_binder ← sp_copy (reg_interceptor_binder r);
        mret (Some interceptor_binder)
    end).

Definition with_codes (codes : list Z) (e : wp_t * InterceptorRegistration)
  : wp_t * InterceptorRegistration :=
  (e.1, {| reg_target_binder := reg_target_binder e.2;
           reg_interceptor_binder := reg_interceptor_binder e.2; reg_codes := codes |}).

(** [lower_bound] and the branch after it: the iterator to the target's entry, which is
    in the map from here on *)
Definition emplace_or_assign (weak_target : wp_t) (interceptor_binder : Z) : M nat :=
  reg ← trigger ReadRegistry;
  let '(below, rest) := lower_bound wp_ltb weak_target reg in
  let emplace :=
    '(k', r') ← new_registration weak_target interceptor_binder;
    _ ← trigger (WriteRegistry (below ++ (k', r') :: rest));
    mret (length below) in
  match rest with
  | (k, r) :: rest' =>
      if wp_neqb k weak_target then emplace
      else
        i ← sp_assign (reg_interceptor_binder r) interceptor_binder;
        _ ← trigger (WriteRegistry
              (below ++ (k, {| reg_target_binder := reg_target_binder r;
                               reg_interceptor_binder := i;
                               reg_codes := reg_codes r |}) :: rest'));
        mret (length below)
  | [] => emplace
  end.

(** The critical section of [handleRegisterInterceptor], with its two changes: an entry
    is there before it has its codes. *)
Definition register_section (target_binder interceptor_binder : Z) (codes : list Z) : M unit :=
  with_write (
    weak_target ← wp_of_sp target_binder;
    iterator ← emplace_or_assign weak_target interceptor_binder;
    reg ← trigger ReadRegistry;
    _ ← trigger (WriteRegistry (alter (with_codes codes) iterator reg));
    wp_destroy weak_target).
End sections.

(** One use of the registry, and its answer. *)
Inductive op :=
| Should (target : wp_t) (code : Z)
| Lookup (target : Z)
| Register (target interceptor : Z) (codes : list Z).

Inductive answer :=
| Intercept (b : bool)
| Interceptor (i : option Z)
| Registered.

Definition section_of (o : op) : prog sharedE answer :=
  match o with
  | Should w code => b ← shouldIntercept_section w code; mret (Intercept b)
  | Lookup t => i ← lookup_section t; mret (Interceptor i)
  | Register t i codes => _ ← register_section t i codes; mret Registered
  end.

(** ** Threads that interleave *)

(** The mutex: how many readers hold it, or which thread holds it alone. *)
Inductive lock := Shared (n : nat) | Exclusive (i : nat).

Record conf := Conf {
  c_lock : lock;
  c_registry : registry;
  c_threads : list (op * prog sharedE answer)
}.

Section semantics.
Variable owner : Z -> Z.

(** The reference block of an object is its own. *)
Definition count_ok {X} (e : refE X) : X -> Prop :=
  match e in refE X return X -> Prop with
  | CreateWeak o | GetWeakRefs o => fun refs => owner refs = o
  | _ => fun _ => True
  end.

(** What one call of thread [i] answers and does to the lock and the registry.  A call
    that finds the lock taken waits: it has no answer yet. *)
Definition effect (i : nat) {X} (e : sharedE X)
  : X -> lock * registry -> lock * registry -> Prop :=
  match e in sharedE X return X -> lock * registry -> lock * registry -> Prop with
  | LockCall e =>
      match e in lockE X return X -> lock * registry -> lock * registry -> Prop with
      | LockShared => fun _ s s' => exists n, s.1 = Shared n /\ s' = (Shared (S n), s.2)
      | UnlockShared => fun _ s s' => exists n, s.1 = Shared (S n) /\ s' = (Shared n, s.2)
      | LockExclusive => fun _ s s' => s.1 = Shared 0 /\ s' = (Exclusive i, s.2)
      | UnlockExclusive => fun _ s s' => s.1 = Exclusive i /\ s' = (Shared 0, s.2)
      | ReadRegistry => fun reg s s' => reg = s.2 /\ s' = s
      | WriteRegistry reg => fun _ s s' => s' = (s.1, reg)
      end
  | CountCall e => fun x s s' => count_ok e x /\ s' = s
  end.

Inductive step (c : conf) : conf -> Prop :=
| step_thread i o X (e : sharedE X) k x l' reg' :
    c_threads c !! i = Some (o, Vis e k) ->
    effect i e x (c_lock c, c_registry c) (l', reg') ->
    step c (Conf l' reg' (<[i := (o, k x)]> (c_threads c))).

(** Nobody has begun; the registry holds what was registered earlier. *)
Definition initial (reg : registry) (ops : list op) : conf :=
  Conf (Shared 0) reg (map (fun o => (o, section_of o)) ops).

(** A run, with every configuration it goes through. *)
Inductive history (c0 : conf) : list conf -> conf -> Prop :=
| history_start : history c0 [c0] c0
| history_step cs c c' : history c0 cs c -> step c c' -> history c0 (cs ++ [c']) c'.

Lemma history_rtc c0 cs c : history c0 cs c -> rtc step c0 c.
Proof. induction 1; [done|by eapply rtc_r]. Qed.

Lemma history_last c0 cs c : history c0 cs c -> c ∈ cs.
Proof. destruct 1; set_solver. Qed.

(** Thread [i] has answered [ans]; it has not made its first call. *)
Definition returned (c : conf) (i : nat) (ans : answer) : Prop :=
  exists o, c_threads c !! i = Some (o, Ret ans).

Definition not_begun (c : conf) (i : nat) : Prop :=
  exists o, c_threads c !! i = Some (o, section_of o).
End semantics.

(** ** The atomic registry *)

#[export] Instance wp_t_countable : Countable wp_t :=
  inj_countable' (fun w => (m_ptr w, m_refs w)) (fun p => Wp p.1 p.2) ltac:(by intros []).

Abbreviation atomic_registry := (gmap wp_t (Z * list Z)).

Inductive atomic (owner : Z -> Z) (m : atomic_registry)
  : op -> answer -> atomic_registry -> Prop :=
| atomic_should w code :
    atomic owner m (Should w code)
      (Intercept (match m !! w with
                  | None => false
                  | Some (_, codes) =>
                      bool_decide (codes = []) || existsb (fun c => c =? code) codes
                  end)) m
| atomic_lookup t w :
    m_ptr w = t -> wp_ok owner w ->
    atomic owner m (Lookup t) (Interceptor (fst <$> m !! w)) m
| atomic_register t w i codes :
    m_ptr w = t -> wp_ok owner w ->
    atomic owner m (Register t i codes) Registered (<[w := (i, codes)]> m).

(** The operations that have acted, oldest first, with their answers: each acts once. *)
Abbreviation log := (list (nat * answer)).

Inductive atomic_run (owner : Z -> Z) (ops : list op) (m0 : atomic_registry)
  : log -> atomic_registry -> Prop :=
| atomic_run_nil : atomic_run owner ops m0 [] m0
| atomic_run_snoc h m i o ans m' :
    atomic_run owner ops m0 h m -> i ∉ h.*1 -> ops !! i = Some o ->
    atomic owner m o ans m' ->
    atomic_run owner ops m0 (h ++ [(i, ans)]) m'.

(** [i] acts, and [j] does not act before it. *)
Definition precedes (h : log) (i j : nat) : Prop :=
  exists h1 h2, h = h1 ++ h2 /\ i ∈ h1.*1 /\ j ∉ h1.*1.

(** As an object has one reference block, the answers follow from the order. *)
Lemma atomic_functional owner m o a a' m1 m2 :
  Inj (=) (=) owner -> atomic owner m o a m1 -> atomic owner m o a' m2 -> a = a' /\ m1 = m2.
Proof.
  intros Hinj H1 H2.
  assert (Hw : forall w w', m_ptr w = m_ptr w' -> wp_ok owner w -> wp_ok owner w' -> w = w').
  { intros [p r] [p' r']; unfold wp_ok; simpl. intros -> Hp Hp'. f_equal. apply Hinj. congruence. }
  inversion H1; inversion H2; simplify_eq; [done| |].
  all: match goal with
    | A : wp_ok _ ?w, B : wp_ok _ ?w', E : m_ptr _ = m_ptr _ |- _ =>
        pose proof (Hw _ _ E B A); pose proof (Hw _ _ E A B); by simplify_eq
    | A : wp_ok _ ?w, B : wp_ok _ ?w', E : m_ptr _ = m_ptr _ |- _ =>
        pose proof (Hw _ _ E A B); by simplify_eq
    end.
Qed.

(** ** The map a registry stands for *)

Definition abs (reg : registry) : atomic_registry :=
  list_to_map (map (fun e => (e.1, (reg_interceptor_binder e.2, reg_codes e.2))) reg).

Lemma sorted_nodup {V} (m : list (wp_t * V)) : sorted wp_ltb m -> NoDup (map fst m).
Proof.
  induction m as [|e m IH]; simpl; [constructor|]. intros [Hf Hs]. constructor; [|auto].
  intros (e' & He & Hin)%list_elem_of_fmap. rewrite Forall_forall in Hf. apply Hf in Hin.
  rewrite He, wp_ltb_irrefl in Hin. done.
Qed.

Lemma lookup_abs reg w :
  sorted wp_ltb reg ->
  abs reg !! w = (fun r => (reg_interceptor_binder r, reg_codes r)) <$> map_find wp_ltb w reg.
Proof.
  intros Hs. apply option_eq. intros v. unfold abs. rewrite <-elem_of_list_to_map.
  - rewrite fmap_Some. setoid_rewrite map_find_In; eauto with s2p.
    rewrite list_elem_of_fmap. split.
    + intros ([w' r] & ? & ?). simplify_eq/=. eauto.
    + intros (r & ? & ->). by exists (w, r).
  - rewrite map_map. by apply sorted_nodup.
Qed.

Lemma abs_registered w i codes reg reg' :
  sorted wp_ltb reg -> sorted wp_ltb reg' -> registered w i codes reg reg' ->
  abs reg' = <[w := (i, codes)]> (abs reg).
Proof.
  intros Hs Hs' Hr. apply map_eq. intros w'. rewrite lookup_abs, Hr by done. case_decide; subst.
  - by rewrite lookup_insert_eq.
  - by rewrite lookup_insert_ne, lookup_abs by done.
Qed.

(** An iterator points to the entry [map_find] finds. *)
Lemma find_it_spec key reg :
  match find_it key reg with
  | Some it => exists e, reg !! it = Some e /\ map_find wp_ltb key reg = Some e.2
  | None => map_find wp_ltb key reg = None
  end.
Proof.
  unfold find_it, map_find. destruct (lower_bound wp_ltb key reg) as [below rest] eqn:Hl. simpl.
  destruct (lower_bound_spec _ _ _ _ _ Hl) as (-> & _).
  destruct rest as [|[k r] rest]; [done|]. destruct (wp_ltb key k); [done|].
  exists (k, r). by rewrite list_lookup_middle.
Qed.

(** ** What a section may rely on and has to guarantee

    [locked o p s Q]: from phase [s] on, [p] touches the registry only under the lock,
    leaves it well-formed, and has done [o] to the atomic registry when it unlocks. *)

Inductive phase :=
| Before
| InShared (reg : registry)
| InExclusive (reg0 reg : registry)
| After (a : answer).

Section locked.
Variable owner : Z -> Z.
Variable o : op.

Definition grants {X} (e : sharedE X) : phase -> (X -> phase -> Prop) -> Prop :=
  match e in sharedE X return phase -> (X -> phase -> Prop) -> Prop with
  | LockCall e =>
      match e in lockE X return phase -> (X -> phase -> Prop) -> Prop with
      | LockShared => fun s K =>
          s = Before /\ forall reg, registry_ok owner reg -> K tt (InShared reg)
      | LockExclusive => fun s K =>
          s = Before /\ forall reg, registry_ok owner reg -> K tt (InExclusive reg reg)
      | ReadRegistry => fun s K =>
          match s with InShared reg | InExclusive _ reg => K reg s | _ => False end
      | WriteRegistry reg => fun s K =>
          match s with InExclusive reg0 _ => K tt (InExclusive reg0 reg) | _ => False end
      | UnlockShared => fun s K =>
          match s with
          | InShared reg => exists a, atomic owner (abs reg) o a (abs reg) /\ K tt (After a)
          | _ => False
          end
      | UnlockExclusive => fun s K =>
          match s with
          | InExclusive reg0 reg =>
              registry_ok owner reg /\
              exists a, atomic owner (abs reg0) o a (abs reg) /\ K tt (After a)
          | _ => False
          end
      end
  | CountCall e => fun s K => forall x, count_ok owner e x -> K x s
  end.

Fixpoint locked {A} (p : prog sharedE A) (s : phase) (Q : A -> phase -> Prop) : Prop :=
  match p with
  | Ret a => Q a s
  | Vis e k => grants e s (fun x s' => locked (k x) s' Q)
  | Out | Crash => False
  end.

Lemma grants_mono {X} (e : sharedE X) s (K K' : X -> phase -> Prop) :
  (forall x s', K x s' -> K' x s') -> grants e s K -> grants e s K'.
Proof. intros HK. destruct e as [X [| | | | |]|X e], s; simpl; naive_solver. Qed.

Lemma locked_bind {A B} (p : prog sharedE A) (f : A -> prog sharedE B) s Q :
  locked p s (fun a s' => locked (f a) s' Q) -> locked (p ≫= f) s Q.
Proof.
  unfold mbind, prog_bind. revert s. induction p as [a|X e k IH| |]; simpl; intros s; try done.
  apply grants_mono. intros x s'. apply IH.
Qed.

Lemma locked_ret {A} (a : A) s (Q : A -> phase -> Prop) : Q a s -> locked (mret a) s Q.
Proof. done. Qed.

Lemma locked_mono {A} (p : prog sharedE A) s (Q Q' : A -> phase -> Prop) :
  (forall a s', Q a s' -> Q' a s') -> locked p s Q -> locked p s Q'.
Proof.
  intros HQ. revert s. induction p as [a|X e k IH| |]; simpl; intros s; auto.
  apply grants_mono. intros x s'. apply IH.
Qed.

Lemma locked_read_registry reg0 reg (Q : registry -> phase -> Prop) :
  Q reg (InExclusive reg0 reg) ->
  locked (trigger ReadRegistry) (InExclusive reg0 reg) Q.
Proof. done. Qed.

Lemma locked_write_registry reg0 reg reg' (Q : unit -> phase -> Prop) :
  Q tt (InExclusive reg0 reg') ->
  locked (trigger (WriteRegistry reg')) (InExclusive reg0 reg) Q.
Proof. done. Qed.

(** Reference counting does not touch the registry. *)
Lemma locked_count {X} (e : refE X) s (Q : X -> phase -> Prop) :
  (forall x, count_ok owner e x -> Q x s) -> locked (trigger e) s Q.
Proof. done. Qed.

Lemma locked_when (b : bool) (e : refE unit) s (Q : unit -> phase -> Prop) :
  Q tt s -> locked (when b (trigger e)) s Q.
Proof. intros. destruct b; simpl; [by intros []|done]. Qed.

Lemma locked_wp_of_sp t s (Q : wp_t -> phase -> Prop) :
  t <> 0 -> (forall w, m_ptr w = t -> wp_ok owner w -> Q w s) -> locked (wp_of_sp t) s Q.
Proof.
  intros Ht HQ. unfold wp_of_sp. apply locked_bind. destruct (Z.eqb_spec t 0); [done|].
  apply locked_count. intros refs Hr. by apply HQ.
Qed.

Lemma locked_wp_convert w s (Q : wp_t -> phase -> Prop) :
  (m_ptr w = 0 -> m_refs w = 0) -> Q w s -> locked (wp_convert w) s Q.
Proof.
  intros Hw HQ. unfold wp_convert. destruct w as [p r]; simpl in *.
  destruct (Z.eqb_spec p 0); simpl; [|done]. by rewrite <-Hw.
Qed.

Lemma locked_wp_copy w s (Q : wp_t -> phase -> Prop) : Q w s -> locked (wp_copy w) s Q.
Proof. intros. apply locked_bind, locked_when. by destruct w. Qed.

Lemma locked_wp_destroy w s (Q : unit -> phase -> Prop) : Q tt s -> locked (wp_destroy w) s Q.
Proof. apply locked_when. Qed.

Lemma locked_sp_copy p s (Q : Z -> phase -> Prop) : Q p s -> locked (sp_copy p) s Q.
Proof. intros. by apply locked_bind, locked_when. Qed.

Lemma locked_sp_destroy p s (Q : unit -> phase -> Prop) : Q tt s -> locked (sp_destroy p) s Q.
Proof. apply locked_when. Qed.

Lemma locked_sp_assign p q s (Q : Z -> phase -> Prop) : Q q s -> locked (sp_assign p q) s Q.
Proof. intros. by apply locked_bind, locked_when, locked_bind, locked_when. Qed.

Lemma locked_new_registration w i s (Q : wp_t * InterceptorRegistration -> phase -> Prop) :
  Q (w, {| reg_target_binder := w; reg_interceptor_binder := i; reg_codes := [] |}) s ->
  locked (new_registration w i) s Q.
Proof.
  intros. unfold new_registration, sp_move.
  repeat first [apply locked_wp_copy | apply locked_sp_copy | apply locked_sp_destroy |
    apply locked_wp_destroy | apply locked_ret | apply locked_bind]; done.
Qed.
End locked.

(** ** The sections keep to the lock *)

Definition op_ok (o : op) : Prop :=
  match o with
  | Should w _ => m_ptr w = 0 -> m_refs w = 0
  | Lookup t => t <> 0
  | Register t _ _ => t <> 0
  end.

Section sections_locked.
Variable owner : Z -> Z.
Abbreviation locked_op o := (locked owner o (section_of o) Before (fun a s => s = After a)).

Lemma locked_read {A} o (body : prog sharedE A) (answer_of : A -> answer) :
  (forall reg, registry_ok owner reg ->
     locked owner o body (InShared reg) (fun x s =>
       s = InShared reg /\ atomic owner (abs reg) o (answer_of x) (abs reg))) ->
  locked owner o (x ← with_read body; mret (answer_of x)) Before (fun a s => s = After a).
Proof.
  intros H. apply locked_bind. unfold with_read. simpl. split; [done|]. intros reg Hreg.
  apply locked_bind. eapply locked_mono; [|by apply H]. intros x s [-> Ha]. simpl. eauto.
Qed.

(** Reading the entry an iterator points to, the registry being what it was. *)
Lemma locked_deref {A} o it e reg (f : InterceptorRegistration -> prog sharedE A) Q :
  reg !! it = Some e -> locked owner o (f e.2) (InShared reg) Q ->
  locked owner o (deref it ≫= f) (InShared reg) Q.
Proof. intros He H. apply locked_bind. simpl. rewrite He. exact H. Qed.

Lemma shouldIntercept_locked w code :
  op_ok (Should w code) -> locked_op (Should w code).
Proof.
  intros Hw. apply locked_read. intros reg [Hs _].
  apply locked_bind, locked_wp_convert; [done|]. apply locked_bind. simpl.
  apply locked_bind, locked_wp_destroy.
  pose proof (atomic_should owner (abs reg) w code) as Hat. rewrite lookup_abs in Hat by done.
  pose proof (find_it_spec w reg) as Hf. destruct (find_it w reg) as [it|].
  - destruct Hf as (e & He & Hm). rewrite Hm in Hat. eapply locked_deref; [exact He|].
    by apply locked_ret.
  - rewrite Hf in Hat. by apply locked_ret.
Qed.

Lemma lookup_locked t : op_ok (Lookup t) -> locked_op (Lookup t).
Proof.
  intros Ht. apply locked_read. intros reg [Hs _].
  apply locked_bind, locked_wp_of_sp; [done|]. intros w Hw Hok. apply locked_bind. simpl.
  apply locked_bind, locked_wp_destroy.
  pose proof (atomic_lookup owner (abs reg) t w Hw Hok) as Hat. rewrite lookup_abs in Hat by done.
  pose proof (find_it_spec w reg) as Hf. destruct (find_it w reg) as [it|].
  - destruct Hf as (e & He & Hm). rewrite Hm in Hat. eapply locked_deref; [exact He|].
    by apply locked_bind, locked_sp_copy, locked_ret.
  - rewrite Hf in Hat. by apply locked_ret.
Qed.

Lemma alter_middle {A} (f : A -> A) (l1 l2 : list A) x :
  alter f (length l1) (l1 ++ x :: l2) = l1 ++ f x :: l2.
Proof. induction l1 as [|y l1 IH]; simpl; [done|]. by rewrite <-IH. Qed.

Lemma emplace_or_assign_locked o w i reg :
  registry_ok owner reg -> wp_ok owner w ->
  locked owner o (emplace_or_assign w i) (InExclusive reg reg) (fun it s => exists reg1,
    s = InExclusive reg reg1 /\
    forall codes, let reg2 := alter (with_codes codes) it reg1 in
      registry_ok owner reg2 /\ registered w i codes reg reg2).
Proof.
  intros Hreg Hok. unfold emplace_or_assign. apply locked_bind, locked_read_registry.
  destruct (lower_bound wp_ltb w reg) as [below rest] eqn:Hl.
  pose proof (fun codes reg' => registry_ok_insert owner w i codes reg reg' below rest Hreg Hok Hl)
    as Hins. simpl in Hins.
  destruct rest as [|[k r] rest'].
  - apply locked_bind, locked_new_registration, locked_bind, locked_write_registry, locked_ret.
    eexists. split; [done|]. intros codes. apply Hins. by rewrite alter_middle.
  - destruct (registry_hit _ _ _ _ _ _ _ Hreg Hok Hl) as [Hrk ->]. case_bool_decide as Hk.
    + apply locked_bind, locked_new_registration, locked_bind, locked_write_registry, locked_ret.
      eexists. split; [done|]. intros codes. apply Hins.
      by rewrite alter_middle, decide_False.
    + apply locked_bind, locked_sp_assign, locked_bind, locked_write_registry, locked_ret.
      eexists. split; [done|]. intros codes. apply Hins.
      rewrite alter_middle, decide_True by done. by subst.
Qed.

Lemma register_locked_lock t i codes :
  op_ok (Register t i codes) -> locked_op (Register t i codes).
Proof.
  intros Ht. apply locked_bind. unfold with_write. apply locked_bind. split; [done|].
  intros reg Hreg. apply locked_bind, locked_bind, locked_wp_of_sp; [done|]. intros w Hw Hok.
  apply locked_bind. eapply locked_mono; [|by apply emplace_or_assign_locked].
  intros it s (reg1 & -> & Hdone). destruct (Hdone codes) as [Hok2 Hreg2].
  apply locked_bind, locked_read_registry, locked_bind, locked_write_registry, locked_wp_destroy.
  apply locked_bind. split; [done|]. eexists. split; [|done].
  rewrite (abs_registered _ _ _ _ _ (proj1 Hreg) (proj1 Hok2) Hreg2). by constructor.
Qed.

Lemma section_of_locked o : op_ok o -> locked_op o.
Proof.
  destruct o; [apply shouldIntercept_locked|apply lookup_locked|apply register_locked_lock].
Qed.
End sections_locked.

(** ** The simulation *)

Definition answer_of (s : phase) : option answer :=
  match s with After a => Some a | _ => None end.

Definition reads (s : phase) : bool := match s with InShared _ => true | _ => false end.

Definition outside (s : phase) : Prop :=
  match s with Before | After _ => True | _ => False end.

(** How many threads are in a shared section. *)
Definition readers (phases : list phase) : nat := length (filter (fun s => reads s = true) phases).

Lemma readers_insert phases i s s' :
  phases !! i = Some s ->
  (readers (<[i := s']> phases) + Nat.b2n (reads s) = readers phases + Nat.b2n (reads s'))%nat.
Proof.
  unfold readers. revert i. induction phases as [|t phases IH]; intros [|i] H; simplify_eq/=.
  - rewrite !filter_cons. destruct (reads s), (reads s'); simpl; lia.
  - specialize (IH _ H). rewrite !filter_cons. case_decide; simpl; lia.
Qed.

Lemma readers_pos phases i s : phases !! i = Some s -> reads s = true -> (0 < readers phases)%nat.
Proof.
  intros Hi Hs. unfold readers. apply list_elem_of_lookup_2 in Hi.
  destruct (filter _ phases) eqn:Hf; simpl; [|lia].
  assert (Hin : s ∈ filter (fun s => reads s = true) phases) by (by apply list_elem_of_filter).
  rewrite Hf in Hin. set_solver.
Qed.

Section simulation.
Variable owner : Z -> Z.

(** The lock agrees with the phases of the threads: readers have all seen the registry as
    it is, and while a writer is inside, everyone else is out. *)
Definition lock_inv (l : lock) (reg : registry) (m : atomic_registry) (phases : list phase)
  : Prop :=
  match l with
  | Shared n =>
      readers phases = n /\ registry_ok owner reg /\ abs reg = m /\
      forall i s, phases !! i = Some s ->
        match s with InShared r => r = reg | InExclusive _ _ => False | _ => True end
  | Exclusive i =>
      (exists reg0, phases !! i = Some (InExclusive reg0 reg) /\ abs reg0 = m) /\
      forall j s, j <> i -> phases !! j = Some s -> outside s
  end.

Definition thread_inv (phases : list phase) (h : log)
    (i : nat) (t : op * prog sharedE answer) : Prop :=
  exists s, phases !! i = Some s /\ (forall a, (i, a) ∈ h <-> answer_of s = Some a) /\
            locked owner t.1 t.2 s (fun a s => s = After a).

(** The threads keep their operations, and [h] holds exactly what has been answered. *)
Definition simulated (ops : list op) (c : conf) (m : atomic_registry) (h : log) : Prop :=
  map fst (c_threads c) = ops /\
  exists phases, length phases = length (c_threads c) /\
    lock_inv (c_lock c) (c_registry c) m phases /\
    forall i t, c_threads c !! i = Some t -> thread_inv phases h i t.

Lemma simulated_initial reg ops :
  Forall op_ok ops -> registry_ok owner reg -> simulated ops (initial reg ops) (abs reg) [].
Proof.
  intros Hops Hreg. split; [simpl; by rewrite map_map, map_id|].
  exists (replicate (length ops) Before). simpl.
  split; [by rewrite length_replicate, length_map|]. split.
  - split_and!; [|done|done|].
    + unfold readers. induction (length ops); [done|]. simpl. by rewrite filter_cons.
    + intros i s [-> _]%lookup_replicate. done.
  - intros i t. simpl. rewrite list_lookup_fmap. destruct (ops !! i) as [o|] eqn:Ho; [|done].
    intros ?; simplify_eq/=. exists Before. split_and!.
    + apply lookup_replicate. split; [done|]. by eapply lookup_lt_Some.
    + simpl. set_solver.
    + apply section_of_locked. rewrite Forall_forall in Hops. apply Hops.
      by eapply list_elem_of_lookup_2.
Qed.

Lemma readers_none phases :
  (forall i s, phases !! i = Some s -> reads s = false) -> readers phases = 0%nat.
Proof.
  intros H. unfold readers. destruct (filter _ phases) as [|s l] eqn:Hf; [done|].
  assert (Hin : s ∈ filter (fun s => reads s = true) phases) by (rewrite Hf; by left).
  apply list_elem_of_filter in Hin as [Hs [i Hi]%list_elem_of_lookup].
  by rewrite (H _ _ Hi) in Hs.
Qed.

(** What thread [i] does when it goes from phase [s] to [s']: nothing, or its operation. *)
Definition commits (o : op) (m m' : atomic_registry) (s s' : phase) : Prop :=
  (m' = m /\ answer_of s' = answer_of s) \/
  exists a, answer_of s = None /\ s' = After a /\ atomic owner m o a m'.

Ltac insert_cases H :=
  apply list_lookup_insert_Some in H as [(-> & <- & _)|[? H]].

Lemma enter_shared n reg m phases i :
  lock_inv (Shared n) reg m phases -> phases !! i = Some Before ->
  lock_inv (Shared (S n)) reg m (<[i := InShared reg]> phases).
Proof.
  intros (Hn & Hok & Hm & Hall) Hi. split_and!; try done.
  - pose proof (readers_insert _ _ _ (InShared reg) Hi) as Hr. simpl in Hr. lia.
  - intros j s Hj. insert_cases Hj; [done|]. by apply (Hall j).
Qed.

Lemma leave_shared n reg m phases i a :
  lock_inv (Shared (S n)) reg m phases -> phases !! i = Some (InShared reg) ->
  lock_inv (Shared n) reg m (<[i := After a]> phases).
Proof.
  intros (Hn & Hok & Hm & Hall) Hi. split_and!; try done.
  - pose proof (readers_insert _ _ _ (After a) Hi) as Hr. simpl in Hr. lia.
  - intros j s Hj. insert_cases Hj; [done|]. by apply (Hall j).
Qed.

Lemma enter_exclusive reg m phases i :
  lock_inv (Shared 0) reg m phases -> phases !! i = Some Before ->
  lock_inv (Exclusive i) reg m (<[i := InExclusive reg reg]> phases).
Proof.
  intros (Hn & Hok & Hm & Hall) Hi. split.
  - exists reg. split; [|done]. apply list_lookup_insert_eq. by eapply lookup_lt_Some.
  - intros j s Hne Hj. insert_cases Hj; [done|]. specialize (Hall _ _ Hj).
    destruct s; try done. pose proof (readers_pos _ _ _ Hj eq_refl). lia.
Qed.

Lemma leave_exclusive reg m phases i a :
  lock_inv (Exclusive i) reg m phases -> registry_ok owner reg ->
  lock_inv (Shared 0) reg (abs reg) (<[i := After a]> phases).
Proof.
  intros [_ Hall] Hok. split_and!; try done.
  - apply readers_none. intros j s Hj. insert_cases Hj; [done|]. 
    specialize (Hall _ _ ltac:(done) Hj). by destruct s.
  - intros j s Hj. insert_cases Hj; [done|]. specialize (Hall _ _ ltac:(done) Hj). by destruct s.
Qed.

Lemma write_exclusive reg m phases i reg0 reg' :
  lock_inv (Exclusive i) reg m phases -> phases !! i = Some (InExclusive reg0 reg) ->
  lock_inv (Exclusive i) reg' m (<[i := InExclusive reg0 reg']> phases).
Proof.
  intros [(r & Hr & Hm) Hall] Hi. rewrite Hr in Hi. simplify_eq. split.
  - exists reg0. split; [|done]. apply list_lookup_insert_eq. by eapply lookup_lt_Some.
  - intros j s Hne Hj. insert_cases Hj; [done|]. by apply (Hall j).
Qed.

(** A thread inside sees the registry as it is, and nobody else can change it. *)
Lemma inside_shared l reg m phases i r :
  lock_inv l reg m phases -> phases !! i = Some (InShared r) ->
  r = reg /\ abs reg = m /\ exists n, l = Shared (S n).
Proof.
  destruct l as [n|j]; simpl.
  - intros (Hn & _ & Hm & Hall) Hi. split_and!; [apply (Hall _ _ Hi)|done|].
    pose proof (readers_pos _ _ _ Hi eq_refl). destruct n; [lia|eauto].
  - intros [(r0 & Hr & _) Hall] Hi. destruct (decide (i = j)) as [->|]; [congruence|].
    destruct (Hall _ _ ltac:(done) Hi).
Qed.

Lemma inside_exclusive l reg m phases i r0 r :
  lock_inv l reg m phases -> phases !! i = Some (InExclusive r0 r) ->
  r = reg /\ abs r0 = m /\ l = Exclusive i.
Proof.
  destruct l as [n|j]; simpl.
  - intros (_ & _ & _ & Hall) Hi. destruct (Hall _ _ Hi).
  - intros [(r0' & Hr & Hm) Hall] Hi. destruct (decide (i = j)) as [->|].
    + rewrite Hr in Hi. by simplify_eq.
    + destruct (Hall _ _ ltac:(done) Hi).
Qed.

Lemma lock_step o l reg m phases i X (e : sharedE X) x s K l' reg' :
  lock_inv l reg m phases -> phases !! i = Some s ->
  grants owner o e s K -> effect owner i e x (l, reg) (l', reg') ->
  exists s' m', K x s' /\ commits o m m' s s' /\ lock_inv l' reg' m' (<[i := s']> phases).
Proof.
  intros Hinv Hi Hg He.
  assert (Hsame : K x s -> lock_inv l reg m phases ->
    exists s' m', K x s' /\ commits o m m' s s' /\ lock_inv l reg m' (<[i := s']> phases)).
  { intros. exists s, m. rewrite list_insert_id by done. split; [done|split; [by left|done]]. }
  destruct e as [X e|X e].
  - destruct e; simpl in Hg, He.
    + destruct Hg as [-> Hg], He as (n & -> & He); simplify_eq/=. exists (InShared reg), m.
      split; [destruct x; apply Hg, Hinv|split; [by left|by apply enter_shared]].
    + destruct s as [|r| |]; try done. destruct Hg as (a & Ha & HK).
      destruct (inside_shared _ _ _ _ _ _ Hinv Hi) as (-> & <- & _).
      destruct He as (n & -> & He); simplify_eq/=. exists (After a), (abs reg). destruct x.
      split; [done|split; [right; eauto|by eapply leave_shared]].
    + destruct Hg as [-> Hg], He as [-> He]; simplify_eq/=. exists (InExclusive reg reg), m.
      split; [destruct x; apply Hg, Hinv|split; [by left|by apply enter_exclusive]].
    + destruct s as [| |r0 r|]; try done. destruct Hg as (Hok & a & Ha & HK).
      destruct (inside_exclusive _ _ _ _ _ _ _ Hinv Hi) as (-> & <- & ->).
      destruct He as [_ He]; simplify_eq/=. exists (After a), (abs reg). destruct x.
      split; [done|split; [right; eauto|by eapply leave_exclusive]].
    + destruct He as [-> He]; simplify_eq/=. apply Hsame; [|done].
      destruct s as [|r|r0 r|]; try done;
        [destruct (inside_shared _ _ _ _ _ _ Hinv Hi) as (-> & _)
        |destruct (inside_exclusive _ _ _ _ _ _ _ Hinv Hi) as (-> & _)]; done.
    + destruct s as [| |r0 r|]; try done.
      destruct (inside_exclusive _ _ _ _ _ _ _ Hinv Hi) as (-> & _ & ->).
      simplify_eq/=. exists (InExclusive r0 reg0), m. destruct x.
      split; [done|split; [by left|by eapply write_exclusive]].
  - destruct He as [Hx He]; simplify_eq/=. apply Hsame; [|done]. by apply Hg.
Qed.

(** What a step does to the log: nothing, or one operation acts. *)
Definition logged (ops : list op) (m : atomic_registry) (h : log) (m' : atomic_registry)
    (h' : log) : Prop :=
  (m' = m /\ h' = h) \/
  exists i o a, h' = h ++ [(i, a)] /\ (i ∉ h.*1) /\ ops !! i = Some o /\ atomic owner m o a m'.

Lemma simulated_thread ops (c : conf) h (phases : list phase) i o p s l reg m' (h' : log) :
  map fst (c_threads c) = ops ->
  length phases = length (c_threads c) ->
  (forall i t, c_threads c !! i = Some t -> thread_inv phases h i t) ->
  c_threads c !! i = Some (o, p) -> lock_inv l reg m' (<[i := s]> phases) ->
  (forall a, (i, a) ∈ h' <-> answer_of s = Some a) ->
  (forall j a, j <> i -> ((j, a) ∈ h' <-> (j, a) ∈ h)) ->
  forall p', locked owner o p' s (fun a s => s = After a) ->
  simulated ops (Conf l reg (<[i := (o, p')]> (c_threads c))) m' h'.
Proof.
  intros Hops Hlen Hth Ht Hinv Hi Hj p' Hp. split.
  { simpl. rewrite <-Hops. change (map fst) with (fmap (M := list) (@fst op (prog sharedE answer))).
    rewrite list_fmap_insert. apply list_insert_id. by rewrite list_lookup_fmap, Ht. }
  exists (<[i := s]> phases). simpl. rewrite !length_insert.
  split; [done|]. split; [exact Hinv|].
  intros j t Hjt. apply list_lookup_insert_Some in Hjt as [(-> & <- & _)|[? Hjt]].
  - exists s. split_and!; [|exact Hi|exact Hp].
    apply list_lookup_insert_eq. rewrite Hlen. by eapply lookup_lt_Some.
  - destruct (Hth _ _ Hjt) as (sj & ? & Ha & ?). exists sj.
    rewrite list_lookup_insert_ne by done. split_and!; [done| |done].
    intros a. by rewrite Hj.
Qed.

Lemma simulated_step ops c c' m h :
  step owner c c' -> simulated ops c m h ->
  exists m' h', simulated ops c' m' h' /\ logged ops m h m' h'.
Proof.
  intros [i o X e k x l' reg' Ht He] (Hops & phases & Hlen & Hinv & Hth).
  destruct (Hth _ _ Ht) as (s & Hs & Ha & Hg). simpl in Ha, Hg.
  edestruct lock_step as (s' & m' & Hk & Hc & Hinv');
    [exact Hinv|exact Hs|exact Hg|exact He|].
  destruct Hc as [[-> Heq]|(ans & Hnone & -> & Hat)].
  - exists m, h. split; [|by left]. eapply simulated_thread; eauto.
    intros a. by rewrite Ha, Heq.
  - assert (Hnew : i ∉ h.*1).
    { intros ([? a] & -> & Hin)%list_elem_of_fmap. simpl in *. apply Ha in Hin. congruence. }
    exists m', (h ++ [(i, ans)]). split.
    + eapply simulated_thread; eauto.
      * intros a. rewrite elem_of_app, list_elem_of_singleton, Ha, Hnone. simpl. naive_solver.
      * intros j a Hj. rewrite elem_of_app, list_elem_of_singleton. naive_solver.
    + right. exists i, o, ans. split_and!; try done.
      rewrite <-Hops. by rewrite list_lookup_fmap, Ht.
Qed.

Lemma simulated_reachable reg ops c :
  Forall op_ok ops -> registry_ok owner reg -> rtc (step owner) (initial reg ops) c ->
  exists m h, simulated ops c m h.
Proof.
  intros Hops Hreg Hc.
  enough (H : forall c0 m0 h0, rtc (step owner) c0 c -> simulated ops c0 m0 h0 ->
                exists m h, simulated ops c m h)
    by (eapply H; [exact Hc|by apply simulated_initial]).
  clear. intros c0 m0 h0 Hc. revert m0 h0.
  induction Hc as [c|c0 c1 c Hs _ IH]; intros m0 h0 Ha; [eauto|].
  destruct (simulated_step _ _ _ _ _ Hs Ha) as (m1 & h1 & H1 & _). eauto.
Qed.

(** Along a run the log only grows, and every configuration has its own. *)
Lemma simulated_history reg ops cs c :
  Forall op_ok ops -> registry_ok owner reg -> history owner (initial reg ops) cs c ->
  exists m h, atomic_run owner ops (abs reg) h m /\ simulated ops c m h /\
    forall c1, c1 ∈ cs -> exists m1 h1, h1 `prefix_of` h /\ simulated ops c1 m1 h1.
Proof.
  intros Hops Hreg Hc. induction Hc as [|cs c c' Hc IH Hs].
  - pose proof (simulated_initial _ _ Hops Hreg) as H0. eexists _, []. split_and!; [by constructor|done|].
    intros c1 ->%list_elem_of_singleton. by eexists _, [].
  - destruct IH as (m & h & Hrun & Hsim & Hall).
    destruct (simulated_step _ _ _ _ _ Hs Hsim) as (m' & h' & Hsim' & Hlog).
    exists m', h'. split_and!; [|done|].
    + destruct Hlog as [[-> ->]|(i & o & a & -> & ? & ? & ?)]; [done|by econstructor].
    + assert (Hp : h `prefix_of` h')
        by (destruct Hlog as [[_ ->]|(i & o & a & -> & _)]; [done|by apply prefix_app_r]).
      intros c1 [Hin| ->%list_elem_of_singleton]%elem_of_app; [|by eexists _, h'].
      destruct (Hall _ Hin) as (m1 & h1 & ? & ?). exists m1, h1. split; [by etrans|done].
Qed.

Lemma simulated_returned ops c m h i ans :
  simulated ops c m h -> returned c i ans -> (i, ans) ∈ h.
Proof.
  intros (_ & phases & _ & _ & Hth) [o Ho]. destruct (Hth _ _ Ho) as (s & _ & Ha & Hl).
  simpl in Hl. subst. by apply Ha.
Qed.

(** A section begins by taking the lock. *)
Lemma locked_section_of o s Q : locked owner o (section_of o) s Q -> s = Before.
Proof. destruct o; simpl; intros [? _]; done. Qed.

Lemma simulated_not_begun ops c m h i : simulated ops c m h -> not_begun c i -> i ∉ h.*1.
Proof.
  intros (_ & phases & _ & _ & Hth) [o Ho] ([? a] & -> & Hin)%list_elem_of_fmap.
  destruct (Hth _ _ Ho) as (s & _ & Ha & Hl). simpl in *.
  apply locked_section_of in Hl as ->. by apply Ha in Hin.
Qed.

(** C4: the shared registry is linearizable.  Start with any well-formed registry and let
    the threads interleave in any way.  The operations can be put in an order in which
    each acts once, in one step, on the registry map, with these properties: at every
    configuration of the run, those that have acted are a beginning of the order that
    holds every thread that has returned, with the answer it returned, and none that has
    not made its first call; so a thread that returned before another began comes before it;
    when no writer is inside, the shared registry is the map they leave; and no thread
    faults. *)
Theorem registry_linearizable (reg : registry) (ops : list op) (cs : list conf) (c : conf) :
  Forall op_ok ops -> registry_ok owner reg -> history owner (initial reg ops) cs c ->
  exists h m, atomic_run owner ops (abs reg) h m /\
    (forall c1, c1 ∈ cs -> exists h1, h1 `prefix_of` h /\
       (forall i ans, returned c1 i ans -> (i, ans) ∈ h1) /\
       (forall i, not_begun c1 i -> i ∉ h1.*1)) /\
    (forall c1 i j ans, c1 ∈ cs -> returned c1 i ans -> not_begun c1 j -> precedes h i j) /\
    (forall n, c_lock c = Shared n -> abs (c_registry c) = m) /\
    (forall i o, c_threads c !! i <> Some (o, Crash)).
Proof.
  intros Hops Hreg Hc. destruct (simulated_history _ _ _ _ Hops Hreg Hc) as (m & h & Hrun & Hsim & Hall).
  exists h, m. split; [done|]. split_and!.
  - intros c1 Hin. destruct (Hall _ Hin) as (m1 & h1 & ? & Hs1). exists h1. split_and!; [done| |].
    + intros i ans. by eapply simulated_returned.
    + intros i. by eapply simulated_not_begun.
  - intros c1 i j ans Hin Hi Hj. destruct (Hall _ Hin) as (m1 & h1 & [h2 Hh] & Hs1).
    exists h1, h2. split_and!; [done| |by eapply simulated_not_begun].
    apply list_elem_of_fmap. exists (i, ans). split; [done|by eapply simulated_returned].
  - destruct Hsim as (_ & phases & _ & Hinv & _). intros n Hl. rewrite Hl in Hinv. apply Hinv.
  - destruct Hsim as (_ & phases & _ & _ & Hth). intros i o Hi.
    by destruct (Hth _ _ Hi) as (? & _ & _ & ?).
Qed.

(** What a thread is about to do with the registry: [Some true] is to write it. *)
Definition access {A} (p : prog sharedE A) : option bool :=
  match p with
  | Vis e _ =>
      match e with
      | LockCall e =>
          match e with
          | ReadRegistry => Some false
          | WriteRegistry _ => Some true
          | _ => None
          end
      | CountCall _ => None
      end
  | _ => None
  end.

Lemma access_inside o p s :
  locked owner o p s (fun a s => s = After a) ->
  match access p with
  | Some true => exists r0 r, s = InExclusive r0 r
  | Some false => ~ outside s
  | None => True
  end.
Proof.
  destruct p as [a|X [Y [| | | | |]|] k| |]; simpl; try done; destruct s; try done; eauto.
Qed.

(** C13: no data race: when a thread is about to write the registry, no other thread is
    about to read or write it. *)
Theorem registry_race_free (reg : registry) (ops : list op) (c : conf) (i j : nat) (o1 o2 : op)
    (p1 p2 : prog sharedE answer) :
  Forall op_ok ops -> registry_ok owner reg -> rtc (step owner) (initial reg ops) c ->
  c_threads c !! i = Some (o1, p1) -> c_threads c !! j = Some (o2, p2) -> i <> j ->
  access p1 = Some true -> access p2 = None.
Proof.
  intros Hops Hreg Hc H1 H2 Hij Hw.
  destruct (simulated_reachable _ _ _ Hops Hreg Hc) as (m & h & _ & phases & _ & Hinv & Hth).
  destruct (Hth _ _ H1) as (s1 & Hs1 & _ & Hl1), (Hth _ _ H2) as (s2 & Hs2 & _ & Hl2).
  apply access_inside in Hl1, Hl2. simpl in Hl1, Hl2. rewrite Hw in Hl1.
  destruct Hl1 as (r0 & r & ->).
  destruct (inside_exclusive _ _ _ _ _ _ _ Hinv Hs1) as (_ & _ & Hl). rewrite Hl in Hinv.
  destruct Hinv as [_ Hout]. specialize (Hout j s2 ltac:(done) Hs2).
  destruct (access p2) as [[]|]; [|done|done]. destruct Hl2 as (? & ? & ->). done.
Qed.

(** ** Progress *)

Hypothesis blocks : forall obj, exists refs, owner refs = obj.

Definition is_ret {A} (p : prog sharedE A) : bool :=
  match p with Ret _ => true | _ => false end.

Definition finished (c : conf) : Prop :=
  Forall (fun t : op * prog sharedE answer => is_ret t.2 = true) (c_threads c).

Lemma enabled o l reg m phases i X (e : sharedE X) s K :
  lock_inv l reg m phases -> phases !! i = Some s -> grants owner o e s K ->
  ~ outside s \/ l = Shared 0 ->
  exists x l' reg', effect owner i e x (l, reg) (l', reg').
Proof.
  intros Hinv Hi Hg Hl. destruct e as [X e|X e].
  - destruct e; simpl in *.
    + destruct Hg as [-> _], Hl as [Hl| ->]; [by destruct Hl|]. exists tt. eauto 10.
    + destruct s as [|r| |]; try done.
      destruct (inside_shared _ _ _ _ _ _ Hinv Hi) as (_ & _ & n & ->). exists tt. eauto 10.
    + destruct Hg as [-> _], Hl as [Hl| ->]; [by destruct Hl|]. exists tt. eauto 10.
    + destruct s as [| |r0 r|]; try done.
      destruct (inside_exclusive _ _ _ _ _ _ _ Hinv Hi) as (_ & _ & ->). exists tt. eauto 10.
    + eauto 10.
    + exists tt. eauto 10.
  - assert (exists x, count_ok owner e x) as [x Hx]; [|exists x, l, reg; done].
    destruct e as [| | | |obj|obj| | | |]; simpl;
      try apply (blocks obj); by (exists tt || exists true || exists 0).
Qed.

(** A thread that is inside, or that nobody keeps out, has not ended or can go on. *)
Lemma thread_can_step c m phases i o p s :
  lock_inv (c_lock c) (c_registry c) m phases -> phases !! i = Some s ->
  c_threads c !! i = Some (o, p) -> locked owner o p s (fun a s => s = After a) ->
  ~ outside s \/ c_lock c = Shared 0 ->
  (exists a, p = Ret a) \/ exists c', step owner c c'.
Proof.
  intros Hinv Hi Ht Hlk Hl. destruct p as [a|X e k| |]; simpl in Hlk; [eauto| |done|done].
  right. destruct (enabled _ _ _ _ _ _ _ _ _ _ Hinv Hi Hlk Hl) as (x & l' & reg' & He).
  eexists. by econstructor.
Qed.

Lemma simulated_progress ops c m h :
  simulated ops c m h -> finished c \/ exists c', step owner c c'.
Proof.
  intros (_ & phases & Hlen & Hinv & Hth).
  (* the thread whose turn it is *)
  assert (Hgo : forall i s, phases !! i = Some s -> ~ outside s -> exists c', step owner c c').
  { intros i s Hi Hs. destruct (c_threads c !! i) as [[o p]|] eqn:Ht.
    - destruct (Hth _ _ Ht) as (s' & Hs' & _ & Hlk). simplify_eq/=.
      destruct (thread_can_step _ _ _ _ _ _ _ Hinv Hi Ht Hlk (or_introl Hs)) as [[? ->]|]; [|done].
      simpl in Hlk. by subst.
    - apply lookup_ge_None in Ht. apply lookup_lt_Some in Hi. lia. }
  destruct (c_lock c) as [[|n]|i] eqn:Hl.
  - destruct (decide (Forall (fun t : op * prog sharedE answer => is_ret t.2 = true) (c_threads c)))
      as [Hf|Hf]; [by left|right].
    apply not_Forall_Exists in Hf; [|apply _]. apply Exists_exists in Hf as ([o p] & Hin & Hp).
    apply list_elem_of_lookup in Hin as [i Ht]. destruct (Hth _ _ Ht) as (s & Hs & _ & Hlk).
    simpl in Hp, Hlk. rewrite <-Hl in Hinv.
    destruct (thread_can_step _ _ _ _ _ _ _ Hinv Hs Ht Hlk (or_intror Hl)) as [[? ->]|]; done.
  - right. destruct Hinv as (Hn & _). unfold readers in Hn.
    destruct (filter _ phases) as [|s l] eqn:Hf; [done|].
    assert (Hin : s ∈ filter (fun s => reads s = true) phases) by (rewrite Hf; by left).
    apply list_elem_of_filter in Hin as [Hs [i Hi]%list_elem_of_lookup].
    apply (Hgo i s Hi). destruct s; try done; by intros [].
  - right. destruct Hinv as [(r0 & Hr0 & _) _]. apply (Hgo _ _ Hr0). by intros [].
Qed.

(** ** Every schedule ends *)

Fixpoint shallow (n : nat) {A} (p : prog sharedE A) {struct p} : Prop :=
  match p with
  | Vis e k => match n with O => False | S n => forall x, shallow n (k x) end
  | _ => True
  end.

Lemma shallow_le n n' {A} (p : prog sharedE A) : (n <= n')%nat -> shallow n p -> shallow n' p.
Proof.
  revert n n'. induction p as [a|X e k IH| |]; simpl; intros n n' Hn; try (by intros).
  destruct n as [|n]; [intros []|]. destruct n' as [|n']; [lia|]. intros H x. eapply IH, H. lia.
Qed.

Lemma shallow_bind n m {A B} (p : prog sharedE A) (f : A -> prog sharedE B) :
  shallow n p -> (forall a, shallow m (f a)) -> shallow (n + m) (p ≫= f).
Proof.
  unfold mbind, prog_bind. intros Hp Hf. revert n Hp.
  induction p as [a|X e k IH| |]; simpl; intros n Hp; try done.
  - eapply shallow_le; [|apply Hf]. lia.
  - destruct n as [|n]; [done|]. simpl. intros x. by apply IH.
Qed.

(** One call out of a budget. *)
Lemma shallow_call n {A B} (p : prog sharedE A) (f : A -> prog sharedE B) :
  shallow 1 p -> (forall a, shallow n (f a)) -> shallow (S n) (p ≫= f).
Proof. intros. by apply (shallow_bind 1). Qed.

Lemma shallow_ret n {A} (a : A) : shallow n (mret a).
Proof. done. Qed.

Lemma shallow_trigger {F} `{!Sub F sharedE} {A} (e : F A) : shallow 1 (trigger e).
Proof. done. Qed.

Lemma shallow_when {F} `{!Sub F sharedE} (b : bool) (e : F unit) : shallow 1 (when b (trigger e)).
Proof. by destruct b. Qed.

Lemma wp_copy_shallow w : shallow 1 (wp_copy w).
Proof. unfold wp_copy. by destruct (_ =? _). Qed.

Lemma wp_convert_shallow w : shallow 1 (wp_convert w).
Proof. unfold wp_convert. by destruct (_ =? _). Qed.

Lemma wp_of_sp_shallow p : shallow 1 (wp_of_sp p).
Proof. unfold wp_of_sp. by destruct (_ =? _). Qed.

Lemma sp_copy_shallow p : shallow 1 (sp_copy p).
Proof. unfold sp_copy. by destruct (_ =? _). Qed.

Lemma wp_destroy_shallow w : shallow 1 (wp_destroy w).
Proof. apply shallow_when. Qed.

Lemma sp_destroy_shallow p : shallow 1 (sp_destroy p).
Proof. apply shallow_when. Qed.

#[local] Hint Resolve shallow_trigger shallow_when wp_copy_shallow wp_convert_shallow
  wp_of_sp_shallow sp_copy_shallow wp_destroy_shallow sp_destroy_shallow : s2p.

Lemma shallow_assoc n {A B C} (p : prog sharedE A) (f : A -> prog sharedE B)
    (g : B -> prog sharedE C) :
  shallow n (p ≫= (fun a => f a ≫= g)) -> shallow n ((p ≫= f) ≫= g).
Proof.
  unfold mbind, prog_bind. revert n. induction p as [a|X e k IH| |]; intros n; simpl; try done.
  destruct n as [|n]; [done|]. intros H x. by apply IH.
Qed.

Lemma shallow_ret_bind n {A B} (a : A) (f : A -> prog sharedE B) :
  shallow n (f a) -> shallow n (mret a ≫= f).
Proof. done. Qed.

Ltac budget := repeat lazymatch goal with
  | |- shallow _ (mret _) => apply shallow_ret
  | |- shallow _ Crash => exact I
  | |- shallow _ (Crash ≫= _) => exact I
  | |- shallow _ (mret _ ≫= _) => apply shallow_ret_bind
  | |- shallow _ ((_ ≫= _) ≫= _) => apply shallow_assoc
  | |- shallow _ (_ ≫= _) =>
      first
        [apply shallow_call; [solve [auto with s2p]|intros] | progress cbv zeta | case_match]
  | |- shallow _ _ => case_match
  end.

Lemma section_of_shallow o : shallow 20 (section_of o).
Proof.
  destruct o; cbv beta iota delta [section_of shouldIntercept_section lookup_section
    register_section with_read with_write emplace_or_assign deref new_registration sp_assign sp_move];
    budget.
Qed.

(** The calls the threads still have in front of them are at most [N]. *)
Definition budget_of (N : nat) (c : conf) : Prop :=
  exists ns, sum_list ns = N /\
    forall i t, c_threads c !! i = Some t -> exists n, ns !! i = Some n /\ shallow n t.2.

Lemma sum_list_insert (ns : list nat) i n m :
  ns !! i = Some n -> (sum_list (<[i := m]> ns) + n = sum_list ns + m)%nat.
Proof.
  revert i. induction ns as [|k ns IH]; intros [|i] H; simplify_eq/=; [lia|].
  specialize (IH _ H). lia.
Qed.

Lemma budget_step N c c' : step owner c c' -> budget_of N c -> exists N', (N' < N)%nat /\ budget_of N' c'.
Proof.
  intros [i o X e k x l' reg' Ht _] (ns & <- & Hns).
  destruct (Hns _ _ Ht) as ([|n] & Hn & Hs); [done|]. simpl in Hs.
  pose proof (sum_list_insert _ _ _ n Hn) as Hsum.
  exists (sum_list (<[i := n]> ns)). split; [lia|]. exists (<[i := n]> ns). split; [done|].
  intros j t Hj. apply list_lookup_insert_Some in Hj as [(<- & <- & _)|[Hij Hj]].
  - exists n. split; [|apply Hs]. apply list_lookup_insert_eq. by eapply lookup_lt_Some.
  - rewrite list_lookup_insert_ne by done. eauto.
Qed.

Lemma budget_steps n N c c' : nsteps (step owner) n c c' -> budget_of N c -> (n <= N)%nat.
Proof.
  intros Hc. revert N. induction Hc as [c|n c c1 c' Hs _ IH]; intros N Hb; [lia|].
  destruct (budget_step _ _ _ Hs Hb) as (N' & ? & Hb'). specialize (IH _ Hb'). lia.
Qed.

Lemma budget_initial reg ops : budget_of (20 * length ops) (initial reg ops).
Proof.
  exists (replicate (length ops) 20%nat). split.
  - induction ops as [|o ops IH]; simpl in *; lia.
  - intros i t. simpl. rewrite list_lookup_fmap. destruct (ops !! i) as [o|] eqn:Ho; [|done].
    intros ?; simplify_eq/=. exists 20%nat. split; [|apply section_of_shallow].
    apply lookup_replicate. split; [done|]. by eapply lookup_lt_Some.
Qed.

(** C14: the lock never blocks for good: in every reachable state some thread can go on
    until all have finished, and no schedule is longer than twenty calls a thread. *)
Theorem registry_deadlock_free (reg : registry) (ops : list op) (n : nat) (c : conf) :
  Forall op_ok ops -> registry_ok owner reg -> nsteps (step owner) n (initial reg ops) c ->
  (finished c \/ exists c', step owner c c') /\ (n <= 20 * length ops)%nat.
Proof.
  intros Hops Hreg Hc. split.
  - apply rtc_nsteps_2 in Hc. destruct (simulated_reachable _ _ _ Hops Hreg Hc) as (m & h & Hsim).
    by eapply simulated_progress.
  - eapply budget_steps; [exact Hc|apply budget_initial].
Qed.
End simulation.

(** ** A schedule

    A writer and two readers of object 16, whose reference block is at its address; object
    64 is registered already. *)
Module Schedule.

Definition ops : list op := [Register 16 32 [3]; Should (Wp 16 16) 3; Lookup 16].

Definition old : registry :=
  [(Wp 64 64, {| reg_target_binder := Wp 64 64; reg_interceptor_binder := 80;
                 reg_codes := [] |})].

(** One call of thread [i], if it does not have to wait. *)
Definition sched_effect (i : nat) {X} (e : sharedE X) (s : lock * registry)
  : option (X * (lock * registry)) :=
  match e in sharedE X return option (X * (lock * registry)) with
  | LockCall e =>
      match e in lockE X return option (X * (lock * registry)) with
      | LockShared =>
          match s.1 with Shared n => Some (tt, (Shared (S n), s.2)) | Exclusive _ => None end
      | UnlockShared =>
          match s.1 with Shared (S n) => Some (tt, (Shared n, s.2)) | _ => None end
      | LockExclusive =>
          match s.1 with Shared O => Some (tt, (Exclusive i, s.2)) | _ => None end
      | UnlockExclusive =>
          match s.1 with
          | Exclusive j => if decide (j = i) then Some (tt, (Shared 0, s.2)) else None
          | _ => None
          end
      | ReadRegistry => Some (s.2, s)
      | WriteRegistry reg => Some (tt, (s.1, reg))
      end
  | CountCall e =>
      Some (match e in refE X return X with
            | CreateWeak o | GetWeakRefs o => o
            | AttemptIncStrong _ => true
            | NewObject => 48
            | _ => tt
            end, s)
  end.

Definition sched_step (c : conf) (i : nat) : option conf :=
  match c_threads c !! i with
  | Some (o, Vis e k) =>
      '(x, s) ← sched_effect i e (c_lock c, c_registry c);
      Some (Conf s.1 s.2 (<[i := (o, k x)]> (c_threads c)))
  | _ => None
  end.

Fixpoint schedule (c : conf) (turns : list nat) : option conf :=
  match turns with
  | [] => Some c
  | i :: turns => c ← sched_step c i; schedule c turns
  end.

Lemma sched_step_sound c i c' : sched_step c i = Some c' -> step id c c'.
Proof.
  unfold sched_step. destruct (c_threads c !! i) as [[o [a|X e k| |]]|] eqn:Ht; try done.
  destruct (sched_effect i e _) as [[x [l reg]]|] eqn:He; simpl; [|done]. intros ?; simplify_eq.
  econstructor; [exact Ht|]. destruct e as [X e|X e]; destruct e; simpl in *;
    repeat case_match; simplify_eq; eauto.
Qed.

Lemma schedule_sound c turns c' :
  schedule c turns = Some c' -> nsteps (step id) (length turns) c c'.
Proof.
  revert c. induction turns as [|i turns IH]; simpl; intros c H; simplify_eq; [by constructor|].
  destruct (sched_step c i) as [c1|] eqn:Hs; simplify_eq/=.
  econstructor; [by eapply sched_step_sound|auto].
Qed.

(** The writer is inside and has emplaced the entry; the first reader waits. *)
Definition half : list nat := replicate 11 0%nat.

(** From there to the end, the readers together. *)
Definition rest : list nat := replicate 4 0%nat ++ [1; 2; 2; 1; 1; 2; 2; 1; 2; 1; 2; 1; 2]%nat.

(** An entry without codes is in the registry, and no reader can enter. *)
Example half_written :
  (fun c => (c_lock c, map (fun e => reg_codes e.2) (c_registry c), sched_step c 1)) <$>
    schedule (initial old ops) half = Some (Exclusive 0, [[]; []], None).
Proof. by vm_compute. Qed.

(** Both readers have found the registration. *)
Example all_done :
  (fun c => (c_lock c, map snd (c_threads c))) <$> schedule (initial old ops) (half ++ rest) =
    Some (Shared 0, [Ret Registered; Ret (Intercept true); Ret (Interceptor (Some 32))]).
Proof. by vm_compute. Qed.

Lemma ops_ok : Forall op_ok ops.
Proof. by repeat constructor. Qed.

Lemma old_ok : registry_ok id old.
Proof. by repeat constructor. Qed.

(** The configuration a schedule that can be followed leads to *)
Definition after (turns : list nat) : conf :=
  default (initial old []) (schedule (initial old ops) turns).

Lemma after_steps turns :
  is_Some (schedule (initial old ops) turns) ->
  nsteps (step id) (length turns) (initial old ops) (after turns).
Proof. intros [c Hc]. unfold after. rewrite Hc. by apply schedule_sound. Qed.

(** The configurations on the way of a schedule *)
Fixpoint configurations (c : conf) (turns : list nat) : list conf :=
  c :: match turns with
       | [] => []
       | i :: turns =>
           match sched_step c i with Some c' => configurations c' turns | None => [] end
       end.

Lemma history_of_schedule c0 cs c turns c' :
  history id c0 (cs ++ [c]) c -> schedule c turns = Some c' ->
  history id c0 (cs ++ configurations c turns) c'.
Proof.
  revert cs c. induction turns as [|i turns IH]; simpl; intros cs c Hh H; simplify_eq; [done|].
  destruct (sched_step c i) as [c1|] eqn:Hs; simplify_eq/=.
  rewrite cons_middle. rewrite (assoc_L (++)). apply IH; [|done].
  eapply history_step; [exact Hh|by apply sched_step_sound in Hs].
Qed.

Lemma after_history turns :
  is_Some (schedule (initial old ops) turns) ->
  history id (initial old ops) (configurations (initial old ops) turns) (after turns).
Proof.
  intros [c Hc]. unfold after. rewrite Hc. simpl.
  apply (history_of_schedule _ [] _ turns); [constructor|done].
Qed.

(** The writer has returned and no reader has begun. *)
Definition written : list nat := half ++ replicate 4 0%nat.

Lemma written_on_the_way :
  after written ∈ configurations (initial old ops) (half ++ rest).
Proof. apply list_elem_of_lookup. exists 15%nat. by vm_compute. Qed.
End Schedule.

(** The writer acts before the readers, and the second reader finds its registration. *)
Lemma registry_linearizable_witness :
  exists h m, atomic_run id Schedule.ops (abs Schedule.old) h m /\
    precedes h 0 1 /\ precedes h 0 2 /\ (2%nat, Interceptor (Some 32)) ∈ h /\
    m !! Wp 16 16 = Some (32, [3]).
Proof.
  destruct (registry_linearizable id Schedule.old Schedule.ops
    (Schedule.configurations (initial Schedule.old Schedule.ops) (Schedule.half ++ Schedule.rest))
    (Schedule.after (Schedule.half ++ Schedule.rest)) Schedule.ops_ok Schedule.old_ok)
    as (h & m & Hrun & Hall & Hbefore & Hm & _).
  - apply Schedule.after_history. by eexists; vm_compute.
  - exists h, m. split; [exact Hrun|].
    assert (Hw : returned (Schedule.after Schedule.written) 0 Registered)
      by (exists (Register 16 32 [3]); by vm_compute).
    split_and!.
    + eapply Hbefore; [apply Schedule.written_on_the_way|exact Hw|].
      exists (Should (Wp 16 16) 3). by vm_compute.
    + eapply Hbefore; [apply Schedule.written_on_the_way|exact Hw|].
      exists (Lookup 16). by vm_compute.
    + destruct (Hall (Schedule.after (Schedule.half ++ Schedule.rest))) as (h1 & [h2 ->] & Hr & _).
      * eapply history_last, Schedule.after_history. by eexists; vm_compute.
      * apply elem_of_app. left. apply Hr. exists (Lookup 16). by vm_compute.
    + rewrite <-(Hm 0%nat) by (by vm_compute). by vm_compute.
Defined.

(** One more call and the writer writes, with both readers waiting to enter. *)
Lemma registry_race_free_witness :
  let c := Schedule.after (take 10 Schedule.half) in
  (access <$> (snd <$> c_threads c)) = [Some true; None; None] /\
  forall o p, c_threads c !! 1%nat = Some (o, p) -> access p = None.
Proof.
  intros c.
  assert (Hc : nsteps (step id) 10 (initial Schedule.old Schedule.ops) c).
  { apply (Schedule.after_steps (take 10 Schedule.half)). by eexists; vm_compute. }
  assert (Hacc : (access <$> (snd <$> c_threads c)) = [Some true; None; None]) by (by vm_compute).
  clearbody c. split; [exact Hacc|]. intros o p Hp.
  destruct (c_threads c) as [|[o1 p1] ts] eqn:Hts; [done|]. injection Hacc as Hw _.
  rewrite <-Hts in Hp.
  refine (registry_race_free id Schedule.old Schedule.ops c 0 1 o1 o p1 p Schedule.ops_ok
    Schedule.old_ok (rtc_nsteps_2 _ _ _ Hc) _ Hp _ Hw); [by rewrite Hts|lia].
Defined.

Lemma registry_deadlock_free_witness :
  let c := Schedule.after Schedule.half in
  (finished c \/ exists c', step id c c') /\ (11 <= 60)%nat.
Proof.
  intros c.
  assert (Hc : nsteps (step id) 11 (initial Schedule.old Schedule.ops) c).
  { apply (Schedule.after_steps Schedule.half). by eexists; vm_compute. }
  clearbody c. refine (registry_deadlock_free id _ Schedule.old Schedule.ops 11 c Schedule.ops_ok
    Schedule.old_ok Hc).
  intros obj. by exists obj.
Defined.
