(* ===== verification/Interceptor.v ===== *)
(** * Redirected transactions (binder_interceptor.cpp)

    [BinderStub::onTransact] receives every transaction the ioctl hook
    redirected, finds what it was by the thread's queue, and has
    [BinderInterceptor::handleInterceptedTransaction] offer it to the registered
    interceptor before and after the real target runs.

    [size_t] is [W] bits wide.  An output argument is returned beside the
    result: [status_t &result] as [option Z], [None] while it is uninitialised,
    and [Parcel *reply_data] as [option P], [None] when the pointer is null. *)

From S2P Require Import Prelude Prog RefBase Parcel Registry.
Local Open Scope Z_scope.

Definition kPreTransact : Z := 1.
Definition kPostTransact : Z := 2.

Definition kActionSkip : Z := 1.
Definition kActionContinue : Z := 2.
Definition kActionOverrideReply : Z := 3.
Definition kActionOverrideData : Z := 4.

Definition kBackdoorCode : Z := 0xdeadbeef.

Definition kMaxUserTransactionCode : Z := 0x00ffffff.

Record ThreadTransactionInfo := {
  transaction_code : Z;
  target_binder : wp_t
}.

Section interceptor.
Context {P : Type} `{!ParcelOps P}.
Variable W : Z.
Abbreviation M := (prog (binderE P)).

Definition size_t (z : Z) : Z := wrap W z.

(** Statements of the form [status = f(); if (status != OK) return status;] *)
Definition and_then (r : Z * P) (k : P -> M (Z * P)) : M (Z * P) :=
  let '(st, p) := r in if negb (st =? OK) then mret (st, p) else k p.

(** [writeInterceptorCallData] *)
Definition writeInterceptorCallData (writer : P) (target code flags : Z) (data : P)
  : M (Z * P) :=
  r ← by_value target (fun t => mret (p_writeStrongBinder writer t));
  and_then r (fun w =>
  and_then (p_writeUint32 w code) (fun w =>
  and_then (p_writeUint32 w flags) (fun w =>
  uid ← call GetCallingUid;
  and_then (p_writeInt32 w (sext 32 uid)) (fun w =>
  pid ← call GetCallingPid;
  and_then (p_writeInt32 w (sext 32 pid)) (fun w =>
  and_then (p_writeUint64 w (p_dataSize data)) (fun w =>
  mret (p_appendFrom w data 0 (p_dataSize data)))))))).

(** [validateInterceptorResponse]: the status, the action and the response
    after the read. *)
Definition validateInterceptorResponse (response : P) : Z * Z * P :=
  let '((st, action), response) := p_readInt32 response in
  if negb (st =? OK) then (st, action, response)
  else if (action =? kActionSkip) || (action =? kActionContinue) ||
          (action =? kActionOverrideReply) || (action =? kActionOverrideData)
       then (OK, action, response)
       else (BAD_VALUE, action, response).

(** What [handleInterceptedTransaction] leaves: its value, [result] and the
    reply parcel. *)
Record handled := Handled {
  h_value : bool;
  h_result : option Z;
  h_reply : option P
}.

(** [VALIDATE_STATUS(expr)]: give up, saying "not handled", unless it is [OK]. *)
Definition validate (st : Z) (result : option Z) (reply : option P) (k : M handled)
  : M handled :=
  if negb (st =? OK) then mret (Handled false result reply) else k.

(** The parcel of the post-transaction call, up to and with the request. *)
Definition write_post_request (target code flags result : Z) (request : P) : M (Z * P) :=
  r ← by_value target (fun t => mret (p_writeStrongBinder p_new t));
  and_then r (fun w =>
  and_then (p_writeUint32 w code) (fun w =>
  and_then (p_writeUint32 w flags) (fun w =>
  uid ← call GetCallingUid;
  and_then (p_writeInt32 w (sext 32 uid)) (fun w =>
  pid ← call GetCallingPid;
  and_then (p_writeInt32 w (sext 32 pid)) (fun w =>
  and_then (p_writeInt32 w result) (fun w =>
  and_then (p_writeUint64 w (p_dataSize request)) (fun w =>
  mret (p_appendFrom w request 0 (p_dataSize request))))))))).

(** A call of the interceptor: it fills a fresh reply parcel. *)
Definition call_interceptor (interceptor what : Z) (data : P) : M (Z * P) :=
  if interceptor =? 0 then Crash
  else '(st, reply) ← call (Transact interceptor what data (Some p_new) 0);
       mret (st, default p_new reply).

(** After the target ran: tell the interceptor, and let it replace the reply. *)
Definition post_transact (interceptor target code flags result : Z) (request : P)
    (reply : option P) : M handled :=
  '(st, post) ← write_post_request target code flags result request;
  validate st (Some result) reply (
  let reply_size := match reply with Some r => size_t (p_dataSize r) | None => 0 end in
  '(st, post) ← mret (p_writeUint64 post reply_size);
  validate st (Some result) reply (
  '(st, post) ← mret (match reply with
                      | Some r => if 0 <? reply_size then p_appendFrom post r 0 reply_size
                                  else (OK, post)
                      | None => (OK, post)
                      end);
  validate st (Some result) reply (
  '(st, post_response) ← call_interceptor interceptor kPostTransact post;
  validate st (Some result) reply (
  let '(st, action, post_response) := validateInterceptorResponse post_response in
  validate st (Some result) reply (
  if wrap 32 action =? kActionOverrideReply then
    let '(result, post_response) := p_readInt32_value post_response in
    match reply with
    | None => mret (Handled true (Some result) None)
    | Some r =>
        let '(n, post_response) := p_readUint64_value post_response in
        let '(st, r) := p_appendFrom (p_freeData r) post_response
                          (p_dataPosition post_response) (size_t n) in
        validate st (Some result) (Some r) (mret (Handled true (Some result) (Some r)))
    end
  else mret (Handled true (Some result) reply)))))).

(** Run the target on the request, replaced or copied, then the post stage. *)
Definition run_target (interceptor target code flags : Z) (request modified : P)
    (reply : option P) : M handled :=
  '(result, reply) ← call (Transact target code modified reply flags);
  post_transact interceptor target code flags result request reply.

Definition handle_with (interceptor target code : Z) (request : P) (reply : option P)
    (flags : Z) : M handled :=
  '(st, pre) ← by_value target (fun t => writeInterceptorCallData p_new t code flags request);
  validate st None reply (
  '(st, response) ← call_interceptor interceptor kPreTransact pre;
  validate st None reply (
  let '(st, action, response) := validateInterceptorResponse response in
  validate st None reply (
  if action =? kActionSkip then mret (Handled false None reply)
  else if action =? kActionOverrideReply then
    let '(result, response) := p_readInt32_value response in
    match reply with
    | None => mret (Handled true (Some result) None)
    | Some r =>
        let '(n, response) := p_readUint64_value response in
        let '(st, r) := p_appendFrom r response (p_dataPosition response) (size_t n) in
        validate st (Some result) (Some r) (mret (Handled true (Some result) (Some r)))
    end
  else if action =? kActionOverrideData then
    let '(n, response) := p_readUint64_value response in
    let '(st, modified) := p_appendFrom p_new response (p_dataPosition response) (size_t n) in
    validate st None reply
      (run_target interceptor target code flags request modified reply)
  else
    let '(st, modified) := p_appendFrom p_new request 0 (p_dataSize request) in
    validate st None reply
      (run_target interceptor target code flags request modified reply)))).

(** [handleInterceptedTransaction] *)
Definition handleInterceptedTransaction (reg : registry) (target code : Z) (request : P)
    (reply : option P) (flags : Z) : M handled :=
  key ← wp_of_sp target;
  let it := map_find wp_ltb key reg in
  _ ← wp_destroy key;
  match it with
  | None => mret (Handled false None reply)
  | Some r =>
      interceptor ← sp_copy (reg_interceptor_binder r);
      res ← handle_with interceptor target code request reply flags;
      _ ← sp_destroy interceptor;
      mret res
  end.

(** The second half of [BinderStub::onTransact]: promote the recorded target,
    offer the transaction to the interceptor, and run the target when it was
    not handled.  [g_binder_interceptor] is the global pointer; returning
    [result] while it is uninitialised would be a fault. *)
Definition stub_dispatch (g_binder_interceptor : Z) (reg : registry) (info_target : wp_t)
    (code : Z) (data : P) (reply : option P) (flags : Z) : M (Z * option P) :=
  promoted ← wp_promote info_target;
  if promoted =? 0 then mret (DEAD_OBJECT, reply)
  else if g_binder_interceptor =? 0 then Crash
  else
    h ← by_value promoted (fun target =>
          handleInterceptedTransaction reg target code data reply flags);
    r ← (if h_value h then mret (h_result h, h_reply h)
         else '(st, reply) ← call (Transact promoted code data (h_reply h) flags);
              mret (Some st, reply));
    _ ← sp_destroy promoted;
    match r with
    | (Some st, reply) => mret (st, reply)
    | (None, _) => Crash
    end.

(** [BinderStub::onTransact]: the status, the reply and the thread's queue. *)
Definition stub_onTransact (g_binder_interceptor : Z) (reg : registry)
    (queue : list ThreadTransactionInfo) (data : P) (reply : option P) (flags : Z)
  : M (Z * option P * list ThreadTransactionInfo) :=
  match queue with
  | [] => mret (UNKNOWN_TRANSACTION, reply, [])
  | front :: queue =>
      info_target ← wp_copy (target_binder front);
      let code := transaction_code front in
      _ ← wp_destroy (target_binder front);
      '(st, reply) ←
        match reply with
        | Some r =>
            if (m_ptr info_target =? 0) && (code =? kBackdoorCode)
            then '(_, r) ← by_value g_binder_interceptor (fun i => mret (p_writeStrongBinder r i));
                 mret (OK, Some r)
            else stub_dispatch g_binder_interceptor reg info_target code data reply flags
        | None => stub_dispatch g_binder_interceptor reg info_target code data reply flags
        end;
      _ ← wp_destroy info_target;
      mret (st, reply, queue)
  end.
End interceptor.

(** ** What the target sees *)

Definition any_env {E : Type -> Type} (ev : event E) : Prop := True.

Section observations.
Context {P : Type}.

(** A transaction as an object receives it, and its answer. *)
Record target_call := TargetCall {
  c_code : Z;
  c_data : P;
  c_reply : option P;
  c_flags : Z;
  c_answer : Z * option P
}.

(** The transactions sent to object [o], in order. *)
Definition calls_of (o : Z) (ev : event (binderE P)) : list target_call :=
  match ev with
  | Event e x =>
      match e in binderE _ X return X -> list target_call with
      | Transact o' code data reply flags =>
          fun ans => if o =? o' then [TargetCall code data reply flags ans] else []
      | _ => fun _ => []
      end x
  end.

(** Every transaction sent, with the object it was sent to. *)
Definition transacts (ev : event (binderE P)) : list (Z * target_call) :=
  match ev with
  | Event e x =>
      match e in binderE _ X return X -> list (Z * target_call) with
      | Transact o code data reply flags =>
          fun ans => [(o, TargetCall code data reply flags ans)]
      | _ => fun _ => []
      end x
  end.

(** Observations that see nothing but transactions. *)
Class TransactionsOnly {B} (f : event (binderE P) -> list B) := {
  quiet_ref X (e : refE X) x : f (Event (inj e) x) = [];
  quiet_uid x : f (Event GetCallingUid x) = [];
  quiet_pid x : f (Event GetCallingPid x) = []
}.

#[export] Instance calls_of_only o : TransactionsOnly (calls_of o).
Proof. by split. Qed.

#[export] Instance transacts_only : TransactionsOnly transacts.
Proof. by split. Qed.
End observations.

#[export] Hint Mode TransactionsOnly + + ! : typeclass_instances.
Arguments target_call P : clear implicits.

(** The transactions sent to one object, out of all of them. *)
Definition to_object {P} (o : Z) (log : list (Z * target_call P)) : list (target_call P) :=
  omap (fun c => if c.1 =? o then Some c.2 else None) log.

Lemma wpc_to_object {P X} A o (p : prog (binderE P) X) Q :
  wpc A (calls_of o) p Q -> wpc A transacts p (fun x log => Q x (to_object o log)).
Proof.
  intros H. eapply wpa_mono; [exact H|]. intros [x| |] t _; try done. intros HQ.
  assert (Ht : t ≫= calls_of o = to_object o (t ≫= transacts)); [|rewrite <-Ht; exact HQ].
  unfold to_object. clear. induction t as [|[Y e y] t IH]; [done|].
  rewrite !bind_cons, omap_app, IH. f_equal.
  destruct e; try done. simpl. rewrite Z.eqb_sym. by destruct (_ =? _).
Qed.

(** The reference-count operations are not transactions. *)
Section quiet.
Context {P B : Type} {f : event (binderE P) -> list B} `{!TransactionsOnly f}.

Ltac quiet := repeat (wpc_step; destruct_units); rewrite ?quiet_ref; simpl; auto.

Lemma wp_of_sp_calls A p Q : (forall w, Q w []) -> wpc A f (wp_of_sp p) Q.
Proof. intros. unfold wp_of_sp. quiet. Qed.

Lemma wp_copy_calls A w Q : Q w [] -> wpc A f (wp_copy w) Q.
Proof. intros. unfold wp_copy. destruct w. quiet. Qed.

Lemma wp_destroy_calls A w Q : Q tt [] -> wpc A f (wp_destroy w) Q.
Proof. intros. unfold wp_destroy. quiet. Qed.

Lemma sp_copy_calls A p Q : Q p [] -> wpc A f (sp_copy p) Q.
Proof. intros. unfold sp_copy. quiet. Qed.

Lemma sp_destroy_calls A p Q : Q tt [] -> wpc A f (sp_destroy p) Q.
Proof. intros. unfold sp_destroy. quiet. Qed.

Lemma by_value_calls {X} A p (k : Z -> prog (binderE P) X) Q :
  wpc A f (k p) Q -> wpc A f (by_value p k) Q.
Proof.
  intros H. unfold by_value. apply wpc_bind, sp_copy_calls, wpc_bind.
  eapply wpc_mono; [exact H|]. intros x l HQ. apply wpc_bind, sp_destroy_calls, wpc_ret.
  by rewrite !app_nil_r.
Qed.

Lemma wp_promote_calls A w Q : Q 0 [] -> Q (m_ptr w) [] -> wpc A f (wp_promote w) Q.
Proof. intros. unfold wp_promote. quiet. destruct (x : bool); quiet. Qed.
End quiet.

Section executions.
Context {P : Type} `{!ParcelOps P}.
Variable W : Z.

(** What the target receives.  When it is registered as its own interceptor ([self]) it
    receives the offers too: at most one call of kind [what], with flags 0. *)
Definition offered (self : Prop) (what : Z) (calls : list (target_call P)) : Prop :=
  calls = [] \/
  exists data r a, calls = [TargetCall what data r 0 a] /\ self.

(** It ran at most once, with this code and these flags. *)
Definition ran_once (code flags : Z) (calls : list (target_call P)) : Prop :=
  calls = [] \/ exists data r a, calls = [TargetCall code data r flags a].

(** What one offer of a transaction to an interceptor can leave: it was
    handled, and [result] is set; or it was not, and then either the target
    did not run and the output arguments are as they were, or [result] is set. *)
Definition offer_ok (self : Prop) (code flags : Z) (reply : option P) (h : handled)
    (calls : list (target_call P)) : Prop :=
  exists pre ran post, calls = pre ++ ran ++ post /\
    offered self kPreTransact pre /\ ran_once code flags ran /\
    offered self kPostTransact post /\
    (h_value h = true -> is_Some (h_result h)) /\
    (h_result h = None -> ran = [] /\ post = [] /\ h_value h = false /\ h_reply h = reply).

Ltac walk := repeat (wpc_step || (progress unfold validate, and_then) ||
                     (progress destruct_units)).
Ltac zero := simpl; match goal with H : forall r, ?Q r [] |- ?Q _ _ => apply H end.

Variables (interceptor target : Z).
Hypothesis Hi : interceptor <> 0.
Abbreviation self := (interceptor = target).
Abbreviation obs := (calls_of target).

Lemma writeInterceptorCallData_calls w code flags data A Q :
  (forall r, Q r []) ->
  wpc A obs (writeInterceptorCallData w target code flags data) Q.
Proof.
  intros. unfold writeInterceptorCallData. apply wpc_bind, by_value_calls, wpc_ret.
  walk; zero.
Qed.

Lemma write_post_request_calls code flags result request A Q :
  (forall r, Q r []) ->
  wpc A obs (write_post_request target code flags result request) Q.
Proof.
  intros. unfold write_post_request. apply wpc_bind, by_value_calls, wpc_ret.
  walk; zero.
Qed.

Lemma call_interceptor_calls what data A Q :
  (forall r calls, offered self what calls -> Q r calls) ->
  wpc A obs (call_interceptor interceptor what data) Q.
Proof.
  intros HQ. unfold call_interceptor. destruct (Z.eqb_spec interceptor 0); [done|].
  apply wpc_bind, wpc_call. intros [st r] _. apply wpc_ret. simpl. apply HQ.
  destruct (Z.eqb_spec target interceptor); [|by left]. right. by repeat eexists.
Qed.

Lemma post_transact_calls code flags result request reply A :
  wpc A obs (post_transact W interceptor target code flags result request reply)
      (fun h calls => offered self kPostTransact calls /\ is_Some (h_result h)).
Proof.
  assert (Hno : offered self kPostTransact []) by (by left).
  unfold post_transact. apply wpc_bind, write_post_request_calls. intros [st post].
  walk; simpl; eauto. apply call_interceptor_calls. intros [st' response] calls Hc.
  walk; repeat (case_match; walk); rewrite ?app_nil_r; simpl; eauto.
Qed.

Lemma run_target_calls code flags request modified reply A :
  wpc A obs (run_target W interceptor target code flags request modified reply)
      (fun h calls => (exists a post, calls = TargetCall code modified reply flags a :: post /\
                         offered self kPostTransact post) /\
                      is_Some (h_result h)).
Proof.
  unfold run_target. apply wpc_bind, wpc_call. intros [result reply'] _.
  eapply wpc_mono; [apply post_transact_calls|]. simpl. rewrite Z.eqb_refl.
  intros h post [Hp Hr]. eauto 10.
Qed.

(** Nothing more happens after the first call of the interceptor. *)
Lemma offer_ok_pre code flags reply h pre :
  offered self kPreTransact pre ->
  (h_value h = true -> is_Some (h_result h)) ->
  (h_result h = None -> h_value h = false /\ h_reply h = reply) ->
  offer_ok self code flags reply h pre.
Proof.
  intros Hp Hv Hn. exists pre, [], []. rewrite !app_nil_r.
  split_and!; try done; try by left. intros ?. by destruct Hn.
Qed.

Lemma handle_with_offer code request reply flags A :
  wpc A obs (handle_with W interceptor target code request reply flags)
    (offer_ok self code flags reply).
Proof.
  assert (Hrun : forall modified pre, offered self kPreTransact pre ->
    wpc A obs (run_target W interceptor target code flags request modified reply)
      (fun h calls => offer_ok self code flags reply h (pre ++ calls))).
  { intros modified pre Hp. eapply wpc_mono; [apply run_target_calls|].
    intros h n [(a & post & -> & Hpost) [r Hr]].
    exists pre, [TargetCall code modified reply flags a], post.
    unfold ran_once. rewrite Hr. split_and!; eauto 10; done. }
  unfold handle_with. apply wpc_bind, by_value_calls, writeInterceptorCallData_calls. intros [st pre].
  assert (Hno : offered self kPreTransact []) by (by left).
  assert (Hret : forall p h,
    offered self kPreTransact p -> h = Handled false None reply \/ (h_value h = true \/ h_result h <> None) /\ is_Some (h_result h) ->
    offer_ok self code flags reply h p).
  { intros p h Hp Hh. apply offer_ok_pre; [done| |];
      destruct Hh as [->|[_ [r Hr]]]; simpl; rewrite ?Hr; done. }
  walk; [apply Hret; auto|].
  apply call_interceptor_calls. intros [st' response] calls Hc.
  walk; repeat (case_match; walk); rewrite ?app_nil_r; simpl; eauto;
    apply Hret; eauto 10.
Qed.
End executions.

(** Interceptors as [handleRegisterInterceptor] puts them into a registry: not null,
    which [readStrongBinder] answers with an error.  Nothing keeps a caller from
    registering an object as its own interceptor. *)
Definition interceptors_ok (reg : registry) : Prop :=
  Forall (fun e => reg_interceptor_binder e.2 <> 0) reg.

(** [target] is registered as an interceptor. *)
Definition self_registered (target : Z) (reg : registry) : Prop :=
  Exists (fun e => reg_interceptor_binder e.2 = target) reg.

Lemma map_find_mem {K V} (ltb : K -> K -> bool) k v (m : list (K * V)) :
  map_find ltb k m = Some v -> exists k', (k', v) ∈ m.
Proof.
  unfold map_find. destruct (lower_bound ltb k m) as [a b] eqn:Hl.
  apply lower_bound_spec in Hl as (-> & _). destruct b as [|[k' v'] b]; simpl; [done|].
  destruct (ltb k k'); intros; simplify_eq. exists k'. set_solver.
Qed.

Section stub.
Context {P : Type} `{!ParcelOps P}.
Variable W : Z.
Abbreviation M := (prog (binderE P)).

Lemma offer_ok_mono (S S' : Prop) code flags (reply : option P) h calls :
  (S -> S') -> offer_ok S code flags reply h calls -> offer_ok S' code flags reply h calls.
Proof.
  intros HS (pre & ran & post & -> & Hpre & Hran & Hpost & H). exists pre, ran, post.
  assert (forall what l, offered (P := P) S what l -> offered S' what l)
    by (intros what l [->|(? & ? & ? & -> & ?)]; [by left|right; eauto 10]).
  split_and!; auto; apply H.
Qed.

Lemma handleInterceptedTransaction_offer reg target code request reply flags A :
  interceptors_ok reg ->
  wpc A (calls_of target)
      (handleInterceptedTransaction W reg target code request reply flags)
      (offer_ok (self_registered target reg) code flags reply).
Proof.
  intros Hok. unfold handleInterceptedTransaction.
  apply wpc_bind, wp_of_sp_calls. intros key. apply wpc_bind, wp_destroy_calls.
  destruct (map_find wp_ltb key reg) as [r|] eqn:Hf.
  - apply map_find_mem in Hf as [k Hk]. unfold interceptors_ok in Hok.
    rewrite Forall_forall in Hok. pose proof (Hok _ Hk) as Hi.
    apply wpc_bind, sp_copy_calls, wpc_bind.
    eapply wpc_mono; [by apply handle_with_offer|]. intros h calls Hh.
    apply wpc_bind, sp_destroy_calls, wpc_ret. simpl. rewrite app_nil_r.
    eapply offer_ok_mono; [|exact Hh]. intros Hs. apply Exists_exists. by exists (k, r).
  - apply wpc_ret. exists [], [], []. split_and!; try done; by left.
Qed.


(** Environments in which object [i] fails every call of kind [what]. *)
Definition fails_calls (i what : Z) (ev : event (binderE P)) : Prop :=
  match ev with
  | Event e x =>
      match e in binderE _ X return X -> Prop with
      | Transact o code _ _ _ => fun ans => o = i -> code = what -> ans.1 <> OK
      | _ => fun _ => True
      end x
  end.

Lemma handle_with_dead interceptor target code request reply flags :
  interceptor <> 0 -> interceptor <> target ->
  wpc (fails_calls interceptor kPreTransact) (calls_of target)
      (handle_with W interceptor target code request reply flags)
      (fun h calls => calls = [] /\ h = Handled false None reply).
Proof.
  intros Hi Hne. unfold handle_with.
  apply wpc_bind, by_value_calls, writeInterceptorCallData_calls. intros [st pre].
  unfold validate at 1. destruct (negb (st =? OK)); [by apply wpc_ret|].
  apply wpc_bind. unfold call_interceptor. destruct (Z.eqb_spec interceptor 0); [done|].
  apply wpc_bind, wpc_call. intros [st' response] Hst. apply wpc_ret. simpl.
  destruct (Z.eqb_spec target interceptor); [congruence|].
  unfold validate at 1. destruct (Z.eqb_spec st' OK) as [->|]; [|by apply wpc_ret].
  by destruct (Hst eq_refl eq_refl).
Qed.

(** A dead or failing interceptor does not take the service down: when the
    pre-transaction call fails, a promoted target runs exactly once, on the
    request, reply and flags as they came, and its answer is the stub's. *)
Theorem stub_dispatch_fails_open (g : Z) (reg : registry) (w : wp_t) (code : Z) (data : P)
    (reply : option P) (flags : Z) (interceptor : Z) :
  g <> 0 -> interceptor <> 0 -> interceptor <> m_ptr w ->
  Forall (fun e => reg_interceptor_binder e.2 = interceptor) reg ->
  wpc (fails_calls interceptor kPreTransact) (calls_of (m_ptr w))
      (stub_dispatch W g reg w code data reply flags)
      (fun '(st, reply') calls =>
         (calls = [] /\ st = DEAD_OBJECT /\ reply' = reply) \/
         calls = [TargetCall code data reply flags (st, reply')]).
Proof.
  intros Hg Hi Hne Hint. unfold stub_dispatch. apply wpc_bind, wp_promote_calls.
  { simpl. apply wpc_ret. auto. }
  destruct (Z.eqb_spec (m_ptr w) 0); [apply wpc_ret; auto|].
  destruct (Z.eqb_spec g 0); [done|].
  apply wpc_bind, by_value_calls, (wpc_mono _ _ _ (fun h calls => calls = [] /\ h = Handled false None reply)).
  - unfold handleInterceptedTransaction.
    apply wpc_bind, wp_of_sp_calls. intros key. apply wpc_bind, wp_destroy_calls.
    destruct (map_find wp_ltb key reg) as [r|] eqn:Hf; [|by apply wpc_ret].
    apply map_find_mem in Hf as [k Hk]. rewrite Forall_forall in Hint.
    pose proof (Hint _ Hk) as Hr. simpl in Hr. subst interceptor.
    apply wpc_bind, sp_copy_calls, wpc_bind.
    eapply wpc_mono; [by apply handle_with_dead|]. intros h calls [-> ->].
    by apply wpc_bind, sp_destroy_calls, wpc_ret.
  - intros h calls [-> ->]. cbn [h_value h_reply]. apply wpc_bind, wpc_bind, wpc_call. intros [st r] _.
    apply wpc_ret, wpc_bind, sp_destroy_calls, wpc_ret. simpl. rewrite Z.eqb_refl. auto.
Qed.
End stub.

Lemma sample_interceptors_ok : interceptors_ok Sample.reg.
Proof. by repeat constructor. Qed.


Lemma stub_dispatch_fails_open_witness :
  wpc (fails_calls Sample.interceptor kPreTransact) (calls_of Sample.service)
      (stub_dispatch 64 1 Sample.reg Sample.key 3 Sample.request (Some Sample.reply) 16)
      (fun '(st, reply') calls =>
         (calls = [] /\ st = DEAD_OBJECT /\ reply' = Some Sample.reply) \/
         calls = [TargetCall 3 Sample.request (Some Sample.reply) 16 (st, reply')]).
Proof.
  apply (stub_dispatch_fails_open 64 1 Sample.reg Sample.key);
    [done|done|done|by repeat constructor].
Defined.
