(* ===== verification/Protocol.v ===== *)
(** * The interceptor protocol (binder_interceptor.cpp, BinderInterceptor.kt)

    The wire format the native library and the Kotlin interceptor agree on, and
    the contract of a redirected transaction: for each action the interceptor
    can answer before and after the target runs, what the target receives and
    what the caller gets.  [stub_dispatch_protocol] proves that the detailed
    code of Interceptor.v implements the contract over every parcel
    implementation that satisfies the documented laws. *)

From S2P Require Import Prelude Prog RefBase Parcel Registry Interceptor.
Local Open Scope Z_scope.

(** ** The wire format *)

Inductive action : Type :=
| Skip
| Continue
| OverrideReply (code : Z) (payload : list tok)
| OverrideData (payload : list tok).

Abbreviation policy := (list tok -> action).

(** Parcels that do not run out of memory: writing at the end succeeds, and so
    does copying a range of whole values. *)
Class ParcelTotal (P : Type) `{!ParcelOps P} `{!ParcelLaws P} := {
  total_writeStrongBinder (p : P) b : unread p = [] -> (p_writeStrongBinder p b).1 = OK;
  total_writeInt32 (p : P) z : unread p = [] -> (p_writeInt32 p z).1 = OK;
  total_writeUint32 (p : P) z : unread p = [] -> (p_writeUint32 p z).1 = OK;
  total_writeUint64 (p : P) z : unread p = [] -> (p_writeUint64 p z).1 = OK;
  total_appendFrom (p q : P) a b c :
    unread p = [] -> contents q = a ++ b ++ c ->
    (p_appendFrom p q (toks_size binder_size a) (toks_size binder_size b)).1 = OK
}.

#[export] Instance tok_parcel_total : ParcelTotal TokParcel.t.
Proof.
  split; simpl; unfold TokParcel.write, TokParcel.append; intros *; try by intros ->.
  intros -> Hc. change (contents q) with (TokParcel.t_done q ++ TokParcel.t_rest q) in Hc.
  by rewrite Hc, !TokParcel.cut_app.
Qed.

Section protocol.
Context {P : Type} `{!ParcelOps P} `{!ParcelLaws P}.
Variable W : Z.
Abbreviation size := (toks_size (binder_size (P := P))).

(** What [writeInterceptorCallData] puts in the pre-transaction call. *)
Definition pre_call (target code flags uid pid : Z) (request : list tok) : list tok :=
  [TBinder target; T32 (wrap 32 code); T32 (wrap 32 flags); T32 (wrap 32 uid);
   T32 (wrap 32 pid); T64 (wrap 64 (size request))] ++ request.

(** What [write_post_request] puts in the post-transaction call. *)
Definition post_call (target code flags uid pid result : Z) (request : list tok) : list tok :=
  [TBinder target; T32 (wrap 32 code); T32 (wrap 32 flags); T32 (wrap 32 uid);
   T32 (wrap 32 pid); T32 (wrap 32 result); T64 (wrap 64 (size request))] ++ request.

(** The reply follows it, with its size. *)
Definition post_reply (reply : option (list tok)) : list tok :=
  match reply with
  | Some r => T64 (wrap 64 (size r)) :: r
  | None => [T64 0]
  end.

Definition encode_action (a : action) : list tok :=
  match a with
  | Skip => [T32 kActionSkip]
  | Continue => [T32 kActionContinue]
  | OverrideReply code payload =>
      [T32 kActionOverrideReply; T32 code; T64 (size payload)] ++ payload
  | OverrideData payload => [T32 kActionOverrideData; T64 (size payload)] ++ payload
  end.

(** Payload sizes that a [size_t] and the 64-bit field of the format hold. *)
Definition action_ok (a : action) : Prop :=
  match a with
  | OverrideReply _ payload | OverrideData payload =>
      in_word 64 (size payload) /\ in_word W (size payload)
  | _ => True
  end.

(** ** The environment of a redirected transaction

    An interceptor is what it answers to a message: [pre] for the first call and
    [post] for the second.  The target answers anything of a size that memory can
    hold. *)
Definition answers (p : P) (a : action) : Prop :=
  consumed p = [] /\ unread p = encode_action a.

(** Object [o] answers the calls of kind [what] as [a] says. *)
Definition answers_call (o what : Z) (a : policy) (ev : event (binderE P)) : Prop :=
  match ev with
  | Event e x =>
      match e in binderE _ X return X -> Prop with
      | Transact o' code data _ _ => fun ans =>
          o' = o -> code = what -> exists p, ans = (OK, Some p) /\ answers p (a (contents data))
      | _ => fun _ => True
      end x
  end.

(** The replies of object [o] fit in memory. *)
Definition sized_replies (o : Z) (ev : event (binderE P)) : Prop :=
  match ev with
  | Event e x =>
      match e in binderE _ X return X -> Prop with
      | Transact o' _ _ _ _ => fun ans =>
          o' = o -> forall r, ans.2 = Some r -> in_word W (p_dataSize r)
      | _ => fun _ => True
      end x
  end.

(** The caller of the transaction, as [IPCThreadState] has it. *)
Definition calling_identity (uid pid : Z) (ev : event (binderE P)) : Prop :=
  match ev with
  | Event e x =>
      match e in binderE _ X return X -> Prop with
      | GetCallingUid => fun u => u = uid
      | GetCallingPid => fun p => p = pid
      | _ => fun _ => True
      end x
  end.

Definition interceptor_env (interceptor target : Z) (pre post : policy) (uid pid : Z)
    (ev : event (binderE P)) : Prop :=
  answers_call interceptor kPreTransact pre ev /\
  answers_call interceptor kPostTransact post ev /\
  sized_replies target ev /\ calling_identity uid pid ev.

(** ** The contract

    A log entry is a transaction with the object it was sent to. *)
Abbreviation entry := (Z * target_call P)%type.

Definition reply_contents (r : option P) : option (list tok) := contents <$> r.

Section contract.
Variables (interceptor target : Z) (pre post : policy).
Variables (code flags uid pid : Z) (request : P) (reply : option P).

(** The interceptor was offered the transaction. *)
Definition pre_sent (e : entry) : Prop :=
  e.1 = interceptor /\ c_code e.2 = kPreTransact /\ c_flags e.2 = 0 /\
  contents (c_data e.2) = pre_call target code flags uid pid (contents request).

(** The target ran, with this data and this answer. *)
Definition ran (data : list tok) (ans : Z * option P) (e : entry) : Prop :=
  e.1 = target /\ e.2 = TargetCall code (c_data e.2) reply flags ans /\
  contents (c_data e.2) = data.

(** The interceptor was told the request and the answer. *)
Definition post_sent (ans : Z * option P) (e : entry) : Prop :=
  e.1 = interceptor /\ c_code e.2 = kPostTransact /\ c_flags e.2 = 0 /\
  contents (c_data e.2) =
    post_call target code flags uid pid ans.1 (contents request) ++
    post_reply (reply_contents ans.2).

(** What the caller gets after the target answered [ans] and the interceptor was sent
    [message]. *)
Definition after_post (message : list tok) (ans : Z * option P) (st : Z) (r : option P)
  : Prop :=
  match post message with
  | OverrideReply c payload =>
      st = sext 32 c /\ reply_contents r = (fun _ => payload) <$> ans.2
  | _ => (st, r) = ans
  end.

Definition forwarded (data : list tok) (st : Z) (r : option P) (log : list entry) : Prop :=
  exists e2 e3 ans,
    log = [e2; e3] /\ ran data ans e2 /\ post_sent ans e3 /\
    after_post (contents (c_data e3.2)) ans st r.

Definition contract (st : Z) (r : option P) (log : list entry) : Prop :=
  exists offer log', log = offer :: log' /\ pre_sent offer /\
    match pre (contents (c_data offer.2)) with
    | Skip => log' = [(target, TargetCall code request reply flags (st, r))]
    | OverrideReply c payload =>
        log' = [] /\ st = sext 32 c /\
        reply_contents r = (fun p => contents p ++ payload) <$> reply
    | Continue => forwarded (contents request) st r log'
    | OverrideData payload => forwarded payload st r log'
    end.
End contract.
End protocol.

(** ** Writing calls *)

Section writing.
Context {P : Type} `{!ParcelOps P} `{!ParcelLaws P} `{!ParcelTotal P}.
Variable W : Z.
Abbreviation size := (toks_size (binder_size (P := P))).

(** [ends p ts]: [p] was written [ts] and nothing is left to read. *)
Definition ends (p : P) (ts : list tok) : Prop := consumed p = ts /\ unread p = [].

Lemma ends_new : ends p_new [].
Proof. apply new_contents. Qed.

Lemma writeStrongBinder_ends p ts b :
  ends p ts -> exists p', p_writeStrongBinder p b = (OK, p') /\ ends p' (ts ++ [TBinder b]).
Proof.
  intros [<- Hu]. pose proof (total_writeStrongBinder p b Hu) as Hst.
  destruct (p_writeStrongBinder p b) as [st p'] eqn:Hp. simpl in Hst. subst st.
  exists p'. split; [done|]. by eapply writeStrongBinder_ok.
Qed.

Lemma writeInt32_ends p ts z :
  ends p ts -> exists p', p_writeInt32 p z = (OK, p') /\ ends p' (ts ++ [T32 (wrap 32 z)]).
Proof.
  intros [<- Hu]. pose proof (total_writeInt32 p z Hu) as Hst.
  destruct (p_writeInt32 p z) as [st p'] eqn:Hp. simpl in Hst. subst st.
  exists p'. split; [done|]. by eapply writeInt32_ok.
Qed.

Lemma writeUint32_ends p ts z :
  ends p ts -> exists p', p_writeUint32 p z = (OK, p') /\ ends p' (ts ++ [T32 (wrap 32 z)]).
Proof.
  intros [<- Hu]. pose proof (total_writeUint32 p z Hu) as Hst.
  destruct (p_writeUint32 p z) as [st p'] eqn:Hp. simpl in Hst. subst st.
  exists p'. split; [done|]. by eapply writeUint32_ok.
Qed.

Lemma writeUint64_ends p ts z :
  ends p ts -> exists p', p_writeUint64 p z = (OK, p') /\ ends p' (ts ++ [T64 (wrap 64 z)]).
Proof.
  intros [<- Hu]. pose proof (total_writeUint64 p z Hu) as Hst.
  destruct (p_writeUint64 p z) as [st p'] eqn:Hp. simpl in Hst. subst st.
  exists p'. split; [done|]. by eapply writeUint64_ok.
Qed.

Lemma appendFrom_ends p ts q a b c :
  ends p ts -> contents q = a ++ b ++ c ->
  exists p', p_appendFrom p q (size a) (size b) = (OK, p') /\ ends p' (ts ++ b).
Proof.
  intros [<- Hu] Hc. pose proof (total_appendFrom p q a b c Hu Hc) as Hst.
  destruct (p_appendFrom p q (size a) (size b)) as [st p'] eqn:Hp. simpl in Hst. subst st.
  exists p'. split; [done|]. by eapply appendFrom_ok.
Qed.

(** The whole of another parcel, and what is left to read of it. *)
Lemma appendFrom_all p ts q :
  ends p ts -> exists p', p_appendFrom p q 0 (p_dataSize q) = (OK, p') /\ ends p' (ts ++ contents q).
Proof.
  intros H. rewrite dataSize_contents.
  destruct (appendFrom_ends p ts q [] (contents q) [] H) as (p' & Hp & He); [by rewrite app_nil_r|].
  eauto.
Qed.

Lemma appendFrom_rest p ts q :
  ends p ts ->
  exists p', p_appendFrom p q (p_dataPosition q) (size (unread q)) = (OK, p') /\
             ends p' (ts ++ unread q).
Proof.
  intros H. rewrite dataPosition_consumed.
  apply (appendFrom_ends p ts q (consumed q) (unread q) [] H). by rewrite app_nil_r.
Qed.

Lemma wrap_sext w z : 0 < w -> wrap w (sext w z) = wrap w z.
Proof.
  intros Hw. unfold sext. split_if; [apply wrap_wrap; lia|].
  unfold wrap. rewrite <-(Z.mul_1_l (2 ^ w)) at 2.
  rewrite <-Zminus_mod_idemp_r, Z_mod_mult, Z.sub_0_r. apply Z.mod_mod.
  apply Z.pow_nonzero; lia.
Qed.

Lemma writeInterceptorCallData_ends {B} A (f : event (binderE P) -> list B) `{!TransactionsOnly f} (target code flags : Z) (request : P) :
  wpc A f (writeInterceptorCallData p_new target code flags request)
      (fun '(st, w) calls => st = OK /\ calls = [] /\ exists uid pid,
         A (Event GetCallingUid uid) /\ A (Event GetCallingPid pid) /\
         ends w (pre_call (P := P) target code flags uid pid (contents request))).
Proof.
  unfold writeInterceptorCallData, pre_call.
  apply wpc_bind, by_value_calls, wpc_ret.
  destruct (writeStrongBinder_ends p_new [] target ends_new) as (w1 & -> & H1).
  cbn [and_then OK Z.eqb negb].
  destruct (writeUint32_ends _ _ code H1) as (w2 & -> & H2). cbn [and_then OK Z.eqb negb].
  destruct (writeUint32_ends _ _ flags H2) as (w3 & -> & H3). cbn [and_then OK Z.eqb negb].
  apply wpc_bind, wpc_call. intros uid Huid. rewrite quiet_uid.
  destruct (writeInt32_ends _ _ (sext 32 uid) H3) as (w4 & -> & H4). cbn [and_then OK Z.eqb negb].
  apply wpc_bind, wpc_call. intros pid Hpid. rewrite quiet_pid.
  destruct (writeInt32_ends _ _ (sext 32 pid) H4) as (w5 & -> & H5). cbn [and_then OK Z.eqb negb].
  destruct (writeUint64_ends _ _ (p_dataSize request) H5) as (w6 & -> & H6).
  cbn [and_then OK Z.eqb negb].
  destruct (appendFrom_all _ _ request H6) as (w7 & -> & H7). apply wpc_ret.
  split_and!; [done|done|]. exists uid, pid. do 2 (split; [done|]). rewrite !wrap_sext, dataSize_contents in H7 by lia.
  by rewrite <-!app_assoc in H7.
Qed.

Lemma write_post_request_ends {B} A (f : event (binderE P) -> list B) `{!TransactionsOnly f} (target code flags result : Z) (request : P) :
  wpc A f (write_post_request target code flags result request)
      (fun '(st, w) calls => st = OK /\ calls = [] /\ exists uid pid,
         A (Event GetCallingUid uid) /\ A (Event GetCallingPid pid) /\
         ends w (post_call (P := P) target code flags uid pid result (contents request))).
Proof.
  unfold write_post_request, post_call.
  apply wpc_bind, by_value_calls, wpc_ret.
  destruct (writeStrongBinder_ends p_new [] target ends_new) as (w1 & -> & H1).
  cbn [and_then OK Z.eqb negb].
  destruct (writeUint32_ends _ _ code H1) as (w2 & -> & H2). cbn [and_then OK Z.eqb negb].
  destruct (writeUint32_ends _ _ flags H2) as (w3 & -> & H3). cbn [and_then OK Z.eqb negb].
  apply wpc_bind, wpc_call. intros uid Huid. rewrite quiet_uid.
  destruct (writeInt32_ends _ _ (sext 32 uid) H3) as (w4 & -> & H4). cbn [and_then OK Z.eqb negb].
  apply wpc_bind, wpc_call. intros pid Hpid. rewrite quiet_pid.
  destruct (writeInt32_ends _ _ (sext 32 pid) H4) as (w5 & -> & H5). cbn [and_then OK Z.eqb negb].
  destruct (writeInt32_ends _ _ result H5) as (w6 & -> & H6). cbn [and_then OK Z.eqb negb].
  destruct (writeUint64_ends _ _ (p_dataSize request) H6) as (w7 & -> & H7).
  cbn [and_then OK Z.eqb negb].
  destruct (appendFrom_all _ _ request H7) as (w8 & -> & H8). apply wpc_ret.
  split_and!; [done|done|]. exists uid, pid. do 2 (split; [done|]). rewrite !wrap_sext, dataSize_contents in H8 by lia.
  by rewrite <-!app_assoc in H8.
Qed.
End writing.

(** ** The implementation meets the contract *)

Section implementation.
Context {P : Type} `{!ParcelOps P} `{!ParcelLaws P} `{!ParcelTotal P}.
Variables (W interceptor target : Z) (pre post : policy) (uid pid : Z).
Hypothesis Hi : interceptor <> 0.
Hypothesis Hne : interceptor <> target.
Hypothesis Hpre : forall m, action_ok (P := P) W (pre m).
Hypothesis Hpost : forall m, action_ok (P := P) W (post m).
Abbreviation size := (toks_size (binder_size (P := P))).
Abbreviation A := (interceptor_env (P := P) W interceptor target pre post uid pid).
Abbreviation obs := (transacts (P := P)).

Lemma toks_size_nonneg ts : 0 <= size ts.
Proof.
  unfold toks_size. pose proof (binder_size_pos (P := P)).
  induction ts as [|t ts IH]; simpl; [lia|]. destruct t; simpl; lia.
Qed.

Lemma toks_size_0 ts : size ts <= 0 -> ts = [].
Proof.
  destruct ts as [|t ts]; [done|]. pose proof (toks_size_nonneg ts).
  pose proof (binder_size_pos (P := P)). unfold toks_size in *. destruct t; simpl; lia.
Qed.

(** Reading the action word of an answer. *)
Lemma validate_answer (p : P) (a : action) :
  answers p a ->
  exists p', unread p' = tail (encode_action (P := P) a) /\
    validateInterceptorResponse p =
      (OK, match a with Skip => kActionSkip | Continue => kActionContinue
           | OverrideReply _ _ => kActionOverrideReply
           | OverrideData _ => kActionOverrideData end, p').
Proof.
  intros [Hc Hu]. unfold validateInterceptorResponse.
  destruct a; simpl in Hu; destruct (readInt32_ok _ _ _ Hu) as (p' & -> & _ & _ & Hu');
    exists p'; (split; [exact Hu'|]); reflexivity.
Qed.

(** Reading a length-prefixed payload and appending it to a parcel. *)
Lemma read_payload (p r : P) ts payload :
  unread p = T64 (size payload) :: payload -> ends r ts ->
  in_word 64 (size payload) -> in_word W (size payload) ->
  exists p' r', p_readUint64_value p = (size payload, p') /\
    p_appendFrom r p' (p_dataPosition p') (size_t W (size payload)) = (OK, r') /\
    ends r' (ts ++ payload).
Proof.
  intros Hu Hr H64 HW. destruct (readUint64_ok _ _ _ Hu) as (p' & Hp & _ & Hu').
  rewrite wrap_small in Hp by done. unfold size_t. rewrite wrap_small by done.
  destruct (appendFrom_rest r ts p' Hr) as (r' & Hr' & He). rewrite Hu' in Hr', He. eauto 10.
Qed.

Lemma call_answered {B} (E : event (binderE P) -> Prop) (f : event (binderE P) -> list B)
    what a (w : P) Q :
  (forall ev, E ev -> answers_call interceptor what a ev) ->
  (forall p, answers p (a (contents w)) ->
     Q (OK, p) (f (Event (Transact interceptor what w (Some p_new) 0) (OK, Some p)))) ->
  wpc E f (call_interceptor interceptor what w) Q.
Proof.
  intros HE HQ. unfold call_interceptor. destruct (Z.eqb_spec interceptor 0); [done|].
  apply wpc_bind, wpc_call. intros [st r] H%HE.
  destruct (H eq_refl eq_refl) as (p & [= -> ->] & Hp). apply wpc_ret. rewrite app_nil_r. by apply HQ.
Qed.

(** The reply of the target, after its size. *)
Lemma append_reply (w : P) ts (r : option P) :
  ends w ts -> (forall p, r = Some p -> in_word W (p_dataSize p)) ->
  let n := match r with Some p => size_t W (p_dataSize p) | None => 0 end in
  exists w1 w2, p_writeUint64 w n = (OK, w1) /\
    match r with
    | Some p => if 0 <? n then p_appendFrom w1 p 0 n else (OK, w1)
    | None => (OK, w1)
    end = (OK, w2) /\
    ends w2 (ts ++ post_reply (P := P) (reply_contents r)).
Proof.
  intros Hw Hr n. destruct (writeUint64_ends _ _ n Hw) as (w1 & Hw1 & H1).
  exists w1. destruct r as [p|]; simpl; [|exists w1; auto].
  assert (n = p_dataSize p) as Hn by (unfold n, size_t; apply wrap_small; auto).
  rewrite Hn in Hw1, H1 |- *. rewrite dataSize_contents in H1.
  destruct (Z.ltb_spec 0 (p_dataSize p)) as [_|H0].
  - destruct (appendFrom_all _ _ p H1) as (w2 & Hw2 & H2). exists w2.
    rewrite <-app_assoc in H2. auto.
  - exists w1. rewrite dataSize_contents in H0. rewrite (toks_size_0 _ H0) in H1 |- *. auto.
Qed.

Lemma post_transact_contract code flags request (st0 : Z) (r0 : option P) :
  (forall p, r0 = Some p -> in_word W (p_dataSize p)) ->
  wpc A obs (post_transact W interceptor target code flags st0 request r0)
      (fun h log => exists e st, log = [e] /\
         post_sent interceptor target code flags uid pid request (st0, r0) e /\
         h = Handled true (Some st) (h_reply h) /\
         after_post post (contents (c_data e.2)) (st0, r0) st (h_reply h)).
Proof.
  intros Hr0. unfold post_transact.
  apply wpc_bind. eapply wpc_mono; [apply write_post_request_ends; apply _|].
  intros [st w] l (-> & -> & uid' & pid' & (_ & _ & _ & ->) & (_ & _ & _ & ->) & Hw). cbn [validate OK Z.eqb negb].
  destruct (append_reply w _ r0 Hw Hr0) as (w1 & w2 & Hw1 & Hw2 & Hends).
  cbv zeta in *. rewrite Hw1. apply wpc_bind, wpc_ret. cbn [validate OK Z.eqb negb].
  rewrite Hw2. apply wpc_bind, wpc_ret. cbn [validate OK Z.eqb negb].
  apply wpc_bind, (call_answered A obs _ post); [by intros ev (_ & ? & _)|]. intros p Hp.
  cbn [transacts].
  destruct (validate_answer p _ Hp) as (p' & Hu & ->). cbn [validate OK Z.eqb negb].
  set (e := (interceptor, TargetCall kPostTransact w2 (Some p_new) 0 (OK, Some p))).
  change (contents w2) with (contents (c_data e.2)) in *.
  assert (He : post_sent interceptor target code flags uid pid request (st0, r0) e).
  { split_and!; try done. destruct Hends as [Hc Hn].
    unfold e, contents. simpl. by rewrite Hc, Hn, app_nil_r. }
  clearbody e. unfold after_post. pose proof (Hpost (contents (c_data e.2))) as Hok.
  destruct (post (contents (c_data e.2))) as [| |c payload|payload] eqn:Hpst; cbn -[size_t Z.eqb].
  1,2,4: apply wpc_ret; exists e, st0; rewrite Hpst; done.
  destruct (readInt32_ok _ _ _ Hu) as (p1 & _ & -> & _ & Hu1).
  destruct r0 as [r|]; [|apply wpc_ret; exists e, (sext 32 c); rewrite Hpst; done].
  destruct Hok as [H64 HW].
  destruct (freeData_contents r) as [Hf1 Hf2].
  destruct (read_payload p1 (p_freeData r) [] payload Hu1 (conj Hf1 Hf2) H64 HW)
    as (p2 & r' & -> & Hr' & [Hc Hn]).
  rewrite Hr'. cbn [validate OK Z.eqb negb]. apply wpc_ret. exists e, (sext 32 c).
  rewrite Hpst. split_and!; try done. simpl. unfold contents. by rewrite Hc, Hn, app_nil_r.
Qed.

Lemma run_target_contract code flags request modified reply :
  wpc A obs (run_target W interceptor target code flags request modified reply)
      (fun h log => exists st, h = Handled true (Some st) (h_reply h) /\
         forwarded interceptor target post code flags uid pid request reply (contents modified)
           st (h_reply h) log).
Proof.
  unfold run_target. apply wpc_bind, wpc_call. intros [st0 r0] (_ & _ & Ht & _).
  eapply wpc_mono; [apply post_transact_contract, Ht; done|].
  intros h log (e & st & -> & He & Hh & Hpst). simpl. exists st. split; [done|].
  exists (target, TargetCall code modified reply flags (st0, r0)), e, (st0, r0).
  by split_and!.
Qed.

(** The exchange with the interceptor, up to the values it leaves. *)
Definition handled_contract code flags (request : P) (reply : option P)
    (h : handled) (log : list (Z * target_call P)) : Prop :=
  exists offer log', log = offer :: log' /\
    pre_sent interceptor target code flags uid pid request offer /\
    match pre (contents (c_data offer.2)) with
    | Skip => log' = [] /\ h = Handled false None reply
    | _ => exists st, h = Handled true (Some st) (h_reply h) /\
             contract interceptor target pre post code flags uid pid request reply st (h_reply h) log
    end.

Lemma handle_with_contract code flags request (reply : option P) :
  (forall r, reply = Some r -> unread r = []) ->
  wpc A obs (handle_with W interceptor target code request reply flags)
      (handled_contract code flags request reply).
Proof.
  intros Hrep. unfold handle_with.
  apply wpc_bind, by_value_calls. eapply wpc_mono; [apply writeInterceptorCallData_ends; apply _|].
  intros [st w] l (-> & -> & uid' & pid' & (_ & _ & _ & ->) & (_ & _ & _ & ->) & Hc & Hn). cbn [validate OK Z.eqb negb].
  apply wpc_bind, (call_answered A obs _ pre); [by intros ev (? & _ & _)|]. intros p Hp.
  cbn [transacts].
  set (e := (interceptor, TargetCall kPreTransact w (Some p_new) 0 (OK, Some p))).
  assert (He : pre_sent interceptor target code flags uid pid request e).
  { split_and!; try done. unfold e, contents. simpl.
    by rewrite Hc, Hn, app_nil_r. }
  destruct (validate_answer p _ Hp) as (p' & Hu & ->). cbn [validate OK Z.eqb negb].
  change (contents w) with (contents (c_data e.2)) in *. clearbody e.
  assert (Hrun : forall modified,
    wpc A obs (run_target W interceptor target code flags request modified reply)
      (fun h log => exists st, h = Handled true (Some st) (h_reply h) /\
         forwarded interceptor target post code flags uid pid request reply (contents modified)
           st (h_reply h) log)) by (intros; apply run_target_contract).
  assert (Hfin : forall h log', pre (contents (c_data e.2)) <> Skip ->
    (exists st, h = Handled true (Some st) (h_reply h) /\
       contract interceptor target pre post code flags uid pid request reply st (h_reply h) (e :: log')) ->
    handled_contract code flags request reply h (e :: log')).
  { intros h log' Hskip Hh. exists e, log'. split_and!; [done..|].
    destruct (pre (contents (c_data e.2))); try done. }
  pose proof (Hpre (contents (c_data e.2))) as Hok. unfold contract in Hfin.
  destruct (pre (contents (c_data e.2))) as [| |c payload|payload] eqn:Hact;
    cbn -[size_t Z.eqb contract]; rewrite ?Z.eqb_refl.
  - apply wpc_ret. exists e, []. rewrite Hact. split_and!; done.
  - destruct (appendFrom_all p_new [] request ends_new) as (m & -> & Hm1 & Hm2).
    cbn [validate OK Z.eqb negb]. eapply wpc_mono; [apply Hrun|].
    intros h log (st & Hh & Hf). apply Hfin; [done|]. exists st. split; [done|].
    exists e, log. split_and!; [done..|]. rewrite Hact.
    replace (contents request) with (contents m)
      by (unfold contents at 1; by rewrite Hm1, Hm2, app_nil_r). done.
  - destruct (readInt32_ok _ _ _ Hu) as (p1 & _ & Hp1 & _ & Hu1).
    replace (kActionOverrideReply =? kActionSkip) with false by done. rewrite Hp1.
    destruct reply as [r|].
    2:{ apply wpc_ret, Hfin; [done|]. exists (sext 32 c). split; [done|]. exists e, [].
        rewrite Hact. by split_and!. }
    destruct Hok as [H64 HW].
    destruct (read_payload p1 r (consumed r) payload Hu1) as (p2 & r' & -> & Hr' & [Hc' Hn']);
      [by split; auto|done..|].
    rewrite Hr'. cbn [validate OK Z.eqb negb]. apply wpc_ret, Hfin; [done|]. exists (sext 32 c).
    split; [done|]. exists e, []. rewrite Hact. split_and!; try done. simpl. unfold contents.
    by rewrite Hc', Hn', (Hrep r eq_refl), !app_nil_r.
  - replace (kActionOverrideData =? kActionSkip) with false by done.
    replace (kActionOverrideData =? kActionOverrideReply) with false by done.
    destruct Hok as [H64 HW].
    destruct (read_payload p' p_new [] payload Hu ends_new H64 HW)
      as (p2 & m & -> & Hm & [Hm1 Hm2]).
    rewrite Hm. cbn [validate OK Z.eqb negb]. eapply wpc_mono; [apply Hrun|].
    intros h log (st & Hh & Hf). apply Hfin; [done|]. exists st. split; [done|].
    exists e, log. split_and!; [done..|]. rewrite Hact.
    replace payload with (contents m) by (unfold contents; by rewrite Hm1, Hm2, app_nil_r).
    done.
Qed.
End implementation.

(** Every key an implementation can form for [target] leads to [interceptor]. *)
Definition intercepts (owner : Z -> Z) (reg : registry) (target interceptor : Z) : Prop :=
  forall k, wp_ok owner k -> m_ptr k = target ->
  exists r, lookup_target k reg = Some r /\ reg_interceptor_binder r = interceptor.

Section dispatch.
Context {P : Type} `{!ParcelOps P} `{!ParcelLaws P} `{!ParcelTotal P}.
Variables (W : Z) (owner : Z -> Z).

(** The environment of one redirected transaction. *)
Definition dispatch_env (interceptor target : Z) (pre post : policy) (uid pid : Z)
    (ev : event (binderE P))
  : Prop :=
  registry_env owner ev /\ interceptor_env W interceptor target pre post uid pid ev.

Lemma wp_of_sp_key interceptor target pre post uid pid Q :
  target <> 0 -> (forall w, wp_ok owner w -> m_ptr w = target -> Q w []) ->
  wpc (dispatch_env interceptor target pre post uid pid) transacts (wp_of_sp target) Q.
Proof.
  intros Ht HQ. unfold wp_of_sp. destruct (Z.eqb_spec target 0); [done|].
  apply wpc_bind, wpc_trigger. intros refs [Ho _]. apply wpc_ret.
  rewrite quiet_ref. by apply HQ.
Qed.

(** The stub on a registered target, in environments [B] in which promoting it can give
    the object, or null when [dead]. *)
Lemma stub_dispatch_contract (B : event (binderE P) -> Prop) (dead : Prop) (g : Z)
    (reg : registry) (w : wp_t) (code flags uid pid : Z) (request : P) (reply : option P)
    (interceptor : Z) (pre post : policy) :
  g <> 0 -> interceptor <> 0 -> interceptor <> m_ptr w ->
  (forall ev, B ev -> dispatch_env interceptor (m_ptr w) pre post uid pid ev) ->
  (forall Q, (dead -> Q 0 []) -> Q (m_ptr w) [] -> wpc B transacts (wp_promote w) Q) ->
  (m_ptr w = 0 -> dead) ->
  intercepts owner reg (m_ptr w) interceptor ->
  (forall m, action_ok (P := P) W (pre m)) -> (forall m, action_ok (P := P) W (post m)) ->
  (forall r, reply = Some r -> unread r = []) ->
  wpc B transacts (stub_dispatch W g reg w code request reply flags)
      (fun '(st, r) log =>
         (dead /\ st = DEAD_OBJECT /\ r = reply /\ log = []) \/
         contract interceptor (m_ptr w) pre post code flags uid pid request reply st r log).
Proof.
  intros Hg Hi Hne HB Hprom Hnull Hreg Hpre Hpost Hrep. unfold stub_dispatch.
  apply wpc_bind, Hprom. { intros Hd. simpl. apply wpc_ret. auto. }
  destruct (Z.eqb_spec (m_ptr w) 0) as [|Hw]; [apply wpc_ret; left; auto|].
  destruct (Z.eqb_spec g 0); [done|].
  eapply wpc_env; [exact HB|]. apply wpc_bind, by_value_calls.
  unfold handleInterceptedTransaction. apply wpc_bind, wp_of_sp_key; [done|].
  intros key Hok Hkey. apply wpc_bind, wp_destroy_calls.
  destruct (Hreg key Hok Hkey) as (r & -> & Hr). rewrite Hr.
  apply wpc_bind, sp_copy_calls, wpc_bind.
  eapply wpc_mono.
  { apply (wpc_env (interceptor_env W interceptor (m_ptr w) pre post uid pid)).
    - intros ev [_ Hev]. exact Hev.
    - by apply handle_with_contract. }
  intros h log Hh. apply wpc_bind, sp_destroy_calls, wpc_ret, wpc_bind.
  unfold handled_contract in Hh. rewrite app_nil_r.
  assert (Hdone : forall st, h = Handled true (Some st) (h_reply h) ->
    contract interceptor (m_ptr w) pre post code flags uid pid request reply st (h_reply h) log ->
    wpc (dispatch_env interceptor (m_ptr w) pre post uid pid) transacts
      (if h_value h then mret (h_result h, h_reply h)
       else '(st, reply) ← call (Transact (m_ptr w) code request (h_reply h) flags);
            mret (Some st, reply))
      (fun x l => wpc (dispatch_env interceptor (m_ptr w) pre post uid pid) transacts
        (_ ← sp_destroy (m_ptr w);
         match x with (Some st, r) => mret (st, r) | (None, _) => Crash end)
        (fun y l' => (let '(st, r) := y in fun log =>
           (dead /\ st = DEAD_OBJECT /\ r = reply /\ log = []) \/
           contract interceptor (m_ptr w) pre post code flags uid pid request reply st r log)
           (log ++ l ++ l')))).
  { intros st -> Hc. apply wpc_ret, wpc_bind, sp_destroy_calls, wpc_ret. cbn. right.
    by rewrite !app_nil_r. }
  destruct Hh as (e & log' & Hlog & He & Hh).
  destruct (pre (contents (c_data e.2))) as [| | |] eqn:Hact;
    try (destruct Hh as (st & ? & ?); by apply (Hdone st)).
  destruct Hh as [-> ->]. subst log. cbn [h_value h_reply].
  apply wpc_bind, wpc_call. intros [st r'] _. apply wpc_ret, wpc_bind, sp_destroy_calls, wpc_ret.
  right. eexists e, _. split_and!; [done|done|]. by rewrite Hact.
Qed.

(** C2: the stub implements the interceptor protocol.  When the recorded target
    can still be promoted and is registered, then whatever actions the
    interceptor answers, each to the message it is sent, the transactions sent, in order, and what the caller
    gets are those of the contract: the offer carries the target, code, flags,
    caller and request; "skip" runs the target on the untouched transaction;
    "override reply" answers without running it; "continue" and "override data"
    run it exactly once, on a copy of the request or on the replacement, then
    report request, status and reply, and the second answer can replace the
    reply.  A target that is gone gives [DEAD_OBJECT] and no transaction. *)
Theorem stub_dispatch_protocol (g : Z) (reg : registry) (w : wp_t) (code flags uid pid : Z)
    (request : P) (reply : option P) (interceptor : Z) (pre post : policy) :
  g <> 0 -> interceptor <> 0 -> interceptor <> m_ptr w ->
  intercepts owner reg (m_ptr w) interceptor ->
  (forall m, action_ok (P := P) W (pre m)) -> (forall m, action_ok (P := P) W (post m)) ->
  (forall r, reply = Some r -> unread r = []) ->
  wpc (dispatch_env interceptor (m_ptr w) pre post uid pid) transacts
      (stub_dispatch W g reg w code request reply flags)
      (fun '(st, r) log =>
         (st = DEAD_OBJECT /\ r = reply /\ log = []) \/
         contract interceptor (m_ptr w) pre post code flags uid pid request reply st r log).
Proof.
  intros. eapply wpc_mono; [apply (stub_dispatch_contract _ True); try done|].
  - intros Q ? ?. apply wp_promote_calls; auto.
  - intros [st r] log [(_ & ?)|?]; [by left|by right].
Qed.

(** Environments in which the interceptor lets the transaction through and
    then fails the post-transaction call (it died meanwhile, say). *)
Definition post_failure_env (interceptor : Z) (ev : event (binderE P)) : Prop :=
  registry_env owner ev /\ answers_call interceptor kPreTransact (fun _ => Continue) ev /\
  fails_calls interceptor kPostTransact ev.

Lemma post_transact_failure interceptor target code flags st0 request (r0 : option P) :
  interceptor <> 0 -> interceptor <> target ->
  wpc (post_failure_env interceptor) (calls_of target)
      (post_transact W interceptor target code flags st0 request r0)
      (fun h calls => calls = [] /\ h = Handled false (Some st0) r0).
Proof.
  intros Hi Hne. unfold post_transact.
  apply wpc_bind. eapply wpc_mono; [apply write_post_request_ends; apply _|].
  intros [st w] l (-> & -> & _). cbn [validate OK Z.eqb negb].
  repeat first [ by apply wpc_ret | wpc_step | progress unfold validate ].
  unfold call_interceptor. destruct (Z.eqb_spec interceptor 0); [done|].
  apply wpc_bind, wpc_call. intros [st' response] (_ & _ & Hst). apply wpc_ret. simpl.
  destruct (Z.eqb_spec target interceptor); [congruence|].
  destruct (Z.eqb_spec st' OK) as [->|]; [by destruct (Hst eq_refl eq_refl)|].
  by apply wpc_ret.
Qed.

Lemma handle_with_post_failure interceptor target code request (reply : option P) flags :
  interceptor <> 0 -> interceptor <> target ->
  wpc (post_failure_env interceptor) (calls_of target)
      (handle_with W interceptor target code request reply flags)
      (fun h calls => exists d st0 r0, contents d = contents request /\
         calls = [TargetCall code d reply flags (st0, r0)] /\
         h = Handled false (Some st0) r0).
Proof.
  intros Hi Hne. unfold handle_with.
  apply wpc_bind, by_value_calls. eapply wpc_mono; [apply writeInterceptorCallData_ends; apply _|].
  intros [st p] l (-> & -> & _). cbn [validate OK Z.eqb negb].
  apply wpc_bind, (call_answered _ Hi (post_failure_env interceptor) (calls_of target) _ (fun _ => Continue)); [by intros ev (_ & ? & _)|].
  intros p0 Hp. destruct (validate_answer p0 Continue Hp) as (p' & _ & ->).
  cbn [validate OK Z.eqb negb].
  destruct (appendFrom_all p_new [] request ends_new) as (m & Hm & Hm1 & Hm2).
  replace (kActionContinue =? kActionSkip) with false by done.
  replace (kActionContinue =? kActionOverrideReply) with false by done.
  replace (kActionContinue =? kActionOverrideData) with false by done.
  rewrite Hm. cbn [validate OK Z.eqb negb]. unfold run_target.
  apply wpc_bind, wpc_call. intros [st0 r0] _.
  eapply wpc_mono; [by apply post_transact_failure|]. intros h calls [-> ->].
  simpl. rewrite Z.eqb_refl. destruct (Z.eqb_spec target interceptor); [congruence|].
  exists m, st0, r0. split_and!; [|done..]. unfold contents at 1. by rewrite Hm1, Hm2, app_nil_r.
Qed.

(** C26: the source's behaviour when the post-transaction stage fails after the
    target ran: "not handled" makes the stub run the target again, so it
    executes the request twice, the second time on the reply parcel the first
    run filled, and the second status is the one the caller gets. *)
Theorem stub_dispatch_post_failure (g : Z) (reg : registry) (w : wp_t) (code flags : Z)
    (request : P) (reply : option P) (interceptor : Z) :
  g <> 0 -> interceptor <> 0 -> interceptor <> m_ptr w ->
  intercepts owner reg (m_ptr w) interceptor ->
  wpc (post_failure_env interceptor) (calls_of (m_ptr w))
      (stub_dispatch W g reg w code request reply flags)
      (fun '(st, r) calls =>
         (st = DEAD_OBJECT /\ r = reply /\ calls = []) \/
         exists d first, contents d = contents request /\
           calls = [TargetCall code d reply flags first;
                    TargetCall code request first.2 flags (st, r)]).
Proof.
  intros Hg Hi Hne Hreg. unfold stub_dispatch.
  apply wpc_bind, wp_promote_calls. { simpl. apply wpc_ret. auto. }
  destruct (Z.eqb_spec (m_ptr w) 0) as [|Hw]; [apply wpc_ret; auto|].
  destruct (Z.eqb_spec g 0); [done|]. apply wpc_bind, by_value_calls.
  unfold handleInterceptedTransaction, wp_of_sp. destruct (Z.eqb_spec (m_ptr w) 0); [done|].
  apply wpc_bind, wpc_bind, wpc_trigger. intros refs [Ho _]. apply wpc_ret.
  apply wpc_bind, wp_destroy_calls.
  destruct (Hreg (Wp (m_ptr w) refs)) as (r & -> & Hr); [done..|]. rewrite Hr.
  apply wpc_bind, sp_copy_calls, wpc_bind.
  eapply wpc_mono; [by apply handle_with_post_failure|].
  intros h calls (d & st0 & r0 & Hd & -> & ->).
  apply wpc_bind, sp_destroy_calls, wpc_ret, wpc_bind, wpc_bind, wpc_call. intros [st r'] _.
  apply wpc_ret, wpc_bind, sp_destroy_calls, wpc_ret. right. exists d, (st0, r0).
  split; [done|]. simpl. by rewrite Z.eqb_refl.
Qed.
End dispatch.

(** ** A concrete environment

    The sample service and interceptor of Registry.v, the service appending
    [T32 42] to its reply. *)
Module Dispatch.
Import Sample.

Lemma reg_intercepts : intercepts owner reg service interceptor.
Proof.
  intros [p r] Hok Hp. unfold wp_ok, owner in Hok. simpl in Hok, Hp. subst p.
  destruct (r =? 7) eqn:Hr; [|by destruct (r =? 9)]. apply Z.eqb_eq in Hr as ->.
  eexists. split; [by vm_compute|done].
Qed.

(** [post = None]: the interceptor fails its second call. *)
Definition answer (pre : action) (post : option action) (X : Type) (e : binderE P X) (s : unit)
  : X * unit :=
  (match e in binderE _ X return X with
   | RefCall r => ref_answer r
   | LocalBinder o => o
   | Transact o code _ reply _ =>
       if o =? interceptor then
         if code =? kPreTransact then (OK, Some (message (encode_action (P := P) pre)))
         else match post with
              | Some a => (OK, Some (message (encode_action (P := P) a)))
              | None => (DEAD_OBJECT, None)
              end
       else (OK, (fun r => (p_writeInt32 r 42).2) <$> reply)
   | GetCallingUid => 10123
   | GetCallingPid => 777
   | Allocate _ => true
   end, s).

(** The run of the stub on one transaction. *)
Definition dispatch (pre : action) (post : option action) :=
  run (answer pre post) (stub_dispatch 64 1 reg key 3 request (Some reply) 16) tt.

(** The statuses and replies the caller gets. *)
Example dispatch_skip :
  (dispatch Skip None).1.1 = Done (OK, Some (written [T32 42])).
Proof. by vm_compute. Qed.

Example dispatch_override :
  (dispatch (OverrideData [T32 1]) (Some (OverrideReply 4 [T64 6]))).1.1 =
    Done (4, Some (written [T64 6])).
Proof. by vm_compute. Qed.

Example dispatch_twice :
  (dispatch Continue None).1.1 = Done (OK, Some (written [T32 42; T32 42])).
Proof. by vm_compute. Qed.
End Dispatch.

(** The environment predicates on the trace of a concrete run. *)
Ltac sample_trace :=
  match goal with |- Forall _ ?l => let l' := eval vm_compute in l in change l with l' end;
  repeat (apply Forall_cons; split); try apply Forall_nil_2;
  repeat split; simpl; intros; simplify_eq/=; try done;
  try (eexists; split; [reflexivity|by repeat split]).

Lemma stub_dispatch_protocol_witness :
  exists st r, (Dispatch.dispatch (OverrideData [T32 1]) (Some (OverrideReply 4 [T64 6]))).1.1 =
      Done (st, r) /\
    contract Sample.interceptor Sample.service (fun _ => OverrideData [T32 1])
      (fun _ => OverrideReply 4 [T64 6])
      3 16 10123 777 Sample.request (Some Sample.reply) st r
      ((Dispatch.dispatch (OverrideData [T32 1]) (Some (OverrideReply 4 [T64 6]))).2 ≫= transacts).
Proof.
  set (pre := OverrideData [T32 1]). set (post := OverrideReply 4 [T64 6]).
  destruct (wpc_run (dispatch_env 64 Sample.owner Sample.interceptor Sample.service (fun _ => pre) (fun _ => post) 10123 777)
    transacts _ _ (Dispatch.answer pre (Some post)) tt
    (stub_dispatch_protocol 64 Sample.owner 1 Sample.reg Sample.key 3 16 10123 777 Sample.request
       (Some Sample.reply) Sample.interceptor (fun _ => pre) (fun _ => post)
       ltac:(done) ltac:(done) ltac:(done) Dispatch.reg_intercepts
       ltac:(by vm_compute) ltac:(by vm_compute) ltac:(by intros ? [= <-])))
    as ([st r] & Hrun & Hlog).
  - by sample_trace.
  - exists st, r. split; [exact Hrun|].
    destruct Hlog as [(-> & _)|Hlog]; [by vm_compute in Hrun|exact Hlog].
Defined.

Lemma stub_dispatch_post_failure_witness :
  exists st r, (Dispatch.dispatch Continue None).1.1 = Done (st, r) /\
    ((st = DEAD_OBJECT /\ r = Some Sample.reply /\
      (Dispatch.dispatch Continue None).2 ≫= calls_of Sample.service = []) \/
     exists d first, contents d = contents Sample.request /\
       (Dispatch.dispatch Continue None).2 ≫= calls_of Sample.service =
         [TargetCall 3 d (Some Sample.reply) 16 first;
          TargetCall 3 Sample.request first.2 16 (st, r)]).
Proof.
  destruct (wpc_run (post_failure_env Sample.owner Sample.interceptor)
    (calls_of Sample.service) _ _ (Dispatch.answer Continue None) tt
    (stub_dispatch_post_failure 64 Sample.owner 1 Sample.reg Sample.key 3 16 Sample.request
       (Some Sample.reply) Sample.interceptor
       ltac:(done) ltac:(done) ltac:(done) Dispatch.reg_intercepts))
    as ([st r] & Hrun & Hlog).
  - by sample_trace.
  - by exists st, r.
Defined.

(** ** The thread's queue *)

Section queue.
Context {P : Type} `{!ParcelOps P} `{!ParcelLaws P} `{!ParcelTotal P}.
Variable W : Z.

(** An entry with which the hook records a backdoor call. *)
Definition backdoor_entry (i : ThreadTransactionInfo) : Prop :=
  transaction_code i = kBackdoorCode /\ m_ptr (target_binder i) = 0.

(** No key an implementation can form for [target] is in the registry. *)
Definition unregistered (owner : Z -> Z) (reg : registry) (target : Z) : Prop :=
  forall k, wp_ok owner k -> m_ptr k = target -> lookup_target k reg = None.

(** Whether the object of block [refs] is still alive. *)
Definition alive_env (refs : Z) (alive : bool) (ev : event (binderE P)) : Prop :=
  match ev with
  | Event e x =>
      match e in binderE _ X return X -> Prop with
      | RefCall r =>
          match r in refE X return X -> Prop with
          | AttemptIncStrong refs' => fun ok => refs' = refs -> ok = alive
          | _ => fun _ => True
          end
      | _ => fun _ => True
      end x
  end.

Variables (owner : Z -> Z) (interceptor : Z) (pre post : policy) (uid pid : Z).

(** The environment of the transaction that entry [i] stands for. *)
Definition entry_env (i : ThreadTransactionInfo) (alive : bool) (ev : event (binderE P)) : Prop :=
  dispatch_env W owner interceptor (m_ptr (target_binder i)) pre post uid pid ev /\
  alive_env (m_refs (target_binder i)) alive ev.

(** What the transaction of entry [i] ends in: *)
Definition entry_outcome (g : Z) (i : ThreadTransactionInfo) (registered alive : bool)
    (data : P) (reply : option P) (flags st : Z) (r : option P) (log : list (Z * target_call P))
  : Prop :=
  let target := m_ptr (target_binder i) in
  let code := transaction_code i in
  (* a backdoor call: the interceptor is written, nothing runs *)
  (backdoor_entry i -> is_Some reply ->
     st = OK /\ log = [] /\
     reply_contents r = (fun ts => ts ++ [TBinder g]) <$> reply_contents reply) /\
  (~ (backdoor_entry i /\ is_Some reply) ->
     (* a target that is gone *)
     (target = 0 \/ alive = false -> st = DEAD_OBJECT /\ r = reply /\ log = []) /\
     (target <> 0 -> alive = true ->
        if registered
        (* it is offered to its interceptor *)
        then contract interceptor target pre post code flags uid pid data reply st r log
        (* nobody intercepts it: it runs, once, on the transaction as it came *)
        else log = [(target, TargetCall code data reply flags (st, r))])).

(** [target] is registered, for [interceptor], or it is not registered. *)
Definition registration (reg : registry) (registered : bool) (target : Z) : Prop :=
  if registered then intercepts owner reg target interceptor else unregistered owner reg target.

Lemma wp_promote_alive i (alive : bool) (Q : Z -> list (Z * target_call P) -> Prop) :
  m_ptr (target_binder i) <> 0 ->
  Q (if alive then m_ptr (target_binder i) else 0) [] ->
  wpc (entry_env i alive) transacts (wp_promote (target_binder i)) Q.
Proof.
  intros Hw HQ. unfold wp_promote. destruct (Z.eqb_spec (m_ptr (target_binder i)) 0); [done|].
  apply wpc_bind, wpc_trigger. intros ok [_ Hok]. apply wpc_ret. rewrite quiet_ref.
  by rewrite (Hok eq_refl).
Qed.

Lemma stub_dispatch_gone g reg i data reply flags alive :
  m_ptr (target_binder i) = 0 \/ alive = false ->
  wpc (entry_env i alive) transacts
    (stub_dispatch W g reg (target_binder i) (transaction_code i) data reply flags)
    (fun x log => x.1 = DEAD_OBJECT /\ x.2 = reply /\ log = []).
Proof.
  intros H. unfold stub_dispatch. apply wpc_bind.
  destruct (decide (m_ptr (target_binder i) = 0)) as [Hw|Hw].
  - unfold wp_promote. rewrite Hw. by apply wpc_ret, wpc_ret.
  - destruct H as [?| ->]; [done|]. apply wp_promote_alive; [done|]. by apply wpc_ret.
Qed.

Lemma stub_dispatch_unregistered g reg i data reply flags :
  g <> 0 -> m_ptr (target_binder i) <> 0 -> unregistered owner reg (m_ptr (target_binder i)) ->
  wpc (entry_env i true) transacts
    (stub_dispatch W g reg (target_binder i) (transaction_code i) data reply flags)
    (fun x log => log = [(m_ptr (target_binder i),
                          TargetCall (transaction_code i) data reply flags x)]).
Proof.
  intros Hg Hw Hreg. unfold stub_dispatch. apply wpc_bind, wp_promote_alive; [done|].
  destruct (Z.eqb_spec (m_ptr (target_binder i)) 0); [done|]. destruct (Z.eqb_spec g 0); [done|].
  apply wpc_bind, by_value_calls. unfold handleInterceptedTransaction.
  eapply wpc_env; [intros ev [Hev _]; exact Hev|].
  apply wpc_bind, wp_of_sp_key; [done|]. intros key Hok Hkey. apply wpc_bind, wp_destroy_calls.
  rewrite (Hreg key Hok Hkey). apply wpc_ret, wpc_bind. cbn [h_value h_reply].
  apply wpc_bind, wpc_call. intros [st r] _. by apply wpc_ret, wpc_bind, sp_destroy_calls, wpc_ret.
Qed.

(** The second half of the stub on an entry that is not a backdoor call. *)
Lemma stub_dispatch_outcome g reg i registered alive data reply flags :
  g <> 0 -> interceptor <> 0 -> interceptor <> m_ptr (target_binder i) ->
  registration reg registered (m_ptr (target_binder i)) ->
  (forall m, action_ok (P := P) W (pre m)) -> (forall m, action_ok (P := P) W (post m)) ->
  (forall r, reply = Some r -> unread r = []) ->
  ~ (backdoor_entry i /\ is_Some reply) ->
  wpc (entry_env i alive) transacts
    (stub_dispatch W g reg (target_binder i) (transaction_code i) data reply flags)
    (fun x log => entry_outcome g i registered alive data reply flags x.1 x.2 log).
Proof.
  intros Hg Hi Hne Hreg Hpre Hpost Hrep Hb. unfold entry_outcome.
  destruct (decide (m_ptr (target_binder i) = 0 \/ alive = false)) as [Hd|Hd].
  { eapply wpc_mono; [by apply stub_dispatch_gone|]. intros [st r] log H. simpl in *.
    split; [naive_solver|]. intros _. split; [done|]. intros ? ->. by destruct Hd. }
  assert (m_ptr (target_binder i) <> 0 /\ alive = true) as [Hw ->] by (destruct alive; naive_solver).
  destruct registered.
  - eapply wpc_mono; [apply (stub_dispatch_contract W owner _ False _ _ _ _ _ uid pid _ _
      interceptor pre post); try done|].
    + by intros ev [? _].
    + intros Q _ HQ. by apply wp_promote_alive.
    + intros [st r] log [[[] _]|Hc]. split; [naive_solver|]. intros _. by split.
  - eapply wpc_mono; [by apply stub_dispatch_unregistered|]. intros [st r] log H.
    split; [naive_solver|]. intros _. by split.
Qed.

Definition queue_env (queue : list ThreadTransactionInfo) (alive : bool)
    (ev : event (binderE P)) : Prop :=
  match queue with [] => True | i :: _ => entry_env i alive ev end.

(** C22: each redirected transaction consumes the queue's oldest entry and nothing
    else of the queue.  Without one the stub refuses.  A backdoor entry makes it write
    the interceptor into the reply and run nothing.  For any other entry, if the target
    is gone the caller gets [DEAD_OBJECT] and nothing runs; if the target is not
    registered it runs exactly once, with the entry's code and the transaction as it
    came, and its answer is the caller's; if it is registered the exchange with the
    interceptor is that of the contract, with the entry's target and code. *)
Theorem stub_onTransact_queue (g : Z) (reg : registry) (queue : list ThreadTransactionInfo)
    (registered alive : bool) (data : P) (reply : option P) (flags : Z) :
  g <> 0 -> interceptor <> 0 ->
  (forall m, action_ok (P := P) W (pre m)) -> (forall m, action_ok (P := P) W (post m)) ->
  (forall r, reply = Some r -> unread r = []) ->
  (forall i, head queue = Some i -> interceptor <> m_ptr (target_binder i) /\
     registration reg registered (m_ptr (target_binder i))) ->
  wpc (queue_env queue alive) transacts (stub_onTransact W g reg queue data reply flags)
      (fun '(st, r, queue') log =>
         queue' = tail queue /\
         match queue with
         | [] => st = UNKNOWN_TRANSACTION /\ r = reply /\ log = []
         | i :: _ => entry_outcome g i registered alive data reply flags st r log
         end).
Proof.
  intros Hg Hi Hpre Hpost Hrep Hreg. destruct queue as [|i queue]; [by apply wpc_ret|].
  destruct (Hreg i eq_refl) as [Hne Hr]. cbn [stub_onTransact tail queue_env].
  apply wpc_bind, wp_copy_calls, wpc_bind, wp_destroy_calls, wpc_bind.
  apply (wpc_mono _ _ _
    (fun x log => entry_outcome g i registered alive data reply flags x.1 x.2 log)).
  - pose proof (stub_dispatch_outcome g reg i registered alive data reply flags
      Hg Hi Hne Hr Hpre Hpost Hrep) as Hdisp.
    destruct reply as [p|]; [|apply Hdisp; intros [_ [? ?]]; done].
    destruct ((m_ptr (target_binder i) =? 0) && (transaction_code i =? kBackdoorCode)) eqn:Hb.
    + apply wpc_bind, by_value_calls, wpc_ret.
      destruct (writeStrongBinder_ends p (consumed p) g) as (p' & -> & Hc & Hu);
        [by split; [|apply Hrep]|].
      apply andb_true_iff in Hb as [Hm%Z.eqb_eq Hk%Z.eqb_eq].
      apply wpc_ret. split; [|intros Hn; destruct Hn; split; [done|by eexists]].
      intros _ _. split_and!; [done..|]. simpl. f_equal.
      unfold contents. by rewrite Hc, Hu, (Hrep p eq_refl), !app_nil_r.
    + apply Hdisp. intros [[Hc Hm] _]. by rewrite Hc, Hm in Hb.
  - intros [st r] log Hout. apply wpc_bind, wp_destroy_calls, wpc_ret.
    rewrite !app_nil_r. by split.
Qed.
End queue.

(** A backdoor call, then a transaction of the sample service, which is registered. *)
Lemma stub_onTransact_queue_witness :
  let queue := [{| transaction_code := kBackdoorCode; target_binder := wp_null |};
                {| transaction_code := 3; target_binder := Sample.key |}] in
  wpc (queue_env 64 Sample.owner Sample.interceptor (fun _ => Skip) (fun _ => Skip) 0 0 queue true)
      transacts
      (stub_onTransact 64 33 Sample.reg queue Sample.request (Some Sample.reply) 16)
      (fun '(st, r, queue') log =>
         queue' = [{| transaction_code := 3; target_binder := Sample.key |}] /\
         st = OK /\ log = [] /\ reply_contents r = Some [TBinder 33]) /\
  exists st r, (Dispatch.dispatch Skip None).1.1 = Done (st, r) /\
    wpc (queue_env 64 Sample.owner Sample.interceptor (fun _ => Skip) (fun _ => Skip) 0 0
           (tail queue) true) transacts
      (stub_onTransact 64 1 Sample.reg (tail queue) Sample.request (Some Sample.reply) 16)
      (fun '(st, r, queue') log => queue' = [] /\ exists offer,
         log = [offer; (Sample.service, TargetCall 3 Sample.request (Some Sample.reply) 16 (st, r))]).
Proof.
  intros queue. split.
  - eapply wpc_mono; [apply (stub_onTransact_queue 64 Sample.owner Sample.interceptor
      (fun _ => Skip) (fun _ => Skip) 0 0 33 Sample.reg queue false true Sample.request
      (Some Sample.reply) 16); try done; [by intros ? [= <-]|]|].
    + intros i [= <-]. split; [done|]. intros [k r] Hk Hm. simpl in Hm. subst k.
      unfold wp_ok in Hk. simpl in Hk. by vm_compute.
    + intros [[st r] queue'] log [Hq [Hb _]]. split; [exact Hq|].
      apply Hb; [done|by eexists].
  - eexists _, _. split; [by vm_compute|].
    eapply wpc_mono; [apply (stub_onTransact_queue 64 Sample.owner Sample.interceptor
      (fun _ => Skip) (fun _ => Skip) 0 0 1 Sample.reg (tail queue) true true Sample.request
      (Some Sample.reply) 16); try done; [by intros ? [= <-]|]|].
    + intros i [= <-]. split; [done|]. apply Dispatch.reg_intercepts.
    + intros [[st r] queue'] log [Hq [_ Hn]]. split; [exact Hq|].
      destruct Hn as [_ Hc]; [by intros [[? _] _]|].
      destruct Hc as (offer & log' & -> & _ & ->); [done..|]. by exists offer.
Defined.
