(* ===== verification/Peer.v ===== *)
(** * The other end of the protocol (interceptors/BinderInterceptor.kt)

    The interceptor the native library calls is a Java [Binder] in the module's own
    process: it decodes the two calls, runs its hooks and encodes their results; and it is
    the client that asks for the backdoor and registers interceptors.  A [Parcel] of Java is
    a native parcel behind JNI: its readers give a default where the native ones fail, and
    its other operations throw.  The theorems connect this side to the native one. *)

From S2P Require Import Prelude Prog RefBase Parcel Registry Interceptor Protocol.
Local Open Scope Z_scope.

(** ** Parcels of Java *)

Class JavaParcel (P : Type) := {
  p_setDataPosition : P -> Z -> P;
  p_setDataSize : P -> Z -> P
}.

(** The position moves to any place between two values; size 0 leaves nothing. *)
Class JavaLaws (P : Type) `{!ParcelOps P} `{!ParcelLaws P} `{!JavaParcel P} := {
  setDataPosition_ok (p : P) a b :
    contents p = a ++ b ->
    consumed (p_setDataPosition p (toks_size binder_size a)) = a /\
    unread (p_setDataPosition p (toks_size binder_size a)) = b;
  setDataSize_0 (p : P) :
    consumed (p_setDataSize p 0) = [] /\ unread (p_setDataSize p 0) = []
}.

#[export] Instance tok_java : JavaParcel TokParcel.t := {|
  p_setDataPosition p n :=
    match TokParcel.cut n (TokParcel.t_done p ++ TokParcel.t_rest p) with
    | Some (a, b) => TokParcel.Make a b
    | None => p
    end;
  p_setDataSize p n :=
    match TokParcel.cut n (TokParcel.t_done p ++ TokParcel.t_rest p) with
    | Some (a, _) => TokParcel.Make a []
    | None => p
    end
|}.

#[export] Instance tok_java_laws : JavaLaws TokParcel.t.
Proof.
  split; simpl.
  - intros p a b Hc.
    change (contents p) with (TokParcel.t_done p ++ TokParcel.t_rest p) in Hc.
    by rewrite Hc, TokParcel.cut_app.
  - intros p. pose proof (TokParcel.cut_app [] (TokParcel.t_done p ++ TokParcel.t_rest p)) as Hc.
    simpl in Hc. unfold toks_size in Hc. simpl in Hc. by rewrite Hc.
Qed.

Module Kt.

(** [sealed class Result] *)
Inductive Result (P : Type) :=
| Skip
| Continue
| OverrideReply (code : Z) (reply : P).
Arguments Skip {P}.
Arguments Continue {P}.
Arguments OverrideReply {P} code reply.

Definition BACKDOOR_TRANSACTION_CODE : Z := sext 32 0xdeadbeef.
Definition REGISTER_INTERCEPTOR_CODE : Z := 1.
Definition PRE_TRANSACT_CODE : Z := 1.
Definition POST_TRANSACT_CODE : Z := 2.
Definition RESULT_SKIP : Z := 1.
Definition RESULT_CONTINUE : Z := 2.
Definition RESULT_OVERRIDE_REPLY : Z := 3.

(** What a subclass overrides; [None] is a [Throwable].  [super_onTransact] is
    [Binder.onTransact]. *)
Record Interceptor (P : Type) := {
  interceptedCodes : list Z;
  onPreTransact : Z -> Z -> Z -> Z -> Z -> P -> option (Result P);
  onPostTransact : Z -> Z -> Z -> Z -> Z -> P -> option P -> Z -> option (Result P);
  super_onTransact : Z -> P -> option P -> Z -> bool * option P
}.
Arguments interceptedCodes {P}.
Arguments onPreTransact {P}.
Arguments onPostTransact {P}.
Arguments super_onTransact {P}.

Section peer.
Context {P : Type} `{!ParcelOps P} `{!JavaParcel P}.

(** [Parcel.readStrongBinder], [readInt] and [readLong] *)
Definition readStrongBinder (p : P) : Z * P :=
  let '((st, b), p) := p_readStrongBinder p in (if st =? OK then b else 0, p).
Definition readInt (p : P) : Z * P := p_readInt32_value p.
Definition readLong (p : P) : Z * P := let '(v, p) := p_readUint64_value p in (sext 64 v, p).

(** A write that throws leaves the parcel as the native call left it. *)
Definition and_write (r : Z * P) (k : P -> P * bool) : P * bool :=
  if r.1 =? OK then k r.2 else (r.2, false).

(** Passing a null [IBinder] to a hook throws. *)
Definition handlePreTransact (self : Interceptor P) (data : P) : Result P :=
  let '(target, data) := readStrongBinder data in
  let '(transactionCode, data) := readInt data in
  let '(transactionFlags, data) := readInt data in
  let '(callingUid, data) := readInt data in
  let '(callingPid, data) := readInt data in
  let '(dataSize, data) := readLong data in
  let '(st, transactionData) := p_appendFrom p_new data (p_dataPosition data) (sext 32 dataSize) in
  if negb (st =? OK) then Skip
  else
    let transactionData := p_setDataPosition transactionData 0 in
    if target =? 0 then Skip
    else default Skip
      (onPreTransact self target transactionCode transactionFlags callingUid callingPid
         transactionData).

Definition handlePostTransact (self : Interceptor P) (data : P) : Result P :=
  let '(target, data) := readStrongBinder data in
  let '(transactionCode, data) := readInt data in
  let '(transactionFlags, data) := readInt data in
  let '(callingUid, data) := readInt data in
  let '(callingPid, data) := readInt data in
  let '(resultCode, data) := readInt data in
  let '(dataSize, data) := readLong data in
  let dataSize := sext 32 dataSize in
  let '(st, transactionData) := p_appendFrom p_new data (p_dataPosition data) dataSize in
  if negb (st =? OK) then Skip
  else
    let transactionData := p_setDataPosition transactionData 0 in
    let data := p_setDataPosition data (p_dataPosition data + dataSize) in
    let '(replySize, data) := readLong data in
    let replySize := sext 32 replySize in
    let call reply :=
      if target =? 0 then Skip
      else default Skip
        (onPostTransact self target transactionCode transactionFlags callingUid callingPid
           transactionData reply resultCode) in
    if 0 <? replySize then
      let '(st, transactionReply) := p_appendFrom p_new data (p_dataPosition data) replySize in
      if negb (st =? OK) then Skip
      else call (Some (p_setDataPosition transactionReply 0))
    else call None.

(** the [catch] blocks: the reply becomes "skip" *)
Definition reset_reply (reply : P) : P :=
  (p_writeInt32 (p_setDataSize (p_setDataPosition reply 0) 0) RESULT_SKIP).2.

(** the [try] block of [writeResultToReply]: the reply, and whether nothing was thrown *)
Definition write_result (result : Result P) (reply : P) : P * bool :=
  match result with
  | Skip => and_write (p_writeInt32 reply RESULT_SKIP) (fun p => (p, true))
  | Continue => and_write (p_writeInt32 reply RESULT_CONTINUE) (fun p => (p, true))
  | OverrideReply code r =>
      and_write (p_writeInt32 reply RESULT_OVERRIDE_REPLY) (fun reply =>
      and_write (p_writeInt32 reply code) (fun reply =>
      and_write (p_writeUint64 reply (p_dataSize r)) (fun reply =>
      and_write (p_appendFrom reply r 0 (p_dataSize r)) (fun reply => (reply, true)))))
  end.

Definition writeResultToReply (result : Result P) (reply : P) : P :=
  let '(p, ok) := write_result result reply in if ok then p else reset_reply p.

(** Without a reply parcel [reply!!] throws, and the [catch] has nothing to write to. *)
Definition onTransact (self : Interceptor P) (code : Z) (data : P) (reply : option P)
    (flags : Z) : bool * option P :=
  let respond result := (true, writeResultToReply result <$> reply) in
  if code =? PRE_TRANSACT_CODE then respond (handlePreTransact self data)
  else if code =? POST_TRANSACT_CODE then respond (handlePostTransact self data)
  else super_onTransact self code data reply flags.

(** [Parcel.writeIntArray] *)
Fixpoint write_ints (p : P) (codes : list Z) : P * bool :=
  match codes with
  | [] => (p, true)
  | c :: codes => and_write (p_writeInt32 p c) (fun p => write_ints p codes)
  end.

Definition writeIntArray (p : P) (codes : list Z) : P * bool :=
  and_write (p_writeInt32 p (Z.of_nat (length codes))) (fun p => write_ints p codes).

(** The data of [registerBinderInterceptor]; [false] when a write throws and nothing is
    sent. *)
Definition registration_data (target interceptor : Z) (self : Interceptor P) : P * bool :=
  and_write (p_writeStrongBinder p_new target) (fun data =>
  and_write (p_writeStrongBinder data interceptor) (fun data =>
  writeIntArray data (interceptedCodes self))).

(** A remote [transact] sends the data from its start, and the reply it fills is read from
    its start. *)
Definition registerBinderInterceptor (backdoor target interceptor : Z) (self : Interceptor P)
  : prog (binderE P) unit :=
  let '(data, ok) := registration_data target interceptor self in
  when ok (_ ← call (Transact backdoor REGISTER_INTERCEPTOR_CODE data (Some p_new) 0); mret tt).

(** [getBinderBackdoor]: 0 is [null]; a status that is not [OK] throws or answers
    [false]. *)
Definition getBinderBackdoor (binder : Z) : prog (binderE P) Z :=
  '(st, reply) ← call (Transact binder (wrap 32 BACKDOOR_TRANSACTION_CODE) p_new (Some p_new) 0);
  match reply with
  | Some reply => mret (if st =? OK then (readStrongBinder (p_rewind reply)).1 else 0)
  | None => mret 0
  end.
End peer.
End Kt.

(** ** What the hooks see *)

Section decode.
Context {P : Type} `{!ParcelOps P} `{!ParcelLaws P} `{!JavaParcel P} `{!JavaLaws P} `{!ParcelTotal P}.
Abbreviation size := (toks_size (binder_size (P := P))).

(** [int] of a [size_t]: sizes a Java parcel can have *)
Definition java_size (ts : list tok) : Prop := size ts < 2 ^ 31.

Lemma sext_wrap w z : 0 <= w -> sext w (wrap w z) = sext w z.
Proof. intros. unfold sext. by rewrite wrap_wrap. Qed.

Lemma sext_small w z : 0 < w -> 0 <= z < 2 ^ (w - 1) -> sext w z = z.
Proof.
  intros Hw Hz. assert (Hp : 2 ^ w = 2 * 2 ^ (w - 1)).
  { rewrite <-Z.pow_succ_r by lia. f_equal. lia. }
  unfold sext. rewrite wrap_small by (unfold in_word; lia).
  destruct (Z.ltb_spec z (2 ^ (w - 1))); [done|lia].
Qed.

(** The two conversions a length goes through on its way. *)
Lemma java_length ts : java_size ts -> sext 32 (sext 64 (wrap 64 (wrap 64 (size ts)))) = size ts.
Proof.
  intros Hs. pose proof (toks_size_nonneg (P := P) ts). unfold java_size in Hs.
  rewrite !sext_wrap, (sext_small 64), sext_small; lia.
Qed.

Definition starts (p : P) (ts : list tok) : Prop := consumed p = [] /\ unread p = ts.

Lemma starts_rewind (p : P) : starts (p_setDataPosition p 0) (contents p).
Proof. apply (setDataPosition_ok p [] (contents p)). done. Qed.

Lemma readStrongBinder_java p b r :
  unread p = TBinder b :: r -> b <> 0 ->
  exists p', Kt.readStrongBinder p = (b, p') /\
    consumed p' = consumed p ++ [TBinder b] /\ unread p' = r.
Proof.
  intros Hu Hb. destruct (readStrongBinder_ok _ _ _ Hu Hb) as (p' & Hp & Hc).
  unfold Kt.readStrongBinder. rewrite Hp. eauto.
Qed.

Lemma readInt_java p w r :
  unread p = T32 w :: r ->
  exists p', Kt.readInt p = (sext 32 w, p') /\
    consumed p' = consumed p ++ [T32 w] /\ unread p' = r.
Proof. intros Hu. destruct (readInt32_ok _ _ _ Hu) as (p' & _ & Hp & Hc). eauto. Qed.

Lemma readLong_java p w r :
  unread p = T64 w :: r ->
  exists p', Kt.readLong p = (sext 64 (wrap 64 w), p') /\
    consumed p' = consumed p ++ [T64 w] /\ unread p' = r.
Proof.
  intros Hu. destruct (readUint64_ok _ _ _ Hu) as (p' & Hp & Hc).
  unfold Kt.readLong. rewrite Hp. eauto.
Qed.

(** The next [ts] of a parcel, copied into a new one and rewound. *)
Lemma append_next (p : P) ts r :
  unread p = ts ++ r ->
  exists q, p_appendFrom p_new p (p_dataPosition p) (size ts) = (OK, q) /\
            starts (p_setDataPosition q 0) ts.
Proof.
  intros Hu. rewrite dataPosition_consumed.
  destruct (appendFrom_ends p_new [] p (consumed p) ts r ends_new) as (q & Hq & Hc & Hn);
    [by rewrite <-Hu|].
  exists q. split; [done|]. pose proof (starts_rewind q) as Hs. unfold contents in Hs.
  by rewrite Hc, Hn, app_nil_r in Hs.
Qed.

Ltac next H := let p := fresh "p" in let E := fresh "E" in let Hc := fresh "Hc" in
  destruct H as (p & E & Hc & ?Hu); rewrite E; clear E.

(** The pre-transaction hook runs on what the native library sent: the target, code,
    flags, caller and pid of the transaction, and a parcel, at its start, with the contents
    of the request; what the hook throws counts as "skip". *)
Lemma handlePreTransact_decodes (self : Kt.Interceptor P) (data : P)
    (target code flags uid pid : Z) (request rest : list tok) :
  target <> 0 -> java_size request ->
  unread data = pre_call (P := P) target code flags uid pid request ++ rest ->
  exists p, starts p request /\
    Kt.handlePreTransact self data =
      default Kt.Skip (Kt.onPreTransact self target (sext 32 code) (sext 32 flags)
                         (sext 32 uid) (sext 32 pid) p).
Proof.
  intros Ht Hs Hu. unfold pre_call in Hu. simpl in Hu. unfold Kt.handlePreTransact.
  next (readStrongBinder_java _ _ _ Hu Ht). next (readInt_java _ _ _ Hu0).
  next (readInt_java _ _ _ Hu1). next (readInt_java _ _ _ Hu2). next (readInt_java _ _ _ Hu3).
  next (readLong_java _ _ _ Hu4). rewrite java_length, !sext_wrap by (done || lia).
  destruct (append_next _ request rest Hu5) as (q & -> & Hq). cbn [OK negb Z.eqb].
  destruct (Z.eqb_spec target 0); [done|]. eauto.
Qed.

(** The parcel of the reply, if there is one that is not empty. *)
Definition reply_starts (r : option P) (reply : option (list tok)) : Prop :=
  match r with
  | Some p => exists ts, reply = Some ts /\ starts p ts /\ ts <> []
  | None => reply = None \/ reply = Some []
  end.

Lemma post_reply_default (reply : option (list tok)) :
  post_reply (P := P) reply =
    T64 (wrap 64 (size (default [] reply))) :: default [] reply.
Proof. by destruct reply. Qed.

(** The post-transaction hook runs on the same and on what the target answered: its
    status and a parcel with the contents of its reply; a reply that is missing or empty is
    [null] for the hook. *)
Lemma handlePostTransact_decodes (self : Kt.Interceptor P) (data : P)
    (target code flags uid pid result : Z) (request : list tok) (reply : option (list tok)) :
  target <> 0 -> java_size request -> java_size (default [] reply) ->
  unread data = post_call (P := P) target code flags uid pid result request ++
                post_reply (P := P) reply ->
  exists p r, starts p request /\ reply_starts r reply /\
    Kt.handlePostTransact self data =
      default Kt.Skip (Kt.onPostTransact self target (sext 32 code) (sext 32 flags)
                         (sext 32 uid) (sext 32 pid) p r (sext 32 result)).
Proof.
  intros Ht Hs Hr Hu. unfold post_call in Hu. rewrite <-app_assoc in Hu. simpl in Hu.
  unfold Kt.handlePostTransact.
  next (readStrongBinder_java _ _ _ Hu Ht). next (readInt_java _ _ _ Hu0).
  next (readInt_java _ _ _ Hu1). next (readInt_java _ _ _ Hu2). next (readInt_java _ _ _ Hu3).
  next (readInt_java _ _ _ Hu4). next (readLong_java _ _ _ Hu5).
  rewrite java_length, !sext_wrap by (done || lia).
  destruct (append_next _ request _ Hu6) as (q & -> & Hq). cbn [OK negb Z.eqb].
  rewrite dataPosition_consumed.
  replace (size (consumed p5) + size request) with (size (consumed p5 ++ request))
    by (unfold toks_size; by rewrite lsum_app).
  destruct (setDataPosition_ok p5 (consumed p5 ++ request) (post_reply (P := P) reply)) as [Hc6 Hu7].
  { unfold contents. by rewrite Hu6, app_assoc. }
  rewrite post_reply_default in Hu7. destruct (readLong_java _ _ _ Hu7) as (p6 & E & _ & Hu8).
  rewrite E. clear E. rewrite java_length by done.
  destruct (Z.eqb_spec target 0) as [|_]; [done|].
  destruct (Z.ltb_spec 0 (size (default [] reply))) as [Hpos|Hzero].
  - destruct (append_next p6 (default [] reply) []) as (q' & -> & Hq'); [by rewrite app_nil_r|].
    cbn [OK negb Z.eqb]. eexists _, (Some _). split; [exact Hq|]. split; [|done].
    exists (default [] reply). split_and!; [|exact Hq'|].
    + destruct reply; [done|]. simpl in Hpos. unfold toks_size in Hpos. simpl in Hpos. lia.
    + intros H. rewrite H in Hpos. unfold toks_size in Hpos. simpl in Hpos. lia.
  - apply toks_size_0 in Hzero. eexists _, None. split; [exact Hq|]. split; [|done].
    destruct reply as [r|]; [right|by left]. simpl in Hzero. by rewrite Hzero.
Qed.

(** ** What the hooks answer *)

Definition action_of (r : Kt.Result P) : action :=
  match r with
  | Kt.Skip => Skip
  | Kt.Continue => Continue
  | Kt.OverrideReply code reply => OverrideReply (wrap 32 code) (contents reply)
  end.

Definition result_ok (r : Kt.Result P) : Prop :=
  match r with Kt.OverrideReply _ reply => java_size (contents reply) | _ => True end.

(** The native library reads what the Kotlin side answered: into an empty reply it
    writes exactly the wire form of the hook's result. *)
Lemma writeResultToReply_encodes (r : Kt.Result P) :
  result_ok r -> ends (Kt.writeResultToReply r p_new) (encode_action (P := P) (action_of r)).
Proof.
  intros Hr. unfold Kt.writeResultToReply, Kt.write_result, Kt.and_write.
  assert (Hone : forall w a, wrap 32 w = a ->
    exists p', p_writeInt32 (P := P) p_new w = (OK, p') /\ ends p' [T32 a]).
  { intros w a <-. apply (writeInt32_ends p_new [] w ends_new). }
  destruct r as [| |code reply].
  - by destruct (Hone Kt.RESULT_SKIP kActionSkip eq_refl) as (p & -> & Hp).
  - by destruct (Hone Kt.RESULT_CONTINUE kActionContinue eq_refl) as (p & -> & Hp).
  - destruct (Hone Kt.RESULT_OVERRIDE_REPLY kActionOverrideReply eq_refl) as (p1 & -> & H1).
    simpl. destruct (writeInt32_ends p1 _ code H1) as (p2 & -> & H2). simpl.
    destruct (writeUint64_ends p2 _ (p_dataSize reply) H2) as (p3 & -> & H3). simpl.
    destruct (appendFrom_all p3 _ reply H3) as (p4 & -> & H4). simpl.
    rewrite dataSize_contents in H4. pose proof (toks_size_nonneg (P := P) (contents reply)).
    simpl in Hr. unfold java_size in Hr.
    rewrite (wrap_small 64) in H4 by (unfold in_word; lia). done.
Qed.
End decode.

(** ** Both sides together *)

Section together.
Context {P : Type} `{!ParcelOps P} `{!ParcelLaws P} `{!JavaParcel P} `{!JavaLaws P} `{!ParcelTotal P}.
Variables (W : Z) (owner : Z -> Z).
Hypothesis wide : 32 <= W.

(** The parcel the driver hands to the other process for what was sent. *)
Variable deliver : list tok -> P.
Hypothesis deliver_starts : forall ts, starts (deliver ts) ts.

Variable self : Kt.Interceptor P.

(** The hooks return replies a Java parcel can hold. *)
Definition hooks_ok : Prop :=
  (forall target code flags uid pid d r,
     Kt.onPreTransact self target code flags uid pid d = Some r -> result_ok r) /\
  (forall target code flags uid pid d reply st r,
     Kt.onPostTransact self target code flags uid pid d reply st = Some r -> result_ok r).

(** Object [interceptor] is [self] in the other process. *)
Definition peer_answers (interceptor : Z) (ev : event (binderE P)) : Prop :=
  match ev with
  | Event e x =>
      match e in binderE _ X return X -> Prop with
      | Transact o code data _ flags => fun ans =>
          o = interceptor -> code = kPreTransact \/ code = kPostTransact ->
          exists q, Kt.onTransact self code (deliver (contents data)) (Some p_new) flags
                      = (true, Some q) /\
                    ans = (OK, Some (deliver (contents q)))
      | _ => fun _ => True
      end x
  end.

(** The replies of the target fit in a Java parcel. *)
Definition peer_env (interceptor target uid pid : Z) (ev : event (binderE P)) : Prop :=
  registry_env owner ev /\ peer_answers interceptor ev /\ sized_replies 31 target ev /\
  calling_identity uid pid ev.

(** What the interceptor answers to a message. *)
Definition pre_policy : policy := fun message =>
  action_of (Kt.handlePreTransact self (deliver message)).

Definition post_policy : policy := fun message =>
  action_of (Kt.handlePostTransact self (deliver message)).

Hypothesis Hhooks : hooks_ok.

Lemma handlePre_ok data : result_ok (Kt.handlePreTransact self data).
Proof.
  unfold Kt.handlePreTransact. repeat case_match; try done.
  match goal with |- result_ok (default _ ?r) => destruct r eqn:Hr; [|done] end.
  by eapply (proj1 Hhooks).
Qed.

Lemma handlePost_ok data : result_ok (Kt.handlePostTransact self data).
Proof.
  unfold Kt.handlePostTransact. repeat case_match; try done;
  match goal with |- result_ok (default _ ?r) => destruct r eqn:Hr; [|done] end;
  by eapply (proj2 Hhooks).
Qed.

Lemma action_ok_result r : result_ok r -> action_ok (P := P) W (action_of r).
Proof.
  destruct r as [| |c q]; simpl; try done. unfold java_size, in_word. intros Hq.
  pose proof (toks_size_nonneg (P := P) (contents q)).
  pose proof (Z.pow_le_mono_r 2 32 W ltac:(lia) wide). lia.
Qed.

Lemma deliver_result r : result_ok r ->
  answers (deliver (contents (Kt.writeResultToReply r p_new))) (action_of r).
Proof.
  intros Hr. destruct (writeResultToReply_encodes r Hr) as [Hc Hu].
  destruct (deliver_starts (contents (Kt.writeResultToReply r p_new))) as [H1 H2].
  split; [done|]. rewrite H2. unfold contents. by rewrite Hc, Hu, app_nil_r.
Qed.

Lemma peer_env_dispatch interceptor target uid pid ev :
  peer_env interceptor target uid pid ev ->
  dispatch_env W owner interceptor target pre_policy post_policy uid pid ev.
Proof.
  intros (Hreg & Hans & Hsz & Hid). split; [done|]. split_and!; [| | |done].
  3:{ destruct ev as [X e x], e; try done. simpl in *. intros Ht r Hr.
      specialize (Hsz Ht r Hr). unfold in_word in *.
      pose proof (Z.pow_le_mono_r 2 31 W ltac:(lia) ltac:(lia)). lia. }
  - destruct ev as [X e x], e; try done. simpl in *. intros -> ->.
    destruct (Hans eq_refl (or_introl eq_refl)) as (q & Hq & ->).
    eexists. split; [done|]. unfold Kt.onTransact in Hq. simpl in Hq. simplify_eq.
    apply deliver_result, handlePre_ok.
  - destruct ev as [X e x], e; try done. simpl in *. intros -> ->.
    destruct (Hans eq_refl (or_intror eq_refl)) as (q & Hq & ->).
    eexists. split; [done|]. unfold Kt.onTransact in Hq. simpl in Hq. simplify_eq.
    apply deliver_result, handlePost_ok.
Qed.

(** The hooks around the target, as the caller of the transaction sees them. *)
Section around.
Variables (target code flags uid pid : Z) (request : P) (reply : option P).
Variables (st : Z) (r : option P).

Definition post_hook (ans : Z * option P) : Prop :=
  exists p r', starts p (contents request) /\ reply_starts r' (reply_contents ans.2) /\
    match default Kt.Skip (Kt.onPostTransact self target (sext 32 code) (sext 32 flags)
                             (sext 32 uid) (sext 32 pid) p r' (sext 32 ans.1)) with
    | Kt.OverrideReply c q =>
        st = sext 32 c /\ reply_contents r = (fun _ => contents q) <$> ans.2
    | _ => (st, r) = ans
    end.

Definition hooked (calls : list (target_call P)) : Prop :=
  exists p, starts p (contents request) /\
    match default Kt.Skip (Kt.onPreTransact self target (sext 32 code) (sext 32 flags)
                             (sext 32 uid) (sext 32 pid) p) with
    | Kt.Skip => calls = [TargetCall code request reply flags (st, r)]
    | Kt.OverrideReply c q =>
        calls = [] /\ st = sext 32 c /\
        reply_contents r = (fun p => contents p ++ contents q) <$> reply
    | Kt.Continue =>
        exists d ans, calls = [TargetCall code d reply flags ans] /\
          contents d = contents request /\ post_hook ans
    end.
End around.

(** The replies of the target in the log. *)
Definition java_reply (target : Z) (e : Z * target_call P) : Prop :=
  e.1 = target -> java_size (default [] (reply_contents (c_answer e.2).2)).

Lemma peer_env_replies interceptor target uid pid ev :
  peer_env interceptor target uid pid ev -> Forall (java_reply target) (transacts ev).
Proof.
  intros (_ & _ & Hsz & _). destruct ev as [X e x], e; try by constructor.
  simpl in *. constructor; [|done]. intros Ht. simpl in *. specialize (Hsz Ht).
  destruct x as [st [r|]]; simpl in *.
  - specialize (Hsz r eq_refl). rewrite dataSize_contents in Hsz. apply Hsz.
  - unfold java_size, toks_size. simpl. lia.
Qed.

Lemma post_sent_hook interceptor target code flags uid pid request ans st r e :
  target <> 0 -> java_size (contents request) ->
  java_size (default [] (reply_contents ans.2)) ->
  post_sent interceptor target code flags uid pid request ans e ->
  after_post post_policy (contents (c_data e.2)) ans st r ->
  post_hook target code flags uid pid request st r ans.
Proof.
  intros Ht Hreq Hans (_ & _ & _ & Hm). unfold after_post, post_policy.
  destruct (deliver_starts (contents (c_data e.2))) as [_ Hu]. rewrite Hm in Hu at 2.
  destruct (handlePostTransact_decodes self _ _ _ _ _ _ _ _ _ Ht Hreq Hans Hu)
    as (p & r' & Hp & Hr' & ->).
  intros Hpost. exists p, r'. split_and!; [done..|].
  destruct (default Kt.Skip _) as [| |c q]; simpl in Hpost; try done.
  unfold sext in *. by rewrite wrap_wrap in Hpost.
Qed.

(** A transaction of a registered target, hook by hook. *)
Lemma stub_dispatch_hooked (g : Z) (reg : registry) (w : wp_t) (code flags uid pid : Z)
    (request : P) (reply : option P) (interceptor : Z) :
  g <> 0 -> interceptor <> 0 -> m_ptr w <> 0 -> interceptor <> m_ptr w ->
  intercepts owner reg (m_ptr w) interceptor ->
  java_size (contents request) -> (forall r, reply = Some r -> unread r = []) ->
  wpc (peer_env interceptor (m_ptr w) uid pid) transacts
      (stub_dispatch W g reg w code request reply flags)
      (fun '(st, r) log =>
         (st = DEAD_OBJECT /\ r = reply /\ log = []) \/
         hooked (m_ptr w) code flags uid pid request reply st r (to_object (m_ptr w) log)).
Proof.
  intros Hg Hi Hw Hne Hreg Hreq Hrep.
  eapply wpc_mono.
  { apply (wpc_observed _ _ (java_reply (m_ptr w))); [apply peer_env_replies|].
    eapply wpc_env; [apply peer_env_dispatch|].
    apply (stub_dispatch_protocol W owner g reg w code flags uid pid request reply interceptor
             pre_policy post_policy); try done;
      intros m; apply action_ok_result; [apply handlePre_ok|apply handlePost_ok]. }
  intros [st r] log [Hc Hlog]. destruct Hc as [Hdead|Hc]; [by left|right].
  destruct Hc as (offer & log' & -> & Hoffer & Hc).
  destruct offer as [o offer]. destruct Hoffer as (Ho & _ & _ & Hm). simpl in Ho, Hm, Hc. subst o.
  unfold pre_policy in Hc. destruct (deliver_starts (contents (c_data offer))) as [_ Hu].
  rewrite Hm in Hu at 2. rewrite <-(app_nil_r (pre_call _ _ _ _ _ _)) in Hu.
  destruct (handlePreTransact_decodes self _ _ _ _ _ _ _ _ Hw Hreq Hu) as (p & Hp & Hpre).
  rewrite Hpre in Hc. exists p. split; [done|].
  unfold to_object. simpl. destruct (Z.eqb_spec interceptor (m_ptr w)); [done|].
  apply Forall_cons in Hlog as [_ Hlog].
  destruct (default Kt.Skip _) as [| |c q]; simpl in Hc.
  - subst log'. simpl. by rewrite Z.eqb_refl.
  - destruct Hc as (e2 & e3 & ans & -> & (H1 & H2 & Hd) & H3 & Hafter).
    destruct e2 as [o2 c2], e3 as [o3 c3]. simpl in H1, H2, Hd. subst o2.
    pose proof H3 as (Ho3 & _). simpl in Ho3. subst o3. simpl.
    rewrite Z.eqb_refl. destruct (Z.eqb_spec interceptor (m_ptr w)); [done|].
    exists (c_data c2), ans. split_and!; [by rewrite H2 at 1|done|].
    apply Forall_cons in Hlog as [Hans _]. specialize (Hans eq_refl). simpl in Hans.
    rewrite H2 in Hans. simpl in Hans. by eapply post_sent_hook.
  - destruct Hc as (-> & -> & ->). simpl. split_and!; [done| |done].
    unfold sext. by rewrite wrap_wrap.
Qed.

(** C3: the two halves together are the hooks around the target.  A transaction of a
    registered, living target goes through the pre hook, which is given the target, code,
    flags, caller and request as they are: "skip" runs the target once on the untouched
    transaction and the caller gets its answer; "override reply" answers with the code and
    the parcel of the hook and runs nothing; "continue" runs the target once on a copy of
    the request and then the post hook on its answer, which the caller gets unless the hook
    overrides it.  A hook that throws counts as "skip". *)
Theorem stub_runs_hooks (g : Z) (reg : registry) (w : wp_t) (code flags uid pid : Z)
    (request : P) (reply : option P) (interceptor : Z) :
  g <> 0 -> interceptor <> 0 -> m_ptr w <> 0 -> interceptor <> m_ptr w ->
  intercepts owner reg (m_ptr w) interceptor ->
  java_size (contents request) -> (forall r, reply = Some r -> unread r = []) ->
  wpc (peer_env interceptor (m_ptr w) uid pid) transacts
      (stub_dispatch W g reg w code request reply flags)
      (fun '(st, r) log =>
         (st = DEAD_OBJECT /\ r = reply /\ log = []) \/
         hooked (m_ptr w) code flags uid pid request reply st r (to_object (m_ptr w) log)).
Proof. apply stub_dispatch_hooked. Qed.
End together.

(** ** Registration *)

Section registration.
Context {P : Type} `{!ParcelOps P} `{!ParcelLaws P} `{!JavaParcel P} `{!ParcelTotal P}.

Lemma write_ints_ends (p : P) ts codes :
  ends p ts ->
  exists p', Kt.write_ints p codes = (p', true) /\
             ends p' (ts ++ map T32 (map (wrap 32) codes)).
Proof.
  revert p ts. induction codes as [|c codes IH]; intros p ts Hp; simpl.
  - exists p. by rewrite app_nil_r.
  - unfold Kt.and_write. destruct (writeInt32_ends p ts c Hp) as (p1 & -> & H1). simpl.
    destruct (IH _ _ H1) as (p2 & -> & H2). exists p2. by rewrite <-app_assoc in H2.
Qed.

Lemma registration_data_ends target interceptor (self : Kt.Interceptor P) :
  exists data, Kt.registration_data target interceptor self = (data, true) /\
    ends data (registration_message target interceptor
                 (wrap 32 (Z.of_nat (length (Kt.interceptedCodes self))))
                 (map (wrap 32) (Kt.interceptedCodes self))).
Proof.
  unfold Kt.registration_data, Kt.writeIntArray, Kt.and_write.
  destruct (writeStrongBinder_ends p_new [] target ends_new) as (p1 & -> & H1). simpl.
  destruct (writeStrongBinder_ends _ _ interceptor H1) as (p2 & -> & H2). simpl.
  destruct (writeInt32_ends _ _ (Z.of_nat (length (Kt.interceptedCodes self))) H2)
    as (p3 & -> & H3). simpl.
  apply (write_ints_ends _ _ _ H3).
Qed.

Variable owner : Z -> Z.
Variable deliver : list tok -> P.
Hypothesis deliver_starts : forall ts, starts (deliver ts) ts.

(** C15: registering from Kotlin registers: the native side, handed what
    [registerBinderInterceptor] sends, answers [OK] and maps the target to the interceptor
    with exactly the codes the subclass asks for. *)
Theorem registration_arrives (reg : registry) (target interceptor : Z)
    (self : Kt.Interceptor P) :
  registry_ok owner reg -> target <> 0 -> interceptor <> 0 ->
  Z.of_nat (length (Kt.interceptedCodes self)) < 2 ^ 31 ->
  let '(data, ok) := Kt.registration_data target interceptor self in
  ok = true /\
  wpv (registry_env owner) (handleRegisterInterceptor reg (deliver (contents data)))
    (fun '(st, reg') => st = OK /\ registry_ok owner reg' /\
       exists w, m_ptr w = target /\ wp_ok owner w /\
         registered w interceptor (map (wrap 32) (Kt.interceptedCodes self)) reg reg').
Proof.
  intros Hreg Ht Hi Hn.
  destruct (registration_data_ends target interceptor self) as (data & -> & Hc & Hu).
  split; [done|]. destruct (deliver_starts (contents data)) as [_ Hd].
  unfold contents in Hd at 2. rewrite Hc, Hu in Hd.
  eapply wpv_mono.
  { eapply (handleRegisterInterceptor_registers owner reg _ target interceptor _
             (map (wrap 32) (Kt.interceptedCodes self)) [] Hreg Ht Hi); [|exact Hd].
    rewrite length_map, sext_wrap, sext_small; lia. }
  intros [st reg'] (-> & Hok & w & Hw & Hwok & Hr). split_and!; try done. exists w.
  split_and!; try done. rewrite map_map in Hr.
  erewrite map_ext in Hr; [exact Hr|]. intros c. simpl. by rewrite wrap_wrap by lia.
Qed.
End registration.

(** ** A concrete peer

    The hooks let the transaction through and replace the reply of the service. *)
Module SamplePeer.
Import Sample.

Definition deliver (ts : list tok) : P := TokParcel.Make [] ts.

Definition self : Kt.Interceptor P := {|
  Kt.interceptedCodes := [3; -1];
  Kt.onPreTransact := fun target code flags uid pid data =>
    if uid =? 10123 then Some Kt.Continue else None;
  Kt.onPostTransact := fun target code flags uid pid data reply st =>
    Some (Kt.OverrideReply 4 (written [T64 6]));
  Kt.super_onTransact := fun code data reply flags => (false, reply)
|}.

Definition answer (uid : Z) (X : Type) (e : binderE P X) (s : unit) : X * unit :=
  (match e in binderE _ X return X with
   | RefCall r => ref_answer r
   | LocalBinder o => o
   | Transact o code data reply flags =>
       if o =? interceptor then
         (OK, (fun q => deliver (contents q)) <$>
                (Kt.onTransact self code (deliver (contents data)) (Some p_new) flags).2)
       else (OK, (fun r => (p_writeInt32 r 42).2) <$> reply)
   | GetCallingUid => uid
   | GetCallingPid => 777
   | Allocate _ => true
   end, s).

Definition dispatch (uid : Z) :=
  run (answer uid) (stub_dispatch 64 1 reg key 3 request (Some reply) 16) tt.

Example dispatch_hooked : (dispatch 10123).1.1 = Done (4, Some (written [T64 6])).
Proof. by vm_compute. Qed.

(** The pre hook throws for the other caller. *)
Example dispatch_thrown : (dispatch 10200).1.1 = Done (OK, Some (written [T32 42])).
Proof. by vm_compute. Qed.

Lemma self_ok : hooks_ok self.
Proof.
  split; simpl.
  - intros ? ? ? uid ? ? r. destruct (uid =? 10123); intros; by simplify_eq.
  - intros. by simplify_eq.
Qed.
End SamplePeer.

Lemma stub_runs_hooks_witness :
  exists st r, (SamplePeer.dispatch 10123).1.1 = Done (st, r) /\
    ((st = DEAD_OBJECT /\ r = Some Sample.reply /\
      (SamplePeer.dispatch 10123).2 ≫= transacts = []) \/
     hooked SamplePeer.self Sample.service 3 16 10123 777 Sample.request (Some Sample.reply) st r
       (to_object Sample.service ((SamplePeer.dispatch 10123).2 ≫= transacts))).
Proof.
  destruct (wpc_run
    (peer_env Sample.owner SamplePeer.deliver SamplePeer.self Sample.interceptor Sample.service
       10123 777)
    transacts _ _ (SamplePeer.answer 10123) tt
    (stub_runs_hooks 64 Sample.owner ltac:(lia) SamplePeer.deliver ltac:(done) SamplePeer.self
       SamplePeer.self_ok 1 Sample.reg Sample.key 3 16 10123 777 Sample.request
       (Some Sample.reply) Sample.interceptor
       ltac:(done) ltac:(done) ltac:(done) ltac:(done) Dispatch.reg_intercepts
       ltac:(by vm_compute) ltac:(by intros ? [= <-])))
    as ([st r] & Hrun & Hlog).
  - sample_trace.
  - exists st, r. split; [exact Hrun|exact Hlog].
Defined.

Lemma registration_arrives_witness :
  let '(data, ok) := Kt.registration_data Sample.service Sample.interceptor SamplePeer.self in
  ok = true /\
  wpv (registry_env Sample.owner)
    (handleRegisterInterceptor Sample.reg (SamplePeer.deliver (contents data)))
    (fun '(st, reg') => st = OK /\ registry_ok Sample.owner reg' /\
       exists w, m_ptr w = Sample.service /\ wp_ok Sample.owner w /\
         registered w Sample.interceptor [3; 4294967295] Sample.reg reg').
Proof.
  apply (registration_arrives Sample.owner SamplePeer.deliver ltac:(done) Sample.reg
    Sample.service Sample.interceptor SamplePeer.self Sample.reg_ok); done.
Defined.
