(* ===== verification/IoctlHook.v ===== *)
(** * The ioctl hook (binder_interceptor.cpp)

    [intercepted_ioctl_function] replaces [ioctl] in libbinder: after the real
    call it walks the commands the driver put in the read buffer and rewrites the
    transactions that have to go through the stub.  Memory is what the caller's
    pointers reach: the struct [binder_write_read] at the argument and the read
    buffer, as bytes; an access outside them is a fault.  The registry is shared
    with other threads, so each look at it is a call of the environment.

    [W] is the width of a pointer; a pointer into the read buffer is its offset. *)

From S2P Require Import Prelude Prog BinderUapi RefBase Parcel Registry Interceptor.
Local Open Scope Z_scope.

Inductive hookE : Type -> Type :=
| HookRef {X} (e : refE X) : hookE X
(** the registry as a reader finds it under the lock *)
| ReadRegistry : hookE registry
(** [original_ioctl_function]: the result, and after it the bytes at the argument
    and those of the read buffer the argument names *)
| OriginalIoctl (fd request argument : Z) : hookE (Z * list byte * list byte)
| PltiInit : hookE unit
| PltiAddLib (lib : string) : hookE bool
(** whether the hook was installed, and the function it replaced *)
| PltiAddHook (lib fn : string) (hook : Z) : hookE (bool * Z).

#[export] Instance Sub_ref_hook : Sub refE hookE := {|
  inj := fun X e => HookRef e;
  prj := fun X e => match e with HookRef e => Some e | _ => None end;
  prj_inj := fun X e => eq_refl
|}.

#[local] Abbreviation M := (prog hookE).

(** A memory access that has to be inside the object. *)
Definition access {A} (o : option A) : M A :=
  match o with Some a => mret a | None => Crash end.

(** Offsets of the fields of [binder_transaction_data] and [binder_write_read]. *)
Definition td_off (f : string) : nat := default 0%nat (offsetof binder_transaction_data f).
Definition bwr_off (f : string) : nat := default 0%nat (offsetof binder_write_read f).

Definition td_load (f : string) (n : nat) (p : nat) (mem : list byte) : option Z :=
  load_le (p + td_off f) n mem.

Definition td_store (f : string) (n : nat) (z : Z) (p : nat) (mem : list byte)
  : option (list byte) :=
  store_le (p + td_off f) n z mem.

Section hook.
Variable W : Z.
(** [g_binder_interceptor] and [g_binder_stub] *)
Variables (g_binder_interceptor g_binder_stub : Z).

(** [reinterpret_cast] of a 64-bit field to a pointer *)
Definition pointer (z : Z) : Z := wrap W z.

(** The branch of [processBinderTransaction] that looks the target up: the entry
    to queue, if the transaction has to be intercepted. *)
Definition inspect_target (target_ptr code : Z) (p : nat) (mem : list byte)
  : M (option ThreadTransactionInfo) :=
  let weak_ref := pointer target_ptr in
  if weak_ref =? 0 then Crash
  else
    alive ← trigger (AttemptIncStrong weak_ref);
    if alive : bool then
      cookie ← access (td_load "cookie" 8 p mem);
      let target_binder := pointer cookie in
      weak_binder ← wp_fromExisting target_binder;
      if g_binder_interceptor =? 0 then Crash
      else
        reg ← call ReadRegistry;
        hit ← shouldInterceptTransaction reg weak_binder code;
        info ← (if hit : bool
                then t ← wp_assign wp_null weak_binder;
                     mret (Some {| transaction_code := code; target_binder := t |})
                else mret None);
        if target_binder =? 0 then Crash
        else
          _ ← trigger (DecStrong target_binder);
          _ ← wp_destroy weak_binder;
          mret info
    else mret None.

(** Point the transaction at the stub. *)
Definition redirect (p : nat) (mem : list byte) : M (list byte) :=
  if g_binder_stub =? 0 then Crash
  else
    refs ← trigger (GetWeakRefs g_binder_stub);
    mem ← access (td_store "target" 8 refs p mem);
    mem ← access (td_store "cookie" 8 g_binder_stub p mem);
    access (td_store "code" 4 kBackdoorCode p mem).

(** [processBinderTransaction] on the struct at [p], [None] being null: its
    value, the memory and the thread's queue. *)
Definition processBinderTransaction (transaction_data : option nat) (mem : list byte)
    (queue : list ThreadTransactionInfo) : M (bool * list byte * list ThreadTransactionInfo) :=
  match transaction_data with
  | None => mret (false, mem, queue)
  | Some p =>
      target_ptr ← access (td_load "target" 8 p mem);
      if target_ptr =? 0 then mret (false, mem, queue)
      else
        code ← access (td_load "code" 4 p mem);
        sender_euid ← access (td_load "sender_euid" 4 p mem);
        info ←
          (if (code =? kBackdoorCode) && (sender_euid =? 0)
           then t ← wp_assign_ptr wp_null 0;
                mret (Some {| transaction_code := kBackdoorCode; target_binder := t |})
           else if kMaxUserTransactionCode <? code then mret None
           else inspect_target target_ptr code p mem);
        match info with
        | None => mret (false, mem, queue)
        | Some transaction_info =>
            mem ← redirect p mem;
            pushed ← wp_copy (target_binder transaction_info);
            _ ← wp_destroy (target_binder transaction_info);
            mret (true, mem, queue ++ [{| transaction_code := transaction_code transaction_info;
                                          target_binder := pushed |}])
        end
  end.

Definition is_transaction (command : Z) : bool :=
  (command =? BR_TRANSACTION_SEC_CTX) || (command =? BR_TRANSACTION).

(** The loop of [processBinderWriteRead]; one round consumes at least a command
    word, so the number of bytes bounds the rounds. *)
Fixpoint command_loop (fuel : nat) (buffer_ptr : nat) (remaining_bytes : Z) (mem : list byte)
    (queue : list ThreadTransactionInfo) : M (list byte * list ThreadTransactionInfo) :=
  match fuel with
  | O => Out
  | S fuel =>
      if 0 <? remaining_bytes then
        if remaining_bytes <? 4 then mret (mem, queue)
        else
          command ← access (load_le buffer_ptr 4 mem);
          let buffer_ptr := (buffer_ptr + 4)%nat in
          let remaining_bytes := remaining_bytes - 4 in
          let command_size := IOC_SIZE command in
          if remaining_bytes <? command_size then mret (mem, queue)
          else
            '(mem, queue) ←
              (if is_transaction command
               then let transaction_data :=
                      if command =? BR_TRANSACTION_SEC_CTX
                      then (buffer_ptr + default 0%nat
                              (offsetof binder_transaction_data_secctx "transaction_data"))%nat
                      else buffer_ptr in
                    '(_, mem, queue) ← processBinderTransaction (Some transaction_data) mem queue;
                    mret (mem, queue)
               else mret (mem, queue));
            command_loop fuel (buffer_ptr + Z.to_nat command_size)
              (remaining_bytes - command_size) mem queue
      else mret (mem, queue)
  end.

(** The fields of [binder_write_read] the hook reads. *)
Record write_read := WriteRead { read_size : Z; read_consumed : Z; read_buffer : Z }.

(** [processBinderWriteRead] *)
Definition processBinderWriteRead (w : write_read) (mem : list byte)
    (queue : list ThreadTransactionInfo) : M (list byte * list ThreadTransactionInfo) :=
  if (read_buffer w =? 0) || (read_size w =? 0) || (read_consumed w <=? 4)
  then mret (mem, queue)
  else
    let remaining_bytes := read_consumed w in
    first_cmd ← access (load_le 0 4 mem);
    if negb (first_cmd =? BR_TRANSACTION) && negb (first_cmd =? BR_TRANSACTION_SEC_CTX) &&
       (remaining_bytes =? 4 + IOC_SIZE first_cmd)
    then mret (mem, queue)
    else command_loop (S (Z.to_nat remaining_bytes)) 0 remaining_bytes mem queue.

(** [*static_cast<const binder_write_read * >(argument)] *)
Definition read_write_read (argument : list byte) : option write_read :=
  size ← load_le (bwr_off "read_size") 8 argument;
  consumed ← load_le (bwr_off "read_consumed") 8 argument;
  buffer ← load_le (bwr_off "read_buffer") 8 argument;
  Some (WriteRead size consumed buffer).

(** [intercepted_ioctl_function]: the result, the read buffer and the queue. *)
Definition intercepted_ioctl_function (fd request argument : Z)
    (queue : list ThreadTransactionInfo) : M (Z * list byte * list ThreadTransactionInfo) :=
  '(result, arg, mem) ← call (OriginalIoctl fd request argument);
  if (0 <=? result) && (wrap 32 request =? BINDER_WRITE_READ) && negb (argument =? 0)
  then w ← access (read_write_read arg);
       '(mem, queue) ← processBinderWriteRead w mem queue;
       mret (result, mem, queue)
  else mret (result, mem, queue).
End hook.

(** ** Installation *)

Definition kBinderLibraryName : string := "libbinder.so".
Definition kIoctlFunctionName : string := "ioctl".

(** The global variables of the library. *)
Record globals := Globals {
  g_binder_interceptor : Z;
  g_binder_stub : Z;
  original_ioctl_function : Z
}.

Section install.
(** the address of [intercepted_ioctl_function] *)
Variable hook_address : Z.

(** [g = sp<T>::make()] *)
Definition assign_new (g : Z) : M Z :=
  made ← sp_make;
  '(g, made) ← sp_move_assign g made;
  _ ← sp_destroy made;
  mret g.

Definition clear_globals (g : globals) : M globals :=
  i ← sp_clear (g_binder_interceptor g);
  s ← sp_clear (g_binder_stub g);
  mret (Globals i s (original_ioctl_function g)).

(** [initializeBinderInterception] *)
Definition initializeBinderInterception (g : globals) : M (bool * globals) :=
  i ← assign_new (g_binder_interceptor g);
  s ← assign_new (g_binder_stub g);
  let g := Globals i s (original_ioctl_function g) in
  if (i =? 0) || (s =? 0) then mret (false, g)
  else
    _ ← call PltiInit;
    found ← call (PltiAddLib kBinderLibraryName);
    if negb found then g ← clear_globals g; mret (false, g)
    else
      '(hooked, original) ← call (PltiAddHook kBinderLibraryName kIoctlFunctionName hook_address);
      let g := Globals i s original in
      if negb hooked then g ← clear_globals g; mret (false, g)
      else mret (true, g).

(** [entry] *)
Definition entry (library_handle : Z) (g : globals) : M (bool * globals) :=
  initializeBinderInterception g.
End install.

(** ** Locality of the rewriting *)

Lemma td_bound f n : (f, n) ∈ [("target", 8); ("cookie", 8); ("code", 4); ("sender_euid", 4)]%nat%string ->
  (td_off f + n <= sizeof binder_transaction_data)%nat.
Proof.
  rewrite !elem_of_cons, elem_of_nil.
  intros [?|[?|[?|[?|[]]]]]; simplify_eq; vm_compute; lia.
Qed.

Section locality.
Variables (W g stub : Z).
Variables (pre d post : list byte).
Hypothesis Hd : (sizeof binder_transaction_data <= length d)%nat.
Abbreviation plug d := (pre ++ d ++ post).

Lemma td_load_local f n :
  (td_off f + n <= length d)%nat -> td_load f n (length pre) (plug d) = td_load f n 0 d.
Proof. apply load_le_local. Qed.

Lemma inspect_target_local target_ptr code :
  inspect_target W g target_ptr code (length pre) (plug d) =
  inspect_target W g target_ptr code 0 d.
Proof.
  unfold inspect_target. rewrite td_load_local; [done|].
  etransitivity; [apply td_bound; set_solver|exact Hd].
Qed.
End locality.

Lemma td_store_local pre d post f n z :
  (td_off f + n <= length d)%nat ->
  td_store f n z (length pre) (pre ++ d ++ post) =
    (fun d' => pre ++ d' ++ post) <$> td_store f n z 0 d.
Proof. apply store_le_local. Qed.

Lemma td_store_Some f n z d :
  (td_off f + n <= length d)%nat ->
  exists d', td_store f n z 0 d = Some d' /\ length d' = length d.
Proof. apply store_le_Some. Qed.

Section process_local.
Variables (W g stub : Z).

Lemma redirect_local pre d post :
  (sizeof binder_transaction_data <= length d)%nat ->
  redirect stub (length pre) (pre ++ d ++ post) ≃
    (d' ← redirect stub 0 d; mret (pre ++ d' ++ post)).
Proof.
  intros Hd. unfold redirect. destruct (stub =? 0); [reflexivity|].
  rewrite bind_assoc. apply peq_bind_done. intros refs _ _.
  assert (Hb : forall f n, (f, n) ∈ [("target", 8); ("cookie", 8); ("code", 4); ("sender_euid", 4)]%nat%string ->
    (td_off f + n <= length d)%nat).
  { intros f n Hin. etransitivity; [by apply td_bound|exact Hd]. }
  rewrite td_store_local by (apply Hb; set_solver).
  destruct (td_store_Some "target" 8 refs d) as (d1 & -> & H1); [apply Hb; set_solver|].
  cbn [access fmap option_fmap option_map]. rewrite !bind_ret_l.
  rewrite td_store_local by (rewrite H1; apply Hb; set_solver).
  destruct (td_store_Some "cookie" 8 stub d1) as (d2 & -> & H2);
    [rewrite H1; apply Hb; set_solver|].
  cbn [access fmap option_fmap option_map]. rewrite !bind_ret_l.
  rewrite td_store_local by (rewrite H2, H1; apply Hb; set_solver).
  destruct (td_store_Some "code" 4 kBackdoorCode d2) as (d3 & -> & H3);
    [rewrite H2, H1; apply Hb; set_solver|].
  reflexivity.
Qed.

Lemma td_load_Some f n p mem :
  (p + (td_off f + n) <= length mem)%nat -> exists z, td_load f n p mem = Some z.
Proof. intros H. apply load_le_in_bounds. lia. Qed.

Lemma processBinderTransaction_local pre d post q :
  (sizeof binder_transaction_data <= length d)%nat ->
  processBinderTransaction W g stub (Some (length pre)) (pre ++ d ++ post) q ≃
    ('(b, d', q') ← processBinderTransaction W g stub (Some 0%nat) d q;
     mret (b, pre ++ d' ++ post, q')).
Proof.
  intros Hd. unfold processBinderTransaction.
  assert (Hb : forall f n, (f, n) ∈ [("target", 8); ("cookie", 8); ("code", 4); ("sender_euid", 4)]%nat%string ->
    (td_off f + n <= length d)%nat).
  { intros f n Hin. etransitivity; [by apply td_bound|exact Hd]. }
  rewrite !td_load_local by (apply Hb; set_solver).
  destruct (td_load_Some "target" 8 0 d) as [target_ptr ->]; [apply Hb; set_solver|].
  destruct (td_load_Some "code" 4 0 d) as [code ->]; [apply Hb; set_solver|].
  destruct (td_load_Some "sender_euid" 4 0 d) as [euid ->]; [apply Hb; set_solver|].
  cbn [access]. bind_ret. destruct (target_ptr =? 0); [reflexivity|].
  bind_ret. rewrite inspect_target_local, bind_assoc by done.
  apply peq_bind_done. intros [info|] _ _; [|reflexivity].
  rewrite redirect_local, !bind_assoc by done. apply peq_bind_done. intros d' _ _.
  rewrite bind_ret_l, bind_assoc. apply peq_bind_done. intros pushed _ _.
  rewrite bind_assoc. reflexivity.
Qed.

(** The struct keeps its length. *)
Lemma redirect_length d :
  wp (redirect stub 0 d)
     (fun r _ => match r with Done d' => length d' = length d | _ => True end).
Proof.
  unfold redirect. destruct (stub =? 0); [done|]. apply wp_bind, wp_trigger. intros refs.
  simpl. destruct (td_store "target" 8 refs 0 d) as [d1|] eqn:H1; [|done]. simpl.
  destruct (td_store "cookie" 8 stub 0 d1) as [d2|] eqn:H2; [|done]. simpl.
  destruct (td_store "code" 4 kBackdoorCode 0 d2) as [d3|] eqn:H3; [|done]. simpl.
  apply store_length in H1, H2, H3. congruence.
Qed.

Lemma processBinderTransaction_length d q :
  wp (processBinderTransaction W g stub (Some 0%nat) d q)
     (fun r _ => match r with Done (_, d', _) => length d' = length d | _ => True end).
Proof.
  assert (Hany : forall A (p : prog hookE A) (Q : outcome A -> list (event hookE) -> Prop),
    (forall r t, Q r t) -> wp p Q) by (intros; by apply wp_true).
  unfold processBinderTransaction.
  destruct (td_load "target" 8 0 d) as [target_ptr|]; [|done]. cbn [access]. bind_ret.
  destruct (target_ptr =? 0); [done|].
  destruct (td_load "code" 4 0 d) as [code|]; [|done]. cbn [access]. bind_ret.
  destruct (td_load "sender_euid" 4 0 d) as [euid|]; [|done]. cbn [access]. bind_ret.
  apply wp_bind, Hany. intros [[info|]| |] t; try done. unfold bindQ.
  apply wp_bind. eapply wp_mono; [|apply redirect_length]. intros [d'| |] t1 Hd'; try done.
  unfold bindQ. apply wp_bind, Hany. intros [pushed| |] t2; try done. unfold bindQ.
  apply wp_bind, Hany. intros [[]| |] t3; done.
Qed.
End process_local.

(** ** The read buffer as a list of commands *)

Abbreviation command := (Z * list byte)%type.

(** Complete commands at the front of [bs], and the bytes after them. *)
Fixpoint parse_commands (fuel : nat) (bs : list byte) : list command * list byte :=
  match fuel with
  | O => ([], bs)
  | S fuel =>
      match load_le 0 4 bs with
      | None => ([], bs)
      | Some c =>
          let n := Z.to_nat (IOC_SIZE c) in
          let rest := drop 4 bs in
          if decide (length rest < n)%nat then ([], bs)
          else let '(cs, r) := parse_commands fuel (drop n rest) in ((c, take n rest) :: cs, r)
      end
  end.

Definition parse (bs : list byte) : list command * list byte := parse_commands (length bs) bs.

Definition encode_commands (cs : list command) : list byte :=
  cs ≫= (fun '(c, d) => le_encode 4 c ++ d).

(** A command whose word tells its payload's length. *)
Definition command_ok (c : command) : Prop :=
  in_word 32 c.1 /\ length c.2 = Z.to_nat (IOC_SIZE c.1).

(** Bytes that are not a complete command. *)
Definition incomplete (bs : list byte) : Prop :=
  match load_le 0 4 bs with
  | None => True
  | Some c => (length (drop 4 bs) < Z.to_nat (IOC_SIZE c))%nat
  end.

Lemma load_le_word bs c :
  load_le 0 4 bs = Some c -> bs = le_encode 4 c ++ drop 4 bs /\ in_word 32 c.
Proof.
  intros H. split; [|by apply load_le_range in H].
  unfold load_le in H. apply fmap_Some in H as (b & Hl & ->).
  pose proof (load_length _ _ _ _ Hl) as Hb. apply load_Some in Hl as [Hn ->].
  rewrite drop_0 in *. pose proof (le_encode_decode (take 4 bs)) as He. rewrite Hb in He.
  by rewrite He, take_drop.
Qed.

Lemma load_le_encode c bs : in_word 32 c -> load_le 0 4 (le_encode 4 c ++ bs) = Some c.
Proof.
  intros [Hc Hc']. pose proof (load_le_app [] (le_encode 4 c) bs 4 (length_le_encode 4 c)) as H.
  rewrite le_decode_encode_small in H by (simpl; lia). exact H.
Qed.

Lemma encode_cons c d cs : encode_commands ((c, d) :: cs) = le_encode 4 c ++ d ++ encode_commands cs.
Proof. unfold encode_commands. cbn [mbind list_bind]. by rewrite <-app_assoc. Qed.

(** Parsing loses nothing: the commands and the rest are the buffer. *)
Lemma parse_commands_encode fuel bs cs r :
  parse_commands fuel bs = (cs, r) -> bs = encode_commands cs ++ r /\ Forall command_ok cs.
Proof.
  revert bs cs r. induction fuel as [|fuel IH]; cbn [parse_commands]; intros bs cs r H;
    simplify_eq; [done|].
  destruct (load_le 0 4 bs) as [c|] eqn:Hc; simplify_eq; [|done].
  apply load_le_word in Hc as [Hbs Hw]. case_decide as Hn; simplify_eq; [done|].
  destruct (parse_commands fuel _) as [cs' r'] eqn:Hp. simplify_eq.
  apply IH in Hp as [Hp Hok]. split.
  - rewrite encode_cons, <-!app_assoc, <-Hp, take_drop. exact Hbs.
  - constructor; [|done]. split; [done|]. cbn [fst snd]. rewrite length_take. lia.
Qed.

Lemma parse_commands_app fuel cs r :
  Forall command_ok cs -> incomplete r -> (length (encode_commands cs ++ r) <= fuel)%nat ->
  parse_commands fuel (encode_commands cs ++ r) = (cs, r).
Proof.
  intros Hok Hr. revert fuel. induction Hok as [|[c d] cs [Hc Hd] Hok IH]; intros fuel Hf.
  - change (encode_commands [] ++ r) with r in *.
    destruct fuel as [|fuel]; [by destruct r|]. cbn [parse_commands]. unfold incomplete in Hr.
    destruct (load_le 0 4 r); [|done]. by rewrite decide_True.
  - rewrite encode_cons in *. rewrite !length_app, length_le_encode in Hf.
    destruct fuel as [|fuel]; [lia|]. simpl in Hc, Hd.
    cbn [parse_commands]. rewrite <-!app_assoc, load_le_encode by done.
    rewrite (drop_app_length' _ _ 4) by by rewrite length_le_encode.
    rewrite decide_False by (rewrite length_app; lia).
    rewrite (drop_app_length' d), (take_app_length' d) by done.
    rewrite IH; [done|]. rewrite length_app. lia.
Qed.

Section loop.
Variables (W g stub : Z).

(** Each transaction of a command list goes through [processBinderTransaction],
    on its own payload; the other commands are left alone. *)
Fixpoint redirect_commands (cs : list command) (queue : list ThreadTransactionInfo)
  : M (list command * list ThreadTransactionInfo) :=
  match cs with
  | [] => mret ([], queue)
  | (c, d) :: cs =>
      '(d, queue) ←
        (if is_transaction c
         then '(_, d, queue) ← processBinderTransaction W g stub (Some 0%nat) d queue;
              mret (d, queue)
         else mret (d, queue));
      '(cs, queue) ← redirect_commands cs queue;
      mret ((c, d) :: cs, queue)
  end.

Lemma is_transaction_size c :
  is_transaction c = true -> (sizeof binder_transaction_data <= Z.to_nat (IOC_SIZE c))%nat.
Proof. unfold is_transaction. intros [->%Z.eqb_eq| ->%Z.eqb_eq]%orb_true_iff; vm_compute; lia. Qed.

Lemma command_loop_step fuel pre c d rest post q :
  command_ok (c, d) ->
  command_loop W g stub (S fuel) (length pre)
    (Z.of_nat (length (le_encode 4 c ++ d ++ rest))) (pre ++ (le_encode 4 c ++ d ++ rest) ++ post) q ≃
  ('(d, q) ←
     (if is_transaction c
      then '(_, d, q) ← processBinderTransaction W g stub (Some 0%nat) d q; mret (d, q)
      else mret (d, q));
   command_loop W g stub fuel (length (pre ++ le_encode 4 c ++ d)) (Z.of_nat (length rest))
     ((pre ++ le_encode 4 c ++ d) ++ rest ++ post) q).
Proof.
  intros [Hc Hd]. cbn [fst snd] in *. cbn [command_loop].
  rewrite !length_app, length_le_encode.
  destruct (Z.ltb_spec 0 (Z.of_nat (4 + (length d + length rest)))) as [_|]; [|lia].
  destruct (Z.ltb_spec (Z.of_nat (4 + (length d + length rest))) 4) as [|_]; [lia|].
  pose proof (load_le_local pre (le_encode 4 c ++ d ++ rest) post 0 4) as Hl.
  rewrite Nat.add_0_r in Hl.
  rewrite Hl, load_le_encode by (done || (rewrite length_app, length_le_encode; lia)).
  cbn [access]. bind_ret. pose proof (IOC_SIZE_range c (proj1 Hc)) as Hs.
  destruct (Z.ltb_spec (Z.of_nat (4 + (length d + length rest)) - 4) (IOC_SIZE c)) as [|_]; [lia|].
  replace (default 0%nat (offsetof binder_transaction_data_secctx "transaction_data")) with 0%nat
    by (by vm_compute).
  replace (if c =? BR_TRANSACTION_SEC_CTX then (length pre + 4 + 0)%nat else (length pre + 4)%nat)
    with (length (pre ++ le_encode 4 c))
    by (rewrite length_app, length_le_encode; destruct (c =? _); lia).
  replace (Z.of_nat (4 + (length d + length rest)) - 4 - IOC_SIZE c) with (Z.of_nat (length rest)) by lia.
  rewrite <-Hd. destruct (is_transaction c) eqn:Ht.
  - replace (pre ++ (le_encode 4 c ++ d ++ rest) ++ post)
      with ((pre ++ le_encode 4 c) ++ d ++ (rest ++ post)) by (by rewrite <-!app_assoc).
    rewrite processBinderTransaction_local by (rewrite Hd; by apply is_transaction_size).
    rewrite !bind_assoc. apply peq_bind_done. intros [[b d'] q'] t He.
    apply wp_done with (1 := processBinderTransaction_length W g stub d q) in He.
    bind_ret. rewrite <-!app_assoc, !length_app, length_le_encode, He.
    by replace (length pre + 4 + length d)%nat with (length pre + (4 + length d))%nat by lia.
  - bind_ret. rewrite <-!app_assoc, !length_app, length_le_encode.
    by replace (length pre + 4 + length d)%nat with (length pre + (4 + length d))%nat by lia.
Qed.

Lemma command_loop_parse n fuel pre bs post q :
  (length bs <= n < fuel)%nat ->
  command_loop W g stub fuel (length pre) (Z.of_nat (length bs)) (pre ++ bs ++ post) q ≃
  (let '(cs, rest) := parse_commands n bs in
   '(cs, q) ← redirect_commands cs q;
   mret (pre ++ encode_commands cs ++ rest ++ post, q)).
Proof.
  revert fuel pre bs q. induction n as [|n IH]; intros fuel pre bs q Hf.
  { destruct bs; [|simpl in Hf; lia]. destruct fuel; [lia|]. reflexivity. }
  destruct fuel as [|fuel]; [lia|]. cbn [parse_commands].
  destruct (load_le 0 4 bs) as [c|] eqn:Hc.
  - pose proof (load_le_word _ _ Hc) as [Hbs Hw].
    case_decide as Hn.
    + cbn [command_loop redirect_commands]. bind_ret.
      assert (4 <= length bs)%nat by (rewrite Hbs, length_app, length_le_encode; lia).
      rewrite length_drop in Hn. pose proof (load_le_local pre bs post 0 4) as Hl.
      rewrite Nat.add_0_r in Hl. rewrite Hl, Hc by lia. cbn [access]. bind_ret.
      destruct (Z.ltb_spec 0 (Z.of_nat (length bs))); [|lia].
      destruct (Z.ltb_spec (Z.of_nat (length bs)) 4); [lia|].
      destruct (Z.ltb_spec (Z.of_nat (length bs) - 4) (IOC_SIZE c)); [reflexivity|lia].
    + set (d := take (Z.to_nat (IOC_SIZE c)) (drop 4 bs)).
      set (rest := drop (Z.to_nat (IOC_SIZE c)) (drop 4 bs)).
      assert (Hok : command_ok (c, d)).
      { split; [done|]. unfold d. simpl. rewrite length_take. lia. }
      assert (Hsplit : bs = le_encode 4 c ++ d ++ rest) by (unfold d, rest; by rewrite take_drop).
      clearbody d rest. rewrite Hsplit at 1 2. rewrite command_loop_step by done.
      destruct (parse_commands n rest) as [cs r] eqn:Hp. cbn [redirect_commands].
      rewrite bind_assoc. apply peq_bind_done. intros [d' q'] _ _.
      assert (Hr : (length rest <= n < fuel)%nat).
      { rewrite Hsplit in Hf. rewrite !length_app, length_le_encode in Hf. lia. }
      specialize (IH fuel (pre ++ le_encode 4 c ++ d') rest q' Hr). rewrite Hp in IH.
      rewrite IH, bind_assoc. apply peq_bind_done. intros [cs' q''] _ _.
      bind_ret. by rewrite encode_cons, <-!app_assoc.
  - cbn [command_loop redirect_commands]. bind_ret.
    assert (length bs < 4)%nat.
    { destruct (decide (4 <= length bs)%nat) as [H|]; [|lia].
      destruct (load_le_in_bounds 0 4 bs H). congruence. }
    destruct (Z.ltb_spec 0 (Z.of_nat (length bs))).
    + destruct (Z.ltb_spec (Z.of_nat (length bs)) 4); [reflexivity|lia].
    + by destruct bs; [|simpl in *; lia].
Qed.
End loop.

(** What the driver guarantees of the struct and the buffer after the ioctl. *)
Definition buffer_ok (w : write_read) (mem : list byte) : Prop :=
  0 <= read_consumed w <= read_size w /\ read_size w <= Z.of_nat (length mem) /\
  (read_buffer w = 0 -> read_size w = 0).

Section buffer.
Variables (W g stub : Z).

Lemma redirect_commands_none cs q :
  Forall (fun c => is_transaction c.1 = false) cs ->
  redirect_commands W g stub cs q ≃ mret (cs, q).
Proof.
  induction 1 as [|[c d] cs Hc _ IH]; [reflexivity|]. cbn [redirect_commands fst] in *.
  rewrite Hc. bind_ret. by rewrite IH.
Qed.

Lemma parse_short bs cs r :
  (length bs <= 4)%nat -> parse bs = (cs, r) -> Forall (fun c => is_transaction c.1 = false) cs.
Proof.
  intros Hl Hp. apply parse_commands_encode in Hp as [Hbs Hok].
  destruct Hok as [|[c d] cs [_ Hd] Hok]; [done|]. cbn [fst snd] in Hd.
  apply (f_equal length) in Hbs.
  rewrite encode_cons, !length_app, length_le_encode in Hbs.
  assert (Hcs : cs = []).
  { destruct cs as [|[c' d'] cs]; [done|]. rewrite encode_cons, !length_app, length_le_encode in Hbs.
    lia. }
  subst cs. constructor; [|done]. cbn [fst]. apply not_true_iff_false. intros Ht%is_transaction_size.
  rewrite <-Hd in Ht. revert Ht. replace (sizeof binder_transaction_data) with 64%nat by done. lia.
Qed.

Lemma parse_one bs c :
  load_le 0 4 bs = Some c -> length bs = (4 + Z.to_nat (IOC_SIZE c))%nat ->
  parse bs = ([(c, drop 4 bs)], []).
Proof.
  intros Hc Hl. unfold parse. rewrite Hl. change (4 + ?n)%nat with (S (3 + n)).
  cbn [parse_commands]. rewrite Hc, decide_False by (rewrite length_drop; lia).
  rewrite take_ge, (drop_ge (drop 4 bs)) by (rewrite length_drop; lia). done.
Qed.

Lemma processBinderWriteRead_peq (w : write_read) (mem : list byte)
    (queue : list ThreadTransactionInfo) :
  buffer_ok w mem ->
  processBinderWriteRead W g stub w mem queue ≃
  (let n := Z.to_nat (read_consumed w) in
   let '(cs, rest) := parse (take n mem) in
   '(cs, queue) ← redirect_commands W g stub cs queue;
   mret (encode_commands cs ++ rest ++ drop n mem, queue)).
Proof.
  intros (Hrc & Hlen & Hnull). cbv zeta. set (n := Z.to_nat (read_consumed w)).
  assert (Hn : length (take n mem) = n) by (rewrite length_take; lia).
  destruct (parse (take n mem)) as [cs rest] eqn:Hp.
  pose proof (parse_commands_encode _ _ _ _ Hp) as [Hbs _].
  assert (Hskip : Forall (fun c => is_transaction c.1 = false) cs ->
    mret (mem, queue) ≃ ('(cs, queue) ← redirect_commands W g stub cs queue;
      mret (encode_commands cs ++ rest ++ drop n mem, queue))).
  { intros Hcs. rewrite redirect_commands_none by done. bind_ret.
    by rewrite app_assoc, <-Hbs, take_drop. }
  unfold processBinderWriteRead.
  destruct ((read_buffer w =? 0) || (read_size w =? 0) || (read_consumed w <=? 4)) eqn:Hg.
  - apply Hskip. eapply parse_short; [|exact Hp]. rewrite Hn.
    rewrite !orb_true_iff, !Z.eqb_eq, Z.leb_le in Hg. lia.
  - boolp. assert (4 < n)%nat by lia.
    destruct (load_le_in_bounds 0 4 (take n mem)) as [c Hc]; [rewrite Hn; lia|].
    pose proof (load_le_local [] (take n mem) (drop n mem) 0 4) as Hl. simpl in Hl.
    rewrite take_drop in Hl. rewrite Hl, Hc by (rewrite Hn; lia). cbn [access]. bind_ret.
    destruct (negb (c =? BR_TRANSACTION) && negb (c =? BR_TRANSACTION_SEC_CTX) &&
              (read_consumed w =? 4 + IOC_SIZE c)) eqn:Hb.
    + apply Hskip. boolp.
      rewrite (parse_one _ c) in Hp by (done || (rewrite Hn; lia)). simplify_eq.
      repeat constructor. cbn [fst]. unfold is_transaction. apply orb_false_iff.
      by rewrite !Z.eqb_neq.
    + pose proof (command_loop_parse W g stub n (S n) [] (take n mem) (drop n mem) queue) as Hloop.
      unfold parse in Hp. rewrite Hn in Hp, Hloop. rewrite Hp in Hloop. simpl in Hloop.
      rewrite take_drop in Hloop. replace (Z.of_nat n) with (read_consumed w) in Hloop by lia.
      apply Hloop. lia.
Qed.
End buffer.

(** ** What happens to one transaction, as a pure function *)

(** The fields of a [binder_transaction_data] the hook looks at. *)
Record transaction := Transaction {
  tx_target : Z;
  tx_cookie : Z;
  tx_code : Z;
  tx_euid : Z
}.

Definition read_transaction (d : list byte) : option transaction :=
  target ← td_load "target" 8 0 d;
  cookie ← td_load "cookie" 8 0 d;
  code ← td_load "code" 4 0 d;
  euid ← td_load "sender_euid" 4 0 d;
  Some (Transaction target cookie code euid).

Section outcome.
(** The registry, which targets are alive, the reference block of an object, and
    the stub. *)
Variables (reg : registry) (alive : Z -> bool) (refs_of : Z -> Z) (stub : Z).

(** What is queued for the stub when the transaction is intercepted. *)
Definition intercept (t : transaction) : option ThreadTransactionInfo :=
  if tx_target t =? 0 then None
  else if (tx_code t =? kBackdoorCode) && (tx_euid t =? 0)
  then Some {| transaction_code := kBackdoorCode; target_binder := wp_null |}
  else if kMaxUserTransactionCode <? tx_code t then None
  else
    let w := Wp (tx_cookie t) (refs_of (tx_cookie t)) in
    if alive (tx_target t) && wants reg w (tx_code t)
    then Some {| transaction_code := tx_code t; target_binder := w |}
    else None.

(** The struct pointed at the stub: target, cookie and code are replaced. *)
Definition redirected (d : list byte) : list byte :=
  le_encode 8 (refs_of stub) ++ le_encode 8 stub ++ le_encode 4 kBackdoorCode ++ drop 20 d.

Definition intercepted_payload (d : list byte) : option ThreadTransactionInfo :=
  t ← read_transaction d; intercept t.

(** The command after the hook, and what it queued. *)
Definition hooked_command (c : command) : command :=
  if is_transaction c.1
  then match intercepted_payload c.2 with Some _ => (c.1, redirected c.2) | None => c end
  else c.

Definition hooked_info (c : command) : option ThreadTransactionInfo :=
  if is_transaction c.1 then intercepted_payload c.2 else None.

(** A transaction as the driver delivers it: the pointers are pointers of this
    process, and the object of a live target is there. *)
Definition transaction_ok (W : Z) (t : transaction) : Prop :=
  tx_target t <> 0 ->
  in_word W (tx_target t) /\ in_word W (tx_cookie t) /\ tx_cookie t <> 0.

(** The environment of the hook. *)
Definition hook_env (ev : event hookE) : Prop :=
  match ev with
  | Event e x =>
      match e in hookE X return X -> Prop with
      | HookRef r =>
          match r in refE X return X -> Prop with
          | AttemptIncStrong refs => fun ok => ok = alive refs
          | GetWeakRefs o => fun refs => refs = refs_of o
          | _ => fun _ => True
          end
      | ReadRegistry => fun r => r = reg
      | _ => fun _ => True
      end x
  end.
End outcome.

Lemma split_fields (d : list byte) :
  (20 <= length d)%nat ->
  exists a b c, d = a ++ b ++ c ++ drop 20 d /\
    length a = 8%nat /\ length b = 8%nat /\ length c = 4%nat.
Proof.
  intros Hd. exists (take 8 d), (take 8 (drop 8 d)), (take 4 (drop 16 d)).
  split_and!; rewrite ?length_take, ?length_drop; try lia.
  rewrite <-(take_drop 8 d) at 1. f_equal. rewrite <-(take_drop 8 (drop 8 d)) at 1. f_equal.
  rewrite drop_drop. rewrite <-(take_drop 4 (drop (8 + 8) d)) at 1. f_equal.
  by rewrite drop_drop.
Qed.

Lemma redirect_stores d z1 z2 z3 :
  (20 <= length d)%nat ->
  exists d1 d2, td_store "target" 8 z1 0 d = Some d1 /\ td_store "cookie" 8 z2 0 d1 = Some d2 /\
    td_store "code" 4 z3 0 d2 =
      Some (le_encode 8 z1 ++ le_encode 8 z2 ++ le_encode 4 z3 ++ drop 20 d).
Proof.
  intros Hd. destruct (split_fields d Hd) as (a & b & c & Hs & Ha & Hb & Hc).
  set (e := drop 20 d) in *. clearbody e. subst d. unfold td_store, store_le.
  replace (td_off "target") with 0%nat by done. replace (td_off "cookie") with 8%nat by done.
  replace (td_off "code") with 16%nat by done. cbn [Nat.add].
  exists (le_encode 8 z1 ++ b ++ c ++ e), (le_encode 8 z1 ++ le_encode 8 z2 ++ c ++ e).
  split_and!.
  - apply (store_app [] a (b ++ c ++ e)). by rewrite length_le_encode.
  - replace 8%nat with (length (le_encode 8 z1)) at 1 by apply length_le_encode.
    apply store_app. by rewrite length_le_encode.
  - pose proof (store_app (le_encode 8 z1 ++ le_encode 8 z2) c e (le_encode 4 z3)) as H.
    rewrite length_app, !length_le_encode, <-!app_assoc in H. by apply H.
Qed.

Lemma read_transaction_Some d :
  (64 <= length d)%nat ->
  exists t, read_transaction d = Some t /\ td_load "target" 8 0 d = Some (tx_target t) /\
    td_load "cookie" 8 0 d = Some (tx_cookie t) /\ td_load "code" 4 0 d = Some (tx_code t) /\
    td_load "sender_euid" 4 0 d = Some (tx_euid t).
Proof.
  intros Hd.
  destruct (td_load_Some "target" 8 0 d) as [target Ht]; [vm_compute td_off; lia|].
  destruct (td_load_Some "cookie" 8 0 d) as [cookie Hc]; [vm_compute td_off; lia|].
  destruct (td_load_Some "code" 4 0 d) as [code Hcode]; [vm_compute td_off; lia|].
  destruct (td_load_Some "sender_euid" 4 0 d) as [euid He]; [vm_compute td_off; lia|].
  exists (Transaction target cookie code euid). unfold read_transaction.
  by rewrite Ht, Hc, Hcode, He.
Qed.

(** The answer the environment gives. *)
Tactic Notation "answer" ident(x) :=
  intros x; let H := fresh in intros H; simpl in H; subst x.

Section transaction_spec.
Variables (W g stub : Z) (reg : registry) (alive : Z -> bool) (refs_of : Z -> Z).
Hypothesis Hg : g <> 0.
Hypothesis Hstub : stub <> 0.
Abbreviation A := (hook_env reg alive refs_of).

Lemma inspect_target_spec d target cookie code :
  td_load "cookie" 8 0 d = Some cookie ->
  in_word W target -> target <> 0 -> in_word W cookie -> cookie <> 0 ->
  wpv A (inspect_target W g target code 0 d) (fun info =>
    info = (let w := Wp cookie (refs_of cookie) in
            if alive target && wants reg w code
            then Some {| transaction_code := code; target_binder := w |} else None)).
Proof.
  intros Hl Ht Ht0 Hc Hc0. unfold inspect_target, pointer.
  rewrite wrap_small by done. destruct (Z.eqb_spec target 0); [done|].
  apply wpv_bind, wpv_trigger. answer live. destruct (alive target); [|by apply wpv_ret].
  rewrite Hl. cbn [access]. apply wpv_bind, wpv_ret. rewrite wrap_small by done.
  unfold wp_fromExisting. destruct (Z.eqb_spec cookie 0); [done|].
  apply wpv_bind, wpv_bind, wpv_trigger. answer refs.
  apply wpv_bind, wpv_trigger. intros _ _. apply wpv_ret.
  destruct (Z.eqb_spec g 0); [done|]. apply wpv_bind, wpv_call. answer r.
  apply wpv_bind, shouldInterceptTransaction_wants; [done|].
  apply wpv_bind. eapply (wpv_mono _ _ (fun info => info = if wants reg (Wp cookie (refs_of cookie)) code
    then Some {| transaction_code := code; target_binder := Wp cookie (refs_of cookie) |} else None)).
  - destruct (wants reg _ code); [|by apply wpv_ret]. unfold wp_assign. by wpv_go.
  - intros info ->. apply wpv_bind, wpv_trigger. intros [] _. unfold wp_destroy.
    apply wpv_bind. by wpv_go.
Qed.

Lemma redirect_spec d :
  (20 <= length d)%nat ->
  wpv A (redirect stub 0 d) (fun d' => d' = redirected refs_of stub d).
Proof.
  intros Hd. unfold redirect. destruct (Z.eqb_spec stub 0); [done|].
  apply wpv_bind, wpv_trigger. answer refs.
  destruct (redirect_stores d (refs_of stub) stub kBackdoorCode Hd) as (d1 & d2 & H1 & H2 & H3).
  rewrite H1. apply wpv_bind, wpv_ret. rewrite H2. apply wpv_bind, wpv_ret.
  rewrite H3. by apply wpv_ret.
Qed.

Lemma processBinderTransaction_pure d queue :
  (sizeof binder_transaction_data <= length d)%nat ->
  (forall t, read_transaction d = Some t -> transaction_ok W t) ->
  wpv A (processBinderTransaction W g stub (Some 0%nat) d queue) (fun x =>
    x = match intercepted_payload reg alive refs_of d with
        | Some info => (true, redirected refs_of stub d, queue ++ [info])
        | None => (false, d, queue)
        end).
Proof.
  intros Hd Hok. unfold processBinderTransaction, intercepted_payload.
  assert (H64 : sizeof binder_transaction_data = 64%nat) by done. rewrite H64 in Hd.
  destruct (read_transaction_Some d Hd) as ([target cookie code euid] & Hread & Ht & Hc & Hcode & He).
  rewrite Hread. specialize (Hok _ Hread). cbn [mbind option_bind].
  unfold intercept, transaction_ok in *.
  cbn [tx_target tx_cookie tx_code tx_euid] in *. rewrite Ht. cbn [access].
  apply wpv_bind, wpv_ret. destruct (Z.eqb_spec target 0) as [|Ht0]; [by apply wpv_ret|].
  destruct (Hok Ht0) as (Hw & Hwc & Hc0). rewrite Hcode, He. cbn [access].
  apply wpv_bind, wpv_ret, wpv_bind, wpv_ret, wpv_bind.
  apply (wpv_mono _ _ (fun info => info = (
    if (code =? kBackdoorCode) && (euid =? 0)
    then Some {| transaction_code := kBackdoorCode; target_binder := wp_null |}
    else if kMaxUserTransactionCode <? code then None
    else let w := Wp cookie (refs_of cookie) in
      if alive target && wants reg w code
      then Some {| transaction_code := code; target_binder := w |} else None))).
  - destruct ((code =? kBackdoorCode) && (euid =? 0)); [by wpv_go|].
    destruct (kMaxUserTransactionCode <? code); [by apply wpv_ret|].
    by apply inspect_target_spec.
  - intros info Hinfo. cbv zeta in Hinfo |- *. rewrite <-Hinfo. clear Hinfo. destruct info as [info|]; [|by apply wpv_ret].
    apply wpv_bind. eapply wpv_mono; [apply redirect_spec; lia|]. intros ? ->.
    unfold wp_copy, wp_destroy. wpv_go; by destruct info as [? []].
Qed.
End transaction_spec.

(** ** The hook as a pure function of what the driver delivered *)

Section ioctl_spec.
Variables (W g stub : Z) (reg : registry) (alive : Z -> bool) (refs_of : Z -> Z).
Hypothesis Hg : g <> 0.
Hypothesis Hstub : stub <> 0.

(** The read buffer after the hook, and the entries queued. *)
Definition hooked_buffer (w : write_read) (mem : list byte)
  : list byte * list ThreadTransactionInfo :=
  let n := Z.to_nat (read_consumed w) in
  let '(cs, rest) := parse (take n mem) in
  (encode_commands (map (hooked_command reg alive refs_of stub) cs) ++ rest ++ drop n mem,
   omap (hooked_info reg alive refs_of) cs).

(** Whether the hook looks at the read buffer at all. *)
Definition hooks (result request argument : Z) : bool :=
  (0 <=? result) && (wrap 32 request =? BINDER_WRITE_READ) && negb (argument =? 0).

Definition payload_ok (c : command) : Prop :=
  is_transaction c.1 = true -> forall t, read_transaction c.2 = Some t -> transaction_ok W t.

Definition delivered (w : write_read) (mem : list byte) : Prop :=
  buffer_ok w mem /\
  Forall payload_ok (parse (take (Z.to_nat (read_consumed w)) mem)).1.

(** The environment of one [ioctl] whose call ended with [answer]. *)
Definition ioctl_env (answer : Z * list byte * list byte) (ev : event hookE) : Prop :=
  hook_env reg alive refs_of ev /\
  match ev with
  | Event e x =>
      match e in hookE X return X -> Prop with
      | OriginalIoctl _ _ _ => fun x => x = answer
      | _ => fun _ => True
      end x
  end.

Lemma redirect_commands_pure cs queue :
  Forall command_ok cs -> Forall payload_ok cs ->
  wpv (hook_env reg alive refs_of) (redirect_commands W g stub cs queue)
      (fun x => x = (map (hooked_command reg alive refs_of stub) cs,
                     queue ++ omap (hooked_info reg alive refs_of) cs)).
Proof.
  intros Hok. revert queue. induction Hok as [|[c d] cs [_ Hd] _ IH]; intros queue Hpay.
  { apply wpv_ret. simpl. by rewrite app_nil_r. }
  apply Forall_cons in Hpay as [Hp Hpay]. cbn [redirect_commands fst snd] in *.
  apply wpv_bind, (wpv_mono _ _ (fun x => x =
    ((hooked_command reg alive refs_of stub (c, d)).2,
     queue ++ option_list (hooked_info reg alive refs_of (c, d))))).
  - unfold hooked_command, hooked_info, payload_ok in *. cbn [fst snd] in *.
    destruct (is_transaction c) eqn:Ht.
    + apply wpv_bind. eapply wpv_mono; [apply processBinderTransaction_pure; try done|].
      { rewrite Hd. by apply is_transaction_size. }
      { by apply Hp. }
      intros ? ->. destruct (intercepted_payload reg alive refs_of d); apply wpv_ret; simpl;
        by rewrite ?app_nil_r.
    + apply wpv_ret. simpl. by rewrite app_nil_r.
  - intros ? ->. apply wpv_bind. eapply wpv_mono; [by apply IH|]. intros ? ->. apply wpv_ret.
    rewrite <-app_assoc. cbn [map omap list_omap].
    assert (hooked_command reg alive refs_of stub (c, d) =
            (c, (hooked_command reg alive refs_of stub (c, d)).2)) as <-.
    { unfold hooked_command. cbn [fst snd]. destruct (is_transaction c); [|done].
      by destruct (intercepted_payload _ _ _ _). }
    by destruct (hooked_info reg alive refs_of (c, d)).
Qed.

(** C1: the hook is transparent but for the redirected transactions.  The result
    of [ioctl] is passed through.  When the call succeeded, was
    [BINDER_WRITE_READ] and had an argument, exactly the transactions that
    [intercept] selects (a root caller's backdoor code, or a user code that the
    registry wants for a live target) have their target, cookie and code
    replaced by the stub's, and their original code and target are queued in
    delivery order; in every other case neither the buffer nor the queue
    changes. *)
Theorem intercepted_ioctl_function_spec (fd request argument result : Z) (arg mem : list byte)
    (w : write_read) (queue : list ThreadTransactionInfo) :
  (hooks result request argument = true ->
   read_write_read arg = Some w /\ delivered w mem) ->
  wpv (ioctl_env (result, arg, mem)) (intercepted_ioctl_function W g stub fd request argument queue)
      (fun x => x =
         if hooks result request argument
         then let '(mem', infos) := hooked_buffer w mem in (result, mem', queue ++ infos)
         else (result, mem, queue)).
Proof.
  intros Hin. unfold intercepted_ioctl_function. apply wpv_bind, wpv_call.
  intros x [_ Hx]. simpl in Hx. subst x. fold (hooks result request argument).
  destruct (hooks result request argument); [|by apply wpv_ret].
  destruct (Hin eq_refl) as (Harg & Hbuf & Hpay). rewrite Harg.
  apply wpv_bind, wpv_ret, wpv_bind.
  eapply wpv_peq; [symmetry; by apply processBinderWriteRead_peq|].
  unfold hooked_buffer. cbv zeta.
  destruct (parse _) as [cs rest] eqn:Hp. pose proof (parse_commands_encode _ _ _ _ Hp) as [_ Hok].
  apply wpv_bind. eapply wpv_mono.
  { eapply wpv_env; [|by apply redirect_commands_pure]. by intros ev [? _]. }
  intros ? ->. by apply wpv_ret, wpv_ret.
Qed.

(** C6: the hook is a map over the commands of the read buffer: it parses the
    [read_consumed] bytes into commands, passes every transaction through
    [processBinderTransaction] in order, and writes back everything else as it
    was: other commands, a truncated tail, the bytes past [read_consumed].  The
    bail-out on a lone command is only an optimisation.  In particular no access
    leaves the buffer and the loop ends. *)
Theorem processBinderWriteRead_commands (w : write_read) (mem : list byte)
    (queue : list ThreadTransactionInfo) :
  buffer_ok w mem ->
  processBinderWriteRead W g stub w mem queue ≃
  (let n := Z.to_nat (read_consumed w) in
   let '(cs, rest) := parse (take n mem) in
   '(cs, queue) ← redirect_commands W g stub cs queue;
   mret (encode_commands cs ++ rest ++ drop n mem, queue)).
Proof. apply processBinderWriteRead_peq. Qed.
End ioctl_spec.

(** ** Reference accounting of the hook *)

(** Weak references to block [r] that the queue holds. *)
Definition queue_weak (r : Z) (queue : list ThreadTransactionInfo) : Z :=
  lsum (fun i => wp_held r (target_binder i)) queue.

Definition info_weak (r : Z) (info : option ThreadTransactionInfo) : Z :=
  match info with Some i => wp_held r (target_binder i) | None => 0 end.

(** Pointers of a transaction the driver delivers to this process: [tx_target] is
    the reference block of the object [tx_cookie]. *)
Definition node_ok (W : Z) (owner : Z -> Z) (t : transaction) : Prop :=
  tx_target t <> 0 ->
  pointer W (tx_target t) <> 0 /\ pointer W (tx_cookie t) <> 0 /\
  owner (pointer W (tx_target t)) = pointer W (tx_cookie t).

Section accounting.
Variables (W g stub : Z) (owner : Z -> Z) (r o : Z).
Hypothesis Hg : g <> 0.
Hypothesis Hstub : stub <> 0.
Abbreviation wnets p f := (nets (E := hookE) (weak_delta r) p f).
Abbreviation snets p f := (nets (E := hookE) (strong_delta owner o) p f).

Lemma shouldInterceptTransaction_weak reg w code :
  wnets (shouldInterceptTransaction reg w code) (fun _ => 0).
Proof.
  unfold shouldInterceptTransaction. eapply nets_bind; [apply wp_convert_net|intros k].
  eapply nets_bind; [apply wp_destroy_net|intros []].
  destruct (map_find wp_ltb k reg); apply nets_ret; lia.
Qed.

Lemma inspect_target_weak d target cookie code :
  td_load "cookie" 8 0 d = Some cookie -> pointer W target <> 0 -> pointer W cookie <> 0 ->
  wnets (inspect_target W g target code 0 d) (info_weak r).
Proof.
  intros Hl Ht Hc. unfold inspect_target. destruct (Z.eqb_spec (pointer W target) 0); [done|].
  eapply (nets_bind _ _ _ (fun _ => 0)); [by apply nets_trigger|intros [|]]; [|by apply nets_ret].
  rewrite Hl. cbn [access]. bind_ret. eapply nets_bind; [apply wp_fromExisting_net|intros w].
  destruct (Z.eqb_spec g 0); [done|].
  eapply (nets_bind _ _ _ (fun _ => 0)); [by apply nets0_call|intros reg].
  eapply nets_bind; [apply shouldInterceptTransaction_weak|intros hit].
  eapply (nets_bind _ _ _ (info_weak r)).
  - destruct hit; [|by apply nets_ret]. eapply nets_bind; [apply wp_assign_net|intros t].
    apply nets_ret. unfold info_weak. simpl. unfold wp_held at 3. simpl. lia.
  - intros info. destruct (Z.eqb_spec (pointer W cookie) 0); [done|].
    eapply (nets_bind _ _ _ (fun _ => 0)); [by apply nets_trigger|intros []].
    eapply nets_bind; [apply wp_destroy_net|intros []]. apply nets_ret. lia.
Qed.

Lemma inspect_target_strong d target cookie code :
  td_load "cookie" 8 0 d = Some cookie -> pointer W target <> 0 -> pointer W cookie <> 0 ->
  owner (pointer W target) = pointer W cookie ->
  snets (inspect_target W g target code 0 d) (fun _ => 0).
Proof.
  intros Hl Ht Hc Ho. unfold inspect_target. destruct (Z.eqb_spec (pointer W target) 0); [done|].
  eapply (nets_bind _ _ _ (fun ok : bool => if ok then delta1 o (pointer W cookie) else 0)).
  { apply nets_trigger. intros ok. simpl. by rewrite Ho. }
  intros [|]; [|by apply nets_ret]. rewrite Hl. cbn [access]. bind_ret.
  eapply (nets_bind _ _ _ (fun _ => 0)); [unfold wp_fromExisting; nets0|intros w].
  destruct (Z.eqb_spec g 0); [done|].
  eapply (nets_bind _ _ _ (fun _ => 0)); [nets0|intros reg].
  eapply (nets_bind _ _ _ (fun _ => 0));
    [unfold shouldInterceptTransaction, wp_convert, wp_destroy; nets0|intros hit].
  eapply (nets_bind _ _ _ (fun _ => 0)); [unfold wp_assign; nets0|intros info].
  destruct (Z.eqb_spec (pointer W cookie) 0); [done|].
  eapply (nets_bind _ _ _ (fun _ => - delta1 o (pointer W cookie))); [by apply nets_trigger|intros []].
  eapply (nets_bind _ _ _ (fun _ => 0)); [unfold wp_destroy; nets0|intros []].
  apply nets_ret. lia.
Qed.

Lemma redirect_nets0 d :
  (20 <= length d)%nat ->
  wnets (redirect stub 0 d) (fun _ => 0) /\ snets (redirect stub 0 d) (fun _ => 0).
Proof.
  intros Hd. unfold redirect. destruct (Z.eqb_spec stub 0); [done|].
  split; (apply nets0_bind; [nets0|intros refs]);
    destruct (redirect_stores d refs stub kBackdoorCode Hd) as (d1 & d2 & H1 & H2 & H3);
    rewrite H1; cbn [access]; bind_ret; rewrite H2; cbn [access]; bind_ret; rewrite H3; cbn [access]; nets0.
Qed.

(** C23: the hook is balanced.  Whatever the target's state and the registry,
    the strong reference it takes to look at a target is given back, and the weak
    references it leaves behind are exactly those of the queued entries. *)
Theorem processBinderTransaction_accounting (d : list byte) (queue : list ThreadTransactionInfo) :
  (sizeof binder_transaction_data <= length d)%nat ->
  (forall t, read_transaction d = Some t -> node_ok W owner t) ->
  wnets (processBinderTransaction W g stub (Some 0%nat) d queue)
        (fun '(_, _, queue') => queue_weak r queue' - queue_weak r queue) /\
  snets (processBinderTransaction W g stub (Some 0%nat) d queue) (fun _ => 0).
Proof.
  intros Hd Hok. replace (sizeof binder_transaction_data) with 64%nat in Hd by done.
  destruct (read_transaction_Some d Hd) as (t & Ht & H1 & H2 & H3 & H4).
  specialize (Hok t Ht). unfold node_ok in Hok. unfold processBinderTransaction.
  rewrite H1, H3, H4. cbn [access]. bind_ret.
  destruct (Z.eqb_spec (tx_target t) 0) as [|Ht0]; [split; apply nets_ret; lia|].
  destruct (Hok Ht0) as (Hp & Hc & Ho). destruct (redirect_nets0 d) as [Hrw Hrs]; [lia|]. split.
  - eapply (nets_bind _ _ _ (info_weak r)).
    + destruct (_ && _); [|destruct (_ <? _)]; [by apply nets_ret..|].
      by eapply inspect_target_weak.
    + intros [info|]; [|apply nets_ret; simpl; lia].
      eapply nets_bind; [exact Hrw|intros d'].
      eapply nets_bind; [apply wp_copy_net|intros w].
      eapply nets_bind; [apply wp_destroy_net|intros []]. apply nets_ret.
      unfold queue_weak. rewrite lsum_app. simpl. lia.
  - apply nets0_bind.
    + destruct (_ && _); [|destruct (_ <? _)]; [unfold wp_assign_ptr; nets0|nets0|].
      by eapply inspect_target_strong.
    + intros [info|]; [|nets0]. apply nets0_bind; [exact Hrs|intros d'].
      unfold wp_copy, wp_destroy. nets0.
Qed.
End accounting.

(** ** Who can reach the stub's backdoor *)

Section backdoor.
Variables (W g stub : Z).

Lemma inspect_target_code target code d :
  wp (inspect_target W g target code 0 d)
     (fun r _ => match r with Done (Some i) => transaction_code i = code | _ => True end).
Proof.
  unfold inspect_target. destruct (pointer W target =? 0); [done|].
  apply wp_bind, wp_trigger. intros [|]; [|done]. unfold bindQ.
  destruct (td_load "cookie" 8 0 d) as [cookie|]; [|done]. cbn [access]. bind_ret.
  apply wp_bind, wp_true. intros [w| |] t; try done. unfold bindQ.
  destruct (g =? 0); [done|]. apply wp_bind. intros reg. unfold bindQ.
  apply wp_bind, wp_true. intros [hit| |] t1; try done. unfold bindQ.
  apply wp_bind, (wp_mono _ (fun r _ =>
    match r with Done (Some i) => transaction_code i = code | _ => True end)).
  - intros [info| |] t2 Hi; try done. unfold bindQ. destruct (pointer W cookie =? 0); [done|].
    apply wp_bind, wp_trigger. intros []. unfold bindQ.
    apply wp_bind, wp_true. by intros [[]| |] t3.
  - destruct hit; [|done]. apply wp_bind, wp_true. by intros [v| |] t2.
Qed.

Lemma wp_copy_same w :
  wp (E := hookE) (wp_copy w) (fun r _ => match r with Done w' => w' = w | _ => True end).
Proof. unfold wp_copy. destruct w as [p rf]. simpl. by destruct (p =? 0). Qed.

(** C7: only root gets the interceptor.  In every environment, a transaction adds
    at most one entry to the queue, keeping those before it.  An entry with the
    backdoor code, which makes the stub hand out the interceptor, comes from a
    transaction with that code whose sender is root; any other entry carries the
    transaction's own code, in the range of user codes. *)
Theorem backdoor_root_only (d : list byte) (queue : list ThreadTransactionInfo) :
  wp (processBinderTransaction W g stub (Some 0%nat) d queue)
     (fun r _ => match r with
      | Done (hit, d', queue') =>
          (hit = false /\ d' = d /\ queue' = queue) \/
          (hit = true /\ exists t i, read_transaction d = Some t /\ queue' = queue ++ [i] /\
             ((transaction_code i = kBackdoorCode /\ tx_code t = kBackdoorCode /\
               tx_euid t = 0 /\ target_binder i = wp_null) \/
              (transaction_code i = tx_code t /\ tx_code t <= kMaxUserTransactionCode)))
      | _ => True
      end).
Proof.
  unfold processBinderTransaction.
  destruct (td_load "target" 8 0 d) as [target|] eqn:Ht; [|done]. cbn [access]. bind_ret.
  destruct (target =? 0); [by left|].
  destruct (td_load "code" 4 0 d) as [code|] eqn:Hc; [|done]. cbn [access]. bind_ret.
  destruct (td_load "sender_euid" 4 0 d) as [euid|] eqn:He; [|done]. cbn [access]. bind_ret.
  set (good := fun i => (transaction_code i = kBackdoorCode /\ code = kBackdoorCode /\ euid = 0 /\
                         target_binder i = wp_null) \/
                        (transaction_code i = code /\ code <= kMaxUserTransactionCode)).
  apply wp_bind, (wp_mono _ (fun r _ => match r with Done (Some i) => good i | _ => True end)).
  - intros [[info|]| |] t0 Hi; try done; [|by left]. unfold bindQ.
    apply wp_bind. unfold redirect. destruct (stub =? 0); [done|].
    apply wp_bind, wp_trigger. intros refs. unfold bindQ at 1.
    destruct (td_store "target" 8 refs 0 d) as [d1|] eqn:H1; [|done]. cbn [access]. bind_ret.
    destruct (td_store "cookie" 8 stub 0 d1) as [d2|] eqn:H2; [|done]. cbn [access]. bind_ret.
    destruct (td_store "code" 4 kBackdoorCode 0 d2) as [d3|] eqn:H3; [|done]. cbn [access].
    unfold bindQ. apply wp_bind. eapply wp_mono; [|apply wp_copy_same].
    intros [w| |] t1 Hw; try done. subst w. unfold bindQ.
    apply wp_bind, wp_true. intros [[]| |] t2; try done. unfold bindQ. right. split; [done|].
    cbn [read_transaction]. unfold read_transaction. rewrite Ht, Hc, He.
    destruct (td_load "cookie" 8 0 d) as [cookie|] eqn:Hck.
    + exists (Transaction target cookie code euid), info. split_and!; [done| |exact Hi].
      do 2 f_equal. by destruct info.
    + exfalso. apply store_length in H1, H2. unfold td_store, store_le, store in H3.
      case_decide as Hl; [|done]. rewrite length_le_encode, H2, H1 in Hl.
      destruct (td_load_Some "cookie" 8 0 d); [|congruence]. revert Hl. vm_compute td_off. lia.
  - destruct ((code =? kBackdoorCode) && (euid =? 0)) eqn:Hb.
    + boolp. apply wp_bind. simpl. unfold good. by left.
    + destruct (Z.ltb_spec kMaxUserTransactionCode code); [done|].
      eapply wp_mono; [|apply inspect_target_code]. intros [[i|]| |] t0 Hi; try done. by right.
Qed.
End backdoor.

(** ** Installation: correctness *)

Inductive plti_call : Type :=
| CallInit
| CallAddLib (lib : string) (found : bool)
| CallAddHook (lib fn : string) (hook : Z) (hooked : bool) (original : Z).

Definition plti_calls (ev : event hookE) : list plti_call :=
  match ev with
  | Event e x =>
      match e in hookE X return X -> list plti_call with
      | PltiInit => fun _ => [CallInit]
      | PltiAddLib lib => fun found => [CallAddLib lib found]
      | PltiAddHook lib fn hook => fun '(hooked, original) =>
          [CallAddHook lib fn hook hooked original]
      | _ => fun _ => []
      end x
  end.

(** [new] does not return null. *)
Definition new_env (ev : event hookE) : Prop :=
  match ev with
  | Event e x =>
      match e in hookE X return X -> Prop with
      | HookRef r => match r in refE X return X -> Prop with
                     | NewObject => fun o => o <> 0
                     | _ => fun _ => True
                     end
      | _ => fun _ => True
      end x
  end.

Definition globals_strong (o : Z) (g : globals) : Z :=
  sp_held o (g_binder_interceptor g) + sp_held o (g_binder_stub g).

Section install_spec.
Variable hook : Z.

Lemma assign_new_spec g Q :
  (forall i, i <> 0 -> Q i []) -> wpc new_env plti_calls (assign_new g) Q.
Proof.
  intros HQ. unfold assign_new, sp_make, sp_move_assign, sp_destroy.
  apply wpc_bind, wpc_bind, wpc_trigger. intros o Ho. simpl in Ho.
  apply wpc_bind, wpc_trigger. intros [] _. apply wpc_ret, wpc_bind, wpc_bind.
  destruct (negb (g =? 0)).
  - apply wpc_trigger. intros [] _. apply wpc_ret. bind_ret. simpl. apply wpc_ret. by apply HQ.
  - apply wpc_ret, wpc_ret. simpl. apply wpc_ret. by apply HQ.
Qed.

Lemma sp_clear_spec p Q : Q 0 [] -> wpc new_env plti_calls (sp_clear p) Q.
Proof.
  intros HQ. unfold sp_clear. destruct (Z.eqb_spec p 0) as [->|]; cbn [negb]; [by apply wpc_ret|].
  apply wpc_bind, wpc_trigger. intros [] _. by apply wpc_ret.
Qed.

Lemma assign_new_net owner o g :
  o <> 0 ->
  nets (strong_delta owner o) (assign_new g) (fun i => sp_held o i - sp_held o g).
Proof.
  intros Ho. unfold assign_new. eapply nets_bind; [by apply sp_make_net|intros m].
  eapply (nets_bind _ _ _ (fun '(p, q) => sp_held o p + sp_held o q - sp_held o g - sp_held o m)).
  - unfold sp_move_assign. eapply nets_bind; [by apply when_dec_s|intros []]. apply nets_ret.
    unfold sp_held at 2. simpl. lia.
  - intros [p q]. eapply nets_bind; [by apply when_dec_s|intros []]. apply nets_ret. lia.
Qed.

Lemma clear_globals_net owner o g :
  o <> 0 ->
  nets (strong_delta owner o) (clear_globals g)
       (fun g' => globals_strong o g' - globals_strong o g).
Proof.
  intros Ho. unfold clear_globals, globals_strong. eapply nets_bind; [by apply sp_clear_net|intros i].
  eapply nets_bind; [by apply sp_clear_net|intros s]. apply nets_ret. simpl. lia.
Qed.

(** C24: installation is all or nothing.  It looks for libbinder, then hooks its
    [ioctl] with [intercepted_ioctl_function]; when a step fails the later ones
    are not tried, the answer is false and both globals are null again; when it
    succeeds both are set and the replaced function is recorded.  Either way the
    strong references taken are exactly those the globals hold. *)
Theorem initializeBinderInterception_spec (owner : Z -> Z) (o : Z) (g : globals) :
  o <> 0 ->
  wpc new_env plti_calls (initializeBinderInterception hook g) (fun '(ok, g') log =>
    let lib := kBinderLibraryName in
    let fn := kIoctlFunctionName in
    (ok = false /\ g_binder_interceptor g' = 0 /\ g_binder_stub g' = 0 /\
     (log = [CallInit; CallAddLib lib false] \/
      exists f, log = [CallInit; CallAddLib lib true; CallAddHook lib fn hook false f])) \/
    (ok = true /\ g_binder_interceptor g' <> 0 /\ g_binder_stub g' <> 0 /\
     log = [CallInit; CallAddLib lib true;
            CallAddHook lib fn hook true (original_ioctl_function g')])) /\
  nets (strong_delta owner o) (initializeBinderInterception hook g)
       (fun '(_, g') => globals_strong o g' - globals_strong o g).
Proof.
  intros Ho. unfold initializeBinderInterception. split.
  - apply wpc_bind, assign_new_spec. intros i Hi. apply wpc_bind, assign_new_spec. intros s Hs.
    destruct (Z.eqb_spec i 0), (Z.eqb_spec s 0); try done. cbn [orb].
    apply wpc_bind, wpc_call. intros [] _. apply wpc_bind, wpc_call. intros [|] _; cbn [negb].
    + apply wpc_bind, wpc_call. intros [[|] f] _; cbn [negb].
      * apply wpc_ret. right. by split_and!.
      * apply wpc_bind. unfold clear_globals. apply wpc_bind, sp_clear_spec, wpc_bind, sp_clear_spec.
        apply wpc_ret, wpc_ret. left. split_and!; try done. right. by exists f.
    + apply wpc_bind. unfold clear_globals. apply wpc_bind, sp_clear_spec, wpc_bind, sp_clear_spec.
      apply wpc_ret, wpc_ret. left. split_and!; try done. by left.
  - eapply nets_bind; [by apply assign_new_net|intros i]. eapply nets_bind; [by apply assign_new_net|intros s].
    destruct ((i =? 0) || (s =? 0)); [apply nets_ret; unfold globals_strong; simpl; lia|].
    eapply (nets_bind _ _ _ (fun _ => 0)); [by apply nets0_call|intros []].
    eapply (nets_bind _ _ _ (fun _ => 0)); [by apply nets0_call|intros [|]]; cbn [negb].
    + eapply (nets_bind _ _ _ (fun _ => 0)); [by apply nets0_call|intros [[|] f]]; cbn [negb].
      * apply nets_ret. unfold globals_strong. simpl. lia.
      * eapply nets_bind; [by apply clear_globals_net|intros g']. apply nets_ret.
        unfold globals_strong. simpl. lia.
    + eapply nets_bind; [by apply clear_globals_net|intros g']. apply nets_ret.
      unfold globals_strong. simpl. lia.
Qed.
End install_spec.

(** ** A concrete read buffer

    [BR_NOOP], then a transaction with code 3 for the sample service, whose
    reference block is 7, then two bytes the driver did not write. *)
Module HookSample.
Import Sample.

Definition tx (target cookie code euid : Z) : list byte :=
  le_encode 8 target ++ le_encode 8 cookie ++ le_encode 4 code ++ le_encode 4 16 ++
  le_encode 4 777 ++ le_encode 4 euid ++ repeat Byte.x00 32.

Definition commands : list byte :=
  le_encode 4 BR_NOOP ++ le_encode 4 BR_TRANSACTION ++ tx 7 service 3 10123.

Definition mem : list byte := commands ++ [Byte.x2a; Byte.x2a].
Definition bwr : write_read := WriteRead 74 72 4096.
Definition arg : list byte :=
  le_encode 8 0 ++ le_encode 8 0 ++ le_encode 8 0 ++ le_encode 8 74 ++ le_encode 8 72 ++
  le_encode 8 4096.

Definition alive (refs : Z) : bool := true.
Definition refs_of (o : Z) : Z := if o =? 64 then 65 else block o.

(** The environment in which the driver delivers [mem]. *)
Definition answer (X : Type) (e : hookE X) (s : unit) : X * unit :=
  (match e in hookE X return X with
   | HookRef r => match r in refE X return X with
                  | GetWeakRefs o => refs_of o
                  | r => ref_answer r
                  end
   | ReadRegistry => reg
   | OriginalIoctl _ _ _ => (0, arg, mem)
   | PltiInit => tt
   | PltiAddLib _ => true
   | PltiAddHook _ _ _ => (true, 4242)
   end, s).

Definition ioctl (request : Z) :=
  run answer (intercepted_ioctl_function 64 1 64 9 request 8192 []) tt.

(** The transaction now names the stub, object 64 with block 65. *)
Example ioctl_redirects :
  (ioctl BINDER_WRITE_READ).1.1 =
    Done (0, le_encode 4 BR_NOOP ++ le_encode 4 BR_TRANSACTION ++
             tx 65 64 kBackdoorCode 10123 ++ [Byte.x2a; Byte.x2a],
          [{| transaction_code := 3; target_binder := key |}]).
Proof. by vm_compute. Qed.

Example ioctl_other : (ioctl 0xc0046209).1.1 = Done (0, mem, []).
Proof. by vm_compute. Qed.

Lemma mem_ok : buffer_ok bwr mem.
Proof. repeat split; by vm_compute. Qed.

Lemma mem_delivered : delivered 64 bwr mem.
Proof.
  split; [exact mem_ok|].
  replace (parse (take (Z.to_nat (read_consumed bwr)) mem)).1
    with [(BR_NOOP, []); (BR_TRANSACTION, tx 7 service 3 10123)] by (by vm_compute).
  apply Forall_cons; split; [|apply Forall_singleton]; intros Ht t Hr; [by vm_compute in Ht|].
  assert (t = Transaction 7 16 3 10123) as -> by (vm_compute in Hr; congruence).
  intros _. by vm_compute.
Qed.
End HookSample.

Lemma processBinderWriteRead_commands_witness :
  buffer_ok HookSample.bwr HookSample.mem /\
  processBinderWriteRead 64 1 64 HookSample.bwr HookSample.mem [] ≃
  (let n := Z.to_nat (read_consumed HookSample.bwr) in
   let '(cs, rest) := parse (take n HookSample.mem) in
   '(cs, queue) ← redirect_commands 64 1 64 cs [];
   mret (encode_commands cs ++ rest ++ drop n HookSample.mem, queue)).
Proof.
  split; [apply HookSample.mem_ok|]. apply processBinderWriteRead_commands.
  apply HookSample.mem_ok.
Defined.

Lemma intercepted_ioctl_function_spec_witness :
  wpv (ioctl_env Sample.reg HookSample.alive HookSample.refs_of (0, HookSample.arg, HookSample.mem))
      (intercepted_ioctl_function 64 1 64 9 BINDER_WRITE_READ 8192 [])
      (fun x => x = (0, le_encode 4 BR_NOOP ++ le_encode 4 BR_TRANSACTION ++
                        HookSample.tx 65 64 kBackdoorCode 10123 ++ [Byte.x2a; Byte.x2a],
                     [{| transaction_code := 3; target_binder := Sample.key |}])).
Proof.
  eapply wpv_mono; [apply (intercepted_ioctl_function_spec 64 1 64 Sample.reg HookSample.alive
    HookSample.refs_of ltac:(done) ltac:(done) 9 BINDER_WRITE_READ 8192 0 HookSample.arg
    HookSample.mem HookSample.bwr [])|].
  - intros _. split; [by vm_compute|apply HookSample.mem_delivered].
  - intros x ->. by vm_compute.
Defined.

Lemma processBinderTransaction_accounting_witness :
  nets (weak_delta 7) (processBinderTransaction 64 1 64 (Some 0%nat) (HookSample.tx 7 16 3 0) [])
       (fun '(_, _, queue') => queue_weak 7 queue' - queue_weak 7 []) /\
  nets (strong_delta Sample.owner 16)
       (processBinderTransaction 64 1 64 (Some 0%nat) (HookSample.tx 7 16 3 0) []) (fun _ => 0).
Proof.
  apply (processBinderTransaction_accounting 64 1 64 Sample.owner 7 16); [done|done|by vm_compute; lia|].
  intros t Ht. assert (t = Transaction 7 16 3 0) as -> by (vm_compute in Ht; congruence).
  intros _. by vm_compute.
Defined.

Lemma initializeBinderInterception_spec_witness :
  wpc new_env plti_calls (initializeBinderInterception 77 (Globals 0 0 0)) (fun '(ok, g') log =>
    let lib := kBinderLibraryName in
    let fn := kIoctlFunctionName in
    (ok = false /\ g_binder_interceptor g' = 0 /\ g_binder_stub g' = 0 /\
     (log = [CallInit; CallAddLib lib false] \/
      exists f, log = [CallInit; CallAddLib lib true; CallAddHook lib fn 77 false f])) \/
    (ok = true /\ g_binder_interceptor g' <> 0 /\ g_binder_stub g' <> 0 /\
     log = [CallInit; CallAddLib lib true;
            CallAddHook lib fn 77 true (original_ioctl_function g')])) /\
  nets (strong_delta Sample.owner 48) (initializeBinderInterception 77 (Globals 0 0 0))
       (fun '(_, g') => globals_strong 48 g' - globals_strong 48 (Globals 0 0 0)).
Proof. apply (initializeBinderInterception_spec 77 Sample.owner 48 (Globals 0 0 0)). done. Defined.
