(* ===== verification/HookTime.v ===== *)
(** * How long the ioctl hook runs

    The loop over the read buffer ends whatever bytes the driver delivered, and the
    calls it makes are linear in their number: a round that calls anything consumes a
    whole transaction.  [Steps n p] bounds the calls of all executions of [p]; it is a
    class, so that the bounds of the pieces are found by their instances. *)

From S2P Require Import Prelude Prog BinderUapi RefBase Parcel Registry Interceptor IoctlHook.
Local Open Scope Z_scope.

Class Steps {E : Type -> Type} {A : Type} (n : nat) (p : prog E A) : Prop :=
  steps : wp p (fun r t => r <> Timeout /\ (length t <= n)%nat).

Section steps.
Context {E : Type -> Type}.

#[export] Instance steps_ret {A} (x : A) : Steps 0 (mret x : prog E A).
Proof. split; [done|]. simpl. lia. Qed.

#[export] Instance steps_crash {A} : Steps 0 (Crash : prog E A).
Proof. split; [done|]. simpl. lia. Qed.

#[export] Instance steps_call {X} (e : E X) : Steps 1 (call e).
Proof. intros x. split; [done|]. simpl. lia. Qed.

#[export] Instance steps_trigger {F} `{!Sub F E} {X} (e : F X) : Steps 1 (trigger e : prog E X).
Proof. apply steps_call. Qed.

#[export] Instance steps_when b n (p : prog E unit) : Steps n p -> Steps n (when b p).
Proof. destruct b; [done|]. intros _. split; [done|]. simpl. lia. Qed.

Lemma steps_mono {A} n m (p : prog E A) : Steps n p -> (n <= m)%nat -> Steps m p.
Proof. intros Hp Hn. eapply wp_mono; [|exact Hp]. simpl. intros r t [? ?]. split; [done|lia]. Qed.

Lemma steps_bind {A B} k n (p : prog E A) (f : A -> prog E B) :
  Steps k p -> (k <= n)%nat -> (forall x, Steps (n - k) (f x)) -> Steps n (p ≫= f).
Proof.
  intros Hp Hk Hf. apply wp_bind. eapply wp_mono; [|exact Hp]. simpl.
  intros [x| |] t [Ht Hl]; simpl; [|done|split; [done|lia]].
  eapply wp_mono; [|apply Hf]. simpl. intros r t' [Hr Hl']. split; [done|].
  rewrite length_app. lia.
Qed.
(** Programs with the same executions take the same steps. *)
#[export] Instance steps_proper A n : Proper (@peq E A ==> iff) (Steps n).
Proof.
  intros p p' Hp. unfold Steps. rewrite !wp_exec. split; intros H t r Hr; apply H; by apply Hp.
Qed.
End steps.

(** [steps_go] follows the program: it splits conditions and finds the bounds of calls. *)
Ltac steps_go :=
  repeat first
    [ progress cbn [Nat.sub]
    | match goal with
      | |- Steps _ ((if ?b then _ else _) ≫= _) => destruct b
      | |- Steps _ ((match ?o with Some _ => _ | None => _ end) ≫= _) => destruct o
      | |- Steps _ ((_ ≫= _) ≫= _) => rewrite bind_assoc
      | |- Steps _ (_ ≫= _) => eapply steps_bind; [apply _|lia|intros ?]
      | |- Steps _ (if ?b then _ else _) => destruct b
      | |- Steps _ (match ?o with Some _ => _ | None => _ end) => destruct o
      | |- Steps _ (let '(_, _) := ?x in _) => destruct x
      end
    | eapply steps_mono; [apply _|lia] ].

(** ** Smart pointers *)

Section pointers.
Context {E : Type -> Type} `{!Sub refE E}.

#[export] Instance steps_wp_copy w : Steps 1 (wp_copy w : prog E wp_t).
Proof. unfold wp_copy. steps_go. Qed.

#[export] Instance steps_wp_convert w : Steps 1 (wp_convert w : prog E wp_t).
Proof. unfold wp_convert. steps_go. Qed.

#[export] Instance steps_wp_destroy w : Steps 1 (wp_destroy w : prog E unit).
Proof. unfold wp_destroy. steps_go. Qed.

#[export] Instance steps_wp_fromExisting o : Steps 2 (wp_fromExisting o : prog E wp_t).
Proof. unfold wp_fromExisting. steps_go. Qed.

(** The assigned pointer was null. *)
#[export] Instance steps_wp_assign_null w : Steps 1 (wp_assign wp_null w : prog E wp_t).
Proof. unfold wp_assign. cbn [wp_null m_ptr Z.eqb negb when]. steps_go. Qed.

#[export] Instance steps_wp_assign_ptr_null : Steps 0 (wp_assign_ptr wp_null 0 : prog E wp_t).
Proof. unfold wp_assign_ptr. cbn [wp_null m_ptr Z.eqb negb when]. steps_go. Qed.

#[export] Instance steps_shouldInterceptTransaction reg w code :
  Steps 2 (shouldInterceptTransaction reg w code : prog E bool).
Proof. unfold shouldInterceptTransaction. cbn zeta. steps_go. Qed.
End pointers.

(** ** The hook *)

(** Calls of one intercepted transaction, and the bytes of its command. *)
Definition transaction_calls : nat := 12.
Definition transaction_bytes : Z := 4 + Z.of_nat (sizeof binder_transaction_data).

Section hook.
Variables (W g stub : Z).

#[export] Instance steps_access {A} (o : option A) : Steps 0 (access o).
Proof. unfold access. steps_go. Qed.

#[export] Instance steps_inspect_target target_ptr code p mem :
  Steps 9 (inspect_target W g target_ptr code p mem).
Proof. unfold inspect_target. cbn zeta. steps_go. Qed.

#[export] Instance steps_redirect p mem : Steps 1 (redirect stub p mem).
Proof. unfold redirect. steps_go. Qed.

#[export] Instance steps_processBinderTransaction td mem q :
  Steps transaction_calls (processBinderTransaction W g stub td mem q).
Proof. unfold processBinderTransaction, transaction_calls. steps_go. Qed.

Lemma bytes_68 : transaction_bytes = 68.
Proof. done. Qed.

Lemma transaction_size c : is_transaction c = true -> transaction_bytes <= 4 + IOC_SIZE c.
Proof.
  intros Hc%is_transaction_size. unfold transaction_bytes.
  change (sizeof binder_transaction_data) with 64%nat in *. lia.
Qed.

(** The executions of the loop: the calls are paid for by the bytes consumed. *)
Lemma command_loop_steps fuel ptr remaining mem q :
  (Z.to_nat remaining < fuel)%nat ->
  wp (command_loop W g stub fuel ptr remaining mem q) (fun r t =>
    r <> Timeout /\
    transaction_bytes * Z.of_nat (length t) <= Z.of_nat transaction_calls * Z.max 0 remaining).
Proof.
  revert ptr remaining mem q. induction fuel as [|fuel IH]; intros ptr remaining mem q Hf; [lia|].
  cbn [command_loop]. destruct (Z.ltb_spec 0 remaining) as [Hpos|]; [|split; [done|simpl; lia]].
  destruct (Z.ltb_spec remaining 4); [split; [done|simpl; lia]|].
  destruct (load_le ptr 4 mem) as [c|] eqn:Hc; [|split; [done|simpl; lia]].
  cbn [access]. bind_ret. apply load_le_range in Hc. pose proof (IOC_SIZE_range c (proj1 Hc)).
  destruct (Z.ltb_spec (remaining - 4) (IOC_SIZE c)); [split; [done|simpl; lia]|].
  assert (forall (x : list byte * list ThreadTransactionInfo) ptr',
    let '(mem, q) := x in
    wp (command_loop W g stub fuel ptr' (remaining - 4 - IOC_SIZE c) mem q) (fun r t =>
      r <> Timeout /\
      transaction_bytes * Z.of_nat (length t) <=
        Z.of_nat transaction_calls * (remaining - 4 - IOC_SIZE c))) as Hrest.
  { intros [mem' q'] ptr'. eapply wp_mono; [|apply IH; lia]. simpl.
    intros r t. by rewrite Z.max_r by lia. }
  rewrite Z.max_r by lia. apply wp_bind. destruct (is_transaction c) eqn:Ht.
  - apply transaction_size in Ht.
    eapply wp_mono; [|apply (steps_bind transaction_calls transaction_calls); [apply _|lia|]].
    + simpl. intros [x| |] t [Hr Hl]; simpl; [|done|].
      * specialize (Hrest x). destruct x as [mem' q']. eapply wp_mono; [|apply Hrest]. simpl.
        intros r t' [Hr' Hl']. split; [done|]. rewrite length_app. rewrite bytes_68 in *.
        unfold transaction_calls in *. lia.
      * split; [done|]. rewrite bytes_68 in *. unfold transaction_calls in *. lia.
    + intros [[b mem'] q']. apply steps_ret.
  - simpl. specialize (Hrest (mem, q)). simpl in Hrest. eapply wp_mono; [|apply Hrest]. simpl.
    intros r t [Hr Hl]. split; [done|]. unfold transaction_calls in *. lia.
Qed.

(** C8: whatever bytes the driver delivers, and whatever the other threads and the
    reference counters do, the pass over the read buffer ends, and it makes at most
    [transaction_calls] calls for every [transaction_bytes] bytes the driver reports. *)
Theorem processBinderWriteRead_terminates (w : write_read) (mem : list byte)
    (queue : list ThreadTransactionInfo) :
  wp (processBinderWriteRead W g stub w mem queue) (fun r t =>
    r <> Timeout /\
    transaction_bytes * Z.of_nat (length t) <=
      Z.of_nat transaction_calls * Z.max 0 (read_consumed w)).
Proof.
  unfold processBinderWriteRead. destruct (_ || _); [split; [done|simpl; lia]|].
  destruct (load_le 0 4 mem) as [c|]; [|split; [done|simpl; lia]]. cbn [access]. bind_ret.
  destruct (_ && _); [split; [done|simpl; lia]|]. apply command_loop_steps. lia.
Qed.
End hook.
