(* ===== verification/CText.v ===== *)
(** * C text conversions

    What the sources use of [<cctype>], [sscanf], [strtol] and [snprintf], on
    strings without their terminating NUL: character classes, the conversions
    [%lx], [%x], [%lu] and [%4s] with the literal and white-space directives
    between them, and [strtol] in base 10. *)

From Stdlib Require Export Ascii.
From S2P Require Import Prelude.
Local Open Scope Z_scope.

Definition chr (a : ascii) : Z := Z.of_N (Ascii.N_of_ascii a).

(** [isspace] in the C locale *)
Definition isspace (a : ascii) : bool :=
  ((9 <=? chr a) && (chr a <=? 13)) || (chr a =? 32).

(** The value of a digit, letters counting from 10. *)
Definition digit_of (a : ascii) : option Z :=
  let c := chr a in
  if (48 <=? c) && (c <=? 57) then Some (c - 48)
  else if (65 <=? c) && (c <=? 90) then Some (c - 55)
  else if (97 <=? c) && (c <=? 122) then Some (c - 87)
  else None.

Definition digit (base : Z) (a : ascii) : option Z :=
  match digit_of a with Some d => if d <? base then Some d else None | None => None end.

Fixpoint skip_space (s : string) : string :=
  match s with
  | String a s' => if isspace a then skip_space s' else s
  | EmptyString => s
  end.

(** The digits at the front of [s], and the rest. *)
Fixpoint span_digits (base : Z) (s : string) : list Z * string :=
  match s with
  | String a s' =>
      match digit base a with
      | Some d => let '(ds, r) := span_digits base s' in (d :: ds, r)
      | None => ([], s)
      end
  | EmptyString => ([], s)
  end.

Definition digits_value (base : Z) (ds : list Z) : Z :=
  fold_left (fun v d => v * base + d) ds 0.

(** An optional sign: whether it was a minus. *)
Definition read_sign (s : string) : bool * string :=
  match s with
  | String a s' =>
      if Ascii.eqb a "-" then (true, s')
      else if Ascii.eqb a "+" then (false, s') else (false, s)
  | EmptyString => (false, s)
  end.

(** The optional prefix of a hexadecimal number. *)
Definition skip_0x (base : Z) (s : string) : string :=
  match s with
  | String a (String b s') =>
      if (base =? 16) && Ascii.eqb a "0" && (Ascii.eqb b "x" || Ascii.eqb b "X") then s' else s
  | _ => s
  end.

(** ** scanf

    A directive matches, fails to match, or has a value its type cannot hold,
    for which C defines no behaviour. *)
Inductive scanned (A : Type) : Type :=
| Got (a : A) (rest : string)
| Mismatch
| Undefined.
Arguments Got {A} a rest.
Arguments Mismatch {A}.
Arguments Undefined {A}.

Definition scan_bind {A B} (r : scanned A) (k : A -> string -> scanned B) : scanned B :=
  match r with
  | Got a rest => k a rest
  | Mismatch => Mismatch
  | Undefined => Undefined
  end.

(** [%lx], [%x] (base 16) and [%lu] (base 10) into a [w]-bit unsigned object *)
Definition scan_unsigned (base w : Z) (s : string) : scanned Z :=
  let '(neg, s) := read_sign (skip_space s) in
  match span_digits base (skip_0x base s) with
  | ([], _) => Mismatch
  | (ds, rest) =>
      let v := digits_value base ds in
      if v <? 2 ^ w then Got (if neg : bool then wrap w (- v) else v) rest else Undefined
  end.

(** a character of the format *)
Definition scan_literal (c : ascii) (s : string) : scanned unit :=
  match s with
  | String a s => if decide (a = c) then Got tt s else Mismatch
  | EmptyString => Mismatch
  end.

(** white space in the format *)
Definition scan_space (s : string) : scanned unit := Got tt (skip_space s).

Fixpoint span_word (n : nat) (s : string) : string * string :=
  match n, s with
  | S n, String a s' =>
      if isspace a then (EmptyString, s)
      else let '(w, r) := span_word n s' in (String a w, r)
  | _, _ => (EmptyString, s)
  end.

(** [%<n>s] *)
Definition scan_word (n : nat) (s : string) : scanned string :=
  match span_word n (skip_space s) with
  | (EmptyString, _) => Mismatch
  | (w, rest) => Got w rest
  end.

(** ** strtol

    In base 10, with [long] [w] bits wide: the value, saturated, and the text
    [endptr] points to, which is all of it when there is no number. *)
Definition strtol10 (w : Z) (s : string) : Z * string :=
  let '(neg, s') := read_sign (skip_space s) in
  match span_digits 10 s' with
  | ([], _) => (0, s)
  | (ds, rest) =>
      let v := digits_value 10 ds in
      let v := if neg : bool then - v else v in
      (Z.max (- 2 ^ (w - 1)) (Z.min v (2 ^ (w - 1) - 1)), rest)
  end.

(** ** Printing *)

Definition digit_chr (d : Z) : ascii :=
  Ascii.ascii_of_N (Z.to_N (if d <? 10 then d + 48 else d + 87)).

(** The digits of a number, at least one, in [fuel] rounds. *)
Fixpoint print_digits (fuel : nat) (base z : Z) (acc : string) : string :=
  match fuel with
  | O => acc
  | S fuel =>
      let acc := String (digit_chr (z mod base)) acc in
      if z / base =? 0 then acc else print_digits fuel base (z / base) acc
  end.

(** [%d] of a number that is not negative: an [int] has at most 10 digits *)
Definition print_dec (z : Z) : string := print_digits 20 10 z EmptyString.

(** ** Lemmas *)

(** [text base t v]: [t] is a sequence of digits with value [v]. *)
Definition text (base : Z) (t : string) (v : Z) : Prop :=
  exists ds, span_digits base t = (ds, EmptyString) /\ ds <> [] /\ digits_value base ds = v.

Definition is_text (base : Z) (t : string) (v : Z) : bool :=
  match span_digits base t with
  | (d :: ds, EmptyString) => digits_value base (d :: ds) =? v
  | _ => false
  end.

Lemma is_text_spec base t v : is_text base t v = true -> text base t v.
Proof.
  unfold is_text, text. destruct (span_digits base t) as [[|d ds] [|a r]]; try done.
  intros H. boolp. by exists (d :: ds).
Qed.

(** What may follow a number. *)
Definition no_digit (base : Z) (s : string) : Prop :=
  match s with String a _ => digit base a = None | EmptyString => True end.

Lemma span_digits_app base t ds s :
  span_digits base t = (ds, EmptyString) -> no_digit base s ->
  span_digits base (t +:+ s) = (ds, s).
Proof.
  revert ds. induction t as [|a t IH]; intros ds.
  - intros [= <-] Hs. destruct s as [|b s]; [done|]. change (span_digits base (String b s) = ([], String b s)).
    cbn [span_digits]. unfold no_digit in Hs. by rewrite Hs.
  - change (String a t +:+ s) with (String a (t +:+ s)). cbn [span_digits].
    destruct (digit base a) as [d|]; [|done].
    destruct (span_digits base t) as [ds' r] eqn:E. intros [= <- ->] Hs.
    by rewrite (IH ds').
Qed.

Lemma span_digits_all base s ds r :
  span_digits base s = (ds, r) -> Forall (fun d => 0 <= d < base) ds.
Proof.
  revert ds. induction s as [|a s IH]; intros ds; simpl; [by intros [= <- _]|].
  destruct (digit base a) as [d|] eqn:Hd; [|by intros [= <- _]].
  destruct (span_digits base s) as [ds' r'] eqn:E. intros [= <- ->].
  constructor; [|by apply IH]. unfold digit, digit_of in Hd.
  repeat case_match; simplify_eq; boolp; lia.
Qed.

Lemma digit_Some base a d :
  digit base a = Some d -> isspace a = false /\ Ascii.eqb a "-" = false /\ Ascii.eqb a "+" = false.
Proof.
  intros Hd. split_and!.
  - unfold digit, digit_of in Hd. unfold isspace.
    repeat case_match; simplify_eq; boolp; rewrite orb_false_iff, andb_false_iff;
      rewrite !Z.leb_gt, Z.eqb_neq; lia.
  - destruct (Ascii.eqb_spec a "-"); [by subst|done].
  - destruct (Ascii.eqb_spec a "+"); [by subst|done].
Qed.

(** What may follow a number in base 16, the letter of the prefix excluded. *)
Definition no_x (s : string) : Prop :=
  match s with String a _ => Ascii.eqb a "x" = false /\ Ascii.eqb a "X" = false | _ => True end.

Lemma text_nonneg base t v : 0 < base -> text base t v -> 0 <= v.
Proof.
  intros Hb (ds & Hs & _ & <-). apply span_digits_all in Hs. unfold digits_value.
  assert (H : forall z, 0 <= z -> 0 <= fold_left (fun v d => v * base + d) ds z).
  { induction Hs as [|d ds Hd _ IH]; simpl; intros z Hz; [done|]. apply IH. nia. }
  by apply H.
Qed.

(** The first character of a number. *)
Lemma text_head base t v :
  text base t v -> exists a t' d, t = String a t' /\ digit base a = Some d.
Proof.
  intros (ds & Hs & Hne & _). destruct t as [|a t]; [by simplify_eq/=|].
  cbn [span_digits] in Hs. destruct (digit base a) as [d|] eqn:Hd; [|by simplify_eq]. eauto.
Qed.

Lemma skip_0x_text base t v s :
  text base t v -> no_x s -> skip_0x base (t +:+ s) = t +:+ s.
Proof.
  intros Ht Hx. destruct (text_head _ _ _ Ht) as (a & t' & d & -> & Hd).
  change (String a t' +:+ s) with (String a (t' +:+ s)).
  assert (Hno : no_x (t' +:+ s) \/ base <> 16).
  { destruct (decide (base = 16)) as [->|]; [left|by right].
    destruct t' as [|b t']; [exact Hx|]. change (String b t' +:+ s) with (String b (t' +:+ s)).
    destruct Ht as (ds & Hs & _). cbn [span_digits] in Hs. rewrite Hd in Hs.
    destruct (digit 16 b) as [e|] eqn:Hb; [|by simplify_eq].
    split; [destruct (Ascii.eqb_spec b "x")|destruct (Ascii.eqb_spec b "X")]; by subst. }
  unfold skip_0x. destruct (t' +:+ s) as [|b r]; [done|].
  destruct Hno as [[H1 H2]|Hb]; [rewrite H1, H2; by rewrite andb_false_r|].
  by destruct (Z.eqb_spec base 16).
Qed.

(** Reading back a number the format ends at. *)
Lemma scan_unsigned_text base w t v s :
  0 < base -> text base t v -> v < 2 ^ w -> no_digit base s -> no_x s ->
  scan_unsigned base w (t +:+ s) = Got v s.
Proof.
  intros Hb Ht Hv Hs Hx. unfold scan_unsigned.
  destruct (text_head _ _ _ Ht) as (a & t' & d & -> & Hd).
  destruct (digit_Some _ _ _ Hd) as (H1 & H2 & H3).
  change (String a t' +:+ s) with (String a (t' +:+ s)). cbn [skip_space]. rewrite H1.
  cbn [read_sign]. rewrite H2, H3. change (String a (t' +:+ s)) with (String a t' +:+ s).
  rewrite (skip_0x_text _ _ _ _ Ht Hx). destruct Ht as (ds & Hspan & Hne & <-).
  rewrite (span_digits_app _ _ _ _ Hspan Hs). destruct ds as [|e ds]; [done|].
  destruct (Z.ltb_spec (digits_value base (e :: ds)) (2 ^ w)); [done|lia].
Qed.

Lemma scan_unsigned_space base w s :
  scan_unsigned base w (String " " s) = scan_unsigned base w s.
Proof. done. Qed.

Lemma digit_digit_chr base d : base <= 16 -> 0 <= d < base -> digit base (digit_chr d) = Some d.
Proof.
  intros Hb Hd.
  assert (H : digit_of (digit_chr d) = Some d).
  { assert (Hin : d ∈ [0;1;2;3;4;5;6;7;8;9;10;11;12;13;14;15])
      by (rewrite !elem_of_cons; lia).
    rewrite !elem_of_cons, elem_of_nil in Hin.
    repeat (destruct Hin as [->|Hin]; [by vm_compute|]). done. }
  unfold digit. rewrite H. destruct (Z.ltb_spec d base); [done|lia].
Qed.

Lemma print_digits_span fuel base z acc ds :
  2 <= base <= 16 -> 0 <= z < base ^ Z.of_nat fuel -> (0 < fuel)%nat ->
  span_digits base acc = (ds, EmptyString) ->
  exists ds', span_digits base (print_digits fuel base z acc) = (ds' ++ ds, EmptyString) /\
              ds' <> [] /\ digits_value base ds' = z.
Proof.
  intros Hb. revert z acc ds. induction fuel as [|fuel IH]; intros z acc ds Hz Hf Hacc; [lia|].
  rewrite Nat2Z.inj_succ, Z.pow_succ_r in Hz by lia. cbn [print_digits].
  pose proof (Z.mod_pos_bound z base ltac:(lia)) as Hm.
  pose proof (Z.div_mod z base ltac:(lia)) as Hdm.
  assert (Hacc' : span_digits base (String (digit_chr (z mod base)) acc) =
                  (z mod base :: ds, EmptyString)).
  { cbn [span_digits]. rewrite digit_digit_chr by lia. by rewrite Hacc. }
  destruct (Z.eqb_spec (z / base) 0) as [H0|H0].
  - exists [z mod base]. split_and!; [exact Hacc'|done|]. unfold digits_value. simpl. lia.
  - assert (0 < z / base) by (pose proof (Z.div_pos z base ltac:(lia) ltac:(lia)); lia).
    assert (z / base < base ^ Z.of_nat fuel) by (apply Z.div_lt_upper_bound; lia).
    assert (0 < fuel)%nat by (destruct fuel; [change (base ^ Z.of_nat 0) with 1 in *; lia|lia]).
    destruct (IH (z / base) _ _ ltac:(lia) ltac:(lia) Hacc') as (ds' & Hs & Hne & Hv).
    exists (ds' ++ [z mod base]). rewrite <-app_assoc. split_and!; [exact Hs|by destruct ds'|].
    unfold digits_value in *. rewrite fold_left_app, Hv. simpl. lia.
Qed.

(** A printed number is the text of its value. *)
Lemma print_dec_text z : 0 <= z < 10 ^ 20 -> text 10 (print_dec z) z.
Proof.
  intros Hz. destruct (print_digits_span 20 10 z EmptyString []) as (ds & Hs & Hne & Hv);
    [lia|exact Hz|lia|done|]. rewrite app_nil_r in Hs. by exists ds.
Qed.

(** The number at the start of a text, saturated. *)
Lemma strtol10_saturates w t v s :
  1 <= w -> text 10 t v -> no_digit 10 s -> strtol10 w (t +:+ s) = (Z.min v (2 ^ (w - 1) - 1), s).
Proof.
  intros Hw Ht Hs. pose proof (text_nonneg 10 _ _ ltac:(lia) Ht) as Hn.
  destruct (text_head _ _ _ Ht) as (a & t' & d & -> & Hd).
  destruct (digit_Some _ _ _ Hd) as (H1 & H2 & H3). unfold strtol10.
  change (String a t' +:+ s) with (String a (t' +:+ s)). cbn [skip_space]. rewrite H1.
  cbn [read_sign]. rewrite H2, H3. change (String a (t' +:+ s)) with (String a t' +:+ s).
  destruct Ht as (ds & Hspan & Hne & Hval). rewrite (span_digits_app _ _ _ _ Hspan Hs).
  destruct ds as [|e ds]; [done|]. rewrite Hval. f_equal.
  pose proof (Z.pow_pos_nonneg 2 (w - 1)). lia.
Qed.

Lemma app_empty_r s : s +:+ EmptyString = s.
Proof.
  induction s as [|c s IH]; [done|]. change (String c (s +:+ EmptyString) = String c s).
  by rewrite IH.
Qed.
