(* ===== verification/Sys.v ===== *)
(** * The system calls of the injector (inject/, maps/)

    The kernel, the C library and the dynamic linker as the injector calls them:
    one call of the signature [sysE] per system or library call, with the values
    the sources look at as its answer.  Log output is not modelled.  Registers of
    the traced process are a map from register names to words; [arch] selects the
    branches the preprocessor selects. *)

From S2P Require Import Prelude Prog CText.
Local Open Scope Z_scope.

(** ** Architectures (inject/utils.hpp) *)

Inductive arch : Type := X86_64 | I386 | AArch64 | Arm.

#[export] Instance arch_eq_dec : EqDecision arch.
Proof. solve_decision. Defined.

(** bits of [uintptr_t], and its bytes *)
Definition word (a : arch) : Z := match a with X86_64 | AArch64 => 64 | I386 | Arm => 32 end.
Definition word_bytes (a : arch) : nat :=
  match a with X86_64 | AArch64 => 8%nat | I386 | Arm => 4%nat end.

(** [user_regs_struct]; [regs[i]] of aarch64 is [x<i>], [uregs[i]] of arm [r<i>]. *)
Abbreviation regs := (gmap string Z).

Definition reg_get (r : regs) (name : string) : Z := default 0 (r !! name).

Definition REG_SP (a : arch) : string :=
  match a with X86_64 => "rsp" | I386 => "esp" | AArch64 => "sp" | Arm => "r13" end.
Definition REG_IP (a : arch) : string :=
  match a with X86_64 => "rip" | I386 => "eip" | AArch64 => "pc" | Arm => "r15" end.
Definition REG_RET (a : arch) : string :=
  match a with X86_64 => "rax" | I386 => "eax" | AArch64 => "x0" | Arm => "r0" end.

(** ** Calls *)

Inductive sysE : Type -> Type :=
| Open (path : string) (flags : Z) : sysE Z
| Close (fd : Z) : sysE unit
| Write (fd : Z) (data : list byte) : sysE Z
| Pwrite (fd : Z) (data : list byte) (off : Z) : sysE Z
(** the whole text of a file under /proc, or failure *)
| ReadFile (path : string) : sysE (option string)
| ProcessVmWritev (pid addr : Z) (data : list byte) : sysE Z
(** the result and, when it is not -1, the bytes read *)
| ProcessVmReadv (pid addr : Z) (len : nat) : sysE (Z * list byte)
| PtraceAttach (pid : Z) : sysE bool
| PtraceDetach (pid : Z) : sysE bool
| PtraceCont (pid : Z) : sysE bool
| PtraceGetRegs (pid : Z) : sysE (option regs)
| PtraceSetRegs (pid : Z) (r : regs) : sysE bool
| PtraceGetSigInfo (pid : Z) : sysE bool
(** the result and the status *)
| Waitpid (pid flags : Z) : sysE (Z * Z)
| Errno : sysE Z
| Gettid : sysE Z
| Socket (domain type protocol : Z) : sysE Z
| Sendmsg (fd : Z) (name control : list byte) : sysE Z
| Setxattr (path name : string) (value : list byte) : sysE Z
| Dlopen (name : string) : sysE Z
| Dlsym (handle : Z) (name : string) : sysE Z
| Dlclose (handle : Z) : sysE unit
(** a number below [n] from the random engine *)
| RandomBelow (n : Z) : sysE Z
| Realpath (path : string) : sysE (option string)
| Access (path : string) : sysE bool.

Abbreviation SysM := (prog sysE).

(** ** Constants of the system headers *)

Definition O_RDONLY : Z := 0.
Definition O_WRONLY : Z := 1.
Definition O_CLOEXEC : Z := 0x80000.
Definition WALL : Z := 0x40000000.
Definition EINTR : Z := 4.
Definition SIGSEGV : Z := 11.
Definition SIGSTOP : Z := 19.
Definition AF_UNIX : Z := 1.
Definition SOCK_DGRAM : Z := 2.
Definition SOCK_CLOEXEC : Z := 0x80000.
Definition SOL_SOCKET : Z := 1.
Definition SCM_RIGHTS : Z := 1.
Definition MSG_WAITALL : Z := 0x100.
Definition RTLD_NOW : Z := 2.
Definition INT_MAX : Z := 2 ^ 31 - 1.
Definition PROT_READ : Z := 1.
Definition PROT_WRITE : Z := 2.
Definition PROT_EXEC : Z := 4.

(** The wait status macros. *)
Definition WIFSTOPPED (status : Z) : bool := Z.land status 0xff =? 0x7f.
Definition WSTOPSIG (status : Z) : Z := Z.land (Z.shiftr status 8) 0xff.
Definition WTERMSIG (status : Z) : Z := Z.land status 0x7f.
Definition WIFEXITED (status : Z) : bool := WTERMSIG status =? 0.
Definition WEXITSTATUS (status : Z) : Z := Z.land (Z.shiftr status 8) 0xff.
Definition WIFSIGNALED (status : Z) : bool := 2 <=? WTERMSIG (status + 1).

(** ** UniqueFd (inject/utils.hpp)

    The destructor closes a descriptor that is not negative; assignment swaps, so
    the descriptor replaced is closed with the temporary. *)
Definition unique_fd_destroy (fd : Z) : SysM unit := when (0 <=? fd) (call (Close fd)).

(** The scope of a [UniqueFd]: [k] runs with it, and it is closed after. *)
Definition with_fd {A} (fd : Z) (k : SysM A) : SysM A :=
  r ← k;
  _ ← unique_fd_destroy fd;
  mret r.

(** [UniqueFd::operator=(UniqueFd&&)] with a temporary: what the object holds after. *)
Definition unique_fd_assign (this temporary : Z) : SysM Z :=
  let '(this, temporary) := (temporary, this) in
  _ ← unique_fd_destroy temporary;
  mret this.

(** Strings as the bytes the calls see. *)
Fixpoint string_bytes (s : string) : list byte :=
  match s with
  | EmptyString => []
  | String a s => byte_of (chr a) :: string_bytes s
  end.

(** A string with its terminating NUL. *)
Definition c_string (s : string) : list byte := string_bytes s ++ [Byte.x00].

Fixpoint ends_with (s suffix : string) : bool :=
  bool_decide (s = suffix) ||
  match s with EmptyString => false | String _ s => ends_with s suffix end.
