(* ===== verification/Maps.v ===== *)
(** * Memory maps of a process (maps/maps.cpp)

    [MapInfo::Scan] reads /proc/<pid>/maps line by line.  [W] is the width of
    [uintptr_t], and of [ino_t] and [dev_t], which have it too. *)

From S2P Require Import Prelude Prog CText Sys.
Local Open Scope Z_scope.

Record MapInfo := {
  start : Z;
  end_ : Z;
  perms : Z;
  is_private : bool;
  offset : Z;
  dev : Z;
  inode : Z;
  path : string
}.

(** [makedev] of sys/sysmacros.h *)
Definition makedev (major minor : Z) : Z :=
  Z.lor (Z.lor (Z.shiftl (Z.land major 0xfffff000) 32) (Z.shiftl (Z.land major 0xfff) 8))
        (Z.lor (Z.shiftl (Z.land minor 0xffffff00) 12) (Z.land minor 0xff)).

(** The lines of a text as [getline] returns them: with the newline, but for a
    last line that has none. *)
Definition newline : ascii := "010"%char.

Fixpoint getlines (text : string) : list string :=
  match text with
  | EmptyString => []
  | String a s =>
      if Ascii.eqb a newline then String a EmptyString :: getlines s
      else match getlines s with
           | [] => [String a EmptyString]
           | l :: ls => String a l :: ls
           end
  end.

(** [line[read - 1] = '\0'] *)
Fixpoint drop_last (s : string) : string :=
  match s with
  | EmptyString | String _ EmptyString => EmptyString
  | String a s => String a (drop_last s)
  end.

(** A buffer as a C string: up to the first NUL. *)
Fixpoint c_str (s : string) : string :=
  match s with
  | String a s => if Ascii.eqb a "000" then EmptyString else String a (c_str s)
  | EmptyString => EmptyString
  end.

Definition perm_at (i : nat) (perm : string) : ascii := default "000"%char (String.get i perm).

Section scan.
Variable W : Z.

(** The conversions of the format "%lx-%lx %4s %lx %x:%x %lu %n": the seven
    values, and [%n] as the text that is left. *)
Definition scan_fields (line : string)
  : scanned (Z * Z * string * Z * Z * Z * Z) :=
  scan_bind (scan_unsigned 16 W line) (fun start s =>
  scan_bind (scan_literal "-" s) (fun _ s =>
  scan_bind (scan_unsigned 16 W s) (fun end_ s =>
  scan_bind (scan_space s) (fun _ s =>
  scan_bind (scan_word 4 s) (fun perm s =>
  scan_bind (scan_space s) (fun _ s =>
  scan_bind (scan_unsigned 16 W s) (fun off s =>
  scan_bind (scan_space s) (fun _ s =>
  scan_bind (scan_unsigned 16 32 s) (fun dev_major s =>
  scan_bind (scan_literal ":" s) (fun _ s =>
  scan_bind (scan_unsigned 16 32 s) (fun dev_minor s =>
  scan_bind (scan_space s) (fun _ s =>
  scan_bind (scan_unsigned 10 W s) (fun inode s =>
  scan_bind (scan_space s) (fun _ s =>
  Got (start, end_, perm, off, dev_major, dev_minor, inode) s)))))))))))))).

(** One line: [continue] is [Mismatch]; a number too large for its type has no
    defined behaviour. *)
Definition scan_line (line : string) : scanned MapInfo :=
  match scan_fields (c_str line) with
  | Got (start, end_, perm, off, dev_major, dev_minor, inode) rest =>
      let rest := skip_space rest in
      Got {| start := start; end_ := end_;
             perms := Z.lor (Z.lor (if Ascii.eqb (perm_at 0 perm) "r" then PROT_READ else 0)
                                   (if Ascii.eqb (perm_at 1 perm) "w" then PROT_WRITE else 0))
                            (if Ascii.eqb (perm_at 2 perm) "x" then PROT_EXEC else 0);
             is_private := Ascii.eqb (perm_at 3 perm) "p";
             offset := off;
             dev := wrap W (makedev dev_major dev_minor);
             inode := inode;
             path := rest |} EmptyString
  | Mismatch => Mismatch
  | Undefined => Undefined
  end.

Fixpoint scan_lines (lines : list string) : SysM (list MapInfo) :=
  match lines with
  | [] => mret []
  | line :: lines =>
      match scan_line (drop_last line) with
      | Got info _ => infos ← scan_lines lines; mret (info :: infos)
      | Mismatch => scan_lines lines
      | Undefined => Crash
      end
  end.

(** [MapInfo::Scan] *)
Definition Scan (pid : string) : SysM (list MapInfo) :=
  contents ← call (ReadFile ("/proc/" +:+ pid +:+ "/maps"));
  match contents with
  | None => mret []
  | Some text => scan_lines (getlines text)
  end.
End scan.

(** ** The text of /proc/<pid>/maps

    A line as the kernel prints it: two addresses, the permissions, offset,
    device and inode, then spaces and, for a mapping that has one, a name.  The
    numbers are any texts of their values, zero-padded or not. *)
Record maps_line := {
  t_start : string; t_end : string;
  t_read : bool; t_write : bool; t_exec : bool; t_private : bool;
  t_offset : string; t_major : string; t_minor : string; t_inode : string;
  t_spaces : nat; t_path : string
}.

Definition flag (b : bool) (c : ascii) : ascii := if b then c else "-"%char.

Fixpoint spaces (n : nat) : string :=
  match n with O => EmptyString | S n => String " " (spaces n) end.

Definition render_line (l : maps_line) : string :=
  t_start l +:+ String "-" (t_end l +:+ String " "
    (String (flag (t_read l) "r") (String (flag (t_write l) "w") (String (flag (t_exec l) "x")
      (String (if t_private l then "p"%char else "s"%char) (String " "
        (t_offset l +:+ String " " (t_major l +:+ String ":" (t_minor l +:+ String " "
          (t_inode l +:+ String " " (spaces (t_spaces l) +:+ t_path l))))))))))).

Fixpoint lacks (c : ascii) (s : string) : bool :=
  match s with String a s => negb (Ascii.eqb a c) && lacks c s | EmptyString => true end.

Definition starts_black (s : string) : Prop :=
  match s with String a _ => isspace a = false | EmptyString => True end.

Section render.
Variable W : Z.

(** The entry a line stands for. *)
Definition line_of (l : maps_line) (info : MapInfo) : Prop :=
  text 16 (t_start l) (start info) /\ start info < 2 ^ W /\
  text 16 (t_end l) (end_ info) /\ end_ info < 2 ^ W /\
  perms info = Z.lor (Z.lor (if t_read l then PROT_READ else 0)
                            (if t_write l then PROT_WRITE else 0))
                     (if t_exec l then PROT_EXEC else 0) /\
  is_private info = t_private l /\
  text 16 (t_offset l) (offset info) /\ offset info < 2 ^ W /\
  (exists major minor, text 16 (t_major l) major /\ major < 2 ^ 32 /\
     text 16 (t_minor l) minor /\ minor < 2 ^ 32 /\ dev info = wrap W (makedev major minor)) /\
  text 10 (t_inode l) (inode info) /\ inode info < 2 ^ W /\
  path info = t_path l /\ starts_black (t_path l) /\
  lacks newline (t_path l) = true /\ lacks "000" (t_path l) = true.

(** A line that is not a mapping: it does not start with a number. *)
Definition junk (s : string) : Prop :=
  match skip_space (c_str s) with
  | String a _ => digit 16 a = None /\ Ascii.eqb a "-" = false /\ Ascii.eqb a "+" = false
  | EmptyString => True
  end /\ lacks newline s = true.

End render.

(** ** Lemmas *)

Lemma lacks_app c s t : lacks c (s +:+ t) = lacks c s && lacks c t.
Proof.
  induction s as [|a s IH]; [done|]. change (String a s +:+ t) with (String a (s +:+ t)).
  cbn [lacks]. by rewrite IH, andb_assoc.
Qed.

Lemma lacks_text c base t v : digit base c = None -> text base t v -> lacks c t = true.
Proof.
  intros Hc (ds & Hs & _). revert ds Hs. induction t as [|a t IH]; intros ds Hs; [done|].
  cbn [span_digits lacks] in *. destruct (digit base a) as [d|] eqn:Hd; [|by simplify_eq].
  destruct (span_digits base t) as [ds' r] eqn:E. simplify_eq. rewrite (IH ds' eq_refl).
  destruct (Ascii.eqb_spec a c); [by subst; rewrite Hc in Hd|done].
Qed.

Lemma lacks_spaces c n : Ascii.eqb " " c = false -> lacks c (spaces n) = true.
Proof. intros H. induction n as [|n IH]; [done|]. cbn [spaces lacks]. by rewrite H, IH. Qed.

Lemma getlines_line l rest :
  lacks newline l = true ->
  getlines (l +:+ String newline rest) = (l +:+ String newline EmptyString) :: getlines rest.
Proof.
  induction l as [|a l IH]; intros Hl; [done|]. cbn [lacks] in Hl. boolp.
  change (String a l +:+ String newline rest) with (String a (l +:+ String newline rest)).
  cbn [getlines]. rewrite H, IH by done. done.
Qed.

Lemma drop_last_line l a : drop_last (l +:+ String a EmptyString) = l.
Proof.
  induction l as [|b l IH]; [done|].
  change (String b l +:+ String a EmptyString) with (String b (l +:+ String a EmptyString)).
  cbn [drop_last]. rewrite IH. by destruct l.
Qed.

Lemma c_str_id s : lacks "000" s = true -> c_str s = s.
Proof.
  induction s as [|a s IH]; [done|]. cbn [lacks c_str]. intros H. boolp. by rewrite H, IH.
Qed.

Lemma skip_space_black s : starts_black s -> skip_space s = s.
Proof. destruct s as [|a s]; [done|]. cbn [starts_black skip_space]. by intros ->. Qed.

Lemma skip_space_spaces n s : starts_black s -> skip_space (spaces n +:+ s) = s.
Proof.
  intros Hs. induction n as [|n IH]; [by apply skip_space_black|]. exact IH.
Qed.

Lemma text_black base t v s : text base t v -> starts_black (t +:+ s).
Proof.
  intros Ht. destruct (text_head _ _ _ Ht) as (a & t' & d & -> & Hd).
  by destruct (digit_Some _ _ _ Hd) as (H & _).
Qed.

Lemma scan_space_text base t v s :
  text base t v -> scan_space (String " " (t +:+ s)) = Got tt (t +:+ s).
Proof.
  intros Ht. unfold scan_space. cbn [skip_space].
  replace (isspace " ") with true by done. by rewrite (skip_space_black _ (text_black _ _ _ _ Ht)).
Qed.

Lemma scan_perm r w x p s :
  scan_word 4 (String (flag r "r") (String (flag w "w") (String (flag x "x")
    (String (if p : bool then "p"%char else "s"%char) (String " " s))))) =
  Got (String (flag r "r") (String (flag w "w") (String (flag x "x")
        (String (if p then "p"%char else "s"%char) EmptyString)))) (String " " s).
Proof. by destruct r, w, x, p. Qed.

Section correct.
Variable W : Z.

Lemma render_lacks l info c :
  line_of W l info -> c = newline \/ c = "000"%char -> lacks c (render_line l) = true.
Proof.
  intros (H1 & _ & H2 & _ & _ & _ & H3 & _ & (mj & mn & H4 & _ & H5 & _) & H6 & _ & _ & _ & Hn & H0) Hc.
  assert (Hd : digit 16 c = None /\ digit 10 c = None) by (by destruct Hc as [->| ->]).
  destruct Hd as [Hd16 Hd10]. unfold render_line.
  repeat (rewrite lacks_app || cbn [lacks]).
  rewrite (lacks_text _ _ _ _ Hd16 H1), (lacks_text _ _ _ _ Hd16 H2),
    (lacks_text _ _ _ _ Hd16 H3), (lacks_text _ _ _ _ Hd16 H4), (lacks_text _ _ _ _ Hd16 H5),
    (lacks_text _ _ _ _ Hd10 H6), lacks_spaces by (by destruct Hc as [->| ->]).
  assert (lacks c (t_path l) = true) as -> by (by destruct Hc as [->| ->]).
  destruct Hc as [->| ->]; by destruct (t_read l), (t_write l), (t_exec l), (t_private l).
Qed.

Lemma scan_line_render l info : line_of W l info -> scan_line W (render_line l) = Got info EmptyString.
Proof.
  intros Hl. unfold scan_line. rewrite c_str_id by (eapply render_lacks; eauto).
  destruct Hl as (H1 & H1' & H2 & H2' & Hp & Hpriv & H3 & H3' &
    (mj & mn & H4 & H4' & H5 & H5' & Hdev) & H6 & H6' & Hpath & Hblack & _).
  assert (Hfields : scan_fields W (render_line l) =
    Got (start info, end_ info,
         String (flag (t_read l) "r") (String (flag (t_write l) "w") (String (flag (t_exec l) "x")
           (String (if t_private l then "p"%char else "s"%char) EmptyString))),
         offset info, mj, mn, inode info) (path info)).
  { unfold scan_fields, render_line.
    rewrite (scan_unsigned_text 16 W _ (start info)) by done. cbn [scan_bind].
    cbn [scan_literal]. rewrite decide_True by done. cbn [scan_bind].
    rewrite (scan_unsigned_text 16 W _ (end_ info)) by done. cbn [scan_bind].
    unfold scan_space at 1. cbn [scan_bind skip_space].
    replace (isspace " ") with true by done. cbn [skip_space].
    replace (isspace (flag (t_read l) "r")) with false by (by destruct (t_read l)).
    rewrite scan_perm. cbn [scan_bind].
    rewrite (scan_space_text 16 _ (offset info)) by done. cbn [scan_bind].
    rewrite (scan_unsigned_text 16 W _ (offset info)) by done. cbn [scan_bind].
    rewrite (scan_space_text 16 _ mj) by done. cbn [scan_bind].
    rewrite (scan_unsigned_text 16 32 _ mj) by done. cbn [scan_bind].
    cbn [scan_literal]. rewrite decide_True by done. cbn [scan_bind].
    rewrite (scan_unsigned_text 16 32 _ mn) by done. cbn [scan_bind].
    rewrite (scan_space_text 10 _ (inode info)) by done. cbn [scan_bind].
    rewrite (scan_unsigned_text 10 W _ (inode info)) by done. cbn [scan_bind].
    unfold scan_space. cbn [scan_bind skip_space].
    replace (isspace " ") with true by done.
    rewrite skip_space_spaces by done. by rewrite Hpath. }
  rewrite Hfields. rewrite skip_space_black by (by rewrite Hpath).
  destruct info as [st en pr pv off dv ino pt]. cbn in *. subst.
  by destruct (t_read l), (t_write l), (t_exec l), (t_private l).
Qed.

Lemma scan_line_junk s : junk s -> scan_line W s = Mismatch.
Proof.
  intros [Hj _]. unfold scan_line, scan_fields, scan_unsigned.
  destruct (skip_space (c_str s)) as [|a r]; [done|]. destruct Hj as (Hd & Hm & Hp).
  cbn [read_sign]. rewrite Hm, Hp.
  assert (skip_0x 16 (String a r) = String a r) as ->.
  { unfold skip_0x. destruct r as [|b r]; [done|].
    destruct (Ascii.eqb_spec a "0") as [->|]; [by vm_compute in Hd|done]. }
  cbn [span_digits]. by rewrite Hd.
Qed.

(** A line of the file: a mapping or not, with what it stands for. *)
Inductive file_line : string -> option MapInfo -> Prop :=
| file_mapping l info : line_of W l info -> file_line (render_line l) (Some info)
| file_junk s : junk s -> file_line s None.

Fixpoint file_text (lines : list string) : string :=
  match lines with
  | [] => EmptyString
  | l :: lines => l +:+ String newline (file_text lines)
  end.

(** The environment in which /proc/<pid>/maps has this text. *)
Definition maps_env (pid text : string) (ev : event sysE) : Prop :=
  match ev with
  | Event e x =>
      match e in sysE X return X -> Prop with
      | ReadFile p => fun x => p = "/proc/" +:+ pid +:+ "/maps" -> x = Some text
      | _ => fun _ => True
      end x
  end.

Lemma scan_file lines infos :
  Forall2 file_line lines infos ->
  scan_lines W (getlines (file_text lines)) ≃ mret (omap id infos).
Proof.
  induction 1 as [|l i lines infos Hl _ IH]; [reflexivity|]. cbn [file_text].
  assert (Hn : lacks newline l = true)
    by (destruct Hl as [l info Hl|s [_ Hs]]; [eapply render_lacks; eauto|done]).
  rewrite getlines_line by done. cbn [scan_lines]. rewrite drop_last_line.
  destruct Hl as [l info Hl|s Hs].
  - rewrite scan_line_render with (info := info) by done. by rewrite IH.
  - by rewrite scan_line_junk.
Qed.

(** C27: parsing /proc/<pid>/maps is the inverse of printing it: a file whose lines
    are mappings in the kernel's format, whatever the zero padding of the numbers
    and the spaces before the name, and lines that are not mappings, gives exactly
    the entries of the mappings, in order, names with inner spaces included. *)
Theorem Scan_print (pid : string) (lines : list string) (infos : list (option MapInfo)) :
  Forall2 file_line lines infos ->
  wpv (maps_env pid (file_text lines)) (Scan W pid) (fun r => r = omap id infos).
Proof.
  intros Hf. unfold Scan. apply wpv_bind, wpv_call. intros x Hx. rewrite (Hx eq_refl).
  eapply wpv_peq; [symmetry; by apply scan_file|]. by apply wpv_ret.
Qed.
End correct.

(** ** A concrete file *)
Module MapsSample.
Definition nl : string := String newline EmptyString.
Definition libc_text : string :=
  "7f1000000000-7f1000021000 r--p 00000000 fd:01 1048   /apex/lib64/libc.so" +:+ nl +:+
  "7f1000021000-7f1000099000 r-xp 00021000 fd:01 1048   /apex/lib64/libc.so" +:+ nl +:+
  "(deleted)" +:+ nl +:+
  "7ffd00000000-7ffd00021000 rw-p 00000000 00:00 0 " +:+ nl.

Definition libc_infos : list MapInfo :=
  [{| start := 0x7f1000000000; end_ := 0x7f1000021000; perms := 1; is_private := true;
      offset := 0; dev := 0xfd01; inode := 1048; path := "/apex/lib64/libc.so" |};
   {| start := 0x7f1000021000; end_ := 0x7f1000099000; perms := 5; is_private := true;
      offset := 0x21000; dev := 0xfd01; inode := 1048; path := "/apex/lib64/libc.so" |};
   {| start := 0x7ffd00000000; end_ := 0x7ffd00021000; perms := 3; is_private := true;
      offset := 0; dev := 0; inode := 0; path := "" |}].

Example scan_libc : scan_lines 64 (getlines libc_text) = mret libc_infos.
Proof. by vm_compute. Qed.

(** The last line of a text that does not end in a newline loses its last
    character: [line[read - 1]] is overwritten whatever it is. *)
Example scan_truncates :
  scan_lines 64 (getlines "10-20 r--p 0 0:0 1 /lib/a.so") =
    mret [{| start := 16; end_ := 32; perms := 1; is_private := true; offset := 0; dev := 0;
             inode := 1; path := "/lib/a.s" |}].
Proof. by vm_compute. Qed.

Definition line1 : maps_line :=
  {| t_start := "0007f10"; t_end := "7f20"; t_read := true; t_write := false; t_exec := true;
     t_private := true; t_offset := "00000000"; t_major := "fd"; t_minor := "01";
     t_inode := "1048"; t_spaces := 3; t_path := "/data/a b.so" |}.
Definition info1 : MapInfo :=
  {| start := 0x7f10; end_ := 0x7f20; perms := 5; is_private := true; offset := 0;
     dev := 0xfd01; inode := 1048; path := "/data/a b.so" |}.

Lemma line1_ok : line_of 64 line1 info1.
Proof.
  assert (Hm : exists major minor, text 16 "fd" major /\ major < 2 ^ 32 /\
     text 16 "01" minor /\ minor < 2 ^ 32 /\ dev info1 = wrap 64 (makedev major minor)).
  { exists 0xfd, 1. by split_and!; [apply is_text_spec| |apply is_text_spec| |]. }
  unfold line_of. by split_and!; try apply is_text_spec.
Qed.
End MapsSample.

Lemma Scan_print_witness :
  wpv (maps_env "42" (file_text [render_line MapsSample.line1; "(deleted)"%string]))
      (Scan 64 "42") (fun r => r = [MapsSample.info1]).
Proof.
  apply (Scan_print 64 "42" [render_line MapsSample.line1; "(deleted)"%string]
           [Some MapsSample.info1; None]).
  constructor; [constructor; apply MapsSample.line1_ok|].
  constructor; [constructor; by vm_compute|constructor].
Defined.
