(* ===== verification/ProcUtils.v ===== *)
(** * Working on a traced process (inject/utils.cpp)

    Memory and registers of the target, the resolution of functions of its
    libraries, and function calls inside it.  [a] is the architecture the
    injector is built for.  A register set is updated in place in the source;
    here a function that changes it returns the new one.  The two loops that wait
    for the target take [fuel], the number of rounds. *)

From S2P Require Import Prelude Prog CText Sys Maps.
Local Open Scope Z_scope.

Definition kStackAlignment : Z := 0xf.

Definition kRandomChars : string :=
  "0123456789abcdefghijklmnopqrstuvwxyzABCDEFGHIJKLMNOPQRSTUVWXYZ".

Section utils.
Variable a : arch.

Definition uintptr (z : Z) : Z := wrap (word a) z.

(** ** Memory and registers *)

(** [write_proc] *)
Definition write_proc (pid remote_addr : Z) (buf : list byte) (use_proc_mem : bool) : SysM Z :=
  if (length buf =? 0)%nat then mret (-1)
  else if use_proc_mem then
    proc_fd ← call (Open ("/proc/" +:+ print_dec pid +:+ "/mem") (Z.lor O_WRONLY O_CLOEXEC));
    with_fd proc_fd (
      if proc_fd =? -1 then mret (-1) else call (Pwrite proc_fd buf remote_addr))
  else call (ProcessVmWritev pid remote_addr buf).

(** [read_proc]: the result and the bytes *)
Definition read_proc (pid remote_addr : Z) (len : nat) : SysM (Z * list byte) :=
  if (len =? 0)%nat then mret (-1, []) else call (ProcessVmReadv pid remote_addr len).

(** [get_regs]: the new registers, when it succeeds *)
Definition get_regs (pid : Z) : SysM (option regs) := call (PtraceGetRegs pid).

Definition set_regs (pid : Z) (r : regs) : SysM bool := call (PtraceSetRegs pid r).

(** ** Modules *)

Fixpoint find_module_base (map_info : list MapInfo) (module_suffix : string) : Z :=
  match map_info with
  | [] => 0
  | map :: map_info =>
      if (offset map =? 0) && ends_with (path map) module_suffix then start map
      else find_module_base map_info module_suffix
  end.

Fixpoint find_module_return_addr (map_info : list MapInfo) (module_suffix : string) : Z :=
  match map_info with
  | [] => 0
  | map :: map_info =>
      if (Z.land (perms map) PROT_EXEC =? 0) && ends_with (path map) module_suffix then start map
      else find_module_return_addr map_info module_suffix
  end.

(** [find_func_addr]: the address in the target, 0 when it is not found *)
Definition find_func_addr (local_map_info remote_map_info : list MapInfo)
    (module_name function_name : string) : SysM Z :=
  lib_handle ← call (Dlopen module_name);
  if lib_handle =? 0 then mret 0
  else
    symbol_addr ← call (Dlsym lib_handle function_name);
    if symbol_addr =? 0 then _ ← call (Dlclose lib_handle); mret 0
    else
      _ ← call (Dlclose lib_handle);
      let local_base := find_module_base local_map_info module_name in
      if local_base =? 0 then mret 0
      else
        let remote_base := find_module_base remote_map_info module_name in
        if remote_base =? 0 then mret 0
        else
          let symbol_offset := symbol_addr - local_base in
          mret (uintptr (remote_base + symbol_offset)).

(** ** The stack of the target *)

Definition sp (r : regs) : Z := reg_get r (REG_SP a).
Definition set_sp (z : Z) (r : regs) : regs := <[REG_SP a := uintptr z]> r.

Definition align_stack (r : regs) (preserve_bytes : Z) : regs :=
  set_sp (Z.land (uintptr (sp r - preserve_bytes)) (uintptr (Z.lnot kStackAlignment))) r.

(** [push_memory]: the address, 0 on failure, and the registers *)
Definition push_memory (pid : Z) (r : regs) (data : list byte) : SysM (Z * regs) :=
  if (length data =? 0)%nat then mret (0, r)
  else
    let len := Z.of_nat (length data) in
    let r := set_sp (sp r - len) r in
    let r := align_stack r 0 in
    let stack_addr := sp r in
    written ← write_proc pid stack_addr data false;
    if negb (written =? len) then mret (0, r) else mret (stack_addr, r).

(** [push_string] of a pointer that is not null *)
Definition push_string (pid : Z) (r : regs) (str : string) : SysM (Z * regs) :=
  let data := c_string str in
  let str_length := Z.of_nat (length data) in
  let r := set_sp (sp r - str_length) r in
  let r := align_stack r 0 in
  let stack_addr := sp r in
  written ← write_proc pid stack_addr data false;
  if negb (written =? str_length) then mret (0, r) else mret (stack_addr, r).

(** ** Remote calls *)

Definition kMaxRegisterArgs : nat :=
  match a with X86_64 => 6%nat | I386 => 0%nat | AArch64 => 8%nat | Arm => 4%nat end.

(** the registers of the first arguments, in order *)
Definition arg_regs : list string :=
  match a with
  | X86_64 => ["rdi"; "rsi"; "rdx"; "rcx"; "r8"; "r9"]
  | I386 => []
  | AArch64 => ["x0"; "x1"; "x2"; "x3"; "x4"; "x5"; "x6"; "x7"]
  | Arm => ["r0"; "r1"; "r2"; "r3"]
  end%string.

(** [setup_x86_64_args], [setup_aarch64_args], [setup_arm_args] *)
Fixpoint setup_args (names : list string) (args : list Z) (r : regs) : regs :=
  match names, args with
  | name :: names, arg :: args => setup_args names args (<[name := arg]> r)
  | _, _ => r
  end.

(** An array of [uintptr_t] in memory. *)
Definition words (zs : list Z) : list byte := zs ≫= le_encode (word_bytes a).

(** The arguments that do not fit in registers go to the stack. *)
Definition push_stack_args (pid : Z) (r : regs) (stack_args : list Z) : SysM (bool * regs) :=
  match stack_args with
  | [] => mret (true, r)
  | _ =>
      let stack_args_size := Z.of_nat (length stack_args * word_bytes a) in
      let r := align_stack r stack_args_size in
      written ← write_proc pid (sp r) (words stack_args) false;
      mret (written =? stack_args_size, r)
  end.

(** x86: the return address is pushed *)
Definition push_return_addr (pid : Z) (r : regs) (return_addr : Z) : SysM (bool * regs) :=
  let r := set_sp (sp r - Z.of_nat (word_bytes a)) r in
  written ← write_proc pid (sp r) (words [return_addr]) false;
  mret (written =? Z.of_nat (word_bytes a), r).

Definition CPSR_T_MASK : Z := Z.shiftl 1 5.

(** arm: bit 0 of the address selects the Thumb state *)
Definition set_thumb (r : regs) : regs :=
  let ip := reg_get r (REG_IP a) in
  if negb (Z.land ip 1 =? 0)
  then let r := <[REG_IP a := Z.land ip (uintptr (Z.lnot 1))]> r in
       <["r16" := Z.lor (reg_get r "r16") CPSR_T_MASK]> r
  else <["r16" := Z.land (reg_get r "r16") (uintptr (Z.lnot CPSR_T_MASK))]> r.

(** The part of [remote_pre_call] that differs between architectures. *)
Definition prepare_call (pid : Z) (r : regs) (func_addr return_addr : Z) (args : list Z)
  : SysM (bool * regs) :=
  let r := setup_args arg_regs args r in
  '(ok, r) ← push_stack_args pid r (drop kMaxRegisterArgs args);
  if negb ok then mret (false, r)
  else
    match a with
    | X86_64 | I386 =>
        '(ok, r) ← push_return_addr pid r return_addr;
        if negb ok then mret (false, r)
        else mret (true, <[REG_IP a := func_addr]> r)
    | AArch64 => mret (true, <[REG_IP a := func_addr]> (<["x30" := return_addr]> r))
    | Arm => mret (true, set_thumb (<[REG_IP a := func_addr]> (<["r14" := return_addr]> r)))
    end.

Definition remote_pre_call (pid : Z) (r : regs) (func_addr return_addr : Z) (args : list Z)
  : SysM (bool * regs) :=
  let r := align_stack r 0 in
  '(ok, r) ← prepare_call pid r func_addr return_addr args;
  if negb ok then mret (false, r)
  else
    ok ← set_regs pid r;
    if negb ok then mret (false, r)
    else ok ← call (PtraceCont pid); mret (ok, r).

(** [wait_for_trace]: whether the target stopped, and the status *)
Fixpoint wait_for_trace (fuel : nat) (pid flags : Z) : SysM (bool * Z) :=
  match fuel with
  | O => Out
  | S fuel =>
      '(result, status) ← call (Waitpid pid flags);
      if result =? -1 then
        e ← call Errno;
        if e =? EINTR then wait_for_trace fuel pid flags else mret (false, status)
      else if negb (WIFSTOPPED status) then mret (false, status)
      else mret (true, status)
  end.

(** [remote_post_call]: the value returned in the target, 0 on failure, and the
    registers *)
Fixpoint remote_post_call (fuel : nat) (pid : Z) (r : regs) (expected_return_addr : Z)
  : SysM (Z * regs) :=
  match fuel with
  | O => Out
  | S fuel' =>
      '(ok, status) ← wait_for_trace fuel pid WALL;
      if negb ok then mret (0, r)
      else
        got ← get_regs pid;
        match got with
        | None => mret (0, r)
        | Some r =>
            let stop_signal := WSTOPSIG status in
            if stop_signal =? SIGSEGV then
              if negb (reg_get r (REG_IP a) =? expected_return_addr)
              then _ ← call (PtraceGetSigInfo pid); mret (0, r)
              else mret (reg_get r (REG_RET a), r)
            else
              ok ← call (PtraceCont pid);
              if negb ok then mret (0, r)
              else remote_post_call fuel' pid r expected_return_addr
        end
  end.

Definition remote_call (fuel : nat) (pid : Z) (r : regs) (func_addr return_addr : Z)
    (args : list Z) : SysM (Z * regs) :=
  '(ok, r) ← remote_pre_call pid r func_addr return_addr args;
  if negb ok then mret (0, r) else remote_post_call fuel pid r return_addr.

(** ** Miscellany *)

(** [sys_signame] of the C library *)
Variable sys_signame : Z -> string.
Variable NSIG : Z.

Definition sigabbrev_np (sig : Z) : string :=
  if (0 <? sig) && (sig <? NSIG) then sys_signame sig else "(unknown)".

Definition parse_ptrace_event (status : Z) : string :=
  match Z.shiftr status 16 with
  | 1 => "PTRACE_EVENT_FORK"
  | 2 => "PTRACE_EVENT_VFORK"
  | 3 => "PTRACE_EVENT_CLONE"
  | 4 => "PTRACE_EVENT_EXEC"
  | 5 => "PTRACE_EVENT_VFORK_DONE"
  | 6 => "PTRACE_EVENT_EXIT"
  | 7 => "PTRACE_EVENT_SECCOMP"
  | 128 => "PTRACE_EVENT_STOP"
  | _ => "(no event)"
  end%string.

Definition kStatusBufferSize : nat := 128.

(** [snprintf] into the buffer: what does not fit is cut *)
Definition status_buf (s : string) : string := String.substring 0 (kStatusBufferSize - 1) s.

Definition print_hex (z : Z) : string := print_digits 20 16 (wrap 32 z) EmptyString.

Definition parse_status (status : Z) : string :=
  status_buf (
    if WIFEXITED status then
      "0x" +:+ print_hex status +:+ " exited with code " +:+ print_dec (WEXITSTATUS status)
    else if WIFSIGNALED status then
      "0x" +:+ print_hex status +:+ " terminated by signal " +:+ sigabbrev_np (WTERMSIG status) +:+
      "(" +:+ print_dec (WTERMSIG status) +:+ ")"
    else if WIFSTOPPED status then
      let stop_signal := WSTOPSIG status in
      "0x" +:+ print_hex status +:+ " stopped by signal=" +:+ sigabbrev_np stop_signal +:+
      "(" +:+ print_dec stop_signal +:+ "), event=" +:+ parse_ptrace_event status
    else "0x" +:+ print_hex status +:+ " unknown status").

Fixpoint magic_chars (n : nat) (magic_string : string) : SysM string :=
  match n with
  | O => mret magic_string
  | S n =>
      i ← call (RandomBelow (Z.of_nat (String.length kRandomChars)));
      match String.get (Z.to_nat i) kRandomChars with
      | Some c => magic_chars n (magic_string +:+ String c EmptyString)
      | None => Crash
      end
  end.

Definition generateMagic (length : nat) : SysM string :=
  if (length =? 0)%nat then mret EmptyString else magic_chars length EmptyString.

(** [setfilecon] of two pointers that are not null *)
Definition setfilecon (file_path security_context : string) : SysM Z :=
  call (Setxattr file_path "security.selinux" (c_string security_context)).

Definition set_sockcreate_con (security_context : string) : SysM bool :=
  let context := c_string security_context in
  let context_size := Z.of_nat (length context) in
  sockcreate_fd ← call (Open "/proc/thread-self/attr/sockcreate" (Z.lor O_WRONLY O_CLOEXEC));
  done ← (if negb (sockcreate_fd =? -1)
          then n ← call (Write sockcreate_fd context); mret (n =? context_size)
          else mret false);
  if done : bool then _ ← unique_fd_destroy sockcreate_fd; mret true
  else
    tid ← call Gettid;
    opened ← call (Open ("/proc/" +:+ print_dec tid +:+ "/attr/sockcreate")
                     (Z.lor O_WRONLY O_CLOEXEC));
    sockcreate_fd ← unique_fd_assign sockcreate_fd opened;
    with_fd sockcreate_fd (
      if sockcreate_fd =? -1 then mret false
      else n ← call (Write sockcreate_fd context); mret (n =? context_size)).
End utils.
