(* ===== verification/Target.v ===== *)
(** * The traced process as a callee sees it

    The memory of the target as the writes of a trace leave it, and the calling
    conventions of the four architectures as the platform ABIs state them: where a
    function finds its arguments and its return address, and how the stack is
    aligned when it is entered.  The theorems about remote calls are stated
    against this reference. *)

From S2P Require Import Prelude Prog CText Sys Maps ProcUtils.
Local Open Scope Z_scope.

(** ** Memory *)

Abbreviation memory := (gmap Z byte).

Fixpoint write_bytes (addr : Z) (bs : list byte) (m : memory) : memory :=
  match bs with
  | [] => m
  | b :: bs => write_bytes (addr + 1) bs (<[addr := b]> m)
  end.

Fixpoint read_bytes (n : nat) (addr : Z) (m : memory) : option (list byte) :=
  match n with
  | O => Some []
  | S n => b ← m !! addr; bs ← read_bytes n (addr + 1) m; Some (b :: bs)
  end.

Definition read_word (a : arch) (addr : Z) (m : memory) : option Z :=
  le_decode <$> read_bytes (word_bytes a) addr m.

(** [process_vm_writev] writes as many bytes as it answers. *)
Definition write_event (pid : Z) (m : memory) (ev : event sysE) : memory :=
  match ev with
  | Event (ProcessVmWritev p addr data) n =>
      if p =? pid then write_bytes addr (take (Z.to_nat n) data) m else m
  | _ => m
  end.

Definition memory_after (pid : Z) (t : list (event sysE)) (m : memory) : memory :=
  foldl (write_event pid) m t.

Lemma lookup_write_bytes addr bs m x :
  write_bytes addr bs m !! x =
    if decide (addr <= x < addr + Z.of_nat (length bs)) then bs !! Z.to_nat (x - addr) else m !! x.
Proof.
  revert addr m. induction bs as [|b bs IH]; intros addr m; simpl.
  - rewrite decide_False by lia. done.
  - rewrite IH. destruct (decide (x = addr)) as [->|Hx].
    + rewrite decide_False, decide_True by lia. rewrite lookup_insert_eq.
      by rewrite Z.sub_diag.
    + rewrite lookup_insert_ne by done.
      destruct (decide (addr + 1 <= x < addr + 1 + Z.of_nat (length bs))).
      * rewrite decide_True by lia.
        replace (Z.to_nat (x - addr)) with (S (Z.to_nat (x - (addr + 1)))) by lia. done.
      * by rewrite decide_False by lia.
Qed.

Lemma read_bytes_Some addr m bs :
  (forall i b, bs !! i = Some b -> m !! (addr + Z.of_nat i) = Some b) ->
  read_bytes (length bs) addr m = Some bs.
Proof.
  revert addr. induction bs as [|b bs IH]; intros addr H; simpl; [done|].
  pose proof (H 0%nat b eq_refl) as H0. rewrite Z.add_0_r in H0. rewrite H0. simpl.
  rewrite IH; [done|]. intros i b' Hi. rewrite <-(H (S i) b') by done. f_equal. lia.
Qed.

(** A slice of what was written. *)
Lemma read_write_slice addr pre mid post m :
  read_bytes (length mid) (addr + Z.of_nat (length pre))
    (write_bytes addr (pre ++ mid ++ post) m) = Some mid.
Proof.
  apply read_bytes_Some. intros i b Hi. pose proof (lookup_lt_Some _ _ _ Hi).
  rewrite lookup_write_bytes, !length_app, decide_True by lia.
  rewrite lookup_app_r by lia. rewrite lookup_app_l by lia.
  rewrite <-Hi. f_equal. lia.
Qed.

(** A write leaves what is outside it. *)
Lemma read_bytes_agree n addr m m' :
  (forall x, addr <= x < addr + Z.of_nat n -> m' !! x = m !! x) ->
  read_bytes n addr m' = read_bytes n addr m.
Proof.
  revert addr. induction n as [|n IH]; intros addr H; simpl; [done|].
  rewrite H by lia. rewrite IH; [done|]. intros x Hx. apply H. lia.
Qed.

Lemma write_bytes_outside addr bs m x :
  addr + Z.of_nat (length bs) <= x -> write_bytes addr bs m !! x = m !! x.
Proof. intros. rewrite lookup_write_bytes. by rewrite decide_False by lia. Qed.

Lemma memory_after_app pid t1 t2 m :
  memory_after pid (t1 ++ t2) m = memory_after pid t2 (memory_after pid t1 m).
Proof. apply foldl_app. Qed.

(** ** Arrays of words *)

Lemma word_pow a : 256 ^ Z.of_nat (word_bytes a) = 2 ^ word a.
Proof. by destruct a. Qed.

Lemma length_words a zs : length (words a zs) = (length zs * word_bytes a)%nat.
Proof.
  unfold words. induction zs as [|z zs IH]; csimpl; [done|].
  rewrite length_app, length_le_encode, IH. lia.
Qed.

Lemma words_app a xs ys : words a (xs ++ ys) = words a xs ++ words a ys.
Proof. apply bind_app. Qed.

Lemma read_word_written a addr zs i z m :
  zs !! i = Some z -> in_word (word a) z ->
  read_word a (addr + Z.of_nat (word_bytes a * i)) (write_bytes addr (words a zs) m) = Some z.
Proof.
  intros Hi Hz. apply list_elem_of_split_length in Hi as (xs & ys & -> & ->).
  rewrite words_app. change (words a (z :: ys)) with (le_encode (word_bytes a) z ++ words a ys).
  unfold read_word.
  pose proof (read_write_slice addr (words a xs) (le_encode (word_bytes a) z) (words a ys) m) as H.
  rewrite length_le_encode, length_words in H.
  replace (word_bytes a * length xs)%nat with (length xs * word_bytes a)%nat by lia.
  rewrite H. simpl. rewrite le_decode_encode, word_pow. f_equal. by apply Z.mod_small.
Qed.

Lemma read_word_outside a addr bs m x :
  addr + Z.of_nat (length bs) <= x -> read_word a x (write_bytes addr bs m) = read_word a x m.
Proof.
  intros. unfold read_word. erewrite read_bytes_agree; [done|].
  intros y Hy. apply write_bytes_outside. lia.
Qed.

(** ** Calling conventions

    [abi_arg a r m i] is the argument of index [i] of a function entered with
    registers [r] and memory [m]. *)

Definition abi_reg_args (a : arch) : list string :=
  match a with
  | X86_64 => ["rdi"; "rsi"; "rdx"; "rcx"; "r8"; "r9"]
  | I386 => []
  | AArch64 => ["x0"; "x1"; "x2"; "x3"; "x4"; "x5"; "x6"; "x7"]
  | Arm => ["r0"; "r1"; "r2"; "r3"]
  end%string.

(** What lies between the stack pointer and the first stack argument. *)
Definition abi_stack_offset (a : arch) : Z :=
  match a with X86_64 | I386 => Z.of_nat (word_bytes a) | AArch64 | Arm => 0 end.

Definition abi_arg (a : arch) (r : regs) (m : memory) (i : nat) : option Z :=
  match abi_reg_args a !! i with
  | Some name => r !! name
  | None =>
      read_word a
        (sp a r + abi_stack_offset a + Z.of_nat (word_bytes a * (i - length (abi_reg_args a)))) m
  end.

Definition abi_return_addr (a : arch) (r : regs) (m : memory) : option Z :=
  match a with
  | X86_64 | I386 => read_word a (sp a r) m
  | AArch64 => r !! "x30"
  | Arm => r !! "r14"
  end%string.

(** Alignment of the stack pointer at function entry. *)
Definition abi_aligned (a : arch) (r : regs) : Prop :=
  match a with
  | X86_64 => (sp a r + 8) mod 16 = 0
  | I386 => (sp a r + 4) mod 16 = 0
  | AArch64 => sp a r mod 16 = 0
  | Arm => sp a r mod 8 = 0
  end.

(** The instruction a branch to [func] continues with; on arm, bit 0 selects the
    instruction set and is recorded in the T bit of cpsr ([r16]). *)
Definition enters (a : arch) (func : Z) (r : regs) : Prop :=
  match a with
  | X86_64 | I386 | AArch64 => r !! REG_IP a = Some func
  | Arm =>
      r !! REG_IP a = Some (2 * (func / 2)) /\
      Z.testbit (reg_get r "r16") 5 = Z.odd func
  end.

(** The registers a branch with link sets, and those a call may change; the others
    still hold what they held. *)
Definition abi_link_regs (a : arch) : list string :=
  match a with X86_64 | I386 => [] | AArch64 => ["x30"] | Arm => ["r14"; "r16"] end%string.

Definition abi_call_regs (a : arch) : list string :=
  REG_SP a :: REG_IP a :: abi_reg_args a ++ abi_link_regs a.

Record called (a : arch) (r : regs) (m : memory) (func ret : Z) (args : list Z) : Prop := {
  called_entry : enters a func r;
  called_args i x : args !! i = Some x -> abi_arg a r m i = Some x;
  called_return : abi_return_addr a r m = Some ret;
  called_aligned : abi_aligned a r
}.

Lemma read_word_agree a addr m m' :
  (forall x, addr <= x -> m' !! x = m !! x) -> read_word a addr m' = read_word a addr m.
Proof.
  intros H. unfold read_word. erewrite read_bytes_agree; [done|]. intros x Hx. apply H. lia.
Qed.
