(* ===== verification/RemoteCall.v ===== *)
(** * Function calls in the target

    The calls the injector makes in the stopped process meet the calling convention
    of its architecture, whatever the arguments, and leave what the process had on
    its stack; the loops that wait for such a call end when the target answers. *)

From S2P Require Import Prelude Prog CText Sys Maps ProcUtils Target.
Local Open Scope Z_scope.

(** ** Stack pointers *)

Section stack.
Variable a : arch.

Lemma word_ge_32 : 32 <= word a.
Proof. destruct a; simpl; lia. Qed.

Lemma word_bytes_pos : 4 <= Z.of_nat (word_bytes a) <= 8.
Proof. destruct a; simpl; lia. Qed.

Lemma sp_set_sp z r : sp a (set_sp a z r) = uintptr a z.
Proof. unfold sp, set_sp, reg_get. by rewrite lookup_insert_eq. Qed.

Lemma set_sp_other z r name : name <> REG_SP a -> set_sp a z r !! name = r !! name.
Proof. intros. unfold set_sp. by rewrite lookup_insert_ne. Qed.

Lemma land_align x : in_word (word a) x ->
  Z.land x (uintptr a (Z.lnot kStackAlignment)) = 16 * (x / 16).
Proof.
  intros Hx. pose proof word_ge_32. unfold uintptr, wrap.
  rewrite <-(Z.land_ones (Z.lnot _)) by lia.
  rewrite Z.land_comm, <-Z.land_assoc, (Z.land_comm (Z.ones _)), Z.land_ones by lia.
  rewrite (Z.mod_small x) by exact Hx. rewrite Z.land_comm, <-Z.ldiff_land.
  change kStackAlignment with (Z.ones 4). rewrite Z.ldiff_ones_r by lia.
  rewrite Z.shiftl_mul_pow2, Z.shiftr_div_pow2 by lia. change (2 ^ 4) with 16. lia.
Qed.

Lemma sp_align_stack r n :
  sp a (align_stack a r n) = 16 * (uintptr a (sp a r - n) / 16).
Proof.
  pose proof word_ge_32.
  assert (in_word (word a) (uintptr a (sp a r - n))) as Hw by (apply wrap_range; lia).
  unfold align_stack. rewrite sp_set_sp, land_align by done.
  apply wrap_small. pose proof (Z.div_mod (uintptr a (sp a r - n)) 16 ltac:(lia)).
  pose proof (Z.mod_pos_bound (uintptr a (sp a r - n)) 16 ltac:(lia)).
  unfold in_word in *. lia.
Qed.

(** Without wrap-around, aligning moves the stack pointer down by less than 16. *)
Lemma sp_align_bounds r n :
  in_word (word a) (sp a r - n) ->
  sp a r - n - 15 <= sp a (align_stack a r n) <= sp a r - n /\
  sp a (align_stack a r n) mod 16 = 0.
Proof.
  intros Hw. rewrite sp_align_stack. unfold uintptr. rewrite wrap_small by done.
  pose proof (Z.div_mod (sp a r - n) 16 ltac:(lia)).
  pose proof (Z.mod_pos_bound (sp a r - n) 16 ltac:(lia)).
  rewrite Z.mul_comm, Z_mod_mult. lia.
Qed.

Lemma align_stack_other r n name : name <> REG_SP a -> align_stack a r n !! name = r !! name.
Proof. apply set_sp_other. Qed.

(** ** Argument registers *)

Lemma setup_args_other names args r name :
  name ∉ names -> setup_args names args r !! name = r !! name.
Proof.
  revert args r. induction names as [|n names IH]; intros [|x args] r Hn; simpl; try done.
  apply not_elem_of_cons in Hn as [H1 H2]. rewrite IH by done. by rewrite lookup_insert_ne.
Qed.

Lemma setup_args_lookup names args r i name x :
  NoDup names -> names !! i = Some name -> args !! i = Some x ->
  setup_args names args r !! name = Some x.
Proof.
  intros Hnd. revert args r i. induction Hnd as [|n names Hn Hnd IH]; intros [|y args] r [|i];
    simpl; intros; simplify_eq; try done.
  - rewrite setup_args_other by done. by rewrite lookup_insert_eq.
  - eauto.
Qed.

Lemma arg_regs_abi : arg_regs a = abi_reg_args a.
Proof. by destruct a. Qed.

Lemma kMaxRegisterArgs_abi : kMaxRegisterArgs a = length (abi_reg_args a).
Proof. by destruct a. Qed.

Lemma abi_reg_args_ok :
  NoDup (abi_reg_args a) /\ (REG_SP a ∉ abi_reg_args a) /\ (REG_IP a ∉ abi_reg_args a).
Proof. split_and!; destruct a; simpl; apply (bool_decide_unpack _); vm_compute; done. Qed.

Lemma abi_arg_reg name : name ∈ abi_reg_args a -> name <> REG_SP a /\ name <> REG_IP a.
Proof. intros H. pose proof abi_reg_args_ok as (_ & H1 & H2). split; by intros ->. Qed.

Lemma abi_link_reg name :
  name ∈ abi_link_regs a -> name <> REG_SP a /\ (name ∉ abi_reg_args a).
Proof.
  revert name. apply Forall_forall.
  destruct a; simpl; apply (bool_decide_unpack _); vm_compute; done.
Qed.

Lemma abi_call_regs_not name :
  name ∉ abi_call_regs a ->
  name <> REG_SP a /\ name <> REG_IP a /\ (name ∉ abi_reg_args a) /\ (name ∉ abi_link_regs a).
Proof.
  unfold abi_call_regs.
  intros [H1 [H2 [H3 H4]%not_elem_of_app]%not_elem_of_cons]%not_elem_of_cons. done.
Qed.

Lemma sp_setup_args args r : sp a (setup_args (arg_regs a) args r) = sp a r.
Proof.
  unfold sp, reg_get. rewrite setup_args_other; [done|]. rewrite arg_regs_abi.
  apply abi_reg_args_ok.
Qed.

(** ** Writes *)

Definition is_write (pid : Z) (ev : event sysE) : Prop :=
  match ev with Event (ProcessVmWritev p _ _) _ => p = pid | _ => False end.

(** The whole buffer is written when the answer is its length. *)
Lemma write_proc_wp pid addr bs (Q : outcome Z -> list (event sysE) -> Prop) :
  bs <> [] ->
  (forall n t, Forall (is_write pid) t ->
     (n = Z.of_nat (length bs) ->
        forall m, memory_after pid t m = write_bytes addr bs m) -> Q (Done n) t) ->
  wp (write_proc pid addr bs false) Q.
Proof.
  intros Hbs HQ. unfold write_proc. destruct bs as [|b bs]; [done|]. cbn [length Nat.eqb].
  intros n. apply HQ; [by repeat constructor|].
  intros -> m. unfold memory_after. cbn [foldl write_event].
  by rewrite Z.eqb_refl, Nat2Z.id, firstn_all.
Qed.

(** The registers after the stack arguments were pushed. *)
Definition stack_regs (r : regs) (sa : list Z) : regs :=
  match sa with
  | [] => r
  | _ => align_stack a r (Z.of_nat (length sa * word_bytes a))
  end.

Lemma words_nonnil z zs : words a (z :: zs) <> [].
Proof.
  intros H. apply (f_equal length) in H. rewrite length_words in H. simpl in H.
  pose proof word_bytes_pos. lia.
Qed.

Lemma push_stack_args_wp pid r sa :
  wp (push_stack_args a pid r sa) (fun o t =>
    exists ok, o = Done (ok, stack_regs r sa) /\ Forall (is_write pid) t /\
      (ok = true -> forall m,
         memory_after pid t m = write_bytes (sp a (stack_regs r sa)) (words a sa) m)).
Proof.
  destruct sa as [|z sa]; [by exists true|]. unfold push_stack_args.
  apply wp_bind, write_proc_wp; [apply words_nonnil|]. intros n t Hw Ht. simpl.
  rewrite app_nil_r. eexists. split_and!; [done|done|]. intros Hn%Z.eqb_eq m.
  apply Ht. rewrite length_words. done.
Qed.

Lemma push_return_addr_wp pid r ret :
  wp (push_return_addr a pid r ret) (fun o t =>
    let r' := set_sp a (sp a r - Z.of_nat (word_bytes a)) r in
    exists ok, o = Done (ok, r') /\ Forall (is_write pid) t /\
      (ok = true -> forall m, memory_after pid t m = write_bytes (sp a r') (words a [ret]) m)).
Proof.
  unfold push_return_addr. apply wp_bind, write_proc_wp; [apply words_nonnil|].
  intros n t Hw Ht. simpl. rewrite app_nil_r. eexists. split_and!; [done|done|].
  intros Hn%Z.eqb_eq m. apply Ht. rewrite length_words. simpl. lia.
Qed.

(** ** Entering a function *)

Definition args_size (args : list Z) : Z := Z.of_nat (length args * word_bytes a).

Lemma stack_regs_other r sa name :
  name <> REG_SP a -> stack_regs r sa !! name = r !! name.
Proof. destruct sa; [done|]. apply align_stack_other. Qed.

Lemma stack_regs_sp r sa :
  in_word (word a) (sp a r) -> sp a r mod 16 = 0 -> args_size sa <= sp a r ->
  sp a r - args_size sa - 15 <= sp a (stack_regs r sa) /\
  sp a (stack_regs r sa) + args_size sa <= sp a r /\
  sp a (stack_regs r sa) mod 16 = 0.
Proof.
  intros Hw Hm Hroom. pose proof word_bytes_pos. destruct sa as [|z sa].
  - unfold args_size. simpl. split_and!; [lia..|done].
  - unfold stack_regs. fold (args_size (z :: sa)).
    destruct (sp_align_bounds r (args_size (z :: sa))) as [H1 H2].
    { unfold in_word in *. assert (0 <= args_size (z :: sa)) by (unfold args_size; lia). lia. }
    split_and!; [lia..|done].
Qed.

(** The arguments are where the convention wants them, once the registers set up
    for them are intact and the others lie above the callee's stack pointer. *)
Lemma args_placed r1 r' sa_base args m m' :
  (forall name, name ∈ abi_reg_args a ->
     r' !! name = setup_args (arg_regs a) args r1 !! name) ->
  sp a r' + abi_stack_offset a = sa_base ->
  (forall x, sa_base <= x ->
     m' !! x = write_bytes sa_base (words a (drop (kMaxRegisterArgs a) args)) m !! x) ->
  Forall (in_word (word a)) args ->
  forall i x, args !! i = Some x -> abi_arg a r' m' i = Some x.
Proof.
  intros Hr Hsp Hm Hargs i x Hi. unfold abi_arg.
  destruct (abi_reg_args a !! i) as [name|] eqn:Hn.
  - rewrite Hr by (by eapply list_elem_of_lookup_2). eapply setup_args_lookup; [|..|exact Hi].
    + rewrite arg_regs_abi. apply abi_reg_args_ok.
    + by rewrite arg_regs_abi.
  - apply lookup_ge_None in Hn. rewrite Hsp.
    rewrite (read_word_agree _ _
      (write_bytes sa_base (words a (drop (kMaxRegisterArgs a) args)) m))
      by (intros y Hy; apply Hm;
          pose proof (Nat2Z.is_nonneg (word_bytes a * (i - length (abi_reg_args a)))); lia).
    apply read_word_written; [|by eapply Forall_lookup_1].
    rewrite lookup_drop, kMaxRegisterArgs_abi.
    by replace (length (abi_reg_args a) + (i - length (abi_reg_args a)))%nat with i by lia.
Qed.

Lemma return_addr_written addr ret m :
  in_word (word a) ret -> read_word a addr (write_bytes addr (words a [ret]) m) = Some ret.
Proof.
  intros Hr. pose proof (read_word_written a addr [ret] 0 ret m eq_refl Hr) as H.
  by rewrite Nat.mul_0_r, Z.add_0_r in H.
Qed.
End stack.

(** What [prepare_call] leaves in registers and memory when it succeeds. *)
Definition prepared (a : arch) (pid : Z) (r : regs) (func ret : Z) (args : list Z)
    (r' : regs) (t : list (event sysE)) : Prop :=
  (forall m, called a r' (memory_after pid t m) func ret args) /\
  (forall m x, sp a r <= x -> memory_after pid t m !! x = m !! x) /\
  (forall name, name ∉ abi_call_regs a -> r' !! name = r !! name).

Section prepare.
Variables (a : arch) (pid : Z) (r : regs) (func ret : Z) (args : list Z).
Hypothesis sp_word : in_word (word a) (sp a r).
Hypothesis sp_aligned : sp a r mod 16 = 0.
Hypothesis room : 16 + args_size a args <= sp a r.
Hypothesis args_word : Forall (in_word (word a)) args.
Hypothesis func_word : in_word (word a) func.
Hypothesis ret_word : in_word (word a) ret.

Abbreviation r1 := (setup_args (arg_regs a) args r).
Abbreviation sa := (drop (kMaxRegisterArgs a) args).
Abbreviation r2 := (stack_regs a r1 sa).

Lemma sa_size : 0 <= args_size a sa <= args_size a args.
Proof.
  unfold args_size. rewrite length_drop. split; [apply Nat2Z.is_nonneg|].
  apply Nat2Z.inj_le, Nat.mul_le_mono_r. lia.
Qed.

Lemma sp_r1 : sp a r1 = sp a r.
Proof. apply sp_setup_args. Qed.

Lemma sp_r2 : 1 <= sp a r2 /\ sp a r2 + args_size a sa <= sp a r /\ sp a r2 mod 16 = 0.
Proof.
  pose proof sa_size as Hsa.
  pose proof (stack_regs_sp a r1 sa) as H. rewrite sp_r1 in H.
  destruct H as (H1 & H2 & H3); [done|done|lia|].
  split_and!; [|done|done]. lia.
Qed.

Lemma r2_other name : name <> REG_SP a -> r2 !! name = r1 !! name.
Proof. apply stack_regs_other. Qed.

Lemma r1_other name : name ∉ abi_reg_args a -> r1 !! name = r !! name.
Proof. rewrite <-arg_regs_abi. apply setup_args_other. Qed.

(** The stack arguments, and what was above them. *)
Definition sa_memory (m : memory) : memory := write_bytes (sp a r2) (words a sa) m.

Lemma sa_memory_above m x : sp a r <= x -> sa_memory m !! x = m !! x.
Proof.
  intros Hx. apply write_bytes_outside. rewrite length_words. pose proof sp_r2.
  unfold args_size in *. lia.
Qed.

(** The registers a call ends up with: [r2] with a lower stack pointer on x86, the
    return address in the link register elsewhere. *)
Lemma prepared_x86 r' t t1 t2 :
  abi_stack_offset a = Z.of_nat (word_bytes a) ->
  r' = <[REG_IP a := func]> (set_sp a (sp a r2 - Z.of_nat (word_bytes a)) r2) ->
  t = t1 ++ t2 ->
  (forall m, memory_after pid t1 m = sa_memory m) ->
  (forall m, memory_after pid t2 m = write_bytes (sp a r') (words a [ret]) m) ->
  prepared a pid r func ret args r' t.
Proof.
  intros Hoff Hr' -> Ht1 Ht2. pose proof sp_r2 as (Hlow & Hup & Hmod). pose proof sa_size.
  pose proof (word_bytes_pos a) as Hwb.
  assert (sp a r' = sp a r2 - Z.of_nat (word_bytes a)) as Hsp.
  { rewrite Hr'. unfold sp at 1, reg_get. rewrite lookup_insert_ne by (by destruct a).
    fold (reg_get (set_sp a (sp a r2 - Z.of_nat (word_bytes a)) r2) (REG_SP a)).
    fold (sp a (set_sp a (sp a r2 - Z.of_nat (word_bytes a)) r2)).
    rewrite sp_set_sp. apply wrap_small. unfold in_word in *.
    pose proof (Z.div_mod (sp a r2) 16 ltac:(lia)). lia. }
  assert (forall name, name <> REG_SP a -> name <> REG_IP a -> r' !! name = r1 !! name) as Hregs.
  { intros name H1 H2. rewrite Hr', lookup_insert_ne, set_sp_other, r2_other by done. done. }
  assert (forall m x, sp a r2 <= x -> memory_after pid (t1 ++ t2) m !! x = sa_memory m !! x) as Hmem.
  { intros m x Hx. rewrite memory_after_app, Ht1, Ht2. apply write_bytes_outside.
    rewrite length_words. simpl. lia. }
  split_and!.
  - intros m. split.
    + unfold enters. rewrite Hr', lookup_insert_eq. destruct a; done.
    + eapply (args_placed a r).
      * intros name [H1 H2]%abi_arg_reg. by apply Hregs.
      * rewrite Hsp, Hoff. apply Z.sub_add.
      * apply Hmem.
      * done.
    + unfold abi_return_addr. rewrite memory_after_app, Ht2.
      rewrite return_addr_written by done. destruct a; done.
    + unfold abi_aligned. rewrite Hsp. destruct a; try done; simpl;
        by rewrite Z.sub_add.
  - intros m x Hx. rewrite Hmem by lia. by apply sa_memory_above.
  - intros name (H1 & H2 & H3 & _)%abi_call_regs_not. by rewrite Hregs, r1_other.
Qed.

Lemma risc_aligned r' :
  abi_stack_offset a = 0 -> sp a r' mod 16 = 0 -> abi_aligned a r'.
Proof.
  unfold abi_aligned. intros Hoff Hmod. pose proof (word_bytes_pos a).
  destruct a; simpl in *; try lia. pose proof (Z.div_mod (sp Arm r') 16 ltac:(lia)) as Hd.
  rewrite Hmod in Hd. replace (sp Arm r') with (2 * (sp Arm r' / 16) * 8) by lia. apply Z_mod_mult.
Qed.

Lemma prepared_risc r' t :
  abi_stack_offset a = 0 ->
  (forall m, memory_after pid t m = sa_memory m) ->
  (forall name, name <> REG_IP a -> name ∉ abi_link_regs a -> r' !! name = r2 !! name) ->
  enters a func r' -> (forall m, abi_return_addr a r' m = Some ret) ->
  prepared a pid r func ret args r' t.
Proof.
  intros Hoff Ht Hother Henter Hret.
  assert (sp a r' = sp a r2) as Hsp.
  { unfold sp, reg_get. rewrite Hother; [done|by destruct a|]. intros H%abi_link_reg. by destruct H. }
  split_and!.
  - intros m. split; [done| |by rewrite Hret|].
    2: { apply risc_aligned; [done|]. rewrite Hsp. by apply sp_r2. }
    eapply (args_placed a r); [| | |done].
    + intros name Hn. pose proof (abi_arg_reg a name Hn) as [H1 H2].
      rewrite Hother, r2_other; [done..|]. intros H%abi_link_reg. by destruct H.
    + rewrite Hsp, Hoff. apply Z.add_0_r.
    + intros x _. by rewrite Ht.
  - intros m x Hx. rewrite Ht. by apply sa_memory_above.
  - intros name (H1 & H2 & H3 & H4)%abi_call_regs_not. by rewrite Hother, r2_other, r1_other.
Qed.
End prepare.

(** The Thumb bit. *)
Lemma land_even x : in_word 32 x -> Z.land x (uintptr Arm (Z.lnot 1)) = 2 * (x / 2).
Proof.
  intros Hx. unfold uintptr, wrap. simpl word. rewrite <-(Z.land_ones (Z.lnot 1)) by lia.
  rewrite Z.land_comm, <-Z.land_assoc, (Z.land_comm (Z.ones _)), Z.land_ones by lia.
  rewrite (Z.mod_small x) by exact Hx. rewrite Z.land_comm, <-Z.ldiff_land.
  change 1 with (Z.ones 1). rewrite Z.ldiff_ones_r by lia.
  rewrite Z.shiftl_mul_pow2, Z.shiftr_div_pow2 by lia. change (2 ^ 1) with 2. lia.
Qed.

Lemma set_thumb_enters r func :
  in_word 32 func -> r !! REG_IP Arm = Some func -> enters Arm func (set_thumb Arm r).
Proof.
  intros Hf Hip. assert (reg_get r (REG_IP Arm) = func) as Hip'.
  { unfold reg_get. by rewrite Hip. }
  unfold enters, set_thumb. rewrite Hip'. clear Hip'.
  pose proof (Z.land_ones func 1 ltac:(lia)) as Hl.
  change (Z.ones 1) with 1 in Hl. change (2 ^ 1) with 2 in Hl. rewrite Hl. clear Hl.
  pose proof (Z.div_mod func 2 ltac:(lia)) as Hdiv. rewrite Zmod_odd in *.
  destruct (Z.odd func) eqn:Ho; cbn [negb Z.eqb]; split;
    rewrite ?lookup_insert_ne by done.
  - by rewrite lookup_insert_eq, land_even.
  - unfold reg_get at 1. rewrite lookup_insert_eq. cbn [from_option id]. by rewrite Z.lor_spec, orb_true_r.
  - rewrite Hip. f_equal. lia.
  - unfold reg_get at 1. rewrite lookup_insert_eq. cbn [from_option id]. by rewrite Z.land_spec, andb_false_r.
Qed.

Lemma set_thumb_other r name :
  name <> REG_IP Arm -> name <> "r16"%string -> set_thumb Arm r !! name = r !! name.
Proof.
  intros H1 H2. unfold set_thumb. split_if; by rewrite ?lookup_insert_ne by congruence.
Qed.

Lemma sp_eq a r r' : r' !! REG_SP a = r !! REG_SP a -> sp a r' = sp a r.
Proof. unfold sp, reg_get. by intros ->. Qed.

Section pre_call.
Variables (a : arch) (pid : Z) (r : regs) (func ret : Z) (args : list Z).
Hypothesis sp_word : in_word (word a) (sp a r).
Hypothesis args_word : Forall (in_word (word a)) args.
Hypothesis func_word : in_word (word a) func.
Hypothesis ret_word : in_word (word a) ret.

Hypothesis sp_aligned : sp a r mod 16 = 0.
Hypothesis room : 16 + args_size a args <= sp a r.

Abbreviation r2 :=
  (stack_regs a (setup_args (arg_regs a) args r) (drop (kMaxRegisterArgs a) args)).

(** The outcome of [prepare_call], after its writes [t1]. *)
Definition prepares (t1 : list (event sysE)) (o : outcome (bool * regs)) (t : list (event sysE)) :=
  exists ok r', o = Done (ok, r') /\ Forall (is_write pid) (t1 ++ t) /\
    (ok = true -> prepared a pid r func ret args r' (t1 ++ t)).

Lemma prepare_x86_wp t1 :
  abi_stack_offset a = Z.of_nat (word_bytes a) -> Forall (is_write pid) t1 ->
  (forall m, memory_after pid t1 m = sa_memory a r args m) ->
  wp ('(ok, r) ← push_return_addr a pid r2 ret;
      if negb ok then mret (false, r) else mret (true, <[REG_IP a := func]> r)) (prepares t1).
Proof.
  intros Hoff Hw1 Ht1. apply wp_bind. eapply wp_mono; [|apply push_return_addr_wp].
  intros o t2 (ok & -> & Hw2 & Ht2). simpl bindQ.
  assert (Forall (is_write pid) (t1 ++ t2 ++ [])) as Hw.
  { rewrite app_nil_r. by apply Forall_app. }
  destruct ok; simpl; eexists _, _; (split_and!; [done|exact Hw|]); try done.
  intros _.
  rewrite app_nil_r. eapply (prepared_x86 a pid r func ret args) with (t1 := t1) (t2 := t2); try done.
  intros m. rewrite (Ht2 eq_refl). f_equal. symmetry. apply sp_eq.
  rewrite lookup_insert_ne; [done|]. by destruct a.
Qed.

Lemma prepare_risc_wp t1 r' :
  abi_stack_offset a = 0 -> Forall (is_write pid) t1 ->
  (forall m, memory_after pid t1 m = sa_memory a r args m) ->
  (forall name, name <> REG_IP a -> name ∉ abi_link_regs a -> r' !! name = r2 !! name) ->
  enters a func r' -> (forall m, abi_return_addr a r' m = Some ret) ->
  wp (mret (true, r')) (prepares t1).
Proof.
  intros Hoff Hw1 Ht1 Hother Hent Hret. eexists _, _.
  rewrite app_nil_r. split_and!; [done|done|]. intros _. by apply prepared_risc.
Qed.
End pre_call.

Lemma prepare_call_wp a pid r func ret args :
  in_word (word a) (sp a r) -> Forall (in_word (word a)) args ->
  in_word (word a) func -> in_word (word a) ret ->
  sp a r mod 16 = 0 -> 16 + args_size a args <= sp a r ->
  wp (prepare_call a pid r func ret args) (prepares a pid r func ret args []).
Proof.
  intros Hw Hargs Hf Hret Hal Hroom. unfold prepare_call. apply wp_bind.
  eapply wp_mono; [|apply push_stack_args_wp]. intros o t1 (ok1 & -> & Hw1 & Ht1). simpl bindQ.
  destruct ok1; cbn [negb].
  2: { eexists _, _. rewrite app_nil_r. done. }
  specialize (Ht1 eq_refl).
  change (fun r' t' => prepares a pid r func ret args [] r' (t1 ++ t'))
    with (prepares a pid r func ret args t1).
  destruct a.
  - by apply (prepare_x86_wp X86_64).
  - by apply (prepare_x86_wp I386).
  - apply (prepare_risc_wp AArch64); try done.
    + intros name H1 H2%not_elem_of_cons. rewrite !lookup_insert_ne; naive_solver.
    + apply lookup_insert_eq.
    + intros m. simpl. by rewrite lookup_insert_ne, lookup_insert_eq.
  - apply (prepare_risc_wp Arm); try done.
    + intros name H1 [H2 [H3 _]%not_elem_of_cons]%not_elem_of_cons.
      rewrite set_thumb_other, !lookup_insert_ne; naive_solver.
    + apply set_thumb_enters; [done|]. apply lookup_insert_eq.
    + intros m. simpl. rewrite set_thumb_other by done.
      by rewrite lookup_insert_ne, lookup_insert_eq.
Qed.

(** ** Remote calls meet the calling convention *)

(** The writes of the arguments, then the registers, then the continuation. *)
Definition started (pid : Z) (r' : regs) (t : list (event sysE)) : Prop :=
  exists writes, Forall (is_write pid) writes /\
    t = writes ++ [Event (PtraceSetRegs pid r') true; Event (PtraceCont pid) true].

Definition continued (pid : Z) (ev : event sysE) : Prop :=
  match ev with Event (PtraceCont p) ok => p = pid /\ ok = true | _ => False end.

Lemma writes_not_continued pid t : Forall (is_write pid) t -> Forall (fun ev => ~ continued pid ev) t.
Proof. intros H. eapply Forall_impl; [exact H|]. intros [? [] ?]; simpl; tauto. Qed.

Lemma memory_after_started pid r' writes m :
  memory_after pid (writes ++ [Event (PtraceSetRegs pid r') true; Event (PtraceCont pid) true]) m
  = memory_after pid writes m.
Proof. by rewrite memory_after_app. Qed.

Lemma prepared_started a pid r r0 func ret args r' t :
  prepared a pid r0 func ret args r' t ->
  sp a r0 <= sp a r -> (forall name, name <> REG_SP a -> r0 !! name = r !! name) ->
  prepared a pid r func ret args r'
    (t ++ [Event (PtraceSetRegs pid r') true; Event (PtraceCont pid) true]).
Proof.
  intros (H1 & H2 & H3) Hsp Hr. split_and!.
  - intros m. rewrite memory_after_started. apply H1.
  - intros m x Hx. rewrite memory_after_started. apply H2. lia.
  - intros name Hn. rewrite H3 by done. apply Hr. by destruct (abi_call_regs_not _ _ Hn).
Qed.

(** C16: on each of the four architectures, when [remote_pre_call] answers true the
    target was continued exactly once, at the function, with registers and memory
    that meet the platform's calling convention: every argument where the callee
    looks for it, the return address, the alignment of the stack and, on arm, the
    instruction set; what lay above the target's stack pointer and its other
    registers are untouched.  When it answers false the target was not continued. *)
Theorem remote_pre_call_abi (a : arch) (pid : Z) (r : regs) (func ret : Z) (args : list Z) :
  in_word (word a) (sp a r) -> 31 + args_size a args <= sp a r ->
  Forall (in_word (word a)) args -> in_word (word a) func -> in_word (word a) ret ->
  wp (remote_pre_call a pid r func ret args) (fun o t =>
    exists ok r', o = Done (ok, r') /\
      if ok : bool then started pid r' t /\ prepared a pid r func ret args r' t
      else Forall (fun ev => ~ continued pid ev) t).
Proof.
  intros Hw Hroom Hargs Hf Hret. unfold remote_pre_call. apply wp_bind.
  assert (0 <= args_size a args) by apply Nat2Z.is_nonneg.
  destruct (sp_align_bounds a r 0) as [Hsp Hmod]; [by rewrite Z.sub_0_r|].
  rewrite Z.sub_0_r in Hsp.
  eapply wp_mono; [|apply prepare_call_wp; try done; [unfold in_word in *; lia|lia]].
  intros o t (ok & r' & -> & Hwr & Hprep). simpl bindQ. simpl app in Hwr, Hprep.
  destruct ok; cbn [negb].
  2: { exists false, r'. split; [done|]. rewrite app_nil_r. by apply writes_not_continued. }
  unfold set_regs. intros [|]; cbn [negb]; [intros ok|].
  - exists ok, r'. split; [done|]. destruct ok.
    + split; [by exists t|]. eapply prepared_started; [by apply Hprep|lia|].
      apply align_stack_other.
    + apply Forall_app. split; [by apply writes_not_continued|]. repeat constructor; simpl; naive_solver.
  - exists false, r'. split; [done|]. apply Forall_app.
    split; [by apply writes_not_continued|]. repeat constructor; simpl; naive_solver.
Qed.

(** On x86-64 the 128 bytes below the stack pointer belong to the interrupted
    function too (the red zone of the System V ABI). *)
Definition red_zone (r : regs) (x : Z) : Prop := sp X86_64 r - 128 <= x < sp X86_64 r.

(** A remote call on x86-64 writes its return address into the red zone of the
    interrupted function, so what that function kept there is lost even though the
    registers are restored later. *)
Theorem remote_pre_call_red_zone (pid : Z) (r : regs) (func ret : Z) (args : list Z) :
  in_word 64 (sp X86_64 r) -> 32 <= sp X86_64 r -> (length args <= 6)%nat ->
  wp (remote_pre_call X86_64 pid r func ret args) (fun _ t =>
    exists addr data n t', t = Event (ProcessVmWritev pid addr data) n :: t' /\
      length data = 8%nat /\ forall i, 0 <= i < 8 -> red_zone r (addr + i)).
Proof.
  intros Hw Hroom Hargs. unfold remote_pre_call, prepare_call.
  rewrite drop_ge by done. bind_ret. cbn [push_stack_args negb]. bind_ret.
  destruct (sp_align_bounds X86_64 r 0) as [Hsp Hmod]; [by rewrite Z.sub_0_r|].
  rewrite Z.sub_0_r in Hsp.
  set (r1 := setup_args _ _ _). assert (sp X86_64 r1 = sp X86_64 (align_stack X86_64 r 0)) as Hr1.
  { apply sp_setup_args. }
  intros n. apply wp_true. intros o t. eexists _, _, n, _.
  split; [done|]. split; [done|]. intros i Hi. unfold red_zone. rewrite sp_set_sp.
  unfold uintptr. simpl word_bytes. rewrite wrap_small; [lia|].
  unfold in_word in *. simpl word in *. lia.
Qed.

(** ** Waiting for the call to return *)

(** One for each answer of [waitpid]. *)
Definition is_wait (ev : event sysE) : Z :=
  match ev with Event (Waitpid _ _) _ => 1 | _ => 0 end.

Abbreviation waits := (tsum is_wait).

(** The target stopped by signal [sig]. *)
Definition stops_by (pid sig : Z) (ev : event sysE) : Prop :=
  exists p status, ev = Event (Waitpid pid WALL) (p, status) /\ p <> -1 /\
    WIFSTOPPED status = true /\ WSTOPSIG status = sig.

Lemma wait_for_trace_wp fuel pid flags :
  wp (wait_for_trace fuel pid flags) (fun o t =>
    Forall (fun ev => ~ continued pid ev) t /\
    match o with
    | Done (ok, status) =>
        1 <= waits t /\
        (ok = true -> exists t0 p, t = t0 ++ [Event (Waitpid pid flags) (p, status)] /\
                        p <> -1 /\ WIFSTOPPED status = true)
    | Timeout => waits t = Z.of_nat fuel
    | Fault => False
    end).
Proof.
  induction fuel as [|fuel IH]; cbn [wait_for_trace]; [by split|].
  intros [p status]. simpl. destruct (p =? -1) eqn:Hp.
  - intros e. destruct (e =? EINTR).
    + eapply wp_mono; [|exact IH]. intros o t [Hc Ht]. split; [repeat constructor; auto|].
      destruct o as [[ok s]| |]; cbn [tsum is_wait] in *; [|lia|done].
      destruct Ht as [Hn Hok]. split; [lia|]. intros (t0 & q & -> & Hq)%Hok.
      by exists (Event (Waitpid pid flags) (p, status) :: Event Errno e :: t0), q.
    + simpl. split; [repeat constructor; auto|]. split; [lia|done].
  - destruct (WIFSTOPPED status) eqn:Hs; simpl.
    + split; [repeat constructor; auto|]. split; [lia|]. intros _. exists [], p. boolp. auto.
    + split; [repeat constructor; auto|]. split; [lia|done].
Qed.

(** What a call that returned looked like: the target stopped by SIGSEGV at the
    return address, and its registers were read. *)
Definition returned (a : arch) (pid : Z) (ret : Z) (r' : regs) (t : list (event sysE)) : Prop :=
  exists t0 ev, t = t0 ++ [ev; Event (PtraceGetRegs pid) (Some r')] /\
    stops_by pid SIGSEGV ev /\ reg_get r' (REG_IP a) = ret.

Lemma remote_post_call_wp (a : arch) (fuel : nat) (pid : Z) (r : regs) (ret : Z) :
  wp (remote_post_call a fuel pid r ret) (fun o t =>
    match o with
    | Done (v, r') => v = 0 \/ returned a pid ret r' t /\ v = reg_get r' (REG_RET a)
    | Timeout => Z.of_nat fuel <= waits t
    | Fault => False
    end).
Proof.
  revert r. induction fuel as [|fuel IH]; intros r; cbn [remote_post_call]; [simpl; lia|].
  apply wp_bind. eapply wp_mono; [|apply wait_for_trace_wp].
  intros [[ok status]| |] t1 [_ Ht1]; simpl bindQ; [|lia|done].
  destruct Ht1 as [Hn Hok]. destruct ok; cbn [negb]; [|by left].
  destruct (Hok eq_refl) as (t0 & p & -> & Hp & Hstop). clear Hok.
  intros [r'|]; [|by left]. destruct (WSTOPSIG status =? SIGSEGV) eqn:Hsig; boolp.
  - destruct (reg_get r' (REG_IP a) =? ret) eqn:Hret; cbn [negb]; [|by intros ?; left].
    boolp. right. split; [|done]. exists t0, (Event (Waitpid pid WALL) (p, status)).
    rewrite <-app_assoc. split_and!; [done| |done]. by exists p, status.
  - intros [|]; cbn [negb]; [|by left]. eapply wp_mono; [|apply IH].
    intros [[v r2]| |] t2 Ht2; [|cbv beta iota in *; rewrite !tsum_app in *; cbn [tsum is_wait] in *; lia|done].
    destruct Ht2 as [->|[(t3 & ev & -> & Hev & Hr) ->]]; [by left|]. right. split; [|done].
    exists (t0 ++ [Event (Waitpid pid WALL) (p, status); Event (PtraceGetRegs pid) (Some r');
                   Event (PtraceCont pid) true] ++ t3), ev.
    split; [|done]. by rewrite <-!app_assoc.
Qed.

(** Waiting for a remote call never faults and runs out of fuel only after as
    many answers of waitpid; a result other than 0 is what the return register held
    when the target stopped by SIGSEGV at the expected address, and the target is
    stopped there, its last answered request the reading of its registers. *)
Theorem remote_post_call_result (a : arch) (fuel : nat) (pid : Z) (r : regs) (ret : Z) :
  wp (remote_post_call a fuel pid r ret) (fun o t =>
    match o with
    | Done (v, r') => v = 0 \/ returned a pid ret r' t /\ v = reg_get r' (REG_RET a)
    | Timeout => Z.of_nat fuel <= waits t
    | Fault => False
    end).
Proof. apply remote_post_call_wp. Qed.

(** ** Calls return

    A target that is interrupted and stops for other signals any number of times
    before it returns: [None] is a wait interrupted by a signal of the injector,
    [Some (status, r)] a stop with the registers it left. *)
Definition script : Type := list (option (Z * regs)).

Definition scripted (X : Type) (e : sysE X) (s : script * regs) : X * (script * regs) :=
  match e in sysE X return X * (script * regs) with
  | Waitpid pid _ =>
      match s.1 with
      | Some (status, r) :: rest => ((pid, status), (rest, r))
      | None :: rest => ((-1, 0), (rest, s.2))
      | [] => ((-1, 0), s)
      end
  | Errno => (EINTR, s)
  | PtraceGetRegs _ => (Some s.2, s)
  | PtraceAttach _ => (true, s)
  | PtraceDetach _ => (true, s)
  | PtraceCont _ => (true, s)
  | PtraceSetRegs _ _ => (true, s)
  | PtraceGetSigInfo _ => (true, s)
  | ProcessVmWritev _ _ data => (Z.of_nat (length data), s)
  | ProcessVmReadv _ _ len => ((Z.of_nat len, replicate len Byte.x00), s)
  | Open _ _ => (-1, s)
  | Close _ => (tt, s)
  | Write _ data => (Z.of_nat (length data), s)
  | Pwrite _ data _ => (Z.of_nat (length data), s)
  | ReadFile _ => (None, s)
  | Gettid => (1, s)
  | Socket _ _ _ => (-1, s)
  | Sendmsg _ _ _ => (0, s)
  | Setxattr _ _ _ => (0, s)
  | Dlopen _ => (0, s)
  | Dlsym _ _ => (0, s)
  | Dlclose _ => (tt, s)
  | RandomBelow _ => (0, s)
  | Realpath _ => (None, s)
  | Access _ => (false, s)
  end.

(** A stop the injector suppresses. *)
Definition benign (o : option (Z * regs)) : Prop :=
  match o with
  | None => True
  | Some (status, _) => WIFSTOPPED status = true /\ WSTOPSIG status <> SIGSEGV
  end.

Definition is_stop (o : option (Z * regs)) : Z := match o with Some _ => 1 | None => 0 end.

Fixpoint stops (s : script) : Z :=
  match s with [] => 0 | o :: s => is_stop o + stops s end.

(** One for each continuation of the target. *)
Definition is_cont (ev : event sysE) : Z :=
  match ev with Event (PtraceCont _) true => 1 | _ => 0 end.

(** The rest of a round of [remote_post_call] after its wait, by the rounds left. *)
Definition post_round (a : arch) (fuel : nat) (pid ret : Z) (r : regs) (stop : bool * Z)
  : SysM (Z * regs) :=
  let '(ok, status) := stop in
  if negb ok then mret (0, r)
  else
    got ← get_regs pid;
    match got with
    | None => mret (0, r)
    | Some r =>
        if WSTOPSIG status =? SIGSEGV then
          if negb (reg_get r (REG_IP a) =? ret)
          then _ ← call (PtraceGetSigInfo pid); mret (0, r)
          else mret (reg_get r (REG_RET a), r)
        else
          ok ← call (PtraceCont pid);
          if negb ok then mret (0, r) else remote_post_call a fuel pid r ret
    end.

Lemma remote_post_call_round a fuel pid ret r :
  remote_post_call a (S fuel) pid r ret =
    wait_for_trace (S fuel) pid WALL ≫= post_round a fuel pid ret r.
Proof. reflexivity. Qed.

Ltac run_go :=
  cbn [mbind prog_bind pbind call run scripted fst snd mret prog_ret app negb
       get_regs set_regs post_round].

Section completes.
Variables (a : arch) (pid : Z) (ret status : Z) (r' : regs).
Hypothesis pid_pos : 0 < pid.
Hypothesis stopped : WIFSTOPPED status = true.
Hypothesis segv : WSTOPSIG status = SIGSEGV.
Hypothesis at_ret : reg_get r' (REG_IP a) = ret.

Lemma run_post_call noise fw fuel r rc :
  Forall benign noise -> (length noise < fw)%nat -> (length noise < S fuel)%nat ->
  exists t,
    run scripted (wait_for_trace fw pid WALL ≫= post_round a fuel pid ret r)
      (noise ++ [Some (status, r')], rc) = (Done (reg_get r' (REG_RET a), r'), ([], r'), t) /\
    tsum is_cont t = stops noise.
Proof.
  assert ((pid =? -1) = false) as Hpid by lia.
  intros Hb. revert fw fuel r rc. induction Hb as [|o noise Ho Hb IH]; intros [|fw] fuel r rc Hfw Hf;
    simpl in Hfw, Hf; try lia; cbn [wait_for_trace].
  - run_go. rewrite Hpid. run_go. rewrite stopped. run_go.
    rewrite segv, at_ret, !Z.eqb_refl. run_go. eauto.
  - destruct fuel as [|fuel]; [lia|]. destruct o as [[st r1]|].
    + destruct Ho as [Hs1 Hs2]. run_go. rewrite Hpid. run_go. rewrite Hs1. run_go.
      apply Z.eqb_neq in Hs2. rewrite Hs2. run_go. rewrite remote_post_call_round.
      destruct (IH (S fuel) fuel r1 r1) as (t & Ht & Hc); [lia..|].
      unfold mbind, prog_bind in Ht |- *. rewrite Ht. eexists. split; [done|].
      cbn [tsum is_cont stops is_stop]. lia.
    + run_go. destruct (IH fw (S fuel) r rc) as (t & Ht & Hc); [lia..|].
      change (-1 =? -1) with true. run_go. change (EINTR =? EINTR) with true.
      cbv beta iota. unfold mbind, prog_bind in Ht |- *. rewrite Ht. eexists. split; [done|].
      cbn [tsum is_cont stops is_stop]. lia.
Qed.
End completes.

(** The scripted target accepts the call. *)
Lemma run_write_proc pid addr bs s :
  bs <> [] ->
  exists t, run scripted (write_proc pid addr bs false) s = (Done (Z.of_nat (length bs)), s, t) /\
    tsum is_cont t = 0.
Proof. destruct bs as [|b bs]; [done|]. intros _. unfold write_proc. run_go. eauto. Qed.

Lemma run_prepare_call a pid r func ret args s :
  exists r2 t, run scripted (prepare_call a pid r func ret args) s = (Done (true, r2), s, t) /\
    tsum is_cont t = 0.
Proof.
  unfold prepare_call.
  set (r1 := setup_args (arg_regs a) args r). set (sa := drop (kMaxRegisterArgs a) args).
  assert (exists r2 t, run scripted (push_stack_args a pid r1 sa) s = (Done (true, r2), s, t) /\
            tsum is_cont t = 0) as (r2 & t1 & H1 & Hc1).
  { destruct sa as [|z sa']; [by eexists _, _|]. unfold push_stack_args.
    destruct (run_write_proc pid (sp a (stack_regs a r1 (z :: sa'))) (words a (z :: sa')) s)
      as (t & Ht & Hc); [apply words_nonnil|].
    unfold stack_regs in Ht. rewrite (run_bind _ _ _ _ _ _ _ Ht). rewrite length_words, Z.eqb_refl.
    eexists _, _. split; [reflexivity|]. by rewrite tsum_app, Hc. }
  rewrite (run_bind _ _ _ _ _ _ _ H1). cbn [negb].
  destruct a; eexists _, _; (split; [reflexivity|]); by rewrite tsum_app, Hc1.
Qed.

(** C20: a call the target returns from ends, whatever signals interrupt it: after
    any number of interrupted waits and of stops by other signals, with fuel above
    their number, [remote_call] answers the value the function returned, and the
    target was continued once to start and once after each such stop. *)
Theorem remote_call_completes (a : arch) (fuel : nat) (pid : Z) (r r' : regs)
    (func ret : Z) (args : list Z) (noise : script) (status : Z) :
  0 < pid -> Forall benign noise -> (length noise < fuel)%nat ->
  WIFSTOPPED status = true -> WSTOPSIG status = SIGSEGV -> reg_get r' (REG_IP a) = ret ->
  exists t,
    run scripted (remote_call a fuel pid r func ret args) (noise ++ [Some (status, r')], r) =
      (Done (reg_get r' (REG_RET a), r'), ([], r'), t) /\
    tsum is_cont t = 1 + stops noise.
Proof.
  intros Hpid Hb Hf Hst Hsegv Hret. destruct fuel as [|fuel]; [lia|].
  unfold remote_call, remote_pre_call.
  destruct (run_prepare_call a pid (align_stack a r 0) func ret args
              (noise ++ [Some (status, r')], r)) as (r2 & t1 & H1 & Hc1).
  destruct (run_post_call a pid ret status r' Hpid Hst Hsegv Hret noise (S fuel) fuel r2 r)
    as (t2 & H2 & Hc2); [done..|].
  rewrite <-remote_post_call_round in H2.
  erewrite run_bind; [|erewrite run_bind; [|exact H1]; run_go; reflexivity].
  cbn [negb]. rewrite H2. eexists. split; [reflexivity|].
  rewrite !tsum_app, Hc1, Hc2. cbn [tsum is_cont]. lia.
Qed.

(** ** Concrete calls *)

Module CallSample.
(** An x86-64 thread, and a call with eight arguments. *)
Definition thread : regs := <["rsp" := 0x7ffc1238]> (<["rbx" := 5]> ∅).
Definition call8 : list Z := [1; 2; 3; 4; 5; 6; 7; 8].

(** Two interruptions, a SIGCHLD, another interruption, then the return. *)
Definition sigchld : Z := 0x117f.
Definition sigsegv : Z := 0x0b7f.
Definition at_return : regs := <["rip" := 0]> (<["rax" := 42]> thread).
Definition noise : script := [None; None; Some (sigchld, thread); None].

Example call_result :
  (run scripted (remote_call X86_64 5 7 thread 0x400000 0 call8)
     (noise ++ [Some (sigsegv, at_return)], thread)).1.1 = Done (42, at_return).
Proof. vm_compute. reflexivity. Qed.

(** One round too few. *)
Example call_out_of_fuel :
  (run scripted (remote_call X86_64 1 7 thread 0x400000 0 call8)
     (noise ++ [Some (sigsegv, at_return)], thread)).1.1 = Timeout.
Proof. vm_compute. reflexivity. Qed.

(** A crash elsewhere is not taken for a return. *)
Example call_crashed :
  (run scripted (remote_call X86_64 5 7 thread 0x400000 0 call8)
     ([Some (sigsegv, <["rip" := 0x400004]> at_return)], thread)).1.1 =
    Done (0, <["rip" := 0x400004]> at_return).
Proof. vm_compute. reflexivity. Qed.

(** The Thumb entry of an arm function. *)
Definition arm_thread : regs := <["r13" := 0xbeff1234]> (<["r16" := 0x10]> ∅).
Definition started_regs (p : SysM (bool * regs)) : regs :=
  match (run scripted p ([], ∅)).1.1 with Done (true, r) => r | _ => ∅ end.
Example thumb_entry :
  let r := started_regs (remote_pre_call Arm 7 arm_thread 0x8001 0 [9]) in
  (reg_get r "r15", reg_get r "r16", reg_get r "r0", reg_get r "r13") =
  (0x8000, 0x30, 9, 0xbeff1230).
Proof. vm_compute. reflexivity. Qed.
End CallSample.

Lemma remote_pre_call_abi_witness :
  exists ok r', (run scripted (remote_pre_call X86_64 7 CallSample.thread 0x400000 0 CallSample.call8)
                   ([], ∅)).1.1 = Done (ok, r') /\
    if ok : bool then
      started 7 r' (run scripted (remote_pre_call X86_64 7 CallSample.thread 0x400000 0
                                    CallSample.call8) ([], ∅)).2 /\
      prepared X86_64 7 CallSample.thread 0x400000 0 CallSample.call8 r'
        (run scripted (remote_pre_call X86_64 7 CallSample.thread 0x400000 0 CallSample.call8)
           ([], ∅)).2
    else
      Forall (fun ev => ~ continued 7 ev)
        (run scripted (remote_pre_call X86_64 7 CallSample.thread 0x400000 0 CallSample.call8)
           ([], ∅)).2.
Proof.
  apply (wp_run scripted _ _ (fun o t => exists ok r', o = Done (ok, r') /\
    if ok : bool then started 7 r' t /\
      prepared X86_64 7 CallSample.thread 0x400000 0 CallSample.call8 r' t
    else Forall (fun ev => ~ continued 7 ev) t)).
  apply (remote_pre_call_abi X86_64 7 CallSample.thread 0x400000 0 CallSample.call8);
    apply (bool_decide_unpack _); vm_compute; reflexivity.
Defined.

Lemma remote_pre_call_red_zone_witness :
  exists addr data n t',
    (run scripted (remote_pre_call X86_64 7 CallSample.thread 0x400000 0 [1; 2]) ([], ∅)).2 =
      Event (ProcessVmWritev 7 addr data) n :: t' /\
    length data = 8%nat /\ forall i, 0 <= i < 8 -> red_zone CallSample.thread (addr + i).
Proof.
  apply (wp_run scripted _ _ (fun _ t => exists addr data n t',
    t = Event (ProcessVmWritev 7 addr data) n :: t' /\
    length data = 8%nat /\ forall i, 0 <= i < 8 -> red_zone CallSample.thread (addr + i))).
  apply (remote_pre_call_red_zone 7 CallSample.thread 0x400000 0 [1; 2]);
    apply (bool_decide_unpack _); vm_compute; reflexivity.
Defined.

Lemma remote_call_completes_witness :
  exists t,
    run scripted (remote_call X86_64 5 7 CallSample.thread 0x400000 0 CallSample.call8)
      (CallSample.noise ++ [Some (CallSample.sigsegv, CallSample.at_return)], CallSample.thread) =
      (Done (42, CallSample.at_return), ([], CallSample.at_return), t) /\
    tsum is_cont t = 2.
Proof.
  apply (remote_call_completes X86_64 5 7 CallSample.thread CallSample.at_return 0x400000 0
           CallSample.call8 CallSample.noise CallSample.sigsegv).
  - reflexivity.
  - repeat constructor; discriminate.
  - simpl. lia.
  - reflexivity.
  - reflexivity.
  - reflexivity.
Defined.
