(* ===== verification/Inject.v ===== *)
(** * The injector (inject/main.cpp)

    Attach to a process, send it the library's descriptor over a socket, make it
    [dlopen] the descriptor, and call the library's entry point, all by function
    calls in the stopped process.  [fuel] bounds the rounds of the waiting loops.
    [dlextinfo] is [struct android_dlextinfo] of the platform's headers, with the
    flag that selects the descriptor and the descriptor. *)

From S2P Require Import Prelude Prog CText Sys Maps ProcUtils.
Local Open Scope Z_scope.

Definition kMagicLength : nat := 16.
Definition kSystemFileContext : string := "u:object_r:system_file:s0".
Definition kLibcModule : string := "libc.so".
Definition kLibdlModule : string := "libdl.so".
Definition kEntrySymbol : string := "entry".

Definition EXIT_SUCCESS : Z := 0.
Definition EXIT_FAILURE : Z := 1.

Section inject.
Variable a : arch.
Variable fuel : nat.
Variable dlextinfo : Z -> list byte.

Abbreviation uintptr := (uintptr a).
Abbreviation remote_call := (remote_call a fuel).

(** ** Structures of the socket interface *)

Definition zeros (n : nat) : list byte := repeat Byte.x00 n.

(** [struct sockaddr_un] with an abstract name *)
Definition sockaddr_un (magic : string) : list byte :=
  le_encode 2 AF_UNIX ++ take 108 (Byte.x00 :: string_bytes magic ++ zeros 108).

Definition addr_len (magic : string) : Z := 2 + 1 + Z.of_nat (String.length magic).

(** [struct msghdr] with a control buffer and nothing else *)
Definition msghdr (control controllen : Z) : list byte :=
  match a with
  | X86_64 | AArch64 =>
      zeros 8 ++ zeros 4 ++ zeros 4 ++ zeros 8 ++ zeros 8 ++
      le_encode 8 control ++ le_encode 8 controllen ++ zeros 4 ++ zeros 4
  | I386 | Arm =>
      zeros 4 ++ zeros 4 ++ zeros 4 ++ zeros 4 ++ le_encode 4 control ++ le_encode 4 controllen ++
      zeros 4
  end.

(** The header of a control message, and [CMSG_LEN], [CMSG_SPACE] of an [int]. *)
Definition cmsg_header : nat := (word_bytes a + 4 + 4)%nat.
Definition CMSG_LEN_int : nat := (cmsg_header + 4)%nat.
Definition CMSG_SPACE_int : nat :=
  match a with X86_64 | AArch64 => 24%nat | I386 | Arm => 16%nat end.

Definition rights_cmsg (fd : Z) : list byte :=
  take CMSG_SPACE_int
    (le_encode (word_bytes a) (Z.of_nat CMSG_LEN_int) ++ le_encode 4 SOL_SOCKET ++
     le_encode 4 SCM_RIGHTS ++ le_encode 4 fd ++ zeros 8).

(** The descriptor of a received control message, if it is one. *)
Definition read_cmsg (buf : list byte) : option Z :=
  len ← load_le 0 (word_bytes a) buf;
  level ← load_le (word_bytes a) 4 buf;
  type ← load_le (word_bytes a + 4) 4 buf;
  fd ← load_le cmsg_header 4 buf;
  if (len =? Z.of_nat CMSG_LEN_int) && (level =? SOL_SOCKET) && (type =? SCM_RIGHTS)
  then Some (sext 32 fd) else None.

(** ** transfer_fd_to_remote *)

Section transfer.
Variables (pid close_addr errno_addr : Z).

(** the lambda [close_remote] *)
Definition close_remote (r : regs) (fd : Z) : SysM regs :=
  '(_, r) ← remote_call pid r close_addr 0 [uintptr fd];
  mret r.

(** the lambda [get_remote_errno]; [read_proc] fails with -1, which [!] takes for
    success *)
Definition get_remote_errno (r : regs) : SysM (Z * regs) :=
  if errno_addr =? 0 then mret (0, r)
  else
    '(addr, r) ← remote_call pid r errno_addr 0 [];
    '(n, err) ← read_proc pid addr 4;
    if n =? 0 then mret (0, r)
    else if n =? -1 then mret (0, r)
    else mret (sext 32 (le_decode (take 4 (err ++ zeros 4))), r).
End transfer.

(** From the socket of the target to the descriptor it received. *)
Definition transfer_over (pid : Z) (r : regs) (local_socket local_lib_fd : Z)
    (socket_addr bind_addr recvmsg_addr close_addr errno_addr : Z) : SysM (option Z * regs) :=
  let close_remote := close_remote pid close_addr in
  let get_remote_errno := get_remote_errno pid errno_addr in
  '(v, r) ← remote_call pid r socket_addr 0 [AF_UNIX; Z.lor SOCK_DGRAM SOCK_CLOEXEC; 0];
  let remote_fd := sext 32 v in
  if remote_fd =? -1 then '(_, r) ← get_remote_errno r; mret (None, r)
  else
    magic ← generateMagic kMagicLength;
    let sock_addr := sockaddr_un magic in
    '(remote_addr, r) ← push_memory a pid r sock_addr;
    '(bind_result, r) ← remote_call pid r bind_addr 0
                          [uintptr remote_fd; remote_addr; addr_len magic];
    if bind_result =? uintptr (-1) then
      '(_, r) ← get_remote_errno r; r ← close_remote r remote_fd; mret (None, r)
    else
      '(remote_cmsgbuf, r) ← push_memory a pid r (zeros CMSG_SPACE_int);
      '(remote_hdr, r) ← push_memory a pid r (msghdr remote_cmsgbuf (Z.of_nat CMSG_SPACE_int));
      '(ok, r) ← remote_pre_call a pid r recvmsg_addr 0
                   [uintptr remote_fd; remote_hdr; MSG_WAITALL];
      if negb ok then r ← close_remote r remote_fd; mret (None, r)
      else
        sent ← call (Sendmsg local_socket (take (Z.to_nat (addr_len magic)) sock_addr)
                       (rights_cmsg local_lib_fd));
        if sent =? -1 then r ← close_remote r remote_fd; mret (None, r)
        else
          '(recvmsg_result, r) ← remote_post_call a fuel pid r 0;
          if recvmsg_result =? uintptr (-1) then
            '(_, r) ← get_remote_errno r; r ← close_remote r remote_fd; mret (None, r)
          else
            '(n, cmsgbuf) ← read_proc pid remote_cmsgbuf CMSG_SPACE_int;
            if negb (n =? Z.of_nat CMSG_SPACE_int) then
              r ← close_remote r remote_fd; mret (None, r)
            else
              match read_cmsg cmsgbuf with
              | None => r ← close_remote r remote_fd; mret (None, r)
              | Some transferred_fd =>
                  r ← close_remote r remote_fd; mret (Some transferred_fd, r)
              end.

Definition transfer_fd_to_remote (pid : Z) (lib_path : string) (r : regs)
    (local_map remote_map : list MapInfo) : SysM (option Z * regs) :=
  con ← set_sockcreate_con kSystemFileContext;
  if negb con then mret (None, r)
  else
    local_socket ← call (Socket AF_UNIX (Z.lor SOCK_DGRAM SOCK_CLOEXEC) 0);
    with_fd local_socket (
      if local_socket =? -1 then mret (None, r)
      else
        _ ← setfilecon lib_path kSystemFileContext;
        local_lib_fd ← call (Open lib_path (Z.lor O_RDONLY O_CLOEXEC));
        with_fd local_lib_fd (
          if local_lib_fd =? -1 then mret (None, r)
          else
            socket_addr ← find_func_addr a local_map remote_map kLibcModule "socket";
            bind_addr ← find_func_addr a local_map remote_map kLibcModule "bind";
            recvmsg_addr ← find_func_addr a local_map remote_map kLibcModule "recvmsg";
            close_addr ← find_func_addr a local_map remote_map kLibcModule "close";
            errno_addr ← find_func_addr a local_map remote_map kLibcModule "__errno";
            if (socket_addr =? 0) || (bind_addr =? 0) || (recvmsg_addr =? 0) || (close_addr =? 0)
            then mret (None, r)
            else transfer_over pid r local_socket local_lib_fd socket_addr bind_addr
                   recvmsg_addr close_addr errno_addr)).

(** ** Loading and running the library *)

Section library.
Variables (pid : Z) (local_map remote_map : list MapInfo) (libc_return_addr : Z).

Definition ascii_of_byte (b : byte) : ascii := Ascii.ascii_of_N (Byte.to_N b).

Fixpoint bytes_string (bs : list byte) : string :=
  match bs with [] => EmptyString | b :: bs => String (ascii_of_byte b) (bytes_string bs) end.

Definition get_remote_dlerror (r : regs) : SysM (string * regs) :=
  dlerror_addr ← find_func_addr a local_map remote_map kLibdlModule "dlerror";
  if dlerror_addr =? 0 then mret ("Failed to find dlerror function"%string, r)
  else
    '(dlerror_str_addr, r) ← remote_call pid r dlerror_addr libc_return_addr [];
    if dlerror_str_addr =? 0 then mret ("dlerror returned null"%string, r)
    else
      strlen_addr ← find_func_addr a local_map remote_map kLibcModule "strlen";
      if strlen_addr =? 0 then mret ("Failed to find strlen function"%string, r)
      else
        '(dlerror_len, r) ← remote_call pid r strlen_addr libc_return_addr [dlerror_str_addr];
        if (dlerror_len <=? 0) || (1024 <? dlerror_len)
        then mret ("Invalid dlerror string length"%string, r)
        else
          '(n, err) ← read_proc pid dlerror_str_addr (Z.to_nat dlerror_len);
          if negb (uintptr n =? dlerror_len) then mret ("Failed to read dlerror string"%string, r)
          else mret (bytes_string err, r).

Definition remote_dlopen (r : regs) (lib_fd : Z) (lib_path : string) : SysM (option Z * regs) :=
  dlopen_addr ← find_func_addr a local_map remote_map kLibdlModule "android_dlopen_ext";
  if dlopen_addr =? 0 then mret (None, r)
  else
    '(remote_info, r) ← push_memory a pid r (dlextinfo lib_fd);
    '(remote_path, r) ← push_string a pid r lib_path;
    '(remote_handle, r) ← remote_call pid r dlopen_addr libc_return_addr
                            [remote_path; RTLD_NOW; remote_info];
    if remote_handle =? 0 then '(_, r) ← get_remote_dlerror r; mret (None, r)
    else mret (Some remote_handle, r).

Definition remote_find_entry (r : regs) (remote_handle : Z) : SysM (option Z * regs) :=
  dlsym_addr ← find_func_addr a local_map remote_map kLibdlModule "dlsym";
  if dlsym_addr =? 0 then mret (None, r)
  else
    '(remote_symbol, r) ← push_string a pid r kEntrySymbol;
    '(entry_addr, r) ← remote_call pid r dlsym_addr libc_return_addr [remote_handle; remote_symbol];
    if entry_addr =? 0 then '(_, r) ← get_remote_dlerror r; mret (None, r)
    else mret (Some entry_addr, r).

Definition remote_call_entry (r : regs) (entry_addr remote_handle : Z) : SysM (bool * regs) :=
  '(_, r) ← remote_call pid r entry_addr libc_return_addr [remote_handle];
  mret (true, r).
End library.

(** [inject_library] from the transfer on; the guard is still held. *)
Definition load_and_run (pid : Z) (lib_path : string) (current_regs backup_regs : regs)
    (local_map remote_map : list MapInfo) (libc_return_addr : Z) : SysM bool :=
  '(lib_fd_opt, r) ← transfer_fd_to_remote pid lib_path current_regs local_map remote_map;
  match lib_fd_opt with
  | None => mret false
  | Some lib_fd =>
      '(handle_opt, r) ← remote_dlopen pid local_map remote_map libc_return_addr r lib_fd lib_path;
      match handle_opt with
      | None => mret false
      | Some remote_handle =>
          close_addr ← find_func_addr a local_map remote_map kLibcModule "close";
          r ← (if close_addr =? 0 then mret r
               else '(_, r) ← remote_call pid r close_addr 0 [uintptr lib_fd]; mret r);
          '(entry_opt, r) ← remote_find_entry pid local_map remote_map libc_return_addr r
                              remote_handle;
          match entry_opt with
          | None => mret false
          | Some entry_addr =>
              '(ok, r) ← remote_call_entry pid libc_return_addr r entry_addr remote_handle;
              if negb ok then mret false else set_regs pid backup_regs
          end
      end
  end.

(** The body of [inject_library] once the guard is attached. *)
Definition inject_attached (pid : Z) (lib_path : string) : SysM bool :=
  '(ok, status) ← wait_for_trace fuel pid WALL;
  if negb ok then mret false
  else if negb (WIFSTOPPED status) || negb (WSTOPSIG status =? SIGSTOP) then mret false
  else
    got ← get_regs pid;
    match got with
    | None => mret false
    | Some current_regs =>
        let backup_regs := current_regs in
        remote_map ← Scan (word a) (print_dec pid);
        local_map ← Scan (word a) "self";
        let libc_return_addr := find_module_return_addr remote_map kLibcModule in
        if libc_return_addr =? 0 then mret false
        else load_and_run pid lib_path current_regs backup_regs local_map remote_map
               libc_return_addr
    end.

(** The scope of a [PtraceAttachment]: its constructor attaches, and its destructor
    detaches when that worked.  [k] is given [is_attached()]. *)
Definition with_attachment {A} (pid : Z) (k : bool -> SysM A) : SysM A :=
  attached ← call (PtraceAttach pid);
  x ← k attached;
  _ ← when attached (_ ← call (PtraceDetach pid); mret tt);
  mret x.

Definition inject_library (pid : Z) (lib_path entry_name : string) : SysM bool :=
  with_attachment pid (fun is_attached =>
    if negb is_attached then mret false else inject_attached pid lib_path).

(** [~RemoteLibraryHandle] of a handle that was not moved from *)
Definition RemoteLibraryHandle_destroy (pid fd : Z) : SysM unit :=
  if fd =? -1 then mret tt
  else
    got ← get_regs pid;
    match got with
    | None => mret tt
    | Some r =>
        local_map ← Scan (word a) "self";
        remote_map ← Scan (word a) (print_dec pid);
        close_addr ← find_func_addr a local_map remote_map kLibcModule "close";
        if close_addr =? 0 then mret tt
        else _ ← remote_call pid r close_addr 0 [uintptr fd]; mret tt
    end.

(** [main]: the exit status *)
Definition main (argv : list string) : SysM Z :=
  match argv with
  | _ :: pid_arg :: lib_arg :: entry_name :: _ =>
      let '(pid_long, endptr) := strtol10 (word a) pid_arg in
      if negb (bool_decide (endptr = EmptyString)) || (pid_long <=? 0) || (INT_MAX <? pid_long)
      then mret EXIT_FAILURE
      else
        resolved ← call (Realpath lib_arg);
        match resolved with
        | None => mret EXIT_FAILURE
        | Some resolved_path =>
            readable ← call (Access resolved_path);
            if negb readable then mret EXIT_FAILURE
            else if (String.length entry_name =? 0)%nat then mret EXIT_FAILURE
            else
              success ← inject_library pid_long resolved_path entry_name;
              mret (if success : bool then EXIT_SUCCESS else EXIT_FAILURE)
        end
  | _ => mret EXIT_FAILURE
  end.
End inject.
