(* ===== verification/Device.v ===== *)
(** * A device to run the injector on

    One concrete environment: an arm64 process whose libraries answer as they do on
    a device.  It shows that the hypotheses of the theorems can hold, and what runs
    of the injector look like, failed ones included. *)

From S2P Require Import Prelude Prog CText Sys Maps ProcUtils Target RemoteCall Inject.
Local Open Scope Z_scope.

(** The knobs: what some of the calls answer. *)
Record setting := {
  sendmsg_answer : Z;
  dlopen_answer : Z;
  entry_answer : Z
}.

(** The thread of the target: its registers, and whether it was seen stopped yet. *)
Record device := { thread : regs; attached_stop : bool }.

Definition kPid : Z := 77.

(** Where functions lie in their library. *)
Definition symbol_offset (name : string) : Z :=
  if String.eqb name "socket" then 0x100
  else if String.eqb name "bind" then 0x110
  else if String.eqb name "recvmsg" then 0x120
  else if String.eqb name "close" then 0x130
  else if String.eqb name "__errno" then 0x140
  else if String.eqb name "android_dlopen_ext" then 0x150
  else if String.eqb name "dlsym" then 0x160
  else if String.eqb name "dlerror" then 0x170
  else if String.eqb name "strlen" then 0x180
  else 0x190.

Definition local_libc : Z := 0x7000000.
Definition local_libdl : Z := 0x7100000.
Definition remote_libc : Z := 0x8000000.
Definition remote_libdl : Z := 0x8100000.
Definition kHandle : Z := 0x5555.
Definition kEntry : Z := 0x9000000.

Definition line (start : string) (perm path : string) : string :=
  start +:+ "-7fffffff " +:+ perm +:+ " 00000000 00:01 9    " +:+ path +:+ MapsSample.nl.

Definition maps_text (libc libdl : string) : string :=
  line libc "r--p" "/apex/lib64/bionic/libc.so" +:+ line libdl "r--p" "/apex/lib64/bionic/libdl.so".

(** What the function at an address of the target returns. *)
Definition result_of (s : setting) (pc : Z) : Z :=
  if pc =? remote_libc + 0x100 then 9
  else if pc =? remote_libdl + 0x150 then dlopen_answer s
  else if pc =? remote_libdl + 0x160 then entry_answer s
  else 0.

(** The control message with descriptor 12. *)
Definition received : list byte := rights_cmsg AArch64 12.

Definition answer (s : setting) (X : Type) (e : sysE X) (d : device) : X * device :=
  match e in sysE X return X * device with
  | Open path _ => (if String.eqb path "/data/lib.so" then 6 else 4, d)
  | Close _ => (tt, d)
  | Write _ data => (Z.of_nat (length data), d)
  | Pwrite _ data _ => (Z.of_nat (length data), d)
  | ReadFile path =>
      (Some (if String.eqb path "/proc/self/maps" then maps_text "7000000" "7100000"
             else maps_text "8000000" "8100000"), d)
  | ProcessVmWritev _ _ data => (Z.of_nat (length data), d)
  | ProcessVmReadv _ _ len => ((Z.of_nat (length received), received), d)
  | PtraceAttach _ => (true, {| thread := thread d; attached_stop := false |})
  | PtraceDetach _ => (true, d)
  | PtraceCont _ =>
      let r := thread d in
      (true, {| thread := <["x0" := result_of s (reg_get r "pc")]> (<["pc" := reg_get r "x30"]> r);
                attached_stop := true |})
  | PtraceGetRegs _ => (Some (thread d), d)
  | PtraceSetRegs _ r => (true, {| thread := r; attached_stop := attached_stop d |})
  | PtraceGetSigInfo _ => (true, d)
  | Waitpid pid _ => ((pid, if attached_stop d then 0x0b7f else 0x137f), d)
  | Errno => (0, d)
  | Gettid => (1, d)
  | Socket _ _ _ => (5, d)
  | Sendmsg _ _ _ => (sendmsg_answer s, d)
  | Setxattr _ _ _ => (0, d)
  | Dlopen name => (if String.eqb name kLibcModule then 1 else 2, d)
  | Dlsym h name => ((if h =? 1 then local_libc else local_libdl) + symbol_offset name, d)
  | Dlclose _ => (tt, d)
  | RandomBelow _ => (7, d)
  | Realpath path => (Some path, d)
  | Access _ => (true, d)
  end.

Definition thread0 : regs :=
  <["sp" := 0x7ffc1238]> (<["pc" := 0x400010]> (<["x30" := 0x400100]> (<["x0" := 3]> ∅))).
Definition device0 : device := {| thread := thread0; attached_stop := false |}.

Definition works : setting :=
  {| sendmsg_answer := 0; dlopen_answer := kHandle; entry_answer := kEntry |}.

(** [struct android_dlextinfo] of the 64-bit platform headers, as far as it is used *)
Definition dlextinfo64 (fd : Z) : list byte :=
  le_encode 8 0x10 ++ zeros 16 ++ le_encode 4 0 ++ le_encode 4 fd ++ zeros 16.

Definition injection (s : setting) : outcome bool * device * list (event sysE) :=
  run (answer s) (inject_library AArch64 3 dlextinfo64 kPid "/data/lib.so" "entry") device0.

Example injection_works : (injection works).1.1 = Done true.
Proof. vm_compute. reflexivity. Qed.
