(* ===== verification/Resources.v ===== *)
(** * What the injector holds

    The descriptors, dynamic-linker handles and tracees the injector acquires are
    released by the time it ends, on every path and whatever the calls answer.  An
    operation is [Neutral] when it releases exactly what it acquires; the
    operations are shown neutral one by one, as instances, and the scopes of the
    source ([UniqueFd], [PtraceAttachment]) are the rules that pair an acquisition
    with its release. *)

From S2P Require Import Prelude Prog CText Sys Maps ProcUtils Target RemoteCall Inject Device.
Local Open Scope Z_scope.

Inductive resource : Type :=
| Descriptor (fd : Z)
| Handle (h : Z)
| Tracee (pid : Z).

#[export] Instance resource_eq_dec : EqDecision resource.
Proof. solve_decision. Defined.

Definition gains (r r' : resource) : Z := if decide (r = r') then 1 else 0.

(** What an answered call acquires (1) or releases (-1) of a resource. *)
Definition held (r : resource) (ev : event sysE) : Z :=
  match ev with
  | Event (Open _ _) fd => if 0 <=? fd then gains r (Descriptor fd) else 0
  | Event (Socket _ _ _) fd => if 0 <=? fd then gains r (Descriptor fd) else 0
  | Event (Close fd) _ => - gains r (Descriptor fd)
  | Event (Dlopen _) h => if h =? 0 then 0 else gains r (Handle h)
  | Event (Dlclose h) _ => - gains r (Handle h)
  | Event (PtraceAttach pid) ok => if ok : bool then gains r (Tracee pid) else 0
  | Event (PtraceDetach pid) _ => - gains r (Tracee pid)
  | _ => 0
  end.

(** What is asked of the answers: the random engine stays below its bound, and the
    numbers in a maps file fit the types they are scanned into. *)
Definition calls_ok (w : Z) (ev : event sysE) : Prop :=
  match ev with
  | Event (RandomBelow n) i => 0 <= i < n
  | Event (ReadFile _) (Some text) =>
      Forall (fun line => scan_line w (drop_last line) <> Undefined) (getlines text)
  | _ => True
  end.

Section neutral.
Context {fuel : nat} {w : Z}.

(** [holds d p]: [p] does not fault, runs out of fuel only after [fuel] answers of
    waitpid, and changes what is held by [d]. *)
Definition holds {X} (p : SysM X) (d : X -> resource -> Z) : Prop :=
  wpa (calls_ok w) p (fun o t =>
    match o with
    | Done x => forall r, tsum (held r) t = d x r
    | Timeout => Z.of_nat fuel <= waits t
    | Fault => False
    end).

Lemma holds_bind {X Y} (p : SysM X) (f : X -> SysM Y) d d' :
  holds p d -> (forall x, holds (f x) (fun y r => d' y r - d x r)) -> holds (p ≫= f) d'.
Proof.
  intros Hp Hf. apply wpa_bind. eapply wpa_mono; [exact Hp|].
  intros [x| |] t _ Ht; [|done|done]. eapply wpa_mono; [apply Hf|].
  intros [y| |] t' _ Ht'; [| |done].
  - intros r. rewrite tsum_app, Ht, Ht'. lia.
  - rewrite tsum_app. enough (0 <= waits t) by lia. clear. induction t as [|ev t IH]; [done|].
    cbn [tsum]. enough (0 <= is_wait ev) by lia. by destruct ev as [? [] ?].
Qed.

Lemma holds_ext {X} (p : SysM X) d d' :
  (forall x r, d x r = d' x r) -> holds p d -> holds p d'.
Proof.
  intros Hd Hp. eapply wpa_mono; [exact Hp|]. intros [x| |] t _ Ht; try done.
  intros r. by rewrite Ht, Hd.
Qed.

Lemma holds_call {X} (e : sysE X) : holds (call e) (fun x r => held r (Event e x)).
Proof. apply wpa_call. intros x _ r. simpl. lia. Qed.

Lemma holds_ret {X} (x : X) d : (forall r, d x r = 0) -> holds (mret x) d.
Proof. intros H. apply wpa_ret. intros r. by rewrite H. Qed.

Class Neutral {X} (p : SysM X) : Prop := neutral : holds p (fun _ _ => 0).

Lemma holds_neutral_bind {X Y} (p : SysM X) (f : X -> SysM Y) d :
  Neutral p -> (forall x, holds (f x) d) -> holds (p ≫= f) d.
Proof.
  intros Hp Hf. eapply holds_bind; [exact Hp|]. intros x.
  eapply holds_ext; [|apply Hf]. intros y r. simpl. lia.
Qed.

#[global] Instance neutral_ret {X} (x : X) : Neutral (mret x).
Proof. by apply holds_ret. Qed.

#[global] Instance neutral_bind {X Y} (p : SysM X) (f : X -> SysM Y) :
  Neutral p -> (forall x, Neutral (f x)) -> Neutral (p ≫= f).
Proof. intros Hp Hf. by apply holds_neutral_bind. Qed.

Lemma neutral_call {X} (e : sysE X) :
  (forall x r, held r (Event e x) = 0) -> Neutral (call e).
Proof. intros He. eapply holds_ext; [|apply holds_call]. done. Qed.

#[global] Instance neutral_when b p : Neutral p -> Neutral (when b p).
Proof. intros Hp. destruct b; [done|apply _]. Qed.

(** ** Scopes *)

(** What closing gives back. *)
Lemma holds_destroy fd :
  holds (unique_fd_destroy fd)
    (fun _ r => - (if 0 <=? fd then gains r (Descriptor fd) else 0)).
Proof.
  unfold unique_fd_destroy. destruct (0 <=? fd); cbn [when].
  - apply holds_call.
  - by apply holds_ret.
Qed.

(** Assignment closes what it replaces and holds the new descriptor. *)
Lemma holds_assign {X} fd fd2 (k : Z -> SysM X) d :
  holds (_ ← unique_fd_destroy fd; k fd2) d -> holds (fd' ← unique_fd_assign fd fd2; k fd') d.
Proof. unfold unique_fd_assign, unique_fd_destroy. by destruct (0 <=? fd). Qed.

(** A descriptor acquired and put in the scope of a [UniqueFd]. *)
Lemma neutral_with_fd {X} (e : sysE Z) (k : Z -> SysM X) :
  (forall fd r, held r (Event e fd) = if 0 <=? fd then gains r (Descriptor fd) else 0) ->
  (forall fd, Neutral (k fd)) -> Neutral (fd ← call e; with_fd fd (k fd)).
Proof.
  intros He Hk. eapply holds_bind; [apply holds_call|]. intros fd. cbv beta.
  apply holds_neutral_bind; [apply Hk|]. intros x.
  eapply holds_bind; [apply holds_destroy|]. intros u. apply holds_ret. intros r.
  rewrite He. lia.
Qed.

#[global] Instance neutral_with_attachment {X} pid (k : bool -> SysM X) :
  (forall b, Neutral (k b)) -> Neutral (with_attachment pid k).
Proof.
  intros Hk. eapply holds_bind; [apply holds_call|]. intros b. cbv beta.
  apply holds_neutral_bind; [apply Hk|]. intros x.
  eapply (holds_bind _ _ (fun _ r => - (if b then gains r (Tracee pid) else 0))).
  - destruct b; cbn [when]; [|by apply holds_ret].
    eapply holds_bind; [apply holds_call|]. intros ok. apply holds_ret. intros r. simpl. lia.
  - intros u. apply holds_ret. intros r. destruct b; simpl; lia.
Qed.
End neutral.

#[global] Arguments Neutral fuel w {X} p.

(** [neutral_go] takes a program apart until operations that have an instance. *)
Ltac neutral_go :=
  repeat lazymatch goal with
  | |- Neutral _ _ (mret _) => apply neutral_ret
  | |- Neutral _ _ (if ?b then _ else _) => destruct b
  | |- Neutral _ _ (match ?x with _ => _ end) => destruct x
  | |- Neutral _ _ (call (Open _ _) ≫= _) =>
      apply neutral_with_fd; [intros; reflexivity|intros]
  | |- Neutral _ _ (call (Socket _ _ _) ≫= _) =>
      apply neutral_with_fd; [intros; reflexivity|intros]
  | |- Neutral _ _ (_ ≫= _) => apply neutral_bind; [|intros]
  | |- Neutral _ _ (call _) => apply neutral_call; intros; reflexivity
  | |- Neutral _ _ _ => first [assumption | apply _]
  end.

Section operations.
Context {fuel : nat} {w : Z}.

(** ** inject/utils.cpp *)

#[global] Instance neutral_write_proc pid addr bs b : Neutral fuel w (write_proc pid addr bs b).
Proof. unfold write_proc. neutral_go. Qed.

#[global] Instance neutral_read_proc pid addr n : Neutral fuel w (read_proc pid addr n).
Proof. unfold read_proc. neutral_go. Qed.

#[global] Instance neutral_get_regs pid : Neutral fuel w (get_regs pid).
Proof. unfold get_regs. neutral_go. Qed.

#[global] Instance neutral_set_regs pid r : Neutral fuel w (set_regs pid r).
Proof. unfold set_regs. neutral_go. Qed.

(** The handle is closed on both paths that have one. *)
#[global] Instance neutral_find_func_addr a local remote m f :
  Neutral fuel w (find_func_addr a local remote m f).
Proof.
  unfold find_func_addr. eapply holds_bind; [apply holds_call|]. intros h. cbv beta.
  destruct (h =? 0) eqn:Hh.
  { apply holds_ret. intros r. simpl. by rewrite Hh. }
  assert (forall d, d = (fun r => - gains r (Handle h)) ->
            forall k : SysM Z, Neutral fuel w k ->
            @holds fuel w _ (_ ← call (Dlclose h); k) (fun _ r => d r)) as Hclose.
  { intros d -> k Hk. eapply holds_bind; [apply holds_call|]. intros u.
    eapply holds_ext; [|exact Hk]. intros x r. simpl. lia. }
  assert (forall r, 0 - held r (Event (Dlopen m) h) = - gains r (Handle h)) as Hd.
  { intros r. simpl. rewrite Hh. lia. }
  apply holds_neutral_bind; [by apply neutral_call|]. intros s.
  destruct (s =? 0); eapply holds_ext; try (apply Hclose; [reflexivity|]);
    try (intros; symmetry; apply Hd).
  - neutral_go.
  - cbv zeta. neutral_go.
Qed.

#[global] Instance neutral_push_memory a pid r data : Neutral fuel w (push_memory a pid r data).
Proof. unfold push_memory. cbv zeta. neutral_go. Qed.

#[global] Instance neutral_push_string a pid r s : Neutral fuel w (push_string a pid r s).
Proof. unfold push_string. cbv zeta. neutral_go. Qed.

#[global] Instance neutral_push_stack_args a pid r sa : Neutral fuel w (push_stack_args a pid r sa).
Proof. unfold push_stack_args. cbv zeta. neutral_go. Qed.

#[global] Instance neutral_push_return_addr a pid r ret :
  Neutral fuel w (push_return_addr a pid r ret).
Proof. unfold push_return_addr. cbv zeta. neutral_go. Qed.

#[global] Instance neutral_prepare_call a pid r func ret args :
  Neutral fuel w (prepare_call a pid r func ret args).
Proof. unfold prepare_call. cbv zeta. neutral_go. Qed.

#[global] Instance neutral_remote_pre_call a pid r func ret args :
  Neutral fuel w (remote_pre_call a pid r func ret args).
Proof. unfold remote_pre_call. cbv zeta. neutral_go. Qed.

End operations.

(** ** Loops *)

Lemma neutral_fuel fuel w {X} (p : SysM X) :
  Neutral 0 w p -> wp p (fun o t => o = Timeout -> Z.of_nat fuel <= waits t) -> Neutral fuel w p.
Proof.
  intros H0 Hw. eapply wp_mono; [|exact (wp_and _ _ _ H0 Hw)]. cbv beta.
  intros [x| |] t [H1 H2] Hr; [by apply H1|by apply H2|by apply H1].
Qed.

Lemma neutral_out w {X} : Neutral 0 w (@Out sysE X).
Proof. intros _. simpl. lia. Qed.

Lemma neutral_wait n w pid flags : Neutral 0 w (wait_for_trace n pid flags).
Proof.
  induction n as [|n IH]; cbn [wait_for_trace]; [apply neutral_out|]. neutral_go.
Qed.

Lemma neutral_post n w a pid r ret : Neutral 0 w (remote_post_call a n pid r ret).
Proof.
  revert r. induction n as [|n IH]; intros r; cbn [remote_post_call]; [apply neutral_out|].
  pose proof (neutral_wait (S n) w pid WALL). cbv zeta. neutral_go.
Qed.

Section loops.
Context {fuel : nat} {w : Z}.

#[global] Instance neutral_wait_for_trace pid flags :
  Neutral fuel w (wait_for_trace fuel pid flags).
Proof.
  apply neutral_fuel; [apply neutral_wait|]. eapply wp_mono; [|apply wait_for_trace_wp].
  intros [x| |] t [_ Ht]; try done. intros _. lia.
Qed.

#[global] Instance neutral_remote_post_call a pid r ret :
  Neutral fuel w (remote_post_call a fuel pid r ret).
Proof.
  apply neutral_fuel; [apply neutral_post|]. eapply wp_mono; [|apply remote_post_call_wp].
  intros [x| |] t Ht; done.
Qed.

#[global] Instance neutral_remote_call a pid r func ret args :
  Neutral fuel w (remote_call a fuel pid r func ret args).
Proof. unfold remote_call. neutral_go. Qed.

(** The random index is one of the alphabet. *)
Lemma kRandomChars_get i :
  0 <= i < Z.of_nat (String.length kRandomChars) ->
  exists c, String.get (Z.to_nat i) kRandomChars = Some c.
Proof.
  intros Hi. assert (Z.to_nat i < 62)%nat as Hn by (simpl in Hi; lia). revert Hn.
  generalize (Z.to_nat i). clear. intros n Hn.
  assert (forallb (fun n => match String.get n kRandomChars with Some _ => true | None => false end) (seq 0 62) = true)
    as Hall by (vm_compute; reflexivity).
  rewrite forallb_forall in Hall. specialize (Hall n).
  destruct (String.get n kRandomChars) as [c|]; [by exists c|].
  discriminate Hall. apply in_seq. lia.
Qed.

#[global] Instance neutral_magic n s : Neutral fuel w (magic_chars n s).
Proof.
  revert s. induction n as [|n IH]; intros s; cbn [magic_chars]; [apply _|].
  apply wpa_bind, wpa_call. intros i Hi. apply kRandomChars_get in Hi as [c ->].
  eapply wpa_mono; [apply IH|]. intros [x| |] t _ Ht; [|exact Ht|done].
  intros r. exact (Ht r).
Qed.

#[global] Instance neutral_generateMagic n : Neutral fuel w (generateMagic n).
Proof. unfold generateMagic. neutral_go. Qed.

#[global] Instance neutral_setfilecon p c : Neutral fuel w (setfilecon p c).
Proof. unfold setfilecon. neutral_go. Qed.

(** The first descriptor is closed when the second replaces it. *)
#[global] Instance neutral_set_sockcreate_con c : Neutral fuel w (set_sockcreate_con c).
Proof.
  unfold set_sockcreate_con. cbv zeta.
  eapply holds_bind; [apply holds_call|]. intros fd. cbv beta.
  apply holds_neutral_bind; [neutral_go|]. intros [|].
  - eapply holds_bind; [apply holds_destroy|]. intros u. apply holds_ret.
    intros r. simpl. lia.
  - apply holds_neutral_bind; [neutral_go|]. intros tid.
    eapply holds_bind; [apply holds_call|]. intros fd2. apply holds_assign.
    eapply holds_bind; [apply holds_destroy|]. intros u.
    apply holds_neutral_bind; [neutral_go|]. intros b.
    eapply holds_bind; [apply holds_destroy|]. intros u2. apply holds_ret.
    intros r. simpl. lia.
Qed.

(** A text the scanner can read. *)
Lemma neutral_scan_lines lines :
  Forall (fun line => scan_line w (drop_last line) <> Undefined) lines ->
  Neutral fuel w (scan_lines w lines).
Proof.
  induction 1 as [|line lines Hline Hlines IH]; cbn [scan_lines]; [apply _|].
  destruct (scan_line w (drop_last line)); [neutral_go|done|done].
Qed.

#[global] Instance neutral_Scan pid : Neutral fuel w (Scan w pid).
Proof.
  unfold Scan. apply wpa_bind, wpa_call. intros [text|] Htext.
  - eapply wpa_mono; [by apply neutral_scan_lines|]. intros [x| |] t _ Ht; [|exact Ht|done].
    intros r. exact (Ht r).
  - apply wpa_ret. done.
Qed.
End loops.

(** ** inject/main.cpp *)

Section injector.
Variable a : arch.
Variable fuel : nat.
Variable dlextinfo : Z -> list byte.
Abbreviation Neutral := (Neutral fuel (word a)).

Instance neutral_close_remote pid close_addr r fd :
  Neutral (close_remote a fuel pid close_addr r fd).
Proof. unfold close_remote. neutral_go. Qed.

Instance neutral_get_remote_errno pid errno_addr r :
  Neutral (get_remote_errno a fuel pid errno_addr r).
Proof. unfold get_remote_errno. neutral_go. Qed.

Instance neutral_transfer_over pid r s l a1 a2 a3 a4 a5 :
  Neutral (transfer_over a fuel pid r s l a1 a2 a3 a4 a5).
Proof. unfold transfer_over. cbv zeta. neutral_go. Qed.

Instance neutral_transfer pid path r local remote :
  Neutral (transfer_fd_to_remote a fuel pid path r local remote).
Proof. unfold transfer_fd_to_remote. neutral_go. Qed.

Instance neutral_get_remote_dlerror pid local remote ret r :
  Neutral (get_remote_dlerror a fuel pid local remote ret r).
Proof. unfold get_remote_dlerror. neutral_go. Qed.

Instance neutral_remote_dlopen pid local remote ret r fd path :
  Neutral (remote_dlopen a fuel dlextinfo pid local remote ret r fd path).
Proof. unfold remote_dlopen. neutral_go. Qed.

Instance neutral_remote_find_entry pid local remote ret r h :
  Neutral (remote_find_entry a fuel pid local remote ret r h).
Proof. unfold remote_find_entry. neutral_go. Qed.

Instance neutral_remote_call_entry pid ret r e h :
  Neutral (remote_call_entry a fuel pid ret r e h).
Proof. unfold remote_call_entry. neutral_go. Qed.

Instance neutral_load_and_run pid path r b local remote ret :
  Neutral (load_and_run a fuel dlextinfo pid path r b local remote ret).
Proof. unfold load_and_run. neutral_go. Qed.

Instance neutral_inject_attached pid path : Neutral (inject_attached a fuel dlextinfo pid path).
Proof. unfold inject_attached. cbv zeta. neutral_go. Qed.

Instance neutral_inject_library pid path entry_name :
  Neutral (inject_library a fuel dlextinfo pid path entry_name).
Proof. apply neutral_with_attachment. intros b. neutral_go. Qed.

Instance neutral_main argv : Neutral (main a fuel dlextinfo argv).
Proof. unfold main. cbv zeta. neutral_go. Qed.

(** C18: whatever the system answers, an injection ends without fault (or waits for
    the target more often than its fuel), and by then every descriptor, every
    dynamic-linker handle and the attachment to the target have been released as
    often as they were acquired. *)
Theorem inject_library_releases (pid : Z) (lib_path entry_name : string)
    (t : list (event sysE)) (o : outcome bool) :
  exec (inject_library a fuel dlextinfo pid lib_path entry_name) t o ->
  Forall (calls_ok (word a)) t ->
  match o with
  | Done _ => forall r, tsum (held r) t = 0
  | Timeout => Z.of_nat fuel <= waits t
  | Fault => False
  end.
Proof.
  intros He Ht.
  pose proof (proj1 (wpa_exec _ _ _) (neutral_inject_library pid lib_path entry_name) t o He Ht) as H.
  destruct o; auto.
Qed.
End injector.

Definition calls_okb (w : Z) (ev : event sysE) : bool :=
  match ev with
  | Event (RandomBelow n) i => (0 <=? i) && (i <? n)
  | Event (ReadFile _) (Some text) =>
      forallb (fun line => match scan_line w (drop_last line) with Undefined => false | _ => true end)
        (getlines text)
  | _ => true
  end.

Lemma calls_okb_all w t : forallb (calls_okb w) t = true -> Forall (calls_ok w) t.
Proof.
  intros H. apply Forall_forall. intros ev Hev. rewrite forallb_forall in H.
  specialize (H ev (proj1 (list_elem_of_In _ _) Hev)).
  destruct ev as [? [] x]; try done; simpl in *.
  - destruct x as [text|]; [|done]. apply Forall_forall. intros line Hline.
    rewrite forallb_forall in H. specialize (H line (proj1 (list_elem_of_In _ _) Hline)).
    by destruct (scan_line w (drop_last line)).
  - boolp. lia.
Qed.

Lemma inject_library_releases_witness :
  match (injection works).1.1 with
  | Done _ => forall r, tsum (held r) (injection works).2 = 0
  | Timeout => Z.of_nat 3 <= waits (injection works).2
  | Fault => False
  end.
Proof.
  apply (inject_library_releases AArch64 3 dlextinfo64 kPid "/data/lib.so" "entry").
  - unfold injection. apply run_exec'.
  - apply calls_okb_all. vm_compute. reflexivity.
Defined.
