(* ===== verification/Tracee.v ===== *)
(** * The tracee protocol

    The kernel accepts requests about a tracee only while it is stopped, and a wait
    for a tracee that is already stopped does not return.  [step] is that state
    machine; the theorems say which executions of the injector it accepts, and what
    a finished injection leaves behind. *)

From S2P Require Import Prelude Prog CText Sys Maps ProcUtils Target RemoteCall Inject Device.
Local Open Scope Z_scope.

(** ** The state machine *)

Inductive tracee : Type := Detached | Running | Stopped.

#[export] Instance tracee_eq_dec : EqDecision tracee.
Proof. solve_decision. Defined.

(** One call of the injector; [None] when the tracee is not in the state it needs.
    Memory is written and read only while the target is stopped. *)
Definition step (s : tracee) (ev : event sysE) : option tracee :=
  match ev with
  | Event (PtraceAttach _) ok =>
      match s with Detached => Some (if ok : bool then Running else Detached) | _ => None end
  | Event (PtraceDetach _) _ => match s with Stopped => Some Detached | _ => None end
  | Event (PtraceCont _) ok =>
      match s with Stopped => Some (if ok : bool then Running else Stopped) | _ => None end
  | Event (Waitpid _ _) (p, status) =>
      match s with
      | Running => Some (if negb (p =? -1) && WIFSTOPPED status then Stopped else Running)
      | _ => None
      end
  | Event (PtraceGetRegs _) _ | Event (PtraceSetRegs _ _) _ | Event (PtraceGetSigInfo _) _
  | Event (ProcessVmWritev _ _ _) _ | Event (ProcessVmReadv _ _ _) _ =>
      match s with Stopped => Some Stopped | _ => None end
  | _ => Some s
  end.

Fixpoint steps (s : tracee) (t : list (event sysE)) : option tracee :=
  match t with
  | [] => Some s
  | ev :: t => s' ← step s ev; steps s' t
  end.

Lemma steps_app s t1 t2 : steps s (t1 ++ t2) = s' ← steps s t1; steps s' t2.
Proof.
  revert s. induction t1 as [|ev t1 IH]; intros s; simpl; [done|].
  destruct (step s ev) as [s'|]; simpl; [apply IH|done].
Qed.

(** A target that stays alive: a wait either reports a stop or was interrupted, and
    the message with the descriptor is delivered. *)
Definition healthy (ev : event sysE) : Prop :=
  match ev with
  | Event (Waitpid _ _) (p, status) => p = -1 \/ WIFSTOPPED status = true
  | Event Errno e => e = EINTR
  | Event (Sendmsg _ _ _) n => n <> -1
  | _ => True
  end.

(** ** Operations as transitions

    [moves s p q]: from state [s], [p] makes accepted calls only and ends in the
    state [q] gives for its result. *)
Definition moves {X} (s : tracee) (p : SysM X) (q : X -> tracee) : Prop :=
  wpa healthy p (fun o t =>
    exists s', steps s t = Some s' /\ match o with Done x => s' = q x | _ => True end).

Lemma moves_bind {X Y} s (p : SysM X) (f : X -> SysM Y) q q' :
  moves s p q -> (forall x, moves (q x) (f x) q') -> moves s (p ≫= f) q'.
Proof.
  intros Hp Hf. apply wpa_bind. eapply wpa_mono; [exact Hp|].
  intros [x| |] t _ (s1 & H1 & H2); [|by exists s1|by exists s1]. subst s1.
  eapply wpa_mono; [apply Hf|]. intros o t' _ (s2 & H3 & H4). exists s2.
  rewrite steps_app, H1. done.
Qed.

Lemma moves_ret {X} s (x : X) q : s = q x -> moves s (mret x) q.
Proof. intros ->. apply wpa_ret. by exists (q x). Qed.

Lemma moves_call {X} s (e : sysE X) q :
  (forall x, healthy (Event e x) -> step s (Event e x) = Some (q x)) -> moves s (call e) q.
Proof. intros H. apply wpa_call. intros x Hx. exists (q x). cbn [steps]. by rewrite (H x Hx). Qed.

(** A call whose answer decides the state. *)
Lemma moves_vis {X Y} s (e : sysE X) (k : X -> SysM Y) q :
  (forall x, healthy (Event e x) -> exists s1, step s (Event e x) = Some s1 /\ moves s1 (k x) q) ->
  moves s (call e ≫= k) q.
Proof.
  intros H. apply wpa_bind, wpa_call. intros x Hx. destruct (H x Hx) as (s1 & Hs & Hk).
  eapply wpa_mono; [exact Hk|]. intros o t _ (s2 & H1 & H2). exists s2. cbn [app steps].
  by rewrite Hs.
Qed.

Lemma moves_out {X} s (q : X -> tracee) : moves s Out q.
Proof. intros _. by exists s. Qed.

Lemma moves_crash {X} s (q : X -> tracee) : moves s Crash q.
Proof. intros _. by exists s. Qed.

(** Operations made in a stop and that leave the target stopped, and those that do
    not concern it. *)
Class Stays (s : tracee) {X} (p : SysM X) : Prop := stays : moves s p (fun _ => s).

#[export] Instance stays_ret s {X} (x : X) : Stays s (mret x).
Proof. by apply moves_ret. Qed.

#[export] Instance stays_bind s {X Y} (p : SysM X) (f : X -> SysM Y) :
  Stays s p -> (forall x, Stays s (f x)) -> Stays s (p ≫= f).
Proof. intros Hp Hf. by eapply moves_bind. Qed.

#[export] Instance stays_when s b p : Stays s p -> Stays s (when b p).
Proof. intros Hp. destruct b; [done|apply _]. Qed.

#[export] Instance stays_destroy s fd : Stays s (unique_fd_destroy fd).
Proof. apply stays_when, moves_call. by destruct s. Qed.

#[export] Instance stays_with_fd s {X} fd (k : SysM X) : Stays s k -> Stays s (with_fd fd k).
Proof. intros Hk. unfold with_fd. apply _. Qed.

Ltac stays_go :=
  repeat lazymatch goal with
  | |- Stays _ (mret _) => apply stays_ret
  | |- Stays _ Crash => apply moves_crash
  | |- Stays _ (if ?b then _ else _) => destruct b
  | |- Stays _ (match ?x with _ => _ end) => destruct x
  | |- Stays _ (with_fd _ _) => apply stays_with_fd
  | |- Stays _ (_ ≫= _) => apply stays_bind; [|intros]
  | |- Stays ?s (call _) => apply moves_call; intros; first [reflexivity | by destruct s]
  | |- Stays _ _ => first [assumption | apply _]
  end.

Section operations.
Variable a : arch.
Variable fuel : nat.

#[export] Instance stays_write_proc pid addr bs : Stays Stopped (write_proc pid addr bs false).
Proof. unfold write_proc. stays_go. Qed.

#[export] Instance stays_read_proc pid addr n : Stays Stopped (read_proc pid addr n).
Proof. unfold read_proc. stays_go. Qed.

#[export] Instance stays_get_regs pid : Stays Stopped (get_regs pid).
Proof. unfold get_regs. stays_go. Qed.

#[export] Instance stays_set_regs pid r : Stays Stopped (set_regs pid r).
Proof. unfold set_regs. stays_go. Qed.

#[export] Instance stays_find_func_addr s local remote m f :
  Stays s (find_func_addr a local remote m f).
Proof. unfold find_func_addr. cbv zeta. stays_go. Qed.

#[export] Instance stays_push_memory pid r data : Stays Stopped (push_memory a pid r data).
Proof. unfold push_memory. cbv zeta. stays_go. Qed.

#[export] Instance stays_push_string pid r str : Stays Stopped (push_string a pid r str).
Proof. unfold push_string. cbv zeta. stays_go. Qed.

#[export] Instance stays_prepare_call pid r func ret args :
  Stays Stopped (prepare_call a pid r func ret args).
Proof.
  unfold prepare_call, push_stack_args, push_return_addr. cbv zeta. stays_go.
Qed.

(** A prepared call leaves the target running exactly when it says so. *)
Lemma moves_pre_call pid r func ret args :
  moves Stopped (remote_pre_call a pid r func ret args)
    (fun '(ok, _) => if ok : bool then Running else Stopped).
Proof.
  unfold remote_pre_call. cbv zeta. eapply moves_bind; [apply stays|]. intros [[|] r1]; cbn [negb].
  - eapply moves_bind; [apply stays|]. intros [|]; cbn [negb]; [|by apply moves_ret].
    eapply moves_bind; [by apply (moves_call _ _ (fun ok => if ok : bool then Running else Stopped))|].
    intros ok. by apply moves_ret.
  - by apply moves_ret.
Qed.

Lemma moves_wait n pid flags :
  moves Running (wait_for_trace n pid flags) (fun _ => Stopped).
Proof.
  induction n as [|n IH]; cbn [wait_for_trace]; [apply moves_out|].
  apply moves_vis. intros [p status] Hh. eexists. split; [reflexivity|].
  destruct (p =? -1) eqn:Hp; cbn [negb andb].
  - apply moves_vis. intros e ->. by exists Running.
  - destruct Hh as [->|Hh]; [done|]. rewrite Hh. by apply moves_ret.
Qed.

Lemma moves_post_call n pid r ret :
  moves Running (remote_post_call a n pid r ret) (fun _ => Stopped).
Proof.
  revert r. induction n as [|n IH]; intros r; cbn [remote_post_call]; [apply moves_out|].
  eapply moves_bind; [apply moves_wait|]. intros [ok status].
  destruct ok; cbn [negb]; [|by apply moves_ret].
  eapply moves_bind; [apply stays|]. intros [r1|]; [|by apply moves_ret]. cbv zeta.
  destruct (WSTOPSIG status =? SIGSEGV); [match goal with |- moves Stopped ?p _ => change (Stays Stopped p) end; stays_go|].
  apply moves_vis. intros ok _. eexists. split; [reflexivity|].
  destruct ok; cbn [negb]; [apply IH|by apply moves_ret].
Qed.

#[export] Instance stays_remote_call pid r func ret args :
  Stays Stopped (remote_call a fuel pid r func ret args).
Proof.
  unfold remote_call. eapply moves_bind; [apply moves_pre_call|]. intros [[|] r1]; cbn [negb].
  - apply moves_post_call.
  - by apply moves_ret.
Qed.

#[export] Instance stays_magic s n str : Stays s (magic_chars n str).
Proof.
  revert str. induction n as [|n IH]; intros str; cbn [magic_chars]; stays_go.
Qed.

#[export] Instance stays_generateMagic s n : Stays s (generateMagic n).
Proof. unfold generateMagic. stays_go. Qed.

#[export] Instance stays_setfilecon s p c : Stays s (setfilecon p c).
Proof. unfold setfilecon. stays_go. Qed.

#[export] Instance stays_set_sockcreate_con s c : Stays s (set_sockcreate_con c).
Proof. unfold set_sockcreate_con, unique_fd_assign. cbv zeta. stays_go. Qed.

#[export] Instance stays_scan_lines s w lines : Stays s (scan_lines w lines).
Proof. induction lines as [|line lines IH]; cbn [scan_lines]; stays_go. Qed.

#[export] Instance stays_Scan s w pid : Stays s (Scan w pid).
Proof. unfold Scan. stays_go. Qed.

(** ** inject/main.cpp *)

Variable dlextinfo : Z -> list byte.

#[export] Instance stays_close_remote pid close_addr r fd :
  Stays Stopped (close_remote a fuel pid close_addr r fd).
Proof. unfold close_remote. stays_go. Qed.

#[export] Instance stays_get_remote_errno pid errno_addr r :
  Stays Stopped (get_remote_errno a fuel pid errno_addr r).
Proof. unfold get_remote_errno. stays_go. Qed.

(** Between the call of recvmsg and its return the target runs, and only the
    message is sent. *)
#[export] Instance stays_transfer_over pid r s l a1 a2 a3 a4 a5 :
  Stays Stopped (transfer_over a fuel pid r s l a1 a2 a3 a4 a5).
Proof.
  unfold transfer_over. cbv zeta.
  apply stays_bind; [apply _|]. intros [v r1]. destruct (sext 32 v =? -1); [stays_go|].
  apply stays_bind; [apply _|]. intros magic.
  apply stays_bind; [apply _|]. intros [addr r2].
  apply stays_bind; [apply _|]. intros [bind_result r3]. destruct (bind_result =? _); [stays_go|].
  apply stays_bind; [apply _|]. intros [buf r4].
  apply stays_bind; [apply _|]. intros [hdr r5].
  eapply moves_bind; [apply moves_pre_call|]. intros [[|] r6]; cbn [negb].
  2: { change (Stays Stopped (r7 ← close_remote a fuel pid a4 r6 (sext 32 v); mret (@None Z, r7))).
       stays_go. }
  apply moves_vis. intros n Hn. exists Running. split; [done|].
  destruct (n =? -1) eqn:Hn1; [boolp; done|].
  eapply moves_bind; [apply moves_post_call|]. intros [res r7].
  match goal with |- moves Stopped ?p _ => change (Stays Stopped p) end. stays_go.
Qed.

#[export] Instance stays_transfer pid path r local remote :
  Stays Stopped (transfer_fd_to_remote a fuel pid path r local remote).
Proof. unfold transfer_fd_to_remote. stays_go. Qed.

#[export] Instance stays_get_remote_dlerror pid local remote ret r :
  Stays Stopped (get_remote_dlerror a fuel pid local remote ret r).
Proof. unfold get_remote_dlerror. stays_go. Qed.

#[export] Instance stays_remote_dlopen pid local remote ret r fd path :
  Stays Stopped (remote_dlopen a fuel dlextinfo pid local remote ret r fd path).
Proof. unfold remote_dlopen. stays_go. Qed.

#[export] Instance stays_remote_find_entry pid local remote ret r h :
  Stays Stopped (remote_find_entry a fuel pid local remote ret r h).
Proof. unfold remote_find_entry. stays_go. Qed.

#[export] Instance stays_remote_call_entry pid ret r e h :
  Stays Stopped (remote_call_entry a fuel pid ret r e h).
Proof. unfold remote_call_entry. stays_go. Qed.

#[export] Instance stays_load_and_run pid path r b local remote ret :
  Stays Stopped (load_and_run a fuel dlextinfo pid path r b local remote ret).
Proof. unfold load_and_run. stays_go. Qed.

Lemma moves_inject_attached pid path :
  moves Running (inject_attached a fuel dlextinfo pid path) (fun _ => Stopped).
Proof.
  unfold inject_attached. eapply moves_bind; [apply moves_wait|]. intros [ok status].
  match goal with |- moves Stopped ?p _ => change (Stays Stopped p) end. cbv zeta. stays_go.
Qed.
End operations.

(** ** The injector keeps to the protocol *)

Lemma moves_inject_library a fuel dlextinfo pid path entry_name :
  moves Detached (inject_library a fuel dlextinfo pid path entry_name) (fun _ => Detached).
Proof.
  apply moves_vis. intros [|] _; (eexists; split; [reflexivity|]); cbn [negb].
  - eapply moves_bind; [apply moves_inject_attached|]. intros x.
    eapply (moves_bind _ _ _ (fun _ => Detached)); [|intros u; by apply moves_ret].
    cbn [when]. apply moves_vis. intros ok _. eexists. split; [reflexivity|]. by apply moves_ret.
  - by apply (moves_ret Detached).
Qed.

(** C17: while the target stays alive and the message with the descriptor is
    delivered, every request the injector makes about the target, and every access
    to its memory, is made while the target is stopped, it never waits for a target
    that is stopped already, and it ends detached. *)
Theorem inject_library_protocol (a : arch) (fuel : nat) (dlextinfo : Z -> list byte) (pid : Z)
    (lib_path entry_name : string) (t : list (event sysE)) (o : outcome bool) :
  exec (inject_library a fuel dlextinfo pid lib_path entry_name) t o ->
  Forall healthy t ->
  exists s, steps Detached t = Some s /\ match o with Done _ => s = Detached | _ => True end.
Proof.
  intros He Ht.
  apply (proj1 (wpa_exec _ _ _) (moves_inject_library a fuel dlextinfo pid lib_path entry_name)
           t o He Ht).
Qed.

Definition healthyb (ev : event sysE) : bool :=
  match ev with
  | Event (Waitpid _ _) (p, status) => (p =? -1) || WIFSTOPPED status
  | Event Errno e => e =? EINTR
  | Event (Sendmsg _ _ _) n => negb (n =? -1)
  | _ => true
  end.

Lemma healthyb_all t : forallb healthyb t = true -> Forall healthy t.
Proof.
  intros H. apply Forall_forall. intros ev Hev. rewrite forallb_forall in H.
  specialize (H ev (proj1 (list_elem_of_In _ _) Hev)).
  destruct ev as [? [] x]; try done; simpl in *.
  - destruct x as [p status]. apply orb_true_iff in H as [H%Z.eqb_eq|H]; auto.
  - by apply Z.eqb_eq.
  - intros ->. done.
Qed.

Lemma inject_library_protocol_witness :
  exists s, steps Detached (injection works).2 = Some s /\
    match (injection works).1.1 with Done _ => s = Detached | _ => True end.
Proof.
  apply (inject_library_protocol AArch64 3 dlextinfo64 kPid "/data/lib.so" "entry").
  - unfold injection. apply run_exec'.
  - apply healthyb_all. vm_compute. reflexivity.
Defined.

(** ** A message that is not delivered *)

Definition send_failed (ev : event sysE) : Prop :=
  match ev with Event (Sendmsg _ _ _) n => n = -1 | _ => False end.

(** Executions of [p] with a failed [sendmsg] are not accepted from any state. *)
Class Rejects {X} (p : SysM X) : Prop :=
  rejects : wp p (fun _ t => Exists send_failed t -> forall s, steps s t = None).

#[export] Instance rejects_ret {X} (x : X) : Rejects (mret x).
Proof. by intros H%Exists_nil. Qed.

#[export] Instance rejects_bind {X Y} (p : SysM X) (f : X -> SysM Y) :
  Rejects p -> (forall x, Rejects (f x)) -> Rejects (p ≫= f).
Proof.
  intros Hp Hf. apply wp_bind. eapply wp_mono; [|exact Hp].
  intros [x| |] t Ht; try exact Ht. simpl. eapply wp_mono; [|apply Hf].
  intros o t' Ht' [H|H]%Exists_app s; rewrite steps_app.
  - by rewrite (Ht H).
  - destruct (steps s t) as [s1|]; [|done]. by apply Ht'.
Qed.

Lemma rejects_call {X} (e : sysE X) :
  (forall x, ~ send_failed (Event e x)) -> Rejects (call e).
Proof. intros He x. intros [H|H%Exists_nil]%Exists_cons; [by apply He in H|done]. Qed.

Ltac rejects_go :=
  repeat lazymatch goal with
  | |- Rejects (mret _) => apply rejects_ret
  | |- Rejects Crash => by intros H%Exists_nil
  | |- Rejects Out => by intros H%Exists_nil
  | |- Rejects (if ?b then _ else _) => destruct b
  | |- Rejects (match ?x with _ => _ end) => destruct x
  | |- Rejects (_ ≫= _) => apply rejects_bind; [|intros]
  | |- Rejects (call _) => apply rejects_call; intros; exact (fun H => H)
  | |- Rejects (with_fd _ _) => unfold with_fd
  | |- Rejects (when _ _) => unfold when
  | |- Rejects _ => first [assumption | apply _]
  end.

Section rejects.
Variable a : arch.
Variable fuel : nat.

Instance rejects_destroy fd : Rejects (unique_fd_destroy fd).
Proof. unfold unique_fd_destroy. rejects_go. Qed.
Instance rejects_write_proc pid addr bs b : Rejects (write_proc pid addr bs b).
Proof. unfold write_proc. rejects_go. Qed.
Instance rejects_read_proc pid addr n : Rejects (read_proc pid addr n).
Proof. unfold read_proc. rejects_go. Qed.
Instance rejects_get_regs pid : Rejects (get_regs pid).
Proof. unfold get_regs. rejects_go. Qed.
Instance rejects_set_regs pid r : Rejects (set_regs pid r).
Proof. unfold set_regs. rejects_go. Qed.
Instance rejects_find_func_addr local remote m f : Rejects (find_func_addr a local remote m f).
Proof. unfold find_func_addr. cbv zeta. rejects_go. Qed.
Instance rejects_push_memory pid r data : Rejects (push_memory a pid r data).
Proof. unfold push_memory. cbv zeta. rejects_go. Qed.
Instance rejects_push_string pid r str : Rejects (push_string a pid r str).
Proof. unfold push_string. cbv zeta. rejects_go. Qed.
Instance rejects_pre_call pid r func ret args : Rejects (remote_pre_call a pid r func ret args).
Proof.
  unfold remote_pre_call, prepare_call, push_stack_args, push_return_addr. cbv zeta. rejects_go.
Qed.
Instance rejects_wait n pid flags : Rejects (wait_for_trace n pid flags).
Proof. induction n as [|n IH]; cbn [wait_for_trace]; rejects_go. Qed.
Instance rejects_post_call n pid r ret : Rejects (remote_post_call a n pid r ret).
Proof.
  revert r. induction n as [|n IH]; intros r; cbn [remote_post_call]; cbv zeta; rejects_go.
Qed.
Instance rejects_remote_call pid r func ret args : Rejects (remote_call a fuel pid r func ret args).
Proof. unfold remote_call. rejects_go. Qed.
Instance rejects_magic n str : Rejects (magic_chars n str).
Proof. revert str. induction n as [|n IH]; intros str; cbn [magic_chars]; rejects_go. Qed.
Instance rejects_generateMagic n : Rejects (generateMagic n).
Proof. unfold generateMagic. rejects_go. Qed.
Instance rejects_sockcreate c : Rejects (set_sockcreate_con c).
Proof. unfold set_sockcreate_con, unique_fd_assign. cbv zeta. rejects_go. Qed.
Instance rejects_scan_lines w lines : Rejects (scan_lines w lines).
Proof. induction lines as [|line lines IH]; cbn [scan_lines]; rejects_go. Qed.
Instance rejects_Scan w pid : Rejects (Scan w pid).
Proof. unfold Scan. rejects_go. Qed.
Instance rejects_close_remote pid close_addr r fd : Rejects (close_remote a fuel pid close_addr r fd).
Proof. unfold close_remote. rejects_go. Qed.
Instance rejects_errno pid errno_addr r : Rejects (get_remote_errno a fuel pid errno_addr r).
Proof. unfold get_remote_errno. rejects_go. Qed.

(** Programs whose first concern with the target needs it stopped. *)
Definition stuck {X} (p : SysM X) : Prop := wp p (fun _ t => steps Running t = None).

Lemma stuck_bind {X Y} (p : SysM X) (f : X -> SysM Y) : stuck p -> stuck (p ≫= f).
Proof.
  intros Hp. apply wp_bind. eapply wp_mono; [|exact Hp].
  intros [x| |] t Ht; try exact Ht. apply wp_true. intros o t'. by rewrite steps_app, Ht.
Qed.

Lemma stuck_write_proc pid addr bs : bs <> [] -> stuck (write_proc pid addr bs false).
Proof. destruct bs; [done|]. by intros _ n. Qed.

Lemma stuck_pre_call pid r func ret args : stuck (remote_pre_call a pid r func ret args).
Proof.
  assert (forall r', stuck (set_regs pid r')) as Hset by by intros r' ok.
  assert (forall r', stuck (push_return_addr a pid r' ret)) as Hret.
  { intros r'. apply stuck_bind, stuck_write_proc, words_nonnil. }
  unfold remote_pre_call, prepare_call. cbv zeta.
  destruct (drop (kMaxRegisterArgs a) args) as [|z sa].
  - cbn [push_stack_args]. bind_ret. cbn [negb].
    destruct a; try (by apply stuck_bind, stuck_bind); bind_ret; cbn [negb]; by apply stuck_bind.
  - do 3 apply stuck_bind. apply stuck_write_proc, words_nonnil.
Qed.

(** A call that was started left the target running. *)
Lemma pre_call_running pid r func ret args :
  wp (remote_pre_call a pid r func ret args) (fun o t =>
    match o with
    | Done (true, _) => forall s s', steps s t = Some s' -> s' = Running
    | _ => True
    end).
Proof.
  unfold remote_pre_call. cbv zeta. apply wp_bind, wp_true. intros [[ok r1]| |] t; try done.
  simpl bindQ. destruct ok; cbn [negb]; [|done]. intros [|]; cbn [negb]; [|done].
  intros [|]; [|done]. intros s s'. rewrite steps_app.
  destruct (steps s t) as [[]|]; simpl; intros; by simplify_eq.
Qed.

(** A sent message after a call that was started. *)
Lemma rejects_send {X} t fd name control n (q : SysM X) :
  (Exists send_failed t -> forall s, steps s t = None) ->
  (forall s s', steps s t = Some s' -> s' = Running) ->
  Rejects q -> (n = -1 -> stuck q) ->
  wp q (fun _ t' => Exists send_failed (t ++ Event (Sendmsg fd name control) n :: t') ->
    forall s, steps s (t ++ Event (Sendmsg fd name control) n :: t') = None).
Proof.
  intros H1 H2 Hq Hn. destruct (decide (n = -1)) as [Hn1|Hn1].
  - eapply wp_mono; [|exact (Hn Hn1)]. intros o t' Ht' _ s. rewrite steps_app.
    destruct (steps s t) as [s1|] eqn:Hs; [|done]. apply H2 in Hs as ->. exact Ht'.
  - eapply wp_mono; [|exact Hq]. intros o t' Ht' [H|[H|H]%Exists_cons]%Exists_app s;
      [|done|]; rewrite steps_app.
    + by rewrite (H1 H).
    + destruct (steps s t) as [s1|]; [|done]. by apply Ht'.
Qed.

Instance rejects_transfer_over pid r s l a1 a2 a3 a4 a5 :
  Rejects (transfer_over a fuel pid r s l a1 a2 a3 a4 a5).
Proof.
  unfold transfer_over. cbv zeta.
  apply rejects_bind; [apply _|]. intros [v r1]. destruct (sext 32 v =? -1); [rejects_go|].
  apply rejects_bind; [apply _|]. intros magic.
  apply rejects_bind; [apply _|]. intros [addr r2].
  apply rejects_bind; [apply _|]. intros [bind_result r3]. destruct (bind_result =? _); [rejects_go|].
  apply rejects_bind; [apply _|]. intros [buf r4].
  apply rejects_bind; [apply _|]. intros [hdr r5].
  apply wp_bind. eapply wp_mono; [|exact (wp_and _ _ _ (rejects_pre_call pid r5 a3 0 _)
                                             (pre_call_running pid r5 a3 0 _))].
  cbv beta. intros [[[|] r6]| |] t [H1 H2]; try exact H1; simpl bindQ.
  2: { match goal with |- wp ?q _ => assert (Rejects q) as Hq by rejects_go end.
       eapply wp_mono; [|exact Hq]. intros o t' Ht' [H|H]%Exists_app s0; rewrite steps_app.
       - by rewrite (H1 H).
       - destruct (steps s0 t); [|done]. by apply Ht'. }
  intros n. destruct (n =? -1) eqn:Hn; boolp.
  - apply (rejects_send t s _ _ n); [done..|rejects_go|]. intros _.
    unfold close_remote, remote_call. do 3 apply stuck_bind. apply stuck_pre_call.
  - apply (rejects_send t s _ _ n); [done..|rejects_go|done].
Qed.

Variable dlextinfo : Z -> list byte.

Instance rejects_transfer pid path r local remote :
  Rejects (transfer_fd_to_remote a fuel pid path r local remote).
Proof. unfold transfer_fd_to_remote, setfilecon. rejects_go. Qed.
Instance rejects_dlerror pid local remote ret r :
  Rejects (get_remote_dlerror a fuel pid local remote ret r).
Proof. unfold get_remote_dlerror. rejects_go. Qed.
Instance rejects_dlopen pid local remote ret r fd path :
  Rejects (remote_dlopen a fuel dlextinfo pid local remote ret r fd path).
Proof. unfold remote_dlopen. rejects_go. Qed.
Instance rejects_find_entry pid local remote ret r h :
  Rejects (remote_find_entry a fuel pid local remote ret r h).
Proof. unfold remote_find_entry. rejects_go. Qed.
Instance rejects_load_and_run pid path r b local remote ret :
  Rejects (load_and_run a fuel dlextinfo pid path r b local remote ret).
Proof. unfold load_and_run, remote_call_entry. rejects_go. Qed.

Lemma rejects_inject_library pid path entry_name :
  Rejects (inject_library a fuel dlextinfo pid path entry_name).
Proof.
  unfold inject_library, with_attachment, inject_attached. cbv zeta. rejects_go.
Qed.
End rejects.

(** An injection in which the message with the descriptor could not be sent
    breaks the protocol: to close its socket, a second call is started in a target
    that still runs in recvmsg. *)
Theorem send_failure_breaks_protocol (a : arch) (fuel : nat) (dlextinfo : Z -> list byte)
    (pid : Z) (lib_path entry_name : string) (t : list (event sysE)) (o : outcome bool) :
  exec (inject_library a fuel dlextinfo pid lib_path entry_name) t o ->
  Exists send_failed t -> steps Detached t = None.
Proof.
  intros He Ht.
  exact (proj1 (wp_exec _ _) (rejects_inject_library a fuel dlextinfo pid lib_path entry_name)
           t o He Ht Detached).
Qed.

Definition send_failedb (ev : event sysE) : bool :=
  match ev with Event (Sendmsg _ _ _) n => n =? -1 | _ => false end.

Lemma send_failedb_any t : existsb send_failedb t = true -> Exists send_failed t.
Proof.
  intros (ev & Hev & H)%existsb_exists. apply Exists_exists. exists ev.
  split; [by apply list_elem_of_In|]. destruct ev as [? [] x]; try done. by apply Z.eqb_eq in H.
Qed.

Definition send_fails : setting :=
  {| sendmsg_answer := -1; dlopen_answer := kHandle; entry_answer := kEntry |}.

Lemma send_failure_breaks_protocol_witness : steps Detached (injection send_fails).2 = None.
Proof.
  apply (send_failure_breaks_protocol AArch64 3 dlextinfo64 kPid "/data/lib.so" "entry" _
           (injection send_fails).1.1).
  - unfold injection. apply run_exec'.
  - apply send_failedb_any. vm_compute. reflexivity.
Defined.

(** ** What an injection leaves behind *)

(** Executions of [p] that answer [x] end with the event [ev]. *)
Definition ends_with_event {X} (x : X) (ev : event sysE) (p : SysM X) : Prop :=
  wp p (fun o t => o = Done x -> exists t0, t = t0 ++ [ev]).

Lemma ends_bind {X Y} (x : Y) ev (p : SysM X) (f : X -> SysM Y) :
  (forall y, ends_with_event x ev (f y)) -> ends_with_event x ev (p ≫= f).
Proof.
  intros Hf. apply wp_bind, wp_true. intros [y| |] t; try done. simpl.
  eapply wp_mono; [|apply Hf]. intros o t' Ht' Ho. destruct (Ht' Ho) as [t0 ->].
  exists (t ++ t0). by rewrite app_assoc.
Qed.

Lemma ends_ret {X} (x y : X) ev : y <> x -> ends_with_event x ev (mret y).
Proof. by intros Hxy [= ?]. Qed.

Lemma load_and_run_restores a fuel dlextinfo pid path r backup local remote ret :
  ends_with_event true (Event (PtraceSetRegs pid backup) true)
    (load_and_run a fuel dlextinfo pid path r backup local remote ret).
Proof.
  unfold load_and_run.
  repeat lazymatch goal with
  | |- ends_with_event _ _ (mret _) => by apply ends_ret
  | |- ends_with_event _ _ (_ ≫= _) => apply ends_bind; intros
  | |- ends_with_event _ _ (if ?b then _ else _) => destruct b
  | |- ends_with_event _ _ (match ?x with _ => _ end) => destruct x
  end.
  all: intros ok [= ->]; by exists [].
Qed.

(** The waits before the registers are saved. *)
Definition is_waiting (ev : event sysE) : Prop :=
  match ev with Event (Waitpid _ _) _ | Event Errno _ => True | _ => False end.

Lemma wait_for_trace_waiting n pid flags :
  wp (wait_for_trace n pid flags) (fun _ t => Forall is_waiting t).
Proof.
  induction n as [|n IH]; cbn [wait_for_trace]; [constructor|].
  intros [p status]. simpl. destruct (p =? -1).
  - intros e. destruct (e =? EINTR).
    + eapply wp_mono; [|exact IH]. intros o t Ht. by repeat constructor.
    + by repeat constructor.
  - destruct (negb (WIFSTOPPED status)); by repeat constructor.
Qed.

Lemma inject_attached_restores a fuel dlextinfo pid lib_path :
  wp (inject_attached a fuel dlextinfo pid lib_path) (fun o t => o = Done true ->
    exists waiting saved work, Forall is_waiting waiting /\
      t = waiting ++ [Event (PtraceGetRegs pid) (Some saved)] ++
          work ++ [Event (PtraceSetRegs pid saved) true]).
Proof.
  unfold inject_attached. apply wp_bind.
  eapply wp_mono; [|apply wait_for_trace_waiting].
  intros [[ok status]| |] waiting Hw; cbn [bindQ]; try done.
  destruct (negb ok); [done|]. destruct (negb _ || _); [done|].
  unfold get_regs. apply wp_call. intros [saved|]; [|done]. cbv zeta.
  match goal with |- wp ?q _ =>
    assert (ends_with_event true (Event (PtraceSetRegs pid saved) true) q) as Hends end.
  { do 2 (apply ends_bind; intros). destruct (_ =? 0); [by apply ends_ret|].
    apply load_and_run_restores. }
  eapply wp_mono; [|exact Hends]. intros o t Ht Ho. destruct (Ht Ho) as [work ->].
  by exists waiting, saved, work.
Qed.

(** The trace of an injection that restored what it had saved. *)
Definition restored (pid : Z) (t : list (event sysE)) : Prop :=
  exists waiting saved work detached, Forall is_waiting waiting /\
    t = Event (PtraceAttach pid) true :: waiting ++ [Event (PtraceGetRegs pid) (Some saved)] ++
        work ++ [Event (PtraceSetRegs pid saved) true; Event (PtraceDetach pid) detached].

(** C21: an injection that succeeds put back the registers the target had when it
    was first seen stopped, as its last request before it detached. *)
Theorem inject_library_restores (a : arch) (fuel : nat) (dlextinfo : Z -> list byte) (pid : Z)
    (lib_path entry_name : string) (t : list (event sysE)) :
  exec (inject_library a fuel dlextinfo pid lib_path entry_name) t (Done true) -> restored pid t.
Proof.
  intros He.
  refine (proj1 (wp_exec _ (fun o t => o = Done true -> restored pid t)) _ t (Done true) He eq_refl).
  apply wp_call. intros [|]; [|done]. apply wp_bind.
  eapply wp_mono; [|apply inject_attached_restores].
  intros [x| |] t1 Ht1; try done. intros ok. simpl. intros [= ->].
  destruct (Ht1 eq_refl) as (waiting & saved & work & Hw & ->).
  exists waiting, saved, work, ok. split; [done|]. by rewrite <-!app_assoc.
Qed.

Lemma inject_library_restores_witness : restored kPid (injection works).2.
Proof.
  apply (inject_library_restores AArch64 3 dlextinfo64 kPid "/data/lib.so" "entry").
  replace (Done true) with (injection works).1.1 by (vm_compute; reflexivity).
  unfold injection. apply run_exec'.
Defined.

(** The linker refuses the library. *)
Definition load_fails : setting :=
  {| sendmsg_answer := 0; dlopen_answer := 0; entry_answer := kEntry |}.

(** The functions called in the target, with their first argument: on success the
    descriptor received (12) is closed once the library is loaded, on failure it is
    not. *)
Definition entered (t : list (event sysE)) : list (Z * Z) :=
  t ≫= fun ev => match ev with
                 | Event (PtraceSetRegs _ r) _ => [(reg_get r "pc", reg_get r "x0")]
                 | _ => []
                 end.

Definition libc (name : string) : Z := remote_libc + symbol_offset name.
Definition libdl (name : string) : Z := remote_libdl + symbol_offset name.

Definition target_regs (s : setting) : regs := thread (injection s).1.2.

(** Only success restores.  When the linker of the target refuses the library,
    the calls made so far have moved the target's registers and it is let go with
    those, at the return address of the last call; the descriptor it received (12) is
    not closed.  When the library loads, the descriptor is closed before the entry
    point is looked up, and the registers are those of before. *)
Theorem failed_load_leaves_target :
  ((injection load_fails).1.1 = Done false /\
   reg_get (target_regs load_fails) "pc" = remote_libc /\
   reg_get thread0 "pc" = 0x400010 /\
   entered (injection load_fails).2 =
     [(libc "socket", 1); (libc "bind", 9); (libc "recvmsg", 9); (libc "close", 9);
      (libdl "android_dlopen_ext", 0x7ffc1120); (libdl "dlerror", 0)]) /\
  ((injection works).1.1 = Done true /\
   target_regs works = thread0 /\
   entered (injection works).2 =
     [(libc "socket", 1); (libc "bind", 9); (libc "recvmsg", 9); (libc "close", 9);
      (libdl "android_dlopen_ext", 0x7ffc1120); (libc "close", 12);
      (libdl "dlsym", kHandle); (kEntry, kHandle); (0x400010, 3)]).
Proof. vm_compute. auto 10. Qed.

(** The entry symbol of the command line is checked and then not used. *)
Lemma inject_library_entry_name a fuel dlextinfo pid path name1 name2 :
  inject_library a fuel dlextinfo pid path name1 = inject_library a fuel dlextinfo pid path name2.
Proof. reflexivity. Qed.

(** The result of the entry function is ignored. *)
Lemma remote_call_entry_true a fuel pid ret r e h :
  wp (remote_call_entry a fuel pid ret r e h) (fun o _ =>
    match o with Done (ok, _) => ok = true | _ => True end).
Proof.
  unfold remote_call_entry. apply wp_bind, wp_true. intros [[v r1]| |] t; done.
Qed.
