(* ===== verification/InjectSpec.v ===== *)
(** * What the injector computes

    The functional behaviour of the parts of an injection: where a function of a
    library lies in the target, what is pushed on the target's stack, which
    functions are called in the target while the descriptor is handed over, and
    which processes [main] injects into. *)

From S2P Require Import Prelude Prog CText Sys Maps ProcUtils Target RemoteCall Inject Device.
Local Open Scope Z_scope.

(** ** Resolving functions

    [loaded infos name base]: [infos] shows the library with its start at [base]. *)
Definition loaded (infos : list MapInfo) (name : string) (base : Z) : Prop :=
  exists before info after, infos = before ++ info :: after /\
    offset info = 0 /\ ends_with (path info) name = true /\ start info = base /\
    Forall (fun i => offset i <> 0 \/ ends_with (path i) name = false) before.

Lemma find_module_base_loaded infos name base :
  loaded infos name base -> find_module_base infos name = base.
Proof.
  intros (before & info & after & -> & Hoff & Hname & <- & Hbefore).
  induction Hbefore as [|i before Hi Hbefore IH]; simpl.
  - by rewrite Hoff, Hname.
  - destruct (offset i =? 0) eqn:Ho; simpl; [|done]. boolp.
    destruct Hi as [?| ->]; [done|]. done.
Qed.

Lemma find_module_base_not_loaded infos name :
  Forall (fun i => offset i <> 0 \/ ends_with (path i) name = false) infos ->
  find_module_base infos name = 0.
Proof.
  induction 1 as [|i infos Hi Hinfos IH]; simpl; [done|].
  destruct (offset i =? 0) eqn:Ho; simpl; [|done]. boolp. by destruct Hi as [?| ->].
Qed.

(** The dynamic linker of the injector: it has the library, whose symbol [f] lies at
    [symbol_offset] in it. *)
Definition linker (m f : string) (h local_base symbol_offset : Z) (ev : event sysE) : Prop :=
  match ev with
  | Event (Dlopen name) x => name = m -> x = h
  | Event (Dlsym h' name) x => h' = h -> name = f -> x = local_base + symbol_offset
  | _ => True
  end.

(** What happens to handles. *)
Definition handle_calls (ev : event sysE) : list (bool * Z) :=
  match ev with
  | Event (Dlopen _) h => [(true, h)]
  | Event (Dlclose h) _ => [(false, h)]
  | _ => []
  end.

(** Resolving a function that the injector's own linker finds at some offset of
    a library gives the address at the same offset of that library in the target,
    and the handle opened for it is closed. *)
Theorem find_func_addr_translates (a : arch) (local remote : list MapInfo) (m f : string)
    (h local_base remote_base symbol_offset : Z) :
  loaded local m local_base -> loaded remote m remote_base ->
  h <> 0 -> local_base <> 0 -> remote_base <> 0 -> local_base + symbol_offset <> 0 ->
  in_word (word a) (remote_base + symbol_offset) ->
  wpc (linker m f h local_base symbol_offset) handle_calls (find_func_addr a local remote m f)
    (fun addr calls => addr = remote_base + symbol_offset /\ calls = [(true, h); (false, h)]).
Proof.
  intros Hl Hr Hh Hlb Hrb Hs Hw. unfold find_func_addr.
  rewrite (find_module_base_loaded _ _ _ Hl), (find_module_base_loaded _ _ _ Hr).
  apply wpc_bind, wpc_call. intros x Hx. rewrite (Hx eq_refl). apply Z.eqb_neq in Hh as ->.
  apply wpc_bind, wpc_call. intros s Hsym. rewrite (Hsym eq_refl eq_refl).
  apply Z.eqb_neq in Hs as ->. apply wpc_bind, wpc_call. intros u _. cbv zeta.
  apply Z.eqb_neq in Hlb as ->. apply Z.eqb_neq in Hrb as ->. apply wpc_ret. split; [|done].
  unfold uintptr. rewrite wrap_small; [lia|]. by replace (remote_base + (_ - _)) with
    (remote_base + symbol_offset) by lia.
Qed.

(** ** Pushing data *)

(** The string lies at [addr] in the target, below its stack pointer [sp a r]. *)
Definition string_at (a : arch) (pid : Z) (r : regs) (str : string) (addr : Z)
    (t : list (event sysE)) : Prop :=
  forall m,
    read_bytes (S (String.length str)) addr (memory_after pid t m) = Some (c_string str) /\
    forall x, sp a r <= x -> memory_after pid t m !! x = m !! x.

(** Pushing a string puts it, with its terminator, below the stack pointer at a
    multiple of 16, leaves what is above it and every other register alone, and gives
    its address; on a short write the result is 0. *)
Theorem push_string_places (a : arch) (pid : Z) (r : regs) (str : string) :
  in_word (word a) (sp a r) -> Z.of_nat (String.length str) + 16 <= sp a r ->
  wp (push_string a pid r str) (fun o t =>
    exists addr r', o = Done (addr, r') /\
      sp a r' mod 16 = 0 /\ sp a r' + Z.of_nat (S (String.length str)) <= sp a r /\
      (forall name, name <> REG_SP a -> r' !! name = r !! name) /\
      (addr = 0 \/ addr = sp a r' /\ string_at a pid r str addr t)).
Proof.
  intros Hw Hroom. unfold push_string. cbv zeta.
  assert (length (c_string str) = S (String.length str)) as Hlen.
  { unfold c_string. rewrite length_app, Nat.add_comm. simpl. f_equal. clear.
    induction str; simpl; congruence. }
  set (r1 := set_sp a _ r).
  assert (sp a r1 = sp a r - Z.of_nat (length (c_string str))) as Hr1.
  { unfold r1. rewrite sp_set_sp. apply wrap_small. unfold in_word in *. lia. }
  destruct (sp_align_bounds a r1 0) as [Hb Hmod].
  { rewrite Z.sub_0_r, Hr1. unfold in_word in *. lia. }
  rewrite Z.sub_0_r, Hr1 in Hb. set (r2 := align_stack a r1 0) in *.
  assert (forall name, name <> REG_SP a -> r2 !! name = r !! name) as Hregs.
  { intros name Hn. unfold r2, r1. by rewrite align_stack_other, set_sp_other. }
  apply wp_bind, write_proc_wp.
  { intros Hnil. rewrite Hnil in Hlen. done. }
  intros n t _ Ht. cbn [bindQ].
  destruct (n =? Z.of_nat (length (c_string str))) eqn:Hn; cbn [negb]; boolp.
  - rewrite <-(app_nil_r t). eexists _, r2. split; [done|]. split_and!; [done|lia|done|].
    right. split; [done|]. intros m. rewrite !app_nil_r, (Ht Hn). split.
    + rewrite <-Hlen. pose proof (read_write_slice (sp a r2) [] (c_string str) [] m) as H.
      rewrite app_nil_r, Z.add_0_r in H. exact H.
    + intros x Hx. apply write_bytes_outside. lia.
  - eexists _, r2. split; [done|]. split_and!; [done|lia|done|]. by left.
Qed.

(** ** The functions called in the target

    [entry_ip] is the instruction pointer a call of a function sets. *)
Definition entry_ip (a : arch) (func : Z) : Z :=
  match a with
  | Arm => if Z.land func 1 =? 0 then func else Z.land func (uintptr Arm (Z.lnot 1))
  | _ => func
  end.

(** The stack pointer the function is entered with: x86 has its return address there. *)
Definition stack_args_at (a : arch) (r : regs) : Z :=
  match a with
  | X86_64 | I386 => uintptr a (sp a r + Z.of_nat (word_bytes a))
  | AArch64 | Arm => sp a r
  end.

(** With registers [r], and after the calls [t], the target enters [func] with [args]: the
    first of them are in registers, the others were written to the stack. *)
Definition conveys (a : arch) (pid : Z) (t : list (event sysE)) (r : regs) (func : Z)
    (args : list Z) : Prop :=
  reg_get r (REG_IP a) = entry_ip a func /\
  (forall i name x, arg_regs a !! i = Some name -> args !! i = Some x -> reg_get r name = x) /\
  (drop (kMaxRegisterArgs a) args = [] \/
   let bs := words a (drop (kMaxRegisterArgs a) args) in
   Event (ProcessVmWritev pid (stack_args_at a r) bs) (Z.of_nat (length bs)) ∈ t).

(** Calls that do not change the target's registers. *)
Definition quiet (ev : event sysE) : Prop :=
  match ev with Event (PtraceSetRegs _ _) _ => False | _ => True end.

(** The functions entered in the target, with their arguments, in order: every change of its
    registers enters one. *)
Inductive makes (a : arch) (pid : Z) : list (event sysE) -> list (Z * list Z) -> Prop :=
| makes_nil : makes a pid [] []
| makes_quiet ev t calls : quiet ev -> makes a pid t calls -> makes a pid (ev :: t) calls
| makes_call t1 r t func args calls :
    Forall quiet t1 -> conveys a pid t1 r func args -> makes a pid t calls ->
    makes a pid (t1 ++ Event (PtraceSetRegs pid r) true :: t) ((func, args) :: calls).

Lemma makes_app a pid t t' calls calls' :
  makes a pid t calls -> makes a pid t' calls' -> makes a pid (t ++ t') (calls ++ calls').
Proof.
  intros H H'. induction H as [|ev t calls Hq _ IH|t1 r t func args calls Hq Hc _ IH]; simpl;
    [done|by constructor|]. rewrite <-(assoc_L (++)). by constructor.
Qed.

Lemma makes_quiets a pid t : Forall quiet t -> makes a pid t [].
Proof. induction 1; by constructor. Qed.

(** A target that takes what it is given while the descriptor is handed over: writes are
    complete, requests about it succeed, and the descriptor is sent. *)
Definition accepting (ev : event sysE) : Prop :=
  match ev with
  | Event (ProcessVmWritev _ _ data) n => n = Z.of_nat (length data)
  | Event (PtraceSetRegs _ _) ok | Event (PtraceCont _) ok => ok = true
  | Event (Sendmsg _ _ _) n => n <> -1
  | _ => True
  end.

(** [enters_only p Q]: when [p] ends, [Q] holds of its result and of the calls made. *)
Definition enters_only (a : arch) (pid : Z) {X} (p : SysM X) (Q : X -> list (Z * list Z) -> Prop)
  : Prop :=
  wpa accepting p (fun o t =>
    match o with Done x => exists calls, makes a pid t calls /\ Q x calls | _ => True end).

Section enters.
Variables (a : arch) (pid : Z).
Abbreviation enters_only := (enters_only a pid).

Lemma enters_mono {X} (p : SysM X) (Q Q' : X -> list (Z * list Z) -> Prop) :
  enters_only p Q -> (forall x l, Q x l -> Q' x l) -> enters_only p Q'.
Proof. intros H HQ. eapply wpa_mono; [exact H|]. intros [x| |] t _; naive_solver. Qed.

Lemma enters_ret {X} (x : X) (Q : X -> list (Z * list Z) -> Prop) : Q x [] -> enters_only (mret x) Q.
Proof. intros H _. exists []. split; [constructor|exact H]. Qed.

Lemma enters_bind {X Y} (p : SysM X) (f : X -> SysM Y) (Q : Y -> list (Z * list Z) -> Prop) :
  enters_only p (fun x l => enters_only (f x) (fun y l' => Q y (l ++ l'))) ->
  enters_only (p ≫= f) Q.
Proof.
  intros H. apply wpa_bind. eapply wpa_mono; [exact H|]. intros [x| |] t _; auto.
  intros (l & Hl & Hx). eapply wpa_mono; [exact Hx|]. intros [y| |] t' _; auto.
  intros (l' & Hl' & HQ). exists (l ++ l'). split; [by apply makes_app|done].
Qed.

(** Operations that start nothing in the target. *)
Class Enters0 {X} (p : SysM X) : Prop := enters0 : enters_only p (fun _ l => l = []).

Lemma enters0_then {X Y} (p : SysM X) (f : X -> SysM Y) (Q : Y -> list (Z * list Z) -> Prop) :
  Enters0 p -> (forall x, enters_only (f x) Q) -> enters_only (p ≫= f) Q.
Proof.
  intros Hp Hf. apply enters_bind. eapply enters_mono; [exact Hp|]. by intros x l ->.
Qed.

#[export] Instance enters0_ret {X} (x : X) : Enters0 (mret x).
Proof. by apply enters_ret. Qed.

#[export] Instance enters0_bind {X Y} (p : SysM X) (f : X -> SysM Y) :
  Enters0 p -> (forall x, Enters0 (f x)) -> Enters0 (p ≫= f).
Proof. intros Hp Hf. by apply enters0_then. Qed.

Lemma enters0_call {X} (e : sysE X) : (forall x, quiet (Event e x)) -> Enters0 (call e).
Proof.
  intros He. apply wpa_call. intros x _. exists []. split; [|done]. apply makes_quiets. auto.
Qed.
End enters.

Ltac enters0_go :=
  repeat lazymatch goal with
  | |- Enters0 _ _ (mret _) => apply enters0_ret
  | |- Enters0 _ _ (if ?b then _ else _) => destruct b
  | |- Enters0 _ _ (match ?x with _ => _ end) => destruct x
  | |- Enters0 _ _ (_ ≫= _) => apply enters0_bind; [|intros]
  | |- Enters0 _ _ (call _) => apply enters0_call; intros; exact I
  | |- Enters0 _ _ Out => by intros _
  | |- Enters0 _ _ Crash => by intros _
  | |- Enters0 _ _ _ => first [assumption | apply _]
  end.

Section enters0.
Variables (a : arch) (pid : Z).
Abbreviation Enters0 := (Enters0 a pid).

#[export] Instance enters0_write_proc p addr bs b : Enters0 (write_proc p addr bs b).
Proof. unfold write_proc, with_fd, unique_fd_destroy, when. enters0_go. Qed.

#[export] Instance enters0_read_proc p addr n : Enters0 (read_proc p addr n).
Proof. unfold read_proc. enters0_go. Qed.

#[export] Instance enters0_push_memory p r data : Enters0 (push_memory a p r data).
Proof. unfold push_memory. cbv zeta. enters0_go. Qed.

#[export] Instance enters0_magic n str : Enters0 (magic_chars n str).
Proof. revert str. induction n as [|n IH]; intros str; cbn [magic_chars]; enters0_go. Qed.

#[export] Instance enters0_generateMagic n : Enters0 (generateMagic n).
Proof. unfold generateMagic. enters0_go. Qed.

#[export] Instance enters0_wait n p flags : Enters0 (wait_for_trace n p flags).
Proof. induction n as [|n IH]; cbn [wait_for_trace]; enters0_go. Qed.

#[export] Instance enters0_post_call n p r ret : Enters0 (remote_post_call a n p r ret).
Proof.
  revert r. induction n as [|n IH]; intros r; cbn [remote_post_call]; cbv zeta; unfold get_regs;
    enters0_go.
Qed.

(** *** Preparing a call

    The trace consists of writes. *)
Definition writes_only {X} (p : SysM X) (Q : X -> list (event sysE) -> Prop) : Prop :=
  wpa accepting p (fun o t =>
    match o with Done x => Forall quiet t /\ Q x t | _ => False end).

Lemma writes_bind {X Y} (p : SysM X) (f : X -> SysM Y) (Q : Y -> list (event sysE) -> Prop) :
  writes_only p (fun x t => writes_only (f x) (fun y t' => Q y (t ++ t'))) ->
  writes_only (p ≫= f) Q.
Proof.
  intros H. apply wpa_bind. eapply wpa_mono; [exact H|]. intros [x| |] t _; try done.
  intros [Ht Hx]. eapply wpa_mono; [exact Hx|]. intros [y| |] t' _; try done.
  intros [Ht' HQ]. split; [by apply Forall_app|done].
Qed.

Lemma writes_ret {X} (x : X) (Q : X -> list (event sysE) -> Prop) : Q x [] -> writes_only (mret x) Q.
Proof. intros H _. by split. Qed.

Lemma writes_mono {X} (p : SysM X) (Q Q' : X -> list (event sysE) -> Prop) :
  writes_only p Q -> (forall x t, Q x t -> Q' x t) -> writes_only p Q'.
Proof. intros H HQ. eapply wpa_mono; [exact H|]. intros [x| |] t _; naive_solver. Qed.

Lemma writes_write addr bs :
  bs <> [] ->
  writes_only (write_proc pid addr bs false) (fun n t =>
    n = Z.of_nat (length bs) /\ t = [Event (ProcessVmWritev pid addr bs) (Z.of_nat (length bs))]).
Proof.
  destruct bs as [|b bs]; [done|]. intros _. apply wpa_call. intros n Hn.
  change (n = Z.of_nat (length (b :: bs))) in Hn. rewrite Hn.
  split; [by repeat constructor|done].
Qed.

(** The stack arguments are written where the stack pointer ends up. *)
Lemma writes_push_stack_args r sa :
  writes_only (push_stack_args a pid r sa) (fun '(ok, r1) t => ok = true /\
    (forall name, name <> REG_SP a -> r1 !! name = r !! name) /\
    (sa = [] \/ in_word (word a) (sp a r1) /\
      Event (ProcessVmWritev pid (sp a r1) (words a sa)) (Z.of_nat (length (words a sa))) ∈ t)).
Proof.
  destruct sa as [|z sa]; [apply writes_ret; auto|]. unfold push_stack_args.
  apply writes_bind. eapply writes_mono; [apply writes_write, words_nonnil|]. intros n l [-> ->].
  apply writes_ret. split; [rewrite length_words; apply Z.eqb_refl|].
  split; [intros name Hn; by apply align_stack_other|]. right. split.
  - unfold align_stack. rewrite sp_set_sp. apply wrap_range. destruct a; simpl; lia.
  - rewrite app_nil_r. by left.
Qed.

Lemma writes_push_return_addr r ret :
  writes_only (push_return_addr a pid r ret) (fun '(ok, r1) t => ok = true /\
    r1 = set_sp a (sp a r - Z.of_nat (word_bytes a)) r).
Proof.
  unfold push_return_addr. apply writes_bind.
  eapply writes_mono; [apply writes_write, words_nonnil|]. intros n l [-> ->].
  apply writes_ret. split; [|done]. rewrite length_words. simpl length.
  by rewrite Nat.mul_1_l, Z.eqb_refl.
Qed.

Lemma reg_get_insert name z r : reg_get (<[name := z]> r) name = z.
Proof. unfold reg_get. by rewrite lookup_insert_eq. Qed.

Lemma set_thumb_ip r func :
  reg_get r (REG_IP Arm) = func -> reg_get (set_thumb Arm r) (REG_IP Arm) = entry_ip Arm func.
Proof.
  intros Hip. unfold set_thumb, entry_ip. rewrite Hip.
  destruct (Z.land func 1 =? 0); cbn [negb]; unfold reg_get; rewrite lookup_insert_ne by done.
  - exact Hip.
  - by rewrite lookup_insert_eq.
Qed.
End enters0.

(** The registers of a call, from those the stack arguments were pushed with. *)
Lemma conveys_intro a pid t r r1 r' func args :
  reg_get r' (REG_IP a) = entry_ip a func ->
  (forall name, name ∈ arg_regs a -> r' !! name = r1 !! name) ->
  (forall name, name <> REG_SP a -> r1 !! name = setup_args (arg_regs a) args r !! name) ->
  (drop (kMaxRegisterArgs a) args = [] \/
   let bs := words a (drop (kMaxRegisterArgs a) args) in
   stack_args_at a r' = sp a r1 /\
   Event (ProcessVmWritev pid (sp a r1) bs) (Z.of_nat (length bs)) ∈ t) ->
  conveys a pid t r' func args.
Proof.
  intros Hip Hr' Hr1 Hst. destruct (abi_reg_args_ok a) as (Hnd & Hsp & _).
  rewrite <-arg_regs_abi in Hnd, Hsp. split_and!; [done| |].
  - intros i name x Hn Hx. unfold reg_get.
    assert (name ∈ arg_regs a) as Hin by (by eapply list_elem_of_lookup_2).
    rewrite Hr', Hr1 by (try done; by intros ->). by erewrite setup_args_lookup.
  - destruct Hst as [?|[Hat Hin]]; [by left|right]. cbv zeta in *. by rewrite Hat.
Qed.

Lemma conveys_prepare a pid r func ret args :
  writes_only (prepare_call a pid r func ret args) (fun '(ok, r') t =>
    ok = true /\ conveys a pid t r' func args).
Proof.
  pose proof (writes_push_return_addr a pid) as Hret.
  destruct (abi_reg_args_ok a) as (_ & Hsp & Hip). rewrite <-arg_regs_abi in Hsp, Hip.
  unfold prepare_call. apply writes_bind. eapply writes_mono; [apply writes_push_stack_args|].
  intros [ok r1] t (-> & Hr1 & Hst). cbn [negb].
  assert (Hx86 : forall t', a = X86_64 \/ a = I386 ->
    conveys a pid (t ++ t')
      (<[REG_IP a := func]> (set_sp a (sp a r1 - Z.of_nat (word_bytes a)) r1)) func args).
  { intros t' Ha. eapply (conveys_intro a pid (t ++ t') r r1); [| |exact Hr1|].
    - rewrite reg_get_insert. by destruct Ha as [-> | ->].
    - intros name Hn. rewrite lookup_insert_ne by (by intros <-). apply set_sp_other. by intros ->.
    - destruct Hst as [?|[Hw Hin]]; [by left|right]. split; [|apply elem_of_app; by left].
      assert (Hs : stack_args_at a (<[REG_IP a := func]>
          (set_sp a (sp a r1 - Z.of_nat (word_bytes a)) r1)) =
        uintptr a (uintptr a (sp a r1 - Z.of_nat (word_bytes a)) + Z.of_nat (word_bytes a))).
      { destruct Ha as [-> | ->]; cbn [stack_args_at]; do 2 f_equal;
          (etransitivity; [|apply sp_set_sp]); unfold sp, reg_get;
          by rewrite lookup_insert_ne. }
      rewrite Hs. unfold uintptr, wrap. rewrite Zplus_mod_idemp_l, Z.sub_add.
      apply Z.mod_small. exact Hw. }
  assert (Hrisc : forall r', a = AArch64 \/ a = Arm ->
    reg_get r' (REG_IP a) = entry_ip a func ->
    (forall name, name ∈ arg_regs a \/ name = REG_SP a -> r' !! name = r1 !! name) ->
    conveys a pid (t ++ []) r' func args).
  { intros r' Ha Hentry Hr'. rewrite app_nil_r. eapply (conveys_intro a pid t r r1);
      [done|auto|exact Hr1|].
    destruct Hst as [?|[_ Hin]]; [by left|right]. split; [|exact Hin].
    destruct Ha as [-> | ->]; unfold stack_args_at, sp, reg_get; by rewrite Hr' by auto. }
  destruct a.
  1, 2: apply writes_bind; (eapply writes_mono; [apply Hret|]);
    intros [ok r2] t' [-> ->]; apply writes_ret; (split; [done|]); rewrite app_nil_r; apply Hx86; auto.
  - apply writes_ret. split; [done|]. apply Hrisc; [auto|apply reg_get_insert|].
    intros name Hn. rewrite !lookup_insert_ne; [done| |];
      intros Heq; subst name; destruct Hn as [Hn|Hn]; try done; revert Hn; by apply (bool_decide_unpack _).
  - apply writes_ret. split; [done|]. apply Hrisc; [auto|by apply set_thumb_ip, reg_get_insert|].
    intros name Hn. rewrite set_thumb_other, !lookup_insert_ne; [done|..];
      intros Heq; subst name; destruct Hn as [Hn|Hn]; try done; revert Hn; by apply (bool_decide_unpack _).
Qed.

Section enters_calls.
Variable a : arch.
Variable fuel : nat.
Variable pid : Z.
Abbreviation enters_only := (enters_only a pid).

Lemma enters_pre_call r func ret args :
  enters_only (remote_pre_call a pid r func ret args) (fun '(ok, _) l =>
    ok = true /\ l = [(func, args)]).
Proof.
  unfold remote_pre_call. cbv zeta. apply wpa_bind.
  eapply wpa_mono; [apply conveys_prepare|]. intros [[ok r1]| |] t Ht H; try done.
  destruct H as (Hq & -> & Hc). cbn [negb].
  apply wpa_bind, wpa_call. intros [|] Hok1; [|done]. cbn [negb].
  apply wpa_bind, wpa_call. intros [|] Hok2; [|done].
  intros _. exists [(func, args)]. split; [|done].
  apply (makes_call a pid t r1 [Event (PtraceCont pid) true] func args []); [done..|].
  by apply makes_quiets; repeat constructor.
Qed.

Lemma enters_call r func ret args :
  enters_only (remote_call a fuel pid r func ret args) (fun _ l => l = [(func, args)]).
Proof.
  unfold remote_call. apply enters_bind.
  eapply enters_mono; [apply enters_pre_call|]. intros [ok r1] l [-> ->]. cbn [negb].
  eapply enters_mono; [apply enters0_post_call|]. by intros x l ->.
Qed.

Lemma enters_close_remote close_addr r fd :
  enters_only (close_remote a fuel pid close_addr r fd)
    (fun _ l => l = [(close_addr, [uintptr a fd])]).
Proof.
  unfold close_remote. apply enters_bind. eapply enters_mono; [apply enters_call|].
  intros [v r1] l ->. by apply enters_ret.
Qed.

Lemma enters_errno errno_addr r :
  enters_only (get_remote_errno a fuel pid errno_addr r) (fun _ l =>
    l = if errno_addr =? 0 then [] else [(errno_addr, [])]).
Proof.
  unfold get_remote_errno. destruct (errno_addr =? 0); [by apply enters_ret|].
  apply enters_bind. eapply enters_mono; [apply enters_call|]. intros [v r1] l ->.
  apply enters0_then; [apply _|]. intros [n err].
  destruct (n =? 0); [by apply enters_ret|]. by destruct (n =? -1); apply enters_ret.
Qed.

Section transfer_calls.
Variables (socket_addr bind_addr recvmsg_addr close_addr errno_addr : Z).

Definition socket_args : list Z := [AF_UNIX; Z.lor SOCK_DGRAM SOCK_CLOEXEC; 0].

Definition errno_calls : list (Z * list Z) :=
  if errno_addr =? 0 then [] else [(errno_addr, [])].

(** The calls of a transfer after that of [socket], which returned [fd], by its result.
    With a descriptor, the three other calls of a complete one, all on [fd].  Without, the
    socket was refused, or [bind], then possibly [recvmsg] and [__errno], were called, and
    last [close] of [fd]. *)
Definition transfer_calls (fd : Z) (v : option Z) (l : list (Z * list Z)) : Prop :=
  match v with
  | Some _ =>
      exists addr len hdr,
        l = [(bind_addr, [uintptr a fd; addr; len]);
             (recvmsg_addr, [uintptr a fd; hdr; MSG_WAITALL]);
             (close_addr, [uintptr a fd])]
  | None =>
      (fd = -1 /\ l = errno_calls) \/
      exists addr len mid,
        l = (bind_addr, [uintptr a fd; addr; len]) :: mid ++ [(close_addr, [uintptr a fd])] /\
        (mid = errno_calls \/ exists hdr more,
           mid = (recvmsg_addr, [uintptr a fd; hdr; MSG_WAITALL]) :: more /\
           (more = [] \/ more = errno_calls))
  end.

(** The two ways to give up after the socket was bound, having called [mid] since. *)
Lemma enters_give_up r fd addr len hdr :
  enters_only (r ← close_remote a fuel pid close_addr r fd; mret (@None Z, r))
    (fun '(v, _) l => transfer_calls fd v
       ((bind_addr, [uintptr a fd; addr; len]) ::
        (recvmsg_addr, [uintptr a fd; hdr; MSG_WAITALL]) :: l)).
Proof.
  apply enters_bind. eapply enters_mono; [apply enters_close_remote|].
  intros r1 l ->. apply enters_ret. right. exists addr, len, [(recvmsg_addr, [uintptr a fd; hdr; MSG_WAITALL])].
  split; [done|]. right. eauto.
Qed.

Lemma enters_give_up_errno r fd addr len (recv : option Z) :
  enters_only ('(_, r) ← get_remote_errno a fuel pid errno_addr r;
               r ← close_remote a fuel pid close_addr r fd; mret (@None Z, r))
    (fun '(v, _) l => transfer_calls fd v
       ((bind_addr, [uintptr a fd; addr; len]) ::
        match recv with
        | Some hdr => [(recvmsg_addr, [uintptr a fd; hdr; MSG_WAITALL])]
        | None => []
        end ++ l)).
Proof.
  apply enters_bind. eapply enters_mono; [apply enters_errno|]. intros [e r1] l ->.
  apply enters_bind. eapply enters_mono; [apply enters_close_remote|]. intros r2 l ->.
  apply enters_ret. right. exists addr, len.
  exists (match recv with
          | Some hdr => [(recvmsg_addr, [uintptr a fd; hdr; MSG_WAITALL])] | None => [] end ++ errno_calls).
  rewrite app_nil_r. split; [by rewrite <-!(assoc_L (++))|].
  destruct recv as [hdr|]; [right; simpl; eauto|by left].
Qed.

(** C19: in a target that takes what it is given (every write is complete and every request
    about it succeeds) and to which the descriptor can be sent, handing the descriptor over
    calls socket first.  When it succeeds it then calls bind, recvmsg and close, in this order,
    each on the descriptor that socket returned.  When it fails, either socket had returned
    -1, or the last call closes that descriptor: it is not leaked. *)
Theorem transfer_over_calls (r : regs) (local_socket local_lib_fd : Z) :
  wpa accepting
    (transfer_over a fuel pid r local_socket local_lib_fd socket_addr bind_addr recvmsg_addr
       close_addr errno_addr)
    (fun o t => match o with
     | Done (v, _) =>
         exists t1 t2 w r1 calls, t = t1 ++ t2 /\
           exec (remote_call a fuel pid r socket_addr 0 socket_args) t1 (Done (w, r1)) /\
           makes a pid t ((socket_addr, socket_args) :: calls) /\
           transfer_calls (sext 32 w) v calls
     | _ => True
     end).
Proof.
  unfold transfer_over. cbv zeta. apply wpa_bind, wpa_exec. intros t1 o He Ht1.
  pose proof (proj1 (wpa_exec _ _ _) (enters_call r socket_addr 0 socket_args) _ _ He Ht1) as Hs.
  destruct o as [[w r1]| |]; [|done|done]. destruct Hs as (l1 & Hl1 & ->).
  match goal with |- wpa _ ?q _ => enough (enters_only q (fun '(v, _) l => transfer_calls (sext 32 w) v l)) as H end.
  { eapply wpa_mono; [exact H|]. intros [[v r2]| |] t2 _; try done. intros (l & Hl & Hv).
    exists t1, t2, w, r1, l. split_and!; [done|exact He| |exact Hv].
    by apply (makes_app _ _ _ _ [_]). }
  destruct (Z.eqb_spec (sext 32 w) (-1)) as [Hw|_].
  { apply enters_bind. eapply enters_mono; [apply enters_errno|]. intros [e r2] l ->.
    apply enters_ret. left. by rewrite app_nil_r. }
  apply enters0_then; [apply _|]. intros magic.
  apply enters0_then; [apply _|]. intros [addr r2].
  apply enters_bind. eapply enters_mono; [apply enters_call|]. intros [res r3] l ->.
  destruct (res =? uintptr a (-1)).
  { eapply enters_mono; [apply (enters_give_up_errno _ _ addr (addr_len magic) None)|]. by intros [v r4] l. }
  apply enters0_then; [apply _|]. intros [buf r4].
  apply enters0_then; [apply _|]. intros [hdr r5].
  apply enters_bind. eapply enters_mono; [apply enters_pre_call|]. intros [ok r6] l [-> ->].
  cbn [negb]. pose proof (fun r => enters_give_up r (sext 32 w) addr (addr_len magic) hdr) as Hfail.
  apply enters_bind, wpa_call. intros n Hn. exists []. split; [by apply makes_quiets; repeat constructor|].
  destruct (Z.eqb_spec n (-1)); [done|].
  apply enters0_then; [apply _|]. intros [got r7]. destruct (got =? uintptr a (-1)).
  { eapply enters_mono; [apply (enters_give_up_errno _ _ addr (addr_len magic) (Some hdr))|]. by intros [v r8] l. }
  apply enters0_then; [apply _|]. intros [m cmsg].
  destruct (negb _); [eapply enters_mono; [apply Hfail|]; by intros [v r8] l|].
  destruct (read_cmsg a cmsg) as [fd|]; [|eapply enters_mono; [apply Hfail|]; by intros [v r8] l].
  apply enters_bind. eapply enters_mono; [apply enters_close_remote|]. intros r8 l ->.
  apply enters_ret. simpl. eauto 10.
Qed.
End transfer_calls.
End enters_calls.

(** ** The command line *)

(** Programs all of whose calls satisfy [P]. *)
Class Only (P : event sysE -> Prop) {X} (p : SysM X) : Prop := only : wp p (fun _ t => Forall P t).

Section only.
Context {P : event sysE -> Prop}.

Lemma only_bind {X Y} (p : SysM X) (f : X -> SysM Y) :
  Only P p -> (forall x, Only P (f x)) -> Only P (p ≫= f).
Proof.
  intros Hp Hf. apply wp_bind. eapply wp_mono; [|exact Hp]. intros [x| |] t Ht; try exact Ht.
  cbn [bindQ]. eapply wp_mono; [|apply Hf]. intros o t' Ht'. by apply Forall_app.
Qed.

Lemma only_ret {X} (x : X) : Only P (mret x).
Proof. constructor. Qed.

Lemma only_call {X} (e : sysE X) : (forall x, P (Event e x)) -> Only P (call e).
Proof. intros H x. by repeat constructor. Qed.
End only.

Ltac only_go :=
  repeat lazymatch goal with
  | |- Only _ (mret _) => apply only_ret
  | |- Only _ Out => constructor
  | |- Only _ Crash => constructor
  | |- Only _ (if ?b then _ else _) => destruct b
  | |- Only _ (match ?x with _ => _ end) => destruct x
  | |- Only _ (_ ≫= _) => apply only_bind; [|intros]
  | |- Only _ (call _) => apply only_call; intros; first [exact I | reflexivity]
  | |- Only _ (let _ := _ in _) => cbv zeta
  | |- Only _ _ => first [assumption | apply _ | progress autounfold with inject]
  end.

Create HintDb inject.
#[export] Hint Unfold write_proc read_proc get_regs set_regs find_func_addr push_memory push_string
  push_stack_args push_return_addr prepare_call remote_pre_call remote_call generateMagic
  setfilecon unique_fd_destroy unique_fd_assign with_fd when set_sockcreate_con Scan
  close_remote get_remote_errno transfer_over transfer_fd_to_remote get_remote_dlerror
  remote_dlopen remote_find_entry remote_call_entry load_and_run inject_attached : inject.

(** The only process attached to is [pid]. *)
Definition attaches (pid : Z) (ev : event sysE) : Prop :=
  match ev with Event (PtraceAttach p) _ => p = pid | _ => True end.

Section main.
Variable a : arch.
Variable fuel : nat.
Variable dlextinfo : Z -> list byte.
Variable pid : Z.

#[local] Instance attaches_wait n p flags : Only (attaches pid) (wait_for_trace n p flags).
Proof. induction n as [|n IH]; cbn [wait_for_trace]; only_go. Qed.

#[local] Instance attaches_post n p r ret : Only (attaches pid) (remote_post_call a n p r ret).
Proof. revert r. induction n as [|n IH]; intros r; cbn [remote_post_call]; only_go. Qed.

#[local] Instance attaches_magic n str : Only (attaches pid) (magic_chars n str).
Proof. revert str. induction n as [|n IH]; intros str; cbn [magic_chars]; only_go. Qed.

#[local] Instance attaches_scan w lines : Only (attaches pid) (scan_lines w lines).
Proof. induction lines as [|line lines IH]; cbn [scan_lines]; only_go. Qed.

#[local] Instance attaches_attached path : Only (attaches pid) (inject_attached a fuel dlextinfo pid path).
Proof. only_go. Qed.

#[local] Instance attaches_inject path entry_name :
  Only (attaches pid) (inject_library a fuel dlextinfo pid path entry_name).
Proof. unfold inject_library, with_attachment. only_go. Qed.
End main.

(** On a 64-bit device, with a decimal number as the process id, the injector
    attaches to that process only, and a number that is not a positive [int] is
    refused before anything is done. *)
Theorem main_pid (a : arch) (fuel : nat) (dlextinfo : Z -> list byte)
    (prog_name pid_text lib_path entry_name : string) (v : Z) :
  word a = 64 -> text 10 pid_text v ->
  wp (main a fuel dlextinfo [prog_name; pid_text; lib_path; entry_name]) (fun o t =>
    Forall (attaches v) t /\ (1 <= v <= INT_MAX \/ o = Done EXIT_FAILURE /\ t = [])).
Proof.
  intros Hw Hv. unfold main. rewrite <-(app_empty_r pid_text), Hw.
  rewrite (strtol10_saturates 64 pid_text v EmptyString) by done.
  rewrite bool_decide_true by done. cbn [negb orb].
  change (64 - 1) with 63. pose proof (text_nonneg 10 _ _ ltac:(lia) Hv) as Hn.
  destruct ((Z.min v (2 ^ 63 - 1) <=? 0) || (INT_MAX <? Z.min v (2 ^ 63 - 1))) eqn:Hr.
  { split; [constructor|]. by right. }
  boolp. unfold INT_MAX in *. replace (Z.min v (2 ^ 63 - 1)) with v in * by lia.
  match goal with |- wp ?q _ => assert (Only (attaches v) q) as Hq end.
  { pose proof (attaches_inject a fuel dlextinfo v). only_go. }
  eapply wp_mono; [|exact Hq]. intros o t Ht. split; [done|]. left. lia.
Qed.

(** ** Random names *)

(** The engine answers below its bound. *)
Definition random_below (ev : event sysE) : Prop :=
  match ev with Event (RandomBelow n) i => 0 <= i < n | _ => True end.

Fixpoint all_chars (P : ascii -> bool) (s : string) : bool :=
  match s with EmptyString => true | String c s => P c && all_chars P s end.

Definition alphanumeric (c : ascii) : bool :=
  let z := chr c in
  (48 <=? z) && (z <=? 57) || (97 <=? z) && (z <=? 122) || (65 <=? z) && (z <=? 90).

Lemma get_all_chars P s n c : all_chars P s = true -> String.get n s = Some c -> P c = true.
Proof.
  revert n. induction s as [|d s IH]; intros [|n]; simpl; try done.
  - intros H [= ->]. by apply andb_prop in H as [H _].
  - intros [_ H]%andb_prop. by apply IH.
Qed.

Lemma length_append s t : String.length (s +:+ t) = (String.length s + String.length t)%nat.
Proof.
  induction s as [|c s IH]; [done|].
  change (String c s +:+ t) with (String c (s +:+ t)). simpl. by rewrite IH.
Qed.

Lemma all_chars_append P s t : all_chars P (s +:+ t) = all_chars P s && all_chars P t.
Proof.
  induction s as [|c s IH]; [done|].
  change (String c s +:+ t) with (String c (s +:+ t)). simpl. by rewrite IH, andb_assoc.
Qed.

Lemma get_in_range s n : (n < String.length s)%nat -> exists c, String.get n s = Some c.
Proof.
  revert n. induction s as [|c s IH]; intros [|n]; simpl; try lia; [by exists c|].
  intros. apply IH. lia.
Qed.

Lemma magic_chars_wpv n s :
  all_chars alphanumeric s = true ->
  wpv random_below (magic_chars n s) (fun r =>
    String.length r = (String.length s + n)%nat /\ all_chars alphanumeric r = true).
Proof.
  revert s. induction n as [|n IH]; intros s Hs; cbn [magic_chars].
  { apply wpv_ret. by rewrite Nat.add_0_r. }
  apply wpv_bind, wpv_call. intros i Hi.
  destruct (get_in_range kRandomChars (Z.to_nat i)) as [c Hc]; [unfold random_below in Hi; lia|].
  rewrite Hc. eapply wpv_mono; [apply IH|].
  - rewrite all_chars_append, Hs. simpl.
    by rewrite (get_all_chars alphanumeric kRandomChars _ c eq_refl Hc).
  - intros r [Hl Hr]. split; [|done]. rewrite Hl, length_append. simpl. lia.
Qed.

(** A generated name has the length asked for and consists of letters and
    digits only, so it has no terminator in it and fits the socket address. *)
Theorem generateMagic_name (n : nat) :
  wpv random_below (generateMagic n) (fun r =>
    String.length r = n /\ all_chars alphanumeric r = true).
Proof.
  unfold generateMagic. destruct (n =? 0)%nat eqn:Hn.
  - apply Nat.eqb_eq in Hn as ->. by apply wpv_ret.
  - by apply magic_chars_wpv.
Qed.

(** ** Concrete inputs *)

Module InjectSample.
(** The two libraries of [Device] as scanned. *)
Definition infos (libc : Z) : list MapInfo :=
  [{| start := 0x1000; end_ := 0x2000; perms := 5; is_private := true; offset := 0; dev := 1;
      inode := 3; path := "/system/bin/keystore2" |};
   {| start := libc; end_ := libc + 0x1000; perms := 1; is_private := true; offset := 0; dev := 1;
      inode := 9; path := "/apex/lib64/bionic/libc.so" |};
   {| start := libc + 0x1000; end_ := libc + 0x9000; perms := 5; is_private := true;
      offset := 0x1000; dev := 1; inode := 9; path := "/apex/lib64/bionic/libc.so" |}].

Lemma infos_loaded base : loaded (infos base) "libc.so" base.
Proof.
  eexists [_], _, [_]. split_and!; [reflexivity|reflexivity|reflexivity|reflexivity|].
  constructor; [by right|constructor].
Qed.

(** [main] on an arm device: a number above INT_MAX is saturated by strtol to
    INT_MAX, passes the checks and is attached to. *)
Definition attached_pids (t : list (event sysE)) : list Z :=
  t ≫= fun ev => match ev with Event (PtraceAttach p) _ => [p] | _ => [] end.

Example main_overflow_32 :
  attached_pids
    (run (answer works) (main Arm 3 dlextinfo64 ["inject"; "9999999999"; "/data/lib.so"; "entry"])
       device0).2 = [INT_MAX].
Proof. vm_compute. reflexivity. Qed.

Example main_overflow_64 :
  (run (answer works) (main AArch64 3 dlextinfo64 ["inject"; "9999999999"; "/data/lib.so"; "entry"])
     device0) = (Done EXIT_FAILURE, device0, []).
Proof. vm_compute. reflexivity. Qed.

Example main_success :
  (run (answer works) (main AArch64 3 dlextinfo64 ["inject"; "0077"; "/data/lib.so"; "entry"])
     device0).1.1 = Done EXIT_SUCCESS.
Proof. vm_compute. reflexivity. Qed.
End InjectSample.

(** A transfer to a stopped thread of [Device]; its functions lie at these addresses. *)
Module TransferSample.
Definition stopped : device := {| thread := thread0; attached_stop := true |}.
Definition socket_addr : Z := remote_libc + 0x100.
Definition bind_addr : Z := remote_libc + 0x110.
Definition recvmsg_addr : Z := remote_libc + 0x120.
Definition close_addr : Z := remote_libc + 0x130.
Definition errno_addr : Z := remote_libc + 0x140.
Definition handed_over :=
  run (answer works) (transfer_over AArch64 3 kPid thread0 5 6 socket_addr bind_addr recvmsg_addr
    close_addr errno_addr) stopped.

(** [accepting], as a test *)
Definition acceptingb (ev : event sysE) : bool :=
  match ev with
  | Event (ProcessVmWritev _ _ data) n => n =? Z.of_nat (length data)
  | Event (PtraceSetRegs _ _) ok | Event (PtraceCont _) ok => ok
  | Event (Sendmsg _ _ _) n => negb (n =? -1)
  | _ => true
  end.

Lemma acceptingb_all t : forallb acceptingb t = true -> Forall accepting t.
Proof.
  intros H. rewrite forallb_forall in H. apply Forall_forall. intros [X e x] Hin.
  apply list_elem_of_In, H in Hin. destruct e; simpl in *; boolp; done.
Qed.
End TransferSample.

Lemma transfer_over_calls_witness :
  exists t1 t2 w r1 addr len hdr,
    TransferSample.handed_over.2 = t1 ++ t2 /\
    exec (remote_call AArch64 3 kPid thread0 TransferSample.socket_addr 0 socket_args) t1
      (Done (w, r1)) /\
    makes AArch64 kPid TransferSample.handed_over.2
      [(TransferSample.socket_addr, socket_args);
       (TransferSample.bind_addr, [uintptr AArch64 (sext 32 w); addr; len]);
       (TransferSample.recvmsg_addr, [uintptr AArch64 (sext 32 w); hdr; MSG_WAITALL]);
       (TransferSample.close_addr, [uintptr AArch64 (sext 32 w)])].
Proof.
  assert (Hok : Forall accepting TransferSample.handed_over.2)
    by (apply TransferSample.acceptingb_all; vm_compute; reflexivity).
  assert (Hres : exists r', TransferSample.handed_over.1.1 = Done (Some 12, r'))
    by (eexists; vm_compute; reflexivity).
  destruct Hres as [r' Hres].
  pose proof (wp_run (answer works) _ TransferSample.stopped _
    (transfer_over_calls AArch64 3 kPid TransferSample.socket_addr TransferSample.bind_addr
      TransferSample.recvmsg_addr TransferSample.close_addr TransferSample.errno_addr thread0 5 6)
    Hok) as H.
  change (run (answer works) _ TransferSample.stopped) with TransferSample.handed_over in H.
  rewrite Hres in H.
  destruct H as (t1 & t2 & w & r1 & calls & Ht & He & Hm & addr & len & hdr & ->).
  exists t1, t2, w, r1, addr, len, hdr.
  split; [exact Ht|]. split; [exact He|exact Hm].
Defined.

Lemma find_func_addr_translates_witness :
  wpc (linker "libc.so" "close" 9 0x7000 0x130) handle_calls
    (find_func_addr AArch64 (InjectSample.infos 0x7000) (InjectSample.infos 0x8000) "libc.so" "close")
    (fun addr calls => addr = 0x8130 /\ calls = [(true, 9); (false, 9)]).
Proof.
  apply (find_func_addr_translates AArch64 _ _ "libc.so" "close" 9 0x7000 0x8000 0x130);
    try discriminate.
  - apply InjectSample.infos_loaded.
  - apply InjectSample.infos_loaded.
  - apply (bool_decide_unpack _). vm_compute. reflexivity.
Defined.

Lemma push_string_places_witness :
  exists addr r', (run scripted (push_string X86_64 7 CallSample.thread "entry") ([], ∅)).1.1 =
      Done (addr, r') /\
    sp X86_64 r' mod 16 = 0 /\ sp X86_64 r' + 6 <= sp X86_64 CallSample.thread /\
    (forall name, name <> "rsp"%string -> r' !! name = CallSample.thread !! name) /\
    (addr = 0 \/ addr = sp X86_64 r' /\
       string_at X86_64 7 CallSample.thread "entry" addr
         (run scripted (push_string X86_64 7 CallSample.thread "entry") ([], ∅)).2).
Proof.
  exact (wp_run scripted _ ([], ∅) _
    (push_string_places X86_64 7 CallSample.thread "entry"
       (bool_decide_unpack (in_word (word X86_64) (sp X86_64 CallSample.thread)) I)
       (bool_decide_unpack (Z.of_nat 5 + 16 <= sp X86_64 CallSample.thread) I))).
Defined.

Lemma main_pid_witness :
  let t := (run (answer works) (main AArch64 3 dlextinfo64 ["inject"; "0077"; "/data/lib.so"; "entry"])
              device0).2 in
  let o := (run (answer works) (main AArch64 3 dlextinfo64 ["inject"; "0077"; "/data/lib.so"; "entry"])
              device0).1.1 in
  Forall (attaches 77) t /\ (1 <= 77 <= INT_MAX \/ o = Done EXIT_FAILURE /\ t = []).
Proof.
  cbv zeta.
  apply (wp_run (answer works) _ device0 (fun o t =>
    Forall (attaches 77) t /\ (1 <= 77 <= INT_MAX \/ o = Done EXIT_FAILURE /\ t = []))).
  apply (main_pid AArch64 3 dlextinfo64 "inject" "0077" "/data/lib.so" "entry" 77).
  - reflexivity.
  - apply is_text_spec. vm_compute. reflexivity.
Defined.
