(* ===== verification/LinkStubs.v ===== *)
(** * The link-time stand-ins for libbinder and libutils (stub/)

    stub_binder.cpp and stub_utils.cpp give the native library something to link
    against; on a device the symbols are bound to the platform's libraries.  The member
    functions they define are the signatures [ibinderM], [bbinderM], [ipcM], [parcelM],
    [serviceM] and RefBase.v's [refE], the bodies the functions [stub_*].  The sizes that
    the files assert are computed from the class declarations of the headers, and the
    stand-ins are an environment in which the interceptor's code can run. *)

From S2P Require Import Prelude Prog BinderUapi RefBase Parcel ParcelData Registry Interceptor.
Local Open Scope Z_scope.

(** ** Class layouts *)

Section layout.
Local Open Scope string_scope.
(** [__LP64__] *)
Variable lp64 : bool.

Definition word_t : ctype := if lp64 then U64 else U32.

(** A class with no virtual function. *)
Definition plain_class (fields : list (string * ctype)) : ctype := BinderUapi.Struct fields.

(** [RefBase]: the virtual table pointer and [mRefs]. *)
Definition RefBase_fields : list (string * ctype) := [("RefBase_vptr", word_t); ("mRefs", word_t)].

(** A class that derives virtually from [RefBase]: its own fields, then the base. *)
Definition with_RefBase (fields : list (string * ctype)) : ctype :=
  BinderUapi.Struct ((("vptr", word_t) :: fields) ++ [("RefBase", BinderUapi.Struct RefBase_fields)]).

Definition IBinder_class : ctype := with_RefBase [].

Definition BBinder_class : ctype :=
  with_RefBase ([("mExtras", word_t); ("mStability", S16); ("mParceled", U8);
                 ("mRecordingOn", U8)] ++ (if lp64 then [("mReserved1", S32)] else [])).

Definition KernelFields : ctype :=
  plain_class [("mObjects", word_t); ("mObjectsSize", word_t); ("mObjectsCapacity", word_t);
               ("mNextObjectHint", word_t); ("mWorkSourceRequestHeaderPosition", word_t);
               ("mRequestHeaderPresent", U8); ("mObjectsSorted", U8); ("mFdsKnown", U8);
               ("mHasFds", U8)].

(** An empty class is one byte. *)
Definition RpcFields : ctype := plain_class [("empty", U8)].

(** [std::variant]: the alternatives in one place, and the index of the active one. *)
Definition variant (ts : list ctype) : ctype :=
  plain_class [("storage", Union ((fun t => ("alternative", t)) <$> ts)); ("index", U32)].

Definition Parcel_class : ctype :=
  plain_class [("mError", S32); ("mData", word_t); ("mDataSize", word_t); ("mDataCapacity", word_t);
               ("mDataPos", word_t); ("mVariantFields", variant [KernelFields; RpcFields]);
               ("mAllowFds", U8); ("mDeallocZero", U8); ("mEnforceNoDataAvail", U8);
               ("mServiceFuzzing", U8); ("mOwner", word_t); ("mReserved", word_t)].

(** The operands of the static assertions. *)
Definition asserted_IBinder : nat := if lp64 then 24 else 12.
Definition asserted_BBinder : nat := if lp64 then 40 else 20.
Definition asserted_Parcel : nat := if lp64 then 120 else 60.
End layout.

(** ** Member functions and their stand-ins

    Pointers and integers are numbers, 0 is [nullptr]; a result that is [Fault] stands
    for [__builtin_unreachable]. *)

Inductive ibinderM : Type -> Type :=
| IBinder_construct : ibinderM unit
| IBinder_destroy : ibinderM unit
| IBinder_queryLocalInterface (descriptor : Z) : ibinderM Z
| IBinder_localBinder : ibinderM Z
| IBinder_remoteBinder : ibinderM Z
| IBinder_checkSubclass (subclassID : Z) : ibinderM bool
| IBinder_withLock : ibinderM unit.

Definition stub_IBinder {X} (m : ibinderM X) : X :=
  match m in ibinderM X return X with
  | IBinder_construct => tt
  | IBinder_destroy => tt
  | IBinder_queryLocalInterface _ => 0
  | IBinder_localBinder => 0
  | IBinder_remoteBinder => 0
  | IBinder_checkSubclass _ => false
  | IBinder_withLock => tt
  end.

Inductive bbinderM : Type -> Type :=
| BBinder_construct : bbinderM unit
| BBinder_destroy : bbinderM unit
| BBinder_getInterfaceDescriptor : bbinderM Z
| BBinder_isBinderAlive : bbinderM bool
| BBinder_pingBinder : bbinderM Z
| BBinder_dump : bbinderM Z
| BBinder_transact (code flags : Z) : bbinderM Z
| BBinder_linkToDeath : bbinderM Z
| BBinder_unlinkToDeath : bbinderM Z
| BBinder_attachObject : bbinderM Z
| BBinder_findObject : bbinderM Z
| BBinder_detachObject : bbinderM Z
| BBinder_withLock : bbinderM unit
| BBinder_localBinder : bbinderM Z
| BBinder_onTransact (code flags : Z) : bbinderM Z.

Definition stub_BBinder {X} (m : bbinderM X) : outcome X :=
  match m in bbinderM X return outcome X with
  | BBinder_construct => Done tt
  | BBinder_destroy => Done tt
  | BBinder_getInterfaceDescriptor => Fault
  | BBinder_isBinderAlive => Done false
  | BBinder_pingBinder => Done 0
  | BBinder_dump => Done 0
  | BBinder_transact _ _ => Done 0
  | BBinder_linkToDeath => Done 0
  | BBinder_unlinkToDeath => Done 0
  | BBinder_attachObject => Done 0
  | BBinder_findObject => Done 0
  | BBinder_detachObject => Done 0
  | BBinder_withLock => Done tt
  | BBinder_localBinder => Done 0
  | BBinder_onTransact _ _ => Done 0
  end.

Inductive ipcM : Type -> Type :=
| IPC_self : ipcM Z
| IPC_selfOrNull : ipcM Z
| IPC_getCallingPid : ipcM Z
| IPC_getCallingSid : ipcM Z
| IPC_getCallingUid : ipcM Z.

Definition stub_IPCThreadState {X} (m : ipcM X) : X :=
  match m in ipcM X return X with
  | IPC_self => 0
  | IPC_selfOrNull => 0
  | IPC_getCallingPid => 0
  | IPC_getCallingSid => 0
  | IPC_getCallingUid => 0
  end.

(** The scalars that [Parcel]'s stand-ins read and write. *)
Definition stub_scalar (k : prim) : bool :=
  match k with PString16 | PUtf8 | PFd | PStrongBinder => false | _ => true end.

Inductive parcelM : Type -> Type :=
| Parcel_construct : parcelM unit
| Parcel_destroy : parcelM unit
| Parcel_data : parcelM Z
| Parcel_dataSize : parcelM Z
| Parcel_dataAvail : parcelM Z
| Parcel_dataPosition : parcelM Z
| Parcel_dataCapacity : parcelM Z
| Parcel_dataBufferSize : parcelM Z
| Parcel_setDataSize (size : Z) : parcelM Z
| Parcel_setDataPosition (pos : Z) : parcelM unit
| Parcel_setDataCapacity (size : Z) : parcelM Z
| Parcel_setData : parcelM Z
| Parcel_appendFrom (start len : Z) : parcelM Z
| Parcel_enforceNoDataAvail : parcelM unit
| Parcel_setEnforceNoDataAvail (b : bool) : parcelM unit
| Parcel_freeData : parcelM unit
| Parcel_write (len : Z) : parcelM Z
| Parcel_writeInplace (len : Z) : parcelM Z
(** [writeInt32], ..., [writeByte] *)
| Parcel_write_scalar (k : prim) (z : Z) : parcelM Z
| Parcel_writeCString : parcelM Z
| Parcel_writeString8 : parcelM Z
| Parcel_writeStrongBinder (b : Z) : parcelM Z
| Parcel_writeNoException : parcelM Z
| Parcel_read (len : Z) : parcelM Z
| Parcel_readInplace (len : Z) : parcelM Z
(** [readInt32()], ..., [readByte()] *)
| Parcel_read_value (k : prim) : parcelM Z
(** [readInt32(int32_t* )], ...: the status; nothing is stored *)
| Parcel_read_scalar (k : prim) : parcelM Z
| Parcel_readStrongBinder_value : parcelM Z
| Parcel_readStrongBinder : parcelM Z
| Parcel_readNullableStrongBinder : parcelM Z
| Parcel_readExceptionCode : parcelM Z
| Parcel_readFileDescriptor : parcelM Z.

Definition stub_Parcel {X} (m : parcelM X) : X :=
  match m in parcelM X return X with
  | Parcel_construct => tt
  | Parcel_destroy => tt
  | Parcel_data => 0
  | Parcel_dataSize => 0
  | Parcel_dataAvail => 0
  | Parcel_dataPosition => 0
  | Parcel_dataCapacity => 0
  | Parcel_dataBufferSize => 0
  | Parcel_setDataSize _ => 0
  | Parcel_setDataPosition _ => tt
  | Parcel_setDataCapacity _ => 0
  | Parcel_setData => 0
  | Parcel_appendFrom _ _ => 0
  | Parcel_enforceNoDataAvail => tt
  | Parcel_setEnforceNoDataAvail _ => tt
  | Parcel_freeData => tt
  | Parcel_write _ => 0
  | Parcel_writeInplace _ => 0
  | Parcel_write_scalar _ _ => 0
  | Parcel_writeCString => 0
  | Parcel_writeString8 => 0
  | Parcel_writeStrongBinder _ => 0
  | Parcel_writeNoException => 0
  | Parcel_read _ => 0
  | Parcel_readInplace _ => 0
  | Parcel_read_value _ => 0
  | Parcel_read_scalar _ => 0
  | Parcel_readStrongBinder_value => 0
  | Parcel_readStrongBinder => 0
  | Parcel_readNullableStrongBinder => 0
  | Parcel_readExceptionCode => 0
  | Parcel_readFileDescriptor => 0
  end.

Inductive serviceM : Type -> Type :=
| IServiceManager_construct : serviceM unit
| IServiceManager_destroy : serviceM unit
| IServiceManager_getInterfaceDescriptor : serviceM Z
| Service_defaultServiceManager : serviceM Z
| Service_setDefaultServiceManager (sm : Z) : serviceM unit.

Definition stub_service {X} (m : serviceM X) : outcome X :=
  match m in serviceM X return outcome X with
  | IServiceManager_construct => Done tt
  | IServiceManager_destroy => Done tt
  | IServiceManager_getInterfaceDescriptor => Fault
  | Service_defaultServiceManager => Done 0
  | Service_setDefaultServiceManager _ => Done tt
  end.

(** stub_utils.cpp: the counters count nothing.  [NewObject] is the allocator's. *)
Definition stub_ref (fresh : Z) {X} (e : refE X) : X :=
  match e in refE X return X with
  | IncStrong _ => tt
  | IncStrongRequireStrong _ => tt
  | DecStrong _ => tt
  | ForceIncStrong _ => tt
  | GetWeakRefs _ => 0
  | CreateWeak _ => 0
  | IncWeak _ => tt
  | DecWeak _ => tt
  | AttemptIncStrong _ => false
  | NewObject => fresh
  end.

(** The rest of stub_utils.cpp. *)
Inductive utilsM : Type -> Type :=
| RefBase_construct : utilsM Z
| RefBase_destroy : utilsM unit
| RefBase_onFirstRef : utilsM unit
| RefBase_onLastStrongRef : utilsM unit
| RefBase_onIncStrongAttempted (flags : Z) : utilsM bool
| RefBase_onLastWeakRef : utilsM unit
| Weakref_refBase : utilsM Z
| Weakref_incWeakRequireWeak : utilsM unit
| Weakref_attemptIncWeak : utilsM bool
| Sp_report_race : utilsM unit
| String16_construct : utilsM unit
| String16_destroy : utilsM unit.

(** The constructor of [RefBase]: the [mRefs] it sets. *)
Definition stub_utils {X} (m : utilsM X) : X :=
  match m in utilsM X return X with
  | RefBase_construct => 0
  | RefBase_destroy => tt
  | RefBase_onFirstRef => tt
  | RefBase_onLastStrongRef => tt
  | RefBase_onIncStrongAttempted _ => false
  | RefBase_onLastWeakRef => tt
  | Weakref_refBase => 0
  | Weakref_incWeakRequireWeak => tt
  | Weakref_attemptIncWeak => false
  | Sp_report_race => tt
  | String16_construct => tt
  | String16_destroy => tt
  end.

(** ** The stand-ins as an environment of the interceptor *)

(** A parcel of the stand-ins keeps nothing.  A reader with an output pointer leaves the
    caller's variable as it is: [left]. *)
Section parcel.
Variable left : Z.

#[local] Instance stub_parcel_ops : ParcelOps unit := {
  p_new := stub_Parcel Parcel_construct;
  p_writeStrongBinder _ b := (stub_Parcel (Parcel_writeStrongBinder b), tt);
  p_writeInt32 _ z := (stub_Parcel (Parcel_write_scalar PInt32 z), tt);
  p_writeUint32 _ z := (stub_Parcel (Parcel_write_scalar PUint32 z), tt);
  p_writeUint64 _ z := (stub_Parcel (Parcel_write_scalar PUint64 z), tt);
  p_appendFrom _ _ start len := (stub_Parcel (Parcel_appendFrom start len), tt);
  p_dataSize _ := stub_Parcel Parcel_dataSize;
  p_dataPosition _ := stub_Parcel Parcel_dataPosition;
  p_rewind _ := stub_Parcel (Parcel_setDataPosition 0);
  p_freeData _ := stub_Parcel Parcel_freeData;
  (** [sp] variables start as null *)
  p_readStrongBinder _ := ((stub_Parcel Parcel_readStrongBinder, 0), tt);
  p_readInt32 _ := ((stub_Parcel (Parcel_read_scalar PInt32), left), tt);
  p_readUint32 _ := ((stub_Parcel (Parcel_read_scalar PUint32), left), tt);
  p_readInt32_value _ := (stub_Parcel (Parcel_read_value PInt32), tt);
  p_readUint64_value _ := (stub_Parcel (Parcel_read_value PUint64), tt)
}.

Definition done {X} (o : outcome X) (default : X) : X :=
  match o with Done x => x | _ => default end.

Definition stub_env (fresh : Z) (X : Type) (e : binderE unit X) (s : unit) : X * unit :=
  (match e in binderE _ X return X with
   | RefCall e => stub_ref fresh e
   | LocalBinder _ => done (stub_BBinder BBinder_localBinder) 0
   | Transact _ code _ reply flags => (done (stub_BBinder (BBinder_transact code flags)) 0, reply)
   | GetCallingUid => stub_IPCThreadState IPC_getCallingUid
   | GetCallingPid => stub_IPCThreadState IPC_getCallingPid
   | Allocate _ => true
   end, s).

Definition result {A S T} (r : outcome A * S * T) : outcome A := r.1.1.

(** No transaction reaches an object. *)
Definition is_transact (ev : event (binderE unit)) : bool :=
  match ev with
  | Event e _ => match e with Transact _ _ _ _ _ => true | _ => false end
  end.

(** What [BinderStub::onTransact] answers for the front of the queue. *)
Definition stub_answer (queue : list ThreadTransactionInfo) (reply : option unit) : Z :=
  match queue with
  | [] => UNKNOWN_TRANSACTION
  | info :: _ =>
      if (m_ptr (target_binder info) =? 0) && (transaction_code info =? kBackdoorCode) &&
         bool_decide (is_Some reply)
      then OK else DEAD_OBJECT
  end.
End parcel.

(** ** What they amount to *)

(** The static assertions of stub_binder.cpp hold of the declarations in the headers. *)
Lemma stub_layouts lp64 :
  BinderUapi.sizeof (IBinder_class lp64) = asserted_IBinder lp64 /\
  BinderUapi.sizeof (BBinder_class lp64) = asserted_BBinder lp64 /\
  BinderUapi.sizeof (Parcel_class lp64) = asserted_Parcel lp64.
Proof. destruct lp64; vm_compute; auto. Qed.

Section run.
Variables (W left fresh : Z).
#[local] Existing Instance stub_parcel_ops.

(** With the stand-ins in place of the platform's libraries nothing is intercepted:
    the stub object answers UNKNOWN_TRANSACTION, DEAD_OBJECT or, to the backdoor code, OK
    with a reply nobody wrote; no transaction reaches any object, and the registration
    handler, which is told that it read a binder, dereferences null. *)
Theorem stub_environment_inert (g : Z) (reg : registry) (queue : list ThreadTransactionInfo)
    (reply : option unit) (flags : Z) :
  let r := run (stub_env fresh)
             (stub_onTransact (ParcelOps0 := stub_parcel_ops left) W g reg queue tt reply flags) tt in
  result r = Done (stub_answer queue reply, reply, tail queue) /\
  Forall (fun ev => is_transact ev = false) r.2 /\
  result (run (stub_env fresh)
            (handleRegisterInterceptor (ParcelOps0 := stub_parcel_ops left) reg tt) tt) = Fault.
Proof.
  assert (result (run (stub_env fresh)
            (handleRegisterInterceptor (ParcelOps0 := stub_parcel_ops left) reg tt) tt) = Fault)
    as Hreg by done.
  destruct queue as [|[code [ptr refs]] queue]; [by split_and!|]. cbv zeta. apply and_assoc.
  split; [|exact Hreg]. unfold stub_answer, stub_onTransact, stub_dispatch, by_value, wp_copy,
    wp_destroy, wp_promote, sp_copy, sp_destroy.
  cbn [target_binder transaction_code m_ptr m_refs].
  destruct (ptr =? 0) eqn:Hp, (code =? kBackdoorCode) eqn:Hc, (g =? 0) eqn:Hg, reply as [[]|];
    cbn; rewrite ?Hp, ?Hg; cbn; rewrite ?Hp, ?Hg, ?Hc; cbn; rewrite ?Hp, ?Hg;
    (split; [done|repeat constructor]).
Qed.
End run.
