(* ===== verification/UniqueFd.v ===== *)
(** * Owned file descriptors (android-base/unique_fd.h, binder/unique_fd.h)

    [unique_fd_impl] with its default closer on Android: the objects are a store from
    addresses to the descriptor they hold, so that an object assigned to itself is one
    object; an operation gives the calls it makes in order.  The rules of the platform's
    owner tags (fdsan: a tag is exchanged or a descriptor closed only by its owner) and
    of open descriptors are the checker [accept]; the operations, used as the class
    intends, never make it refuse a call. *)

From S2P Require Import Prelude.
From stdpp Require Import gmap sets.
Local Open Scope Z_scope.

(** ** Calls *)

Inductive fdcall : Type :=
(** [android_fdsan_exchange_owner_tag(fd, old_tag, new_tag)]; a tag is the address of
    the owner, 0 for none *)
| ExchangeTag (fd old_tag new_tag : Z)
(** [android_fdsan_close_with_tag(fd, tag)] *)
| CloseWithTag (fd tag : Z)
(** [close(fd)] outside the class *)
| PlainClose (fd : Z)
| SaveErrno
| RestoreErrno.

(** ** The class *)

(** Live objects: the value of [fd_]. *)
Abbreviation objects := (gmap Z Z).

(** What an operation does: the calls, the objects, and the descriptor it returns. *)
Record effect := Effect { e_calls : list fdcall; e_objects : objects; e_value : Z }.

(** [DefaultCloser::Tag] and [DefaultCloser::Close], with the weak symbols present *)
Definition tag (fd old_tag new_tag : Z) : list fdcall := [ExchangeTag fd old_tag new_tag].
Definition close_ (fd tag_value : Z) : list fdcall := [CloseWithTag fd tag_value].

(** [reset(new_value, previous_tag)] *)
Definition reset_from (this new_value previous_tag : Z) (s : objects) : option effect :=
  fd_ ← s !! this;
  Some (Effect
    ([SaveErrno] ++ (if negb (fd_ =? -1) then close_ fd_ this else []) ++
     (if negb (new_value =? -1) then tag new_value previous_tag this else []) ++
     [RestoreErrno])
    (<[this := new_value]> s) new_value).

(** [reset(new_value)] *)
Definition reset (this new_value : Z) (s : objects) : option effect := reset_from this new_value 0 s.

Definition get (this : Z) (s : objects) : option Z := s !! this.

Definition ok (this : Z) (s : objects) : option bool := fd ← get this s; Some (0 <=? fd).

(** [release] *)
Definition release (this : Z) (s : objects) : option effect :=
  fd_ ← s !! this;
  Some (Effect (tag fd_ this 0) (<[this := -1]> s) fd_).

(** [unique_fd_impl(int)]: the members are initialised first. *)
Definition construct (this fd : Z) (s : objects) : option effect :=
  reset this fd (<[this := -1]> s).

(** [~unique_fd_impl] *)
Definition destroy (this : Z) (s : objects) : option effect :=
  e ← reset this (-1) s;
  Some (Effect (e_calls e) (delete this (e_objects e)) (-1)).

(** [unique_fd_impl(unique_fd_impl&& other)] *)
Definition move_construct (this other : Z) (s : objects) : option effect :=
  e ← release other (<[this := -1]> s);
  e' ← reset this (e_value e) (e_objects e);
  Some (Effect (e_calls e ++ e_calls e') (e_objects e') (-1)).

(** [operator=(unique_fd_impl&& s)] *)
Definition move_assign (this other : Z) (s : objects) : option effect :=
  fd ← s !! other;
  reset_from this fd other (<[other := -1]> s).

(** [Pipe] and [Socketpair] after the system call: the two descriptors are handed over *)
Definition adopt_pair (p0 p1 fd0 fd1 : Z) (s : objects) : option effect :=
  e ← reset p0 fd0 s;
  e' ← reset p1 fd1 (e_objects e);
  Some (Effect (e_calls e ++ e_calls e') (e_objects e') (-1)).

(** [Fdopen] and [Fdopendir]: whether the stream was made *)
Definition fd_open (this : Z) (made : bool) (s : objects) : option effect :=
  e ← release this s;
  Some (Effect (e_calls e ++ (if made then [] else [PlainClose (e_value e)])) (e_objects e)
          (e_value e)).

(** ** Descriptors and their owners *)

(** The open descriptors and the tags that are not 0. *)
Record table := Table { opened : gset Z; owners : gmap Z Z }.

Definition owner (t : table) (fd : Z) : Z := default 0 (owners t !! fd).

Definition set_owner (fd new : Z) (t : table) : table :=
  Table (opened t) (if new =? 0 then delete fd (owners t) else <[fd := new]> (owners t)).

Definition shut (fd : Z) (t : table) : table :=
  Table (opened t ∖ {[fd]}) (delete fd (owners t)).

(** A refused call aborts the process, or closes somebody else's descriptor. *)
Definition accept (c : fdcall) (t : table) : option table :=
  match c with
  | ExchangeTag fd old new =>
      if fd <? 0 then Some t
      else if owner t fd =? old then Some (set_owner fd new t) else None
  | CloseWithTag fd by_tag =>
      if decide (fd ∈ opened t /\ owner t fd = by_tag) then Some (shut fd t) else None
  | PlainClose fd =>
      if decide (fd ∈ opened t /\ owner t fd = 0) then Some (shut fd t) else None
  | SaveErrno | RestoreErrno => Some t
  end.

Fixpoint accept_all (cs : list fdcall) (t : table) : option table :=
  match cs with
  | [] => Some t
  | c :: cs => t ← accept c t; accept_all cs t
  end.

(** ** Use of the class *)

Inductive op : Type :=
| Construct (this fd : Z)
| Destroy (this : Z)
| MoveConstruct (this other : Z)
| MoveAssign (this other : Z)
| Reset (this fd : Z)
| Release (this : Z)
| AdoptPair (p0 p1 fd0 fd1 : Z)
| FdOpen (this : Z) (made : bool).

Definition run_op (o : op) (s : objects) : option effect :=
  match o with
  | Construct this fd => construct this fd s
  | Destroy this => destroy this s
  | MoveConstruct this other => move_construct this other s
  | MoveAssign this other => move_assign this other s
  | Reset this fd => reset this fd s
  | Release this => release this s
  | AdoptPair p0 p1 fd0 fd1 => adopt_pair p0 p1 fd0 fd1 s
  | FdOpen this made => fd_open this made s
  end.

(** A descriptor that can be given to an object: none, or open and nobody's. *)
Definition free (fd : Z) (t : table) : Prop :=
  fd = -1 \/ (0 <= fd /\ fd ∈ opened t /\ owner t fd = 0).

Definition live (a : Z) (s : objects) : Prop := is_Some (s !! a).

Definition fresh (a : Z) (s : objects) : Prop := a <> 0 /\ s !! a = None.

(** How the operations are meant to be used. *)
Definition allowed (o : op) (s : objects) (t : table) : Prop :=
  match o with
  | Construct this fd => fresh this s /\ free fd t
  | Destroy this | Release this => live this s
  | MoveConstruct this other => fresh this s /\ live other s
  | MoveAssign this other => live this s /\ live other s
  | Reset this fd => live this s /\ free fd t
  | AdoptPair p0 p1 fd0 fd1 =>
      live p0 s /\ live p1 s /\ free fd0 t /\ free fd1 t /\ fd0 <> -1 /\ fd1 <> -1 /\
      fd0 <> fd1 /\ p0 <> p1
  (** there has to be a descriptor to open *)
  | FdOpen this _ => exists fd, s !! this = Some fd /\ fd <> -1
  end.

(** What can happen: an operation, or a new descriptor. *)
Inductive reachable : objects -> table -> Prop :=
| reach_start t : owners t = ∅ -> reachable ∅ t
| reach_opened s t fd :
    reachable s t -> 0 <= fd -> fd ∉ opened t ->
    reachable s (Table ({[fd]} ∪ opened t) (owners t))
| reach_op s t o e t' :
    reachable s t -> allowed o s t -> run_op o s = Some e -> accept_all (e_calls e) t = Some t' ->
    reachable (e_objects e) t'.

(** ** The invariant *)

(** Objects and tags agree: a descriptor that an object holds is open and carries its
    address, and a tag is the address of an object that holds the descriptor. *)
Record owned (s : objects) (t : table) : Prop := {
  owned_addr a fd : s !! a = Some fd -> a <> 0;
  owned_fd a fd : s !! a = Some fd -> fd = -1 \/ (0 <= fd /\ fd ∈ opened t /\ owners t !! fd = Some a);
  owned_tag fd a : owners t !! fd = Some a -> s !! a = Some fd /\ fd <> -1
}.

Lemma owner_lookup t fd a : owners t !! fd = Some a -> owner t fd = a.
Proof. unfold owner. by intros ->. Qed.

Lemma owner_Some t fd : owner t fd <> 0 -> owners t !! fd = Some (owner t fd).
Proof. unfold owner. by destruct (owners t !! fd). Qed.

Lemma accept_all_app cs cs' t :
  accept_all (cs ++ cs') t = (t' ← accept_all cs t; accept_all cs' t').
Proof.
  revert t. induction cs as [|c cs IH]; intros t; simpl; [done|].
  destruct (accept c t); simpl; [apply IH|done].
Qed.

(** The objects and the tags agree, but for a descriptor [fd] on its way to its next
    owner, whose tag is still [from]. *)
Record moving (s : objects) (t : table) (fd from : Z) : Prop := {
  moving_addr a f : s !! a = Some f -> a <> 0;
  moving_fd a f :
    s !! a = Some f -> f = -1 \/ (0 <= f /\ f ∈ opened t /\ owners t !! f = Some a /\ f <> fd);
  moving_tag f a :
    owners t !! f = Some a -> f <> -1 /\ (s !! a = Some f \/ (f = fd /\ a = from));
  moving_open : fd = -1 \/ (0 <= fd /\ fd ∈ opened t /\ owner t fd = from)
}.

Lemma owned_moving s t fd : owned s t -> free fd t -> moving s t fd 0.
Proof.
  intros [Ha Hf Ht] Hfree. split; auto.
  - intros a f Hs. destruct (Hf a f Hs) as [->|(? & ? & Hl)]; [auto|right]. split_and!; auto.
    intros ->. apply owner_lookup in Hl as Ho. destruct Hfree as [->|(_ & _ & Hz)]; [lia|].
    by apply (Ha _ _ Hs); rewrite <-Ho.
  - intros f a Hl. destruct (Ht _ _ Hl). auto.
Qed.

(** The object that is reset gives up what it holds, and takes what is moving. *)
Lemma reset_from_owned s t this f0 fd from :
  moving s t fd from -> s !! this = Some f0 ->
  exists e, reset_from this fd from s = Some e /\ e_objects e = <[this := fd]> s /\
    exists t', accept_all (e_calls e) t = Some t' /\ owned (e_objects e) t' /\
      opened t ∖ {[f0]} ⊆ opened t' /\
      (forall f, f <> f0 -> f <> fd -> owner t' f = owner t f).
Proof.
  intros [Ha Hf Ht Ho] Hthis. unfold reset_from. rewrite Hthis. eexists. split; [done|].
  split; [done|]. cbn [e_calls e_objects app accept_all accept mbind option_bind].
  rewrite !accept_all_app.
  assert (exists t1, accept_all (if negb (f0 =? -1) then close_ f0 this else []) t = Some t1 /\
    (forall f, f <> f0 -> owners t1 !! f = owners t !! f) /\
    (forall a, owners t1 !! f0 <> Some a) /\
    opened t ∖ {[f0]} ⊆ opened t1) as (t1 & -> & Hkeep & Hgone & Hopen).
  { destruct (Hf _ _ Hthis) as [->|(? & ? & Hl & ?)].
    - exists t. split_and!; try done; [|set_solver]. intros a Hl. by destruct (Ht _ _ Hl).
    - rewrite (proj2 (Z.eqb_neq f0 (-1))) by lia. simpl. apply owner_lookup in Hl.
      rewrite decide_True by done. exists (shut f0 t). split_and!; try done; simpl.
      + intros f Hne. by rewrite lookup_delete_ne.
      + intros a. by rewrite lookup_delete_eq. }
  cbn [mbind option_bind].
  assert (fd <> -1 -> fd <> f0) as Hfd0.
  { intros Hne ->. destruct (Hf _ _ Hthis) as [?|(_ & _ & _ & ?)]; [lia|done]. }
  assert (exists t2, accept_all (if negb (fd =? -1) then tag fd from this else []) t1 = Some t2 /\
    (forall f, f <> fd -> owners t2 !! f = owners t1 !! f) /\
    (if decide (fd = -1) then t2 = t1 else owners t2 !! fd = Some this) /\
    opened t2 = opened t1) as (t2 & Hacc & Hkeep2 & Hnew & Hopen2).
  { destruct (Z.eqb_spec fd (-1)) as [->|Hne]; [by exists t1|]. simpl.
    destruct Ho as [?|(? & ? & Hown)]; [lia|]. rewrite (proj2 (Z.ltb_ge fd 0)) by lia.
    assert (owner t1 fd = from) as ->.
    { unfold owner. rewrite Hkeep by auto. exact Hown. }
    rewrite Z.eqb_refl. exists (set_owner fd this t1). split; [done|]. unfold set_owner. simpl.
    rewrite (proj2 (Z.eqb_neq this 0)) by (by eapply Ha).
    rewrite decide_False by done.
    split_and!; [|by rewrite lookup_insert_eq|done]. intros f Hf'. by rewrite lookup_insert_ne. }
  rewrite accept_all_app, Hacc. cbn [mbind option_bind accept_all accept]. exists t2. split; [done|].
  split; [split|split; [rewrite Hopen2; exact Hopen|]].
  - intros a f [[<- <-]|[? Hs]]%lookup_insert_Some; eauto.
  - intros a f [[<- <-]|[Hne Hs]]%lookup_insert_Some.
    + destruct (decide (fd = -1)) as [|Hfd]; [by left|right].
      destruct Ho as [?|(? & ? & _)]; [lia|]. rewrite Hopen2. split_and!; [done| |done].
      apply Hopen. specialize (Hfd0 Hfd). set_solver.
    + destruct (Hf a f Hs) as [|(? & Hin & Hl & Hff)]; [by left|right].
      assert (f <> f0) as Hff0.
      { intros ->. destruct (Hf _ _ Hthis) as [|(_ & _ & Hl' & _)]; [lia|]. congruence. }
      rewrite Hopen2, Hkeep2, Hkeep by done. split_and!; try done. apply Hopen. set_solver.
  - intros f a Hl. destruct (decide (f = fd)) as [->|Hne].
    + destruct (decide (fd = -1)) as [->|Hfd].
      * exfalso. subst t2. destruct (decide (-1 = f0)) as [<-|Hne0]; [by apply (Hgone a)|].
        rewrite Hkeep in Hl by done. by destruct (Ht _ _ Hl).
      * rewrite Hnew in Hl. injection Hl as <-. by rewrite lookup_insert_eq.
    + rewrite Hkeep2 in Hl by done.
      assert (f <> f0) as Hff0 by (intros ->; by apply (Hgone a)).
      rewrite Hkeep in Hl by done. destruct (Ht _ _ Hl) as [? [Hs|[-> _]]]; [|done].
      split; [|done]. rewrite lookup_insert_ne; [done|]. congruence.
  - intros f Hne0 Hne. unfold owner. by rewrite Hkeep2, Hkeep.
Qed.

(** ** The operations *)

(** An operation is accepted and keeps objects and tags in agreement. *)
Definition fine (r : option effect) (t : table) (Q : objects -> table -> Prop) : Prop :=
  exists e, r = Some e /\
    exists t', accept_all (e_calls e) t = Some t' /\ owned (e_objects e) t' /\ Q (e_objects e) t'.

Lemma fine_mono r t (Q Q' : objects -> table -> Prop) :
  fine r t Q -> (forall s t, Q s t -> Q' s t) -> fine r t Q'.
Proof. intros (e & -> & t' & ? & ? & ?) HQ. exists e. split; [done|]. exists t'. auto. Qed.

Lemma reset_fine s t this f0 fd :
  owned s t -> s !! this = Some f0 -> free fd t ->
  fine (reset this fd s) t (fun s' t' =>
    s' = <[this := fd]> s /\ opened t ∖ {[f0]} ⊆ opened t' /\
    (forall f, f <> f0 -> f <> fd -> owner t' f = owner t f)).
Proof.
  intros Hs Hthis Hfree.
  destruct (reset_from_owned s t this f0 fd 0 (owned_moving _ _ _ Hs Hfree) Hthis)
    as (e & He & Ho & t' & Hacc & Hown & Hrest).
  exists e. split; [done|]. by exists t'.
Qed.

Lemma owned_insert_fresh s t this : owned s t -> fresh this s -> owned (<[this := -1]> s) t.
Proof.
  intros [Ha Hf Ht] [H0 Hnone]. split.
  - intros a f [[<- _]|[_ Hs]]%lookup_insert_Some; eauto.
  - intros a f [[_ <-]|[_ Hs]]%lookup_insert_Some; eauto.
  - intros f a Hl. destruct (Ht _ _ Hl) as [Hs Hne]. split; [|done].
    rewrite lookup_insert_ne; [done|]. congruence.
Qed.

Lemma owned_delete s t this : owned s t -> s !! this = Some (-1) -> owned (delete this s) t.
Proof.
  intros [Ha Hf Ht] Hthis. split.
  - intros a f [_ Hs]%lookup_delete_Some. eauto.
  - intros a f [_ Hs]%lookup_delete_Some. eauto.
  - intros f a Hl. destruct (Ht _ _ Hl) as [Hs Hne]. split; [|done].
    rewrite lookup_delete_ne; [done|]. congruence.
Qed.

Lemma owned_shut s t f : owned s t -> owner t f = 0 -> owned s (shut f t).
Proof.
  intros [Ha Hf Ht] Hz. split; [done| |].
  - intros a f' Hs. destruct (Hf _ _ Hs) as [|(? & ? & Hl)]; [by left|right].
    assert (f' <> f).
    { intros ->. apply owner_lookup in Hl. apply (Ha _ _ Hs). congruence. }
    simpl. rewrite lookup_delete_ne by done. split_and!; [done|set_solver|done].
  - intros f' a Hl. simpl in Hl. apply lookup_delete_Some in Hl as [_ Hl]. eauto.
Qed.

Lemma release_fine s t this f :
  owned s t -> s !! this = Some f ->
  release this s = Some (Effect (tag f this 0) (<[this := -1]> s) f) /\
  exists t', accept_all (tag f this 0) t = Some t' /\ owned (<[this := -1]> s) t' /\ free f t'.
Proof.
  intros Hown Hthis. unfold release. rewrite Hthis. split; [done|].
  destruct Hown as [Ha Hf Ht]. destruct (Hf _ _ Hthis) as [->|(Hpos & Hin & Hl)].
  - exists t. split; [done|]. rewrite insert_id by done. split; [by split|by left].
  - simpl. apply owner_lookup in Hl as Ho. rewrite Ho, Z.eqb_refl.
    rewrite (proj2 (Z.ltb_ge f 0)) by done. eexists. split; [done|].
    split; [|right; unfold owner, set_owner; simpl; by rewrite lookup_delete_eq].
    split; simpl.
    + intros a f' [[<- _]|[_ Hs]]%lookup_insert_Some; eauto.
    + intros a f' [[_ <-]|[Hne Hs]]%lookup_insert_Some; [by left|].
      destruct (Hf _ _ Hs) as [|(? & ? & Hl')]; [by left|right]. split_and!; try done.
      rewrite lookup_delete_ne; [done|]. congruence.
    + intros f' a [Hne Hl']%lookup_delete_Some. destruct (Ht _ _ Hl') as [Hs ?]. split; [|done].
      rewrite lookup_insert_ne; [done|]. congruence.
Qed.

Lemma moving_from s t other fd :
  owned s t -> s !! other = Some fd -> moving (<[other := -1]> s) t fd other.
Proof.
  intros [Ha Hf Ht] Hother. split.
  - intros a f [[<- _]|[_ Hs]]%lookup_insert_Some; eauto.
  - intros a f [[_ <-]|[Hne Hs]]%lookup_insert_Some; [by left|].
    destruct (Hf _ _ Hs) as [|(? & ? & Hl)]; [by left|right]. split_and!; try done.
    intros ->. destruct (Hf _ _ Hother) as [|(_ & _ & Hl')]; [lia|]. congruence.
  - intros f a Hl. destruct (Ht _ _ Hl) as [Hs ?]. split; [done|].
    destruct (decide (a = other)) as [->|]; [right; split; congruence|left].
    by rewrite lookup_insert_ne.
  - destruct (Hf _ _ Hother) as [|(? & ? & Hl)]; [by left|right]. by rewrite (owner_lookup _ _ _ Hl).
Qed.

Lemma allowed_fine o s t :
  owned s t -> allowed o s t -> fine (run_op o s) t (fun _ _ => True).
Proof.
  intros Hs. destruct o as [this fd|this|this other|this other|this fd|this|p0 p1 fd0 fd1|this made];
    cbn [allowed run_op].
  - intros [Hfr Hfree]. eapply fine_mono; [|done].
    apply (reset_fine _ t this (-1)); [by apply owned_insert_fresh|apply lookup_insert_eq|done].
  - intros [f0 Hthis]. unfold destroy.
    destruct (reset_fine s t this f0 (-1) Hs Hthis) as (e & -> & t' & Hacc & Hown & Ho & _);
      [by left|].
    eexists. split; [done|]. exists t'. split; [done|]. split; [|done]. cbn [e_objects].
    apply owned_delete; [done|]. by rewrite Ho, lookup_insert_eq.
  - intros [Hfr [f Hother]]. unfold move_construct.
    assert (this <> other) as Hne by (intros ->; destruct Hfr; congruence).
    destruct (release_fine (<[this := -1]> s) t other f) as (-> & t1 & Hacc1 & Hown1 & Hfree1);
      [by apply owned_insert_fresh|by rewrite lookup_insert_ne|]. cbn [mbind option_bind e_value e_objects e_calls].
    destruct (reset_fine _ t1 this (-1) f Hown1) as (e & -> & t2 & Hacc2 & Hown2 & _); [|done|].
    { rewrite lookup_insert_ne by done. apply lookup_insert_eq. }
    eexists. split; [done|]. exists t2. cbn [e_calls e_objects]. by rewrite accept_all_app, Hacc1.
  - intros [[f0 Hthis] [fd Hother]]. unfold move_assign. rewrite Hother. cbn [mbind option_bind].
    assert (exists f1, (<[other := -1]> s : objects) !! this = Some f1) as [f1 Hf1].
    { destruct (decide (other = this)) as [->|]; [exists (-1); apply lookup_insert_eq|].
      exists f0. by rewrite lookup_insert_ne. }
    destruct (reset_from_owned _ t this f1 fd other (moving_from _ _ _ _ Hs Hother) Hf1)
      as (e & -> & _ & t' & Hacc & Hown & _).
    exists e. split; [done|]. by exists t'.
  - intros [[f0 Hthis] Hfree]. eapply fine_mono; [by eapply reset_fine|done].
  - intros [f Hthis]. destruct (release_fine s t this f Hs Hthis) as (-> & t' & Hacc & Hown & _).
    eexists. split; [done|]. by exists t'.
  - intros ([f0 H0] & [f1 H1] & Hfr0 & Hfr1 & Hn0 & Hn1 & Hne & Hp). unfold adopt_pair.
    destruct (reset_fine s t p0 f0 fd0 Hs H0 Hfr0) as (e & -> & t1 & Hacc1 & Hown1 & Ho & Hop & Hk).
    cbn [mbind option_bind].
    assert (fd1 <> f0) as Hf0.
    { intros ->. destruct Hfr1 as [?|(_ & _ & Hz)]; [done|].
      destruct (owned_fd _ _ Hs _ _ H0) as [?|(_ & _ & Hl)]; [done|].
      apply (owned_addr _ _ Hs _ _ H0). apply owner_lookup in Hl. congruence. }
    destruct (reset_fine (e_objects e) t1 p1 f1 fd1 Hown1) as (e' & -> & t2 & Hacc2 & Hown2 & _).
    { by rewrite Ho, lookup_insert_ne. }
    { destruct Hfr1 as [?|(? & ? & Hz)]; [done|right]. split_and!; [done| |].
      - apply Hop. set_solver.
      - by rewrite Hk by done. }
    eexists. split; [done|]. exists t2. cbn [e_calls e_objects]. by rewrite accept_all_app, Hacc1.
  - intros (f & Hthis & Hne). unfold fd_open.
    destruct (release_fine s t this f Hs Hthis) as (-> & t1 & Hacc & Hown & Hfree).
    cbn [mbind option_bind e_calls e_objects e_value].
    eexists. split; [done|]. cbn [e_calls e_objects]. rewrite accept_all_app, Hacc.
    cbn [mbind option_bind]. destruct made; [by exists t1|].
    destruct Hfree as [?|(? & Hin & Hz)]; [done|]. simpl. rewrite decide_True by done.
    eexists. split; [done|]. split; [by apply owned_shut|done].
Qed.

Lemma reachable_owned s t : reachable s t -> owned s t.
Proof.
  induction 1 as [t Ht|s t fd Hr IH Hpos Hfd|s t o e t' Hr IH Hal Hrun Hacc].
  - split; [intros a f Hl|intros a f Hl|intros f a Hl].
    + by rewrite lookup_empty in Hl.
    + by rewrite lookup_empty in Hl.
    + by rewrite Ht, lookup_empty in Hl.
  - destruct IH as [Ha Hf Ht]. split; simpl; [done| |done].
    intros a f Hl. destruct (Hf _ _ Hl) as [|(? & ? & ?)]; [by left|right].
    split_and!; [done|set_solver|done].
  - destruct (allowed_fine o s t IH Hal) as (e' & He & t'' & Ht'' & Hown & _). congruence.
Qed.

(** C32: used as it is meant to be, the class never closes or claims a descriptor that is
    not its own, whatever is moved where and also when an object is moved to itself; a
    descriptor has at most one owner, is open while it has one, and a tag is left behind
    by no operation. *)
Theorem unique_fd_ownership (s : objects) (t : table) :
  reachable s t ->
  (forall o, allowed o s t ->
     exists e t', run_op o s = Some e /\ accept_all (e_calls e) t = Some t') /\
  (forall a b fd, s !! a = Some fd -> s !! b = Some fd -> fd <> -1 ->
     a = b /\ fd ∈ opened t /\ owner t fd = a) /\
  (forall fd, owner t fd <> 0 -> s !! owner t fd = Some fd).
Proof.
  intros Hr%reachable_owned. split_and!.
  - intros o Hal. destruct (allowed_fine o s t Hr Hal) as (e & He & t' & Ht' & _). by exists e, t'.
  - intros a b fd Ha Hb Hne. destruct (owned_fd _ _ Hr _ _ Ha) as [?|(_ & Hin & Hla)]; [done|].
    destruct (owned_fd _ _ Hr _ _ Hb) as [?|(_ & _ & Hlb)]; [done|].
    split_and!; [congruence|done|by apply owner_lookup].
  - intros fd Ho. by apply (owned_tag _ _ Hr), owner_Some.
Qed.

Module FdSample.

Definition start : table := Table ∅ ∅.
Definition with5 : table := Table ({[5]} ∪ ∅) ∅.
Definition held : objects := <[100 := 5]> (<[100 := -1]> ∅).
Definition tagged : table := Table ({[5]} ∪ ∅) (<[5 := 100]> ∅).

Example self_move_keeps :
  move_assign 100 100 held =
  Some (Effect [SaveErrno; ExchangeTag 5 100 100; RestoreErrno] (<[100 := 5]> (<[100 := -1]> held)) 5).
Proof. vm_compute. reflexivity. Qed.

(** Adopting the descriptor an object already holds closes it first: no call is refused,
    but the object ends up with a closed descriptor, which is why [allowed] asks for a
    free one. *)
Example reset_to_own_closes :
  (e ← reset 100 5 held; t ← accept_all (e_calls e) tagged;
   Some (e_objects e !! 100, bool_decide (5 ∈ opened t))) = Some (Some 5, false).
Proof. vm_compute. reflexivity. Qed.

Lemma held_reachable : reachable held tagged.
Proof.
  apply (reach_op ∅ with5 (Construct 100 5)
    (Effect [SaveErrno; ExchangeTag 5 0 100; RestoreErrno] held 5)).
  - apply (reach_opened ∅ start 5); [by apply reach_start|lia|set_solver].
  - split; [by split|]. right. split_and!; [lia|set_solver|done].
  - vm_compute. reflexivity.
  - vm_compute. reflexivity.
Qed.
End FdSample.

Lemma unique_fd_ownership_witness :
  reachable FdSample.held FdSample.tagged /\
  exists e t', run_op (MoveAssign 100 100) FdSample.held = Some e /\
               accept_all (e_calls e) FdSample.tagged = Some t'.
Proof.
  split; [exact FdSample.held_reachable|].
  apply (unique_fd_ownership FdSample.held FdSample.tagged FdSample.held_reachable).
  split; exists 5; reflexivity.
Defined.
