(* ===== verification/KeyModes.v ===== *)
(** * Modes and routes (config/Config.kt, interceptors/*.kt)

    What the module does for an app follows from the mode of its packages in
    [target.txt]: this file has the parser of that file, the questions [PkgConfig] answers
    about a uid, and the pure decisions taken on those answers: [GenerateKeyRoute],
    [GetKeyEntryPostPolicy], [GetKeyEntryCurrentModeAuthority], [TrustClassMapping] and
    [TeeProbeClassifier].  A Kotlin string is the list of its UTF-16 code units. *)

From S2P Require Import Prelude.
Local Open Scope Z_scope.

Abbreviation kstring := (list Z).

(** ** Strings of the Kotlin library *)

(** [Char.isWhitespace] *)
Definition isWhitespace (c : Z) : bool :=
  ((9 <=? c) && (c <=? 13)) || ((28 <=? c) && (c <=? 32)) || (c =? 160) || (c =? 5760) ||
  ((8192 <=? c) && (c <=? 8202)) || (c =? 8232) || (c =? 8233) || (c =? 8239) ||
  (c =? 8287) || (c =? 12288).

Fixpoint trimStart (s : kstring) : kstring :=
  match s with
  | c :: s' => if isWhitespace c then trimStart s' else s
  | [] => []
  end.

Definition trimEnd (s : kstring) : kstring := reverse (trimStart (reverse s)).
Definition trim (s : kstring) : kstring := trimEnd (trimStart s).
Definition isNotBlank (s : kstring) : bool := existsb (fun c => negb (isWhitespace c)) s.

Definition startsWith (s : kstring) (c : Z) : bool := bool_decide (head s = Some c).
Definition endsWith (s : kstring) (c : Z) : bool := bool_decide (last s = Some c).

(** [removeSuffix] of a one-character string *)
Definition removeSuffix (s : kstring) (c : Z) : kstring :=
  if endsWith s c then reverse (tail (reverse s)) else s.

Definition LF : Z := 10.
Definition CR : Z := 13.
Definition HASH : Z := 35.
Definition BANG : Z := 33.
Definition QUESTION : Z := 63.

(** [File.readLines]: lines end with LF, CR or CR LF, the last one also with the text.
    [cur] is the line read so far, reversed. *)
Fixpoint read_lines (cur : kstring) (text : kstring) : list kstring :=
  match text with
  | [] => match cur with [] => [] | _ => [reverse cur] end
  | c :: rest =>
      if c =? LF then reverse cur :: read_lines [] rest
      else if c =? CR then
        match rest with
        | d :: rest' => if d =? LF then reverse cur :: read_lines [] rest'
                        else reverse cur :: read_lines [] rest
        | [] => [reverse cur]
        end
      else read_lines (c :: cur) rest
  end.

Definition readLines (text : kstring) : list kstring := read_lines [] text.

(** ** The state of the TEE probe, as the modes use it *)

Module TeeProbeClassifier.
(** AUTO never acquires synthetic intent from [teeBroken] alone. *)
Definition autoGenerateAllowed (teeBroken : option bool) : bool := false.
(** AUTO keeps real-keystore interception regardless of it. *)
Definition autoLeafHackAllowed (teeBroken : option bool) : bool := true.
End TeeProbeClassifier.

Inductive TeeState := UNKNOWN | WORKING | BROKEN.

#[export] Instance TeeState_eq_dec : EqDecision TeeState.
Proof. solve_decision. Defined.

(** ** PkgConfig *)

Module PkgConfig.

Inductive Mode := AUTO | LEAF_HACK | GENERATE.

#[export] Instance Mode_eq_dec : EqDecision Mode.
Proof. solve_decision. Defined.

Record t := Make {
  packageModes : gmap kstring Mode;
  uidPackages : gmap Z (list kstring);
  teeBroken : option bool
}.

(** One line of [target.txt]. *)
Definition add_line (modes : gmap kstring Mode) (line : kstring) : gmap kstring Mode :=
  if isNotBlank line && negb (startsWith line HASH) then
    let n := trim line in
    if endsWith n BANG then <[trim (removeSuffix n BANG) := GENERATE]> modes
    else if endsWith n QUESTION then <[trim (removeSuffix n QUESTION) := LEAF_HACK]> modes
    else <[n := AUTO]> modes
  else modes.

Definition parse_targets (text : option kstring) : gmap kstring Mode :=
  match text with
  | Some text => foldl add_line ∅ (readLines text)
  | None => ∅
  end.

(** A file that is gone empties the map. *)
Definition updateTargetPackages (text : option kstring) (st : t) : t :=
  Make (parse_targets text) (uidPackages st) (teeBroken st).

(** [persistTeeBroken] and [storeTEEStatus], given [AttestUtils.getState()] *)
Definition storeTEEStatus (state : TeeState) (st : t) : t :=
  match state with
  | UNKNOWN => st
  | WORKING => Make (packageModes st) (uidPackages st) (Some false)
  | BROKEN => Make (packageModes st) (uidPackages st) (Some true)
  end.

(** The platform a question is asked on: the package manager, which may be gone, and the
    state of the TEE probe. *)
Record platform := {
  getPackagesForUid : Z -> option (list kstring);
  getState : TeeState
}.

(** [uidPackages.getOrPut]: what the package manager does not know is not cached. *)
Definition packages_of (pf : platform) (uid : Z) (st : t) : option (list kstring) * t :=
  match uidPackages st !! uid with
  | Some ps => (Some ps, st)
  | None =>
      match getPackagesForUid pf uid with
      | Some ps => (Some ps, Make (packageModes st) (<[uid := ps]> (uidPackages st)) (teeBroken st))
      | None => (None, st)
      end
  end.

Fixpoint any_need (modes : gmap kstring Mode) (targetMode : Mode) (autoPredicate : bool)
    (ps : list kstring) : bool :=
  match ps with
  | [] => false
  | pkg :: ps =>
      match modes !! pkg with
      | Some m =>
          if decide (m = targetMode) then true
          else if decide (m = AUTO) then
            if autoPredicate then true else any_need modes targetMode autoPredicate ps
          else any_need modes targetMode autoPredicate ps
      | None => any_need modes targetMode autoPredicate ps
      end
  end.

Definition checkNeed (pf : platform) (callingUid : Z) (targetMode : Mode) (autoPredicate : bool)
    (st : t) : bool * t :=
  let '(ps, st) := packages_of pf callingUid st in
  match ps with
  | None => (false, st)
  | Some ps =>
      let st := match teeBroken st with None => storeTEEStatus (getState pf) st | Some _ => st end in
      (any_need (packageModes st) targetMode autoPredicate ps, st)
  end.

Definition needHack (pf : platform) (callingUid : Z) (st : t) : bool * t :=
  checkNeed pf callingUid LEAF_HACK (TeeProbeClassifier.autoLeafHackAllowed (teeBroken st)) st.

Definition needGenerate (pf : platform) (callingUid : Z) (st : t) : bool * t :=
  checkNeed pf callingUid GENERATE (TeeProbeClassifier.autoGenerateAllowed (teeBroken st)) st.

(** These look only at packages that are already resolved. *)
Definition hasTargetMode (callingUid : Z) (mode : Mode) (st : t) : bool :=
  match uidPackages st !! callingUid with
  | None => false
  | Some ps => existsb (fun p => bool_decide (packageModes st !! p = Some mode)) ps
  end.

Definition isExplicitLeafHack (callingUid : Z) (st : t) : bool :=
  hasTargetMode callingUid LEAF_HACK st.

Definition isExplicitGenerate (callingUid : Z) (st : t) : bool :=
  hasTargetMode callingUid GENERATE st.

Definition isPlainAuto (callingUid : Z) (st : t) : bool :=
  if isExplicitGenerate callingUid st || isExplicitLeafHack callingUid st then false
  else hasTargetMode callingUid AUTO st.

(** [packageManagerDeathRecipient.binderDied] *)
Definition binderDied (st : t) : t := Make (packageModes st) ∅ (teeBroken st).
End PkgConfig.

(** ** GenerateKeyRoute *)

Module GenerateKeyRoute.
Inductive route := GENERATE | LEAF_FORWARD | LEAF_FORWARD_ATTESTATION | PASSTHROUGH_REAL_TEE | SKIP.

#[export] Instance route_eq_dec : EqDecision route.
Proof. solve_decision. Defined.

Definition computeForceForge (needGenerate hasDeviceIdAttestation hasAttestKeyPurpose
    attestationKeyDescriptorSet : bool) : bool := needGenerate.

Definition selectTopLevelRoute (forceForge needHack explicitLeafHack hasAttestationChallenge
    needGenerate : bool) : route :=
  if forceForge then GENERATE
  else if needHack then
    if explicitLeafHack then
      if hasAttestationChallenge then LEAF_FORWARD_ATTESTATION else LEAF_FORWARD
    else if negb needGenerate then PASSTHROUGH_REAL_TEE
    else SKIP
  else SKIP.

Definition isPassthroughRoute (r : route) : bool := bool_decide (r = PASSTHROUGH_REAL_TEE).

Definition requiresCertificateMutation (r : route) : bool :=
  bool_decide (r = LEAF_FORWARD) || bool_decide (r = LEAF_FORWARD_ATTESTATION) ||
  bool_decide (r = GENERATE).
End GenerateKeyRoute.

(** ** GetKeyEntryPostPolicy *)

Module GetKeyEntryPostPolicy.
Inductive Action := PASSTHROUGH_UNMODIFIED | SERVE_CACHED_PATCH | PATCH_LEAF.

#[export] Instance Action_eq_dec : EqDecision Action.
Proof. solve_decision. Defined.

Record PostHookInput := {
  isPassthroughTracked : bool;
  hasCachedPatch : bool;
  hasGeneratedOwner : bool;
  explicitLeafHack : bool;
  autoPreserveUntrackedReal : bool;
  plainAutoMode : bool
}.

Definition decide (input : PostHookInput) : Action :=
  if isPassthroughTracked input then PASSTHROUGH_UNMODIFIED
  else if plainAutoMode input then PASSTHROUGH_UNMODIFIED
  else if hasCachedPatch input || hasGeneratedOwner input then SERVE_CACHED_PATCH
  else if explicitLeafHack input then PATCH_LEAF
  else if autoPreserveUntrackedReal input then PASSTHROUGH_UNMODIFIED
  else PATCH_LEAF.
End GetKeyEntryPostPolicy.

(** ** GetKeyEntryCurrentModeAuthority: the decisions *)

Module GetKeyEntryCurrentModeAuthority.
Definition shouldForwardRealKeystore (plainAutoMode : bool) : bool := plainAutoMode.
Definition shouldServeHistoricalOwner (plainAutoMode hasGeneratedOwner hasCachedPatch : bool) : bool :=
  negb plainAutoMode && (hasGeneratedOwner || hasCachedPatch).
Definition shouldServeGrantCachedResponse (plainAutoGrantee : bool) : bool := negb plainAutoGrantee.
End GetKeyEntryCurrentModeAuthority.

(** ** TrustClassMapping: the class of each label *)

Inductive AttestationTrustClass :=
| HARDWARE_PASSTHROUGH
| REAL_KEYSTORE_UNMODIFIED
| SOFTWARE_SYNTHETIC
| HYBRID_RE_SIGNED
| UNINTERCEPTED.

#[export] Instance AttestationTrustClass_eq_dec : EqDecision AttestationTrustClass.
Proof. solve_decision. Defined.

Module TrustClassMapping.
Import GenerateKeyRoute.

Definition forGenerateKeyRoute (selected : route) (forceForge explicitLeafHack : bool)
    (teeBroken : option bool) : AttestationTrustClass :=
  if forceForge || bool_decide (selected = GENERATE) then SOFTWARE_SYNTHETIC
  else if explicitLeafHack || bool_decide (selected = LEAF_FORWARD) ||
          bool_decide (selected = LEAF_FORWARD_ATTESTATION) then HYBRID_RE_SIGNED
  else if bool_decide (selected = PASSTHROUGH_REAL_TEE) then
    if decide (teeBroken = Some true) then REAL_KEYSTORE_UNMODIFIED else HARDWARE_PASSTHROUGH
  else UNINTERCEPTED.

Definition forGetKeyEntryPostAction (action : GetKeyEntryPostPolicy.Action)
    (isPassthroughTracked hasGeneratedOwner : bool) : AttestationTrustClass :=
  match action with
  | GetKeyEntryPostPolicy.PASSTHROUGH_UNMODIFIED =>
      if isPassthroughTracked then HARDWARE_PASSTHROUGH else REAL_KEYSTORE_UNMODIFIED
  | GetKeyEntryPostPolicy.SERVE_CACHED_PATCH =>
      if hasGeneratedOwner then SOFTWARE_SYNTHETIC else HYBRID_RE_SIGNED
  | GetKeyEntryPostPolicy.PATCH_LEAF => HYBRID_RE_SIGNED
  end.
End TrustClassMapping.

(** ** What a plain AUTO uid is answered *)

Section plain_auto.
Variable pf : PkgConfig.platform.

Lemma any_need_spec modes m p ps :
  PkgConfig.any_need modes m p ps = true <->
  exists pkg, pkg ∈ ps /\
    (modes !! pkg = Some m \/ (modes !! pkg = Some PkgConfig.AUTO /\ p = true)).
Proof.
  induction ps as [|q ps IH]; simpl.
  - split; [done|]. intros (? & []%not_elem_of_nil & _).
  - setoid_rewrite elem_of_cons. destruct (modes !! q) as [m'|] eqn:Hq.
    + destruct (decide (m' = m)) as [->|Hm]; [naive_solver|].
      destruct (decide (m' = PkgConfig.AUTO)) as [->|Ha]; [destruct p; naive_solver|].
      rewrite IH. naive_solver.
    + rewrite IH. naive_solver.
Qed.

Lemma hasTargetMode_spec uid m c ps :
  PkgConfig.uidPackages c !! uid = Some ps ->
  PkgConfig.hasTargetMode uid m c = true <->
  exists pkg, pkg ∈ ps /\ PkgConfig.packageModes c !! pkg = Some m.
Proof.
  intros Hps. unfold PkgConfig.hasTargetMode. rewrite Hps, existsb_exists.
  setoid_rewrite bool_decide_eq_true. by setoid_rewrite <-list_elem_of_In.
Qed.

(** The two configurations differ at most in the state of the TEE. *)
Definition same_modes (c c' : PkgConfig.t) : Prop :=
  PkgConfig.packageModes c = PkgConfig.packageModes c' /\
  PkgConfig.uidPackages c = PkgConfig.uidPackages c'.

Lemma same_modes_plain uid c c' :
  same_modes c c' -> PkgConfig.isPlainAuto uid c = PkgConfig.isPlainAuto uid c'.
Proof.
  intros [H1 H2]. unfold PkgConfig.isPlainAuto, PkgConfig.isExplicitGenerate,
    PkgConfig.isExplicitLeafHack, PkgConfig.hasTargetMode. by rewrite H1, H2.
Qed.

Lemma checkNeed_resolved uid m p c ps :
  PkgConfig.uidPackages c !! uid = Some ps ->
  exists c', PkgConfig.checkNeed pf uid m p c = (PkgConfig.any_need (PkgConfig.packageModes c) m p ps, c') /\
    same_modes c c'.
Proof.
  intros Hps. unfold PkgConfig.checkNeed, PkgConfig.packages_of. rewrite Hps.
  unfold same_modes, PkgConfig.storeTEEStatus.
  destruct (PkgConfig.teeBroken c); [eauto|]. destruct (PkgConfig.getState pf); simpl; eauto.
Qed.

Lemma plain_auto_resolved uid c :
  PkgConfig.isPlainAuto uid c = true ->
  exists ps, PkgConfig.uidPackages c !! uid = Some ps /\
    PkgConfig.isExplicitGenerate uid c = false /\ PkgConfig.isExplicitLeafHack uid c = false /\
    PkgConfig.hasTargetMode uid PkgConfig.AUTO c = true.
Proof.
  unfold PkgConfig.isPlainAuto. intros H.
  destruct (PkgConfig.isExplicitGenerate uid c || PkgConfig.isExplicitLeafHack uid c) eqn:E; [done|].
  apply orb_false_iff in E as [E1 E2].
  unfold PkgConfig.hasTargetMode in H |- *.
  destruct (PkgConfig.uidPackages c !! uid) as [ps|] eqn:Hps; [|done]. eauto.
Qed.

(** AUTO alone never asks for synthesis, whatever the TEE. *)
Lemma plain_auto_needGenerate uid c :
  PkgConfig.isPlainAuto uid c = true ->
  exists c', PkgConfig.needGenerate pf uid c = (false, c') /\ same_modes c c'.
Proof.
  intros (ps & Hps & HG & _ & _)%plain_auto_resolved.
  unfold PkgConfig.needGenerate, TeeProbeClassifier.autoGenerateAllowed.
  destruct (checkNeed_resolved uid PkgConfig.GENERATE false c ps Hps) as (c' & -> & Hc).
  exists c'. split; [f_equal|done]. apply not_true_is_false.
  intros (pkg & Hin & [Hm|[_ ?]])%any_need_spec; [|done].
  apply not_true_iff_false in HG. apply HG, (hasTargetMode_spec _ _ _ ps Hps). eauto.
Qed.

Lemma plain_auto_needHack uid c :
  PkgConfig.isPlainAuto uid c = true ->
  exists c', PkgConfig.needHack pf uid c = (true, c') /\ same_modes c c'.
Proof.
  intros (ps & Hps & _ & _ & HA)%plain_auto_resolved.
  unfold PkgConfig.needHack, TeeProbeClassifier.autoLeafHackAllowed.
  destruct (checkNeed_resolved uid PkgConfig.LEAF_HACK true c ps Hps) as (c' & -> & Hc).
  exists c'. split; [f_equal|done]. apply any_need_spec.
  apply (hasTargetMode_spec _ _ _ ps Hps) in HA as (pkg & ? & ?). eauto 6.
Qed.
End plain_auto.

(** ** Reading back a list of targets *)

(** One entry as a user writes it: white space around the name and the suffix. *)
Record target_entry := {
  te_before : kstring;
  te_name : kstring;
  te_between : kstring;
  te_mode : PkgConfig.Mode;
  te_after : kstring
}.

Definition suffix_of (m : PkgConfig.Mode) : kstring :=
  match m with
  | PkgConfig.AUTO => []
  | PkgConfig.LEAF_HACK => [QUESTION]
  | PkgConfig.GENERATE => [BANG]
  end.

Definition print_entry (e : target_entry) : kstring :=
  te_before e ++ te_name e ++ te_between e ++ suffix_of (te_mode e) ++ te_after e.

Definition print_targets (es : list target_entry) : kstring := es ≫= (fun e => print_entry e ++ [LF]).

Definition blank (s : kstring) : Prop :=
  Forall (fun c => isWhitespace c = true /\ c <> LF /\ c <> CR) s.

Definition name_ok (s : kstring) : Prop :=
  Forall (fun c => c <> LF /\ c <> CR) s /\
  exists c d, head s = Some c /\ last s = Some d /\
    isWhitespace c = false /\ isWhitespace d = false.

(** The name has no white space at its ends; a name without suffix does not look like one
    with; the line is no comment. *)
Definition entry_ok (e : target_entry) : Prop :=
  blank (te_before e) /\ blank (te_between e) /\ blank (te_after e) /\ name_ok (te_name e) /\
  startsWith (print_entry e) HASH = false /\
  (te_mode e = PkgConfig.AUTO ->
     endsWith (te_name e) BANG = false /\ endsWith (te_name e) QUESTION = false).

Lemma trimStart_blank w s : Forall (fun c => isWhitespace c = true) w -> trimStart (w ++ s) = trimStart s.
Proof. induction 1 as [|c w Hc _ IH]; simpl; [done|]. by rewrite Hc. Qed.

Lemma trimStart_solid s c : head s = Some c -> isWhitespace c = false -> trimStart s = s.
Proof. destruct s; simpl; [done|]. intros [= ->] Hc. by rewrite Hc. Qed.

Lemma trim_around w1 s w2 :
  Forall (fun c => isWhitespace c = true) w1 -> Forall (fun c => isWhitespace c = true) w2 ->
  (exists c d, head s = Some c /\ last s = Some d /\
     isWhitespace c = false /\ isWhitespace d = false) ->
  trim (w1 ++ s ++ w2) = s.
Proof.
  intros H1 H2 (c & d & Hc & Hd & Wc & Wd). unfold trim, trimEnd.
  rewrite trimStart_blank by done.
  rewrite (trimStart_solid (s ++ w2) c) by (done || by destruct s).
  rewrite reverse_app, trimStart_blank by (by apply Forall_reverse).
  rewrite (trimStart_solid _ d), reverse_involutive; [done| |done].
  by rewrite head_reverse.
Qed.

Lemma blank_space s : blank s -> Forall (fun c => isWhitespace c = true) s.
Proof. intros H. eapply Forall_impl; [exact H|]. by intros c [? _]. Qed.

Lemma last_snoc_ends s c : endsWith (s ++ [c]) c = true.
Proof. unfold endsWith. rewrite last_snoc. by apply bool_decide_eq_true. Qed.

Lemma removeSuffix_snoc s c : removeSuffix (s ++ [c]) c = s.
Proof. unfold removeSuffix. rewrite last_snoc_ends, reverse_snoc. simpl. apply reverse_involutive. Qed.

Lemma add_line_entry modes e :
  entry_ok e -> PkgConfig.add_line modes (print_entry e) = <[te_name e := te_mode e]> modes.
Proof.
  intros (Hb & Hm & Ha & [Hn Hends] & Hh & Hauto). unfold PkgConfig.add_line. rewrite Hh.
  apply blank_space in Hb, Hm, Ha.
  assert (Hnb : isNotBlank (print_entry e) = true).
  { destruct Hends as (c & _ & Hc & _ & Wc & _). unfold isNotBlank. apply existsb_exists.
    exists c. rewrite Wc. split; [|done]. apply list_elem_of_In. unfold print_entry.
    destruct (te_name e); simplify_eq/=. rewrite !elem_of_app, elem_of_cons. auto. }
  assert (Hname : trim (te_name e ++ te_between e) = te_name e)
    by (by apply (trim_around [] (te_name e) (te_between e))).
  rewrite Hnb. simpl. unfold print_entry. destruct (te_mode e) eqn:Hmode; simpl suffix_of.
  - rewrite app_nil_l, (app_assoc (te_name e)), <-app_assoc.
    rewrite (trim_around (te_before e) (te_name e) (te_between e ++ te_after e)); [|done| |done].
    + destruct (Hauto eq_refl) as [-> ->]. done.
    + by apply Forall_app.
  - replace (te_before e ++ te_name e ++ te_between e ++ [QUESTION] ++ te_after e)
      with (te_before e ++ ((te_name e ++ te_between e) ++ [QUESTION]) ++ te_after e)
      by (by rewrite <-!app_assoc).
    rewrite trim_around; [|done|done|].
    + replace (endsWith ((te_name e ++ te_between e) ++ [QUESTION]) BANG) with false
        by (unfold endsWith; by rewrite last_snoc).
      rewrite last_snoc_ends, removeSuffix_snoc.
      by rewrite Hname.
    + destruct Hends as (c & d & Hc & _ & Wc & _). exists c, QUESTION.
      rewrite last_snoc. split_and!; try done. by destruct (te_name e).
  - replace (te_before e ++ te_name e ++ te_between e ++ [BANG] ++ te_after e)
      with (te_before e ++ ((te_name e ++ te_between e) ++ [BANG]) ++ te_after e)
      by (by rewrite <-!app_assoc).
    rewrite trim_around; [|done|done|].
    + rewrite last_snoc_ends, removeSuffix_snoc.
      by rewrite Hname.
    + destruct Hends as (c & d & Hc & _ & Wc & _). exists c, BANG.
      rewrite last_snoc. split_and!; try done. by destruct (te_name e).
Qed.

Lemma read_lines_line cur l rest :
  Forall (fun c => c <> LF /\ c <> CR) l ->
  read_lines cur (l ++ LF :: rest) = (reverse cur ++ l) :: read_lines [] rest.
Proof.
  intros Hl. revert cur. induction Hl as [|c l [H1 H2] _ IH]; intros cur; simpl.
  - by rewrite app_nil_r.
  - destruct (Z.eqb_spec c LF); [done|]. destruct (Z.eqb_spec c CR); [done|].
    rewrite IH, reverse_cons, <-app_assoc. done.
Qed.

Lemma print_entry_line e : entry_ok e -> Forall (fun c => c <> LF /\ c <> CR) (print_entry e).
Proof.
  intros (Hb & Hm & Ha & [Hn _] & _ & _).
  assert (Hblank : forall w, blank w -> Forall (fun c => c <> LF /\ c <> CR) w).
  { intros w H. eapply Forall_impl; [exact H|]. by intros c [_ ?]. }
  unfold print_entry. rewrite !Forall_app. split_and!; auto.
  by destruct (te_mode e); repeat constructor.
Qed.

(** A list of targets is read back: whatever white space surrounds the names and
    suffixes, [target.txt] maps each name to the mode of its suffix, the last entry of a
    name deciding. *)
Theorem parse_targets_print (es : list target_entry) :
  Forall entry_ok es ->
  PkgConfig.parse_targets (Some (print_targets es)) =
    foldl (fun modes e => <[te_name e := te_mode e]> modes) ∅ es.
Proof.
  intros Hes. unfold PkgConfig.parse_targets. generalize (∅ : gmap kstring PkgConfig.Mode).
  unfold print_targets, readLines. induction Hes as [|e es He _ IH]; intros modes; [done|].
  rewrite bind_cons, <-app_assoc. simpl. rewrite read_lines_line by (by apply print_entry_line).
  simpl. rewrite add_line_entry by done. apply IH.
Qed.

Lemma parse_targets_print_witness :
  let gms := map (fun c => c) [97; 46; 98] in
  let es := [{| te_before := [32]; te_name := gms; te_between := [9]; te_mode := PkgConfig.GENERATE;
                te_after := [] |};
             {| te_before := []; te_name := [99]; te_between := []; te_mode := PkgConfig.AUTO;
                te_after := [32] |}] in
  PkgConfig.parse_targets (Some [32; 97; 46; 98; 9; 33; 10; 99; 32; 10]) =
    <[[99] := PkgConfig.AUTO]> {[gms := PkgConfig.GENERATE]}.
Proof.
  intros gms es. apply (parse_targets_print es).
  repeat constructor; simpl; try done; eexists _, _; by split_and!.
Defined.
