(* ===== verification/AliasCache.v ===== *)
(** * Ownership of keys (interceptors/CertificateAliasCache.kt, PassthroughKeyRegistry.kt)

    The caches that say which keys the module made itself, which replies of the real
    keystore it has patched, and which keys must keep the real chain.  [KeyEntryResponse] is
    a data class of the platform: its replies are an abstract type with the fields the
    caches look at.  Each operation is one step on the state. *)

From S2P Require Import Prelude KeyModes.
Local Open Scope Z_scope.

(** [CertificateAliasCache.Key] and [PassthroughKeyRegistry.KeyId], which are built from
    each other's fields *)
Record Key := MkKey { k_uid : Z; k_alias : kstring }.

#[export] Instance Key_eq_dec : EqDecision Key.
Proof. solve_decision. Defined.

#[export] Instance Key_countable : Countable Key :=
  inj_countable' (fun k => (k_uid k, k_alias k)) (fun p => MkKey p.1 p.2) ltac:(by intros []).

(** [android.system.keystore2.KeyDescriptor] *)
Record KeyDescriptor := { d_domain : Z; d_nspace : Z; d_alias : option kstring }.

(** [KeyEntryResponse]: [metadata?.key?.nspace], and its certificates replaced *)
Class Response (R : Type) := {
  r_nspace : R -> option Z;
  r_with_chain : R -> option (list Z) -> option (list Z) -> R
}.

Record Info (R : Type) := MkInfo { i_response : R; i_usageCountLimit : Z }.
Arguments MkInfo {R}.
Arguments i_response {R}.
Arguments i_usageCountLimit {R}.

Record GrantInfo := MkGrant {
  g_ownerUid : Z; g_granteeUid : Z; g_key : Key; g_accessVector : Z
}.

(** [tracked] and [byNspace] are the fields of [PassthroughKeyRegistry], [persisted] the
    keys [PersistenceManager] has files of. *)
Record caches (R : Type) := MkCaches {
  keys : gmap Key (Info R);
  keyPairs : gset Key;
  skipLeafHacks : gmap Key bool;
  keysByNspace : gmap Z Key;
  patchedResponses : gmap Key R;
  grants : gmap Z GrantInfo;
  usageRemaining : gmap Key Z;
  tracked : gset Key;
  byNspace : gmap Z Key;
  leafAlgorithms : gset Key;
  persisted : gset Key
}.
Arguments MkCaches {R}.
Arguments keys {R}.
Arguments keyPairs {R}.
Arguments skipLeafHacks {R}.
Arguments keysByNspace {R}.
Arguments patchedResponses {R}.
Arguments grants {R}.
Arguments usageRemaining {R}.
Arguments tracked {R}.
Arguments byNspace {R}.
Arguments leafAlgorithms {R}.
Arguments persisted {R}.

Definition no_caches {R} : caches R := MkCaches ∅ ∅ ∅ ∅ ∅ ∅ ∅ ∅ ∅ ∅ ∅.

(** ** PassthroughKeyRegistry *)

Module PassthroughKeyRegistry.
Section registry.
Context {R : Type}.
Implicit Types (st : caches R).

Definition with_registry (t : gset Key) (n : gmap Z Key) st : caches R :=
  MkCaches (keys st) (keyPairs st) (skipLeafHacks st) (keysByNspace st) (patchedResponses st)
    (grants st) (usageRemaining st) t n (leafAlgorithms st) (persisted st).

Definition promote (uid : Z) (alias : kstring) (nspace : option Z) st : caches R :=
  let id := MkKey uid alias in
  with_registry ({[id]} ∪ tracked st)
    (match nspace with
     | Some n => if n =? 0 then byNspace st else <[n := id]> (byNspace st)
     | None => byNspace st
     end) st.

Definition remove (uid : Z) (alias : kstring) st : caches R :=
  let id := MkKey uid alias in
  with_registry (tracked st ∖ {[id]}) (filter (fun e => e.2 <> id) (byNspace st)) st.

Definition clear st : caches R := with_registry ∅ ∅ st.

Definition isTracked (id : Key) st : bool := bool_decide (id ∈ tracked st).

Definition resolve (uid : Z) (alias : option kstring) (nspace : Z) st : option Key :=
  let by_alias :=
    match alias with
    | Some a => if isTracked (MkKey uid a) st then Some (MkKey uid a) else None
    | None => None
    end in
  if nspace =? 0 then by_alias
  else match byNspace st !! nspace with
       | Some id => if (k_uid id =? uid) && isTracked id st then Some id else by_alias
       | None => by_alias
       end.

Definition isTrackedDescriptor (uid : Z) (d : KeyDescriptor) st : bool :=
  bool_decide (is_Some (resolve uid (d_alias d) (d_nspace d) st)).
End registry.
End PassthroughKeyRegistry.

(** ** CertificateAliasCache *)

Section cache.
Context {R : Type} `{!Response R}.
Implicit Types (st : caches R).

Definition isPassthroughKey (key : Key) st : bool := PassthroughKeyRegistry.isTracked key st.

Definition resolveOwnerKeys (uid : Z) (d : KeyDescriptor) st : list Key :=
  (if d_nspace d =? 0 then []
   else (match keysByNspace st !! d_nspace d with
         | Some k => if k_uid k =? uid then [k] else []
         | None => []
         end) ++
        (match grants st !! d_nspace d with
         | Some g => if g_granteeUid g =? uid then [g_key g] else []
         | None => []
         end)) ++
  (match d_alias d with Some a => [MkKey uid a] | None => [] end).

(** [firstNotNullOfOrNull] *)
Fixpoint first_of {A} (f : Key -> option A) (ks : list Key) : option A :=
  match ks with
  | [] => None
  | k :: ks => match f k with Some a => Some a | None => first_of f ks end
  end.

Definition isPassthroughDescriptor (uid : Z) (d : KeyDescriptor) st : bool :=
  PassthroughKeyRegistry.isTrackedDescriptor uid d st ||
  existsb (fun k => isPassthroughKey k st) (resolveOwnerKeys uid d st).

Definition findAliasForNspace (uid nspace : Z) st : option kstring :=
  match keysByNspace st !! nspace with
  | Some k => if k_uid k =? uid then Some (k_alias k) else None
  | None => None
  end.

Definition findGeneratedKey (uid : Z) (d : KeyDescriptor) st : option (Info R) :=
  first_of (fun k => keys st !! k) (resolveOwnerKeys uid d st).

Definition resolvePatchedResponse (uid : Z) (d : KeyDescriptor) st : option R :=
  first_of (fun k => patchedResponses st !! k) (resolveOwnerKeys uid d st).

Definition isPatchedKey (key : Key) st : bool :=
  bool_decide (is_Some (keys st !! key)) || bool_decide (is_Some (patchedResponses st !! key)).

Definition shouldSkipLeafHackFor (uid : Z) (d : KeyDescriptor) st : bool :=
  default false (first_of (fun k => skipLeafHacks st !! k) (resolveOwnerKeys uid d st)).

Definition resolveKey (uid : Z) (d : KeyDescriptor) st : option Key :=
  let by_alias := MkKey uid <$> d_alias d in
  if d_nspace d =? 0 then by_alias
  else match keysByNspace st !! d_nspace d with
       | Some k => if k_uid k =? uid then Some k else by_alias
       | None => by_alias
       end.

Definition updateKeyCertChain (key : Key) (publicCert certificateChain : option (list Z)) st
  : caches R :=
  MkCaches
    (alter (fun i => MkInfo (r_with_chain (i_response i) publicCert certificateChain)
                       (i_usageCountLimit i)) key (keys st))
    (keyPairs st) (delete key (skipLeafHacks st)) (keysByNspace st)
    (alter (fun r => r_with_chain r publicCert certificateChain) key (patchedResponses st))
    (grants st) (usageRemaining st) (tracked st) (byNspace st) (leafAlgorithms st)
    (persisted st).

Definition clearSyntheticCertificateState (uid : Z) (alias : kstring) (includePersistence : bool)
    st : caches R :=
  let k := MkKey uid alias in
  let byN := match keys st !! k with
             | Some i => match r_nspace (i_response i) with
                         | Some n => delete n (keysByNspace st)
                         | None => keysByNspace st
                         end
             | None => keysByNspace st
             end in
  MkCaches (delete k (keys st)) (keyPairs st ∖ {[k]}) (delete k (skipLeafHacks st))
    (filter (fun e => e.2 <> k) byN) (delete k (patchedResponses st))
    (filter (fun e => g_key e.2 <> k) (grants st)) (delete k (usageRemaining st))
    (tracked st) (byNspace st) (leafAlgorithms st ∖ {[k]})
    (if includePersistence then persisted st ∖ {[k]} else persisted st).

Definition relinquishPassthroughOwnership (uid : Z) (alias : kstring) st : caches R :=
  PassthroughKeyRegistry.remove uid alias st.

Definition invalidateCertificateResponseState (uid : Z) (alias : kstring)
    (removePassthrough : bool) st : caches R :=
  let st := clearSyntheticCertificateState uid alias false st in
  if removePassthrough then relinquishPassthroughOwnership uid alias st else st.

Definition cleanupKey (uid : Z) (alias : kstring) st : caches R :=
  relinquishPassthroughOwnership uid alias (clearSyntheticCertificateState uid alias true st).

(** [leafAlgorithms] is not among what is cleared. *)
Definition cleanupAll st : caches R := MkCaches ∅ ∅ ∅ ∅ ∅ ∅ ∅ ∅ ∅ (leafAlgorithms st) ∅.

(** A file of [PersistenceManager], as [loadPersistedKeys] uses it: [p_response] is the
    metadata stored in it, or what [buildResponse] makes of the rest. *)
Record persisted_key := {
  p_key : Key;
  p_hasPair : bool;
  p_response : R;
  p_usageCountLimit : Z;
  p_nspace : Z;
  p_skipLeafHack : bool
}.

Definition load_one st (f : persisted_key) : caches R :=
  let k := p_key f in
  MkCaches (<[k := MkInfo (p_response f) (p_usageCountLimit f)]> (keys st))
    (if p_hasPair f then {[k]} ∪ keyPairs st else keyPairs st)
    (if p_skipLeafHack f then <[k := true]> (skipLeafHacks st) else skipLeafHacks st)
    (if p_nspace f =? 0 then keysByNspace st else <[p_nspace f := k]> (keysByNspace st))
    (patchedResponses st) (grants st) (usageRemaining st) (tracked st) (byNspace st)
    (leafAlgorithms st) ({[k]} ∪ persisted st).

(** [SecurityLevelInterceptor.loadPersistedKeys] of the levels one after the other *)
Definition loadPersistedKeys (fs : list persisted_key) st : caches R := foldl load_one st fs.

(** [GetKeyEntryCurrentModeAuthority.rejectHistoricalOwners] *)
Definition rejectHistoricalOwners (uid : Z) (d : KeyDescriptor) st : bool * caches R :=
  match d_alias d with
  | None => (false, st)
  | Some alias =>
      let hadGenerated := bool_decide (is_Some (findGeneratedKey uid d st)) in
      let hadPatched := bool_decide (is_Some (resolvePatchedResponse uid d st)) in
      if negb hadGenerated && negb hadPatched then (false, st)
      else (true, clearSyntheticCertificateState uid alias hadGenerated st)
  end.

(** ** Who a descriptor reaches *)

Lemma first_of_Some {A} (f : Key -> option A) ks a :
  first_of f ks = Some a -> exists k, k ∈ ks /\ f k = Some a.
Proof.
  induction ks as [|k ks IH]; simpl; [done|]. destruct (f k) eqn:E.
  - intros [= ->]. exists k. by split; [left|].
  - intros (k' & ? & ?)%IH. exists k'. by split; [right|].
Qed.

Lemma first_of_None {A} (f : Key -> option A) ks :
  (forall k, k ∈ ks -> f k = None) -> first_of f ks = None.
Proof.
  induction ks as [|k ks IH]; simpl; [done|]. intros H. rewrite (H k) by left.
  apply IH. intros k' ?. apply H. by right.
Qed.

Lemma resolveOwnerKeys_owner uid d st k :
  k ∈ resolveOwnerKeys uid d st ->
  k_uid k = uid \/
  exists g, d_nspace d <> 0 /\ grants st !! d_nspace d = Some g /\ g_granteeUid g = uid /\ g_key g = k.
Proof.
  unfold resolveOwnerKeys. rewrite elem_of_app. intros [H|H].
  - destruct (Z.eqb_spec (d_nspace d) 0); [by apply elem_of_nil in H|].
    rewrite elem_of_app in H. destruct H as [H|H].
    + destruct (keysByNspace st !! _) as [k'|]; [|by apply elem_of_nil in H].
      destruct (Z.eqb_spec (k_uid k') uid); [|by apply elem_of_nil in H].
      apply list_elem_of_singleton in H as ->. by left.
    + destruct (grants st !! _) as [g|]; [|by apply elem_of_nil in H].
      destruct (Z.eqb_spec (g_granteeUid g) uid); [|by apply elem_of_nil in H].
      apply list_elem_of_singleton in H as ->. right. eauto 6.
  - destruct (d_alias d); [|by apply elem_of_nil in H].
    apply list_elem_of_singleton in H as ->. by left.
Qed.

Lemma resolveKey_uid uid d st k : resolveKey uid d st = Some k -> k_uid k = uid.
Proof.
  unfold resolveKey. assert (forall k, MkKey uid <$> d_alias d = Some k -> k_uid k = uid).
  { destruct (d_alias d); simpl; [by intros ? [= <-]|done]. }
  destruct (d_nspace d =? 0); [auto|]. destruct (keysByNspace st !! _) as [k'|]; [|auto].
  destruct (Z.eqb_spec (k_uid k') uid); [by intros [= <-]|auto].
Qed.

Lemma load_keeps f rest st :
  Forall (fun f' => p_key f' <> p_key f) rest ->
  keys (loadPersistedKeys (f :: rest) st) !! p_key f =
    Some (MkInfo (p_response f) (p_usageCountLimit f)).
Proof.
  intros H. unfold loadPersistedKeys. simpl.
  assert (keys (load_one st f) !! p_key f = Some (MkInfo (p_response f) (p_usageCountLimit f)))
    as Hf by apply lookup_insert_eq.
  revert Hf. generalize (load_one st f). induction H as [|f' rest Hf' _ IH]; intros s Hs; simpl;
    [done|]. apply IH. simpl. by rewrite lookup_insert_ne.
Qed.

(** A key of which nothing is left. *)
Definition forgotten (k : Key) st : Prop :=
  keys st !! k = None /\ (k ∉ keyPairs st) /\ skipLeafHacks st !! k = None /\
  patchedResponses st !! k = None /\ usageRemaining st !! k = None /\ (k ∉ tracked st) /\
  (k ∉ leafAlgorithms st) /\ (k ∉ persisted st) /\
  (forall n, (keysByNspace st !! n) <> Some k) /\ (forall n, (byNspace st !! n) <> Some k) /\
  (forall n g, grants st !! n = Some g -> g_key g <> k).

(** [cleanupKey] removes a key from every map, set and index and from the files, the
    grants on it included; keys it does not name keep their material. *)
Theorem cleanupKey_forgets (uid : Z) (alias : kstring) (st : caches R) :
  forgotten (MkKey uid alias) (cleanupKey uid alias st) /\
  (forall k, k <> MkKey uid alias ->
     keys (cleanupKey uid alias st) !! k = keys st !! k /\
     patchedResponses (cleanupKey uid alias st) !! k = patchedResponses st !! k /\
     (k ∈ tracked (cleanupKey uid alias st) <-> k ∈ tracked st) /\
     (k ∈ persisted (cleanupKey uid alias st) <-> k ∈ persisted st)).
Proof.
  unfold forgotten, cleanupKey, relinquishPassthroughOwnership, PassthroughKeyRegistry.remove,
    PassthroughKeyRegistry.with_registry, clearSyntheticCertificateState; simpl.
  split.
  - rewrite !lookup_delete_eq, !elem_of_difference, !elem_of_singleton.
    split_and!; try (by intros [_ ?]); try done.
    + intros n. by intros [_ ?]%map_lookup_filter_Some.
    + intros n. by intros [_ ?]%map_lookup_filter_Some.
    + intros n g. by intros [_ ?]%map_lookup_filter_Some.
  - intros k Hk. rewrite !lookup_delete_ne by done. set_solver.
Qed.
End cache.
