(* ===== verification/KeystoreHooks.v ===== *)
(** * The hooks of the keystore (Keystore2Interceptor.kt, SecurityLevelInterceptor.kt)

    One definition per hook and transaction, over the modes of KeyModes.v and the caches of
    AliasCache.v: what the hook answers and the state it leaves.  What a hook parses out of
    its parcels is an argument ([None] where parsing throws or gives null), and so is what
    the rest of the module computes with the cryptography libraries: forged responses,
    patched chains, authorised operations.  A hook runs in one step. *)

From S2P Require Import Prelude KeyModes AliasCache.
Local Open Scope Z_scope.

(** ** Constants of the platform *)

(** [ResponseCode], [KeymasterDefs], [KeyPermission] *)
Definition PERMISSION_DENIED : Z := 6.
Definition KEY_NOT_FOUND : Z := 7.
Definition INVALID_ARGUMENT : Z := 20.
Definition KM_ERROR_INVALID_INPUT_LENGTH : Z := -21.
Definition KM_ERROR_CANNOT_ATTEST_IDS : Z := -66.
Definition GET_INFO : Z := 4.
Definition UPDATE : Z := 128.
Definition MAX_ATTESTATION_CHALLENGE_BYTES : Z := 128.

(** ** State and answers *)

(** [d_pendingPassthrough] are the fields [pendingPassthroughKeys] of the interceptors of
    the security levels. *)
Record daemon (R : Type) := Daemon {
  d_config : PkgConfig.t;
  d_caches : caches R;
  d_pendingPassthrough : gset (Z * Key)
}.
Arguments Daemon {R}.
Arguments d_config {R}.
Arguments d_caches {R}.
Arguments d_pendingPassthrough {R}.

(** A hook's [Result], with what an [OverrideReply] carries. *)
Inductive answer (R : Type) :=
| Skip
| Continue
| Entry (r : R)
| Metadata (r : R)
| Granted (id : Z)
| Operation (k : option Key)
| Aliases (l : list (option kstring))
| Success
| Error (code : Z).
Arguments Skip {R}.
Arguments Continue {R}.
Arguments Entry {R} r.
Arguments Metadata {R} r.
Arguments Granted {R} id.
Arguments Operation {R} k.
Arguments Aliases {R} l.
Arguments Success {R}.
Arguments Error {R} code.

(** The reply of the real keystore: an exception, or a parcelable that may be null. *)
Inductive reply (R : Type) := Exception | Reply (r : option R).
Arguments Exception {R}.
Arguments Reply {R} r.

Section hooks.
Context {R : Type} `{!Response R}.
Variable pf : PkgConfig.platform.
Implicit Types (st : daemon R).

Definition with_caches (c : caches R) st : daemon R :=
  Daemon (d_config st) c (d_pendingPassthrough st).

Definition with_config (c : PkgConfig.t) st : daemon R :=
  Daemon c (d_caches st) (d_pendingPassthrough st).

Definition ask (q : PkgConfig.t -> bool * PkgConfig.t) st : bool * daemon R :=
  let '(b, c) := q (d_config st) in (b, with_config c st).

Definition needHack (uid : Z) : daemon R -> bool * daemon R := ask (PkgConfig.needHack pf uid).
Definition needGenerate (uid : Z) : daemon R -> bool * daemon R := ask (PkgConfig.needGenerate pf uid).
Definition isPlainAuto (uid : Z) st : bool := PkgConfig.isPlainAuto uid (d_config st).
Definition isExplicitLeafHack (uid : Z) st : bool := PkgConfig.isExplicitLeafHack uid (d_config st).

(** ** Writes to the maps *)

Definition is_grant_of (key : Key) (granteeUid : Z) (g : GrantInfo) : bool :=
  bool_decide (g_key g = key) && (g_granteeUid g =? granteeUid).

Definition put_patched (k : Key) (r : R) (c : caches R) : caches R :=
  MkCaches (keys c) (keyPairs c) (skipLeafHacks c) (keysByNspace c)
    (<[k := r]> (patchedResponses c)) (grants c) (usageRemaining c) (tracked c) (byNspace c)
    (leafAlgorithms c) (persisted c).

Definition put_nspace (n : Z) (k : Key) (c : caches R) : caches R :=
  MkCaches (keys c) (keyPairs c) (skipLeafHacks c) (<[n := k]> (keysByNspace c))
    (patchedResponses c) (grants c) (usageRemaining c) (tracked c) (byNspace c)
    (leafAlgorithms c) (persisted c).

Definition put_keyPair (k : Key) (c : caches R) : caches R :=
  MkCaches (keys c) ({[k]} ∪ keyPairs c) (skipLeafHacks c) (keysByNspace c)
    (patchedResponses c) (grants c) (usageRemaining c) (tracked c) (byNspace c)
    (leafAlgorithms c) (persisted c).

(** [keys[key] = ...] to [PersistenceManager.saveKey] *)
Definition put_generated (k : Key) (i : Info R) (skipLeafHack : bool) (c : caches R) : caches R :=
  MkCaches (<[k := i]> (keys c)) (keyPairs c)
    (if skipLeafHack then <[k := true]> (skipLeafHacks c) else skipLeafHacks c)
    (keysByNspace c) (patchedResponses c) (grants c)
    (if 0 <? i_usageCountLimit i then <[k := i_usageCountLimit i]> (usageRemaining c)
     else usageRemaining c)
    (tracked c) (byNspace c) (leafAlgorithms c) ({[k]} ∪ persisted c).

Definition drop_skipLeafHack (k : Key) (c : caches R) : caches R :=
  MkCaches (keys c) (keyPairs c) (delete k (skipLeafHacks c)) (keysByNspace c)
    (patchedResponses c) (grants c) (usageRemaining c) (tracked c) (byNspace c)
    (leafAlgorithms c) (persisted c).

Definition put_grant (n : Z) (g : GrantInfo) (c : caches R) : caches R :=
  MkCaches (keys c) (keyPairs c) (skipLeafHacks c) (keysByNspace c) (patchedResponses c)
    (<[n := g]> (grants c)) (usageRemaining c) (tracked c) (byNspace c) (leafAlgorithms c)
    (persisted c).

(** [grants.entries.removeIf] *)
Definition drop_grants (k : Key) (granteeUid : Z) (c : caches R) : caches R :=
  MkCaches (keys c) (keyPairs c) (skipLeafHacks c) (keysByNspace c) (patchedResponses c)
    (filter (fun e => is_grant_of k granteeUid e.2 = false) (grants c)) (usageRemaining c)
    (tracked c) (byNspace c) (leafAlgorithms c) (persisted c).

(** ** getKeyEntry *)

(** [safeTypedObjectReply]: a response that cannot be serialised is not served. *)
Definition safeTypedObjectReply (serializes : R -> bool) (r : R) : answer R :=
  if serializes r then Entry r else Continue.

(** The response cached for a key, a forged one first. *)
Definition cached_response (k : Key) (c : caches R) : option R :=
  match keys c !! k with
  | Some i => Some (i_response i)
  | None => patchedResponses c !! k
  end.

(** The shortcut for a descriptor that is a grant to the caller; [None] falls through. *)
Definition grant_shortcut (serializes : R -> bool) (uid : Z) (d : KeyDescriptor) st
  : option (answer R) :=
  if d_nspace d =? 0 then None
  else match grants (d_caches st) !! d_nspace d with
       | Some g =>
           if negb (g_granteeUid g =? uid) then None
           else if Z.land (g_accessVector g) GET_INFO =? 0 then Some (Error PERMISSION_DENIED)
           else match cached_response (g_key g) (d_caches st) with
                | Some r =>
                    if GetKeyEntryCurrentModeAuthority.shouldServeGrantCachedResponse
                         (isPlainAuto uid st)
                    then Some (safeTypedObjectReply serializes r) else None
                | None => None
                end
       | None => None
       end.

(** A generated key's response, or a patched one. *)
Definition owned_response (uid : Z) (d : KeyDescriptor) (c : caches R) : option R :=
  match findGeneratedKey uid d c with
  | Some i => Some (i_response i)
  | None => resolvePatchedResponse uid d c
  end.

Definition getKeyEntry_pre (hasKeyboxes : bool) (serializes : R -> bool) (uid : Z)
    (descriptor : option KeyDescriptor) st : answer R * daemon R :=
  match hasKeyboxes, descriptor with
  | true, Some d =>
      match grant_shortcut serializes uid d st with
      | Some a => (a, st)
      | None =>
          let '(generate, st) := needGenerate uid st in
          if generate then
            if isPassthroughDescriptor uid d (d_caches st) then (Continue, st)
            else (match owned_response uid d (d_caches st) with
                  | Some r => safeTypedObjectReply serializes r
                  | None => Skip
                  end, st)
          else
            let '(hack, st) := needHack uid st in
            if hack then
              if isPassthroughDescriptor uid d (d_caches st) then (Continue, st)
              else if isPlainAuto uid st then
                let '(_, c) := rejectHistoricalOwners uid d (d_caches st) in
                (Continue, with_caches c st)
              else if shouldSkipLeafHackFor uid d (d_caches st) then
                (match findGeneratedKey uid d (d_caches st) with
                 | Some i => safeTypedObjectReply serializes (i_response i)
                 | None => Continue
                 end, st)
              else
                (match resolvePatchedResponse uid d (d_caches st) with
                 | Some r => safeTypedObjectReply serializes r
                 | None => Continue
                 end, st)
            else
              (match owned_response uid d (d_caches st) with
               | Some r => safeTypedObjectReply serializes r
               | None => Skip
               end, st)
      end
  | _, _ => (Skip, st)
  end.

(** [PATCH_LEAF]: [patch] is [None] when the reply has no chain or patching throws; a reply
    that cannot be serialised is left to the keystore, its key's entry replaced already. *)
Definition patch_leaf (patch : R -> option R) (serializes : R -> bool) (rep : reply R) st
  : answer R * daemon R :=
  match rep with
  | Reply (Some response) =>
      let c := d_caches st in
      let responseKey :=
        match r_nspace response with
        | Some n => if n =? 0 then None else keysByNspace c !! n
        | None => None
        end in
      match patch response with
      | Some patched =>
          (if serializes patched then Entry patched else Skip,
           match responseKey with
           | Some k => with_caches (put_patched k patched c) st
           | None => st
           end)
      | None => (Skip, st)
      end
  | _ => (Skip, st)
  end.

(** What the policy decides on, in the order the hook asks. *)
Definition post_input (uid : Z) (descriptor : option KeyDescriptor) st
  : GetKeyEntryPostPolicy.PostHookInput * daemon R :=
  let c := d_caches st in
  let cachedKey := descriptor ≫= (fun d => resolveKey uid d c) in
  let explicitLeafHack := isExplicitLeafHack uid st in
  let plainAutoMode := isPlainAuto uid st in
  let '(hack, st) := needHack uid st in
  let '(preserve, st) :=
    if hack then let '(g, st) := needGenerate uid st in (negb g && negb explicitLeafHack, st)
    else (false, st) in
  ({| GetKeyEntryPostPolicy.isPassthroughTracked :=
        match descriptor with Some d => isPassthroughDescriptor uid d c | None => false end;
      GetKeyEntryPostPolicy.hasCachedPatch :=
        match cachedKey with
        | Some k => bool_decide (is_Some (patchedResponses c !! k)) | None => false end;
      GetKeyEntryPostPolicy.hasGeneratedOwner :=
        match descriptor with
        | Some d => bool_decide (is_Some (findGeneratedKey uid d c)) | None => false end;
      GetKeyEntryPostPolicy.explicitLeafHack := explicitLeafHack;
      GetKeyEntryPostPolicy.autoPreserveUntrackedReal := preserve;
      GetKeyEntryPostPolicy.plainAutoMode := plainAutoMode |}, st).

(** [ownedResponse] *)
Definition post_cached (uid : Z) (descriptor : option KeyDescriptor) (c : caches R) : option R :=
  match (descriptor ≫= (fun d => resolveKey uid d c)) ≫= (fun k => patchedResponses c !! k) with
  | Some r => Some r
  | None => descriptor ≫= (fun d => i_response <$> findGeneratedKey uid d c)
  end.

(** The post-hooks below are those of a transaction to the keystore that has a reply. *)
Definition getKeyEntry_post (patch : R -> option R) (serializes : R -> bool) (uid : Z)
    (descriptor : option KeyDescriptor) (rep : reply R) st : answer R * daemon R :=
  match rep with
  | Exception => (Skip, st)
  | _ =>
      let '(input, st) := post_input uid descriptor st in
      match GetKeyEntryPostPolicy.decide input with
      | GetKeyEntryPostPolicy.PASSTHROUGH_UNMODIFIED => (Skip, st)
      | GetKeyEntryPostPolicy.SERVE_CACHED_PATCH =>
          (match post_cached uid descriptor (d_caches st) with
           | Some r => if serializes r then Entry r else Skip
           | None => Skip
           end, st)
      | GetKeyEntryPostPolicy.PATCH_LEAF => patch_leaf patch serializes rep st
      end
  end.

(** ** generateKey *)

(** What the hook reads of a request; the size of the challenge if there is one. *)
Record keygen := {
  kg_descriptor : KeyDescriptor;
  kg_attestationKeySet : bool;
  kg_challenge : option Z;
  kg_creationDatetime : bool;
  kg_deviceId : bool;
  kg_attestPurpose : bool;
  kg_symmetric : bool;
  kg_usageCountLimit : Z
}.

(** What [CertificateGen] makes of it: nothing, or a pair whose response may fail to build;
    with the key id that is drawn for it. *)
Record forged := { f_nspace : Z; f_response : option R }.

Definition hasPermissionForUid (grants_phone_state : kstring -> bool) (uid : Z) st
  : bool * daemon R :=
  let '(ps, c) := PkgConfig.packages_of pf uid (d_config st) in
  (match ps with Some ps => existsb grants_phone_state ps | None => false end, with_config c st).

Definition storeGeneratedKey (serializes : R -> bool) (uid : Z) (alias : kstring)
    (usageCountLimit : Z) (f : forged) (skipLeafHack : bool) st : answer R * daemon R :=
  let key := MkKey uid alias in
  let c := relinquishPassthroughOwnership uid alias (d_caches st) in
  let c := clearSyntheticCertificateState uid alias false c in
  let c := put_keyPair key (put_nspace (f_nspace f) key c) in
  match f_response f with
  | None => (Skip, with_caches c st)
  | Some r =>
      (if serializes r then Metadata r else Skip,
       with_caches (put_generated key (MkInfo r usageCountLimit) skipLeafHack c) st)
  end.

(** The part of the hook that has a descriptor with an alias and an acceptable request. *)
Definition route_keygen (serializes : R -> bool) (f : option forged) (level uid : Z)
    (alias : kstring) (q : keygen) st : answer R * daemon R :=
  let '(needGen, st) := needGenerate uid st in
  let hasChallenge := bool_decide (is_Some (kg_challenge q)) in
  let forceForge :=
    GenerateKeyRoute.computeForceForge needGen (kg_deviceId q) (kg_attestPurpose q)
      (kg_attestationKeySet q) in
  if forceForge then
    if kg_symmetric q then (Continue, st)
    else if negb (hasChallenge || kg_deviceId q || kg_attestPurpose q || kg_attestationKeySet q)
    then (Continue, st)
    else
      let '(skipLeafHack, st) := needHack uid st in
      match f with
      | None => (Skip, st)
      | Some f => storeGeneratedKey serializes uid alias (kg_usageCountLimit q) f skipLeafHack st
      end
  else
    let '(hack, st) := needHack uid st in
    if hack then
      let route :=
        GenerateKeyRoute.selectTopLevelRoute forceForge true (isExplicitLeafHack uid st)
          hasChallenge needGen in
      let c := d_caches st in
      (Continue,
       if GenerateKeyRoute.isPassthroughRoute route then
         Daemon (d_config st) (clearSyntheticCertificateState uid alias false c)
           ({[(level, MkKey uid alias)]} ∪ d_pendingPassthrough st)
       else with_caches (drop_skipLeafHack (MkKey uid alias) c) st)
    else (Skip, st).

(** [None]: the request does not parse, or has no descriptor. *)
Definition generateKey_pre (grants_phone_state : kstring -> bool) (serializes : R -> bool)
    (f : option forged) (level uid : Z) (request : option keygen) st : answer R * daemon R :=
  match request with
  | None => (Skip, st)
  | Some q =>
      if match kg_challenge q with Some n => MAX_ATTESTATION_CHALLENGE_BYTES <? n | None => false end
      then (Error KM_ERROR_INVALID_INPUT_LENGTH, st)
      else match d_alias (kg_descriptor q) with
      | None => (Skip, st)
      | Some alias =>
          if kg_creationDatetime q then (Error INVALID_ARGUMENT, st)
          else
            let '(permitted, st) :=
              if kg_deviceId q then hasPermissionForUid grants_phone_state uid st
              else (true, st) in
            if permitted then route_keygen serializes f level uid alias q st
            else (Error KM_ERROR_CANNOT_ATTEST_IDS, st)
      end
  end.

(** [has_leaf]: the metadata has a certificate that parses. *)
Definition generateKey_post (has_leaf : R -> bool) (patch : R -> option R)
    (serializes : R -> bool) (level uid : Z) (descriptor : option KeyDescriptor)
    (rep : reply R) st : answer R * daemon R :=
  match descriptor ≫= d_alias with
  | None => (Skip, st)
  | Some alias =>
      let routeKey := MkKey uid alias in
      let isPassthrough := bool_decide ((level, routeKey) ∈ d_pendingPassthrough st) in
      let st := Daemon (d_config st) (d_caches st)
                  (d_pendingPassthrough st ∖ {[(level, routeKey)]}) in
      match rep with
      | Exception => (Skip, st)
      | Reply metadata =>
          if isPassthrough then
            let nspace := metadata ≫= r_nspace in
            let c := clearSyntheticCertificateState uid alias true (d_caches st) in
            let c := match nspace with
                     | Some n => if n =? 0 then c else put_nspace n routeKey c
                     | None => c
                     end in
            (Skip, with_caches (PassthroughKeyRegistry.promote uid alias nspace c) st)
          else match metadata with
          | None => (Skip, st)
          | Some m =>
              if negb (has_leaf m) then (Skip, st)
              else
                let c := relinquishPassthroughOwnership uid alias (d_caches st) in
                let c := clearSyntheticCertificateState uid alias false c in
                match patch m with
                | None => (Skip, with_caches c st)
                | Some patched =>
                    let c := put_patched routeKey patched c in
                    let c := match r_nspace m with
                             | Some n => if n =? 0 then c else put_nspace n routeKey c
                             | None => c
                             end in
                    (if serializes patched then Metadata patched else Skip, with_caches c st)
                end
          end
      end
  end.

(** ** importKey, createOperation *)

Definition importKey_pre (uid : Z) st : answer R * daemon R :=
  let '(hack, st) := needHack uid st in
  if hack then (Continue, st)
  else let '(generate, st) := needGenerate uid st in (if generate then Continue else Skip, st).

Definition importKey_post (uid : Z) (descriptor : option KeyDescriptor) (rep : reply R) st
  : answer R * daemon R :=
  (Skip, match rep, descriptor ≫= d_alias with
         | Reply _, Some alias => with_caches (cleanupKey uid alias (d_caches st)) st
         | _, _ => st
         end).

(** [authorize]: [authorizeOperation] of the key's parameters on the request's; [create]:
    [SoftwareOperationBinder.create] succeeds. *)
Definition createOperation_pre (authorize : Info R -> option Z) (create : Info R -> bool)
    (force : bool) (uid : Z) (descriptor : option KeyDescriptor) st : answer R * daemon R :=
  (match descriptor with
   | None => Skip
   | Some d =>
       let c := d_caches st in
       match findGeneratedKey uid d c with
       | None => Skip
       | Some info =>
           if force then Error PERMISSION_DENIED
           else
             let key := resolveKey uid d c in
             let exhausted :=
               (0 <? i_usageCountLimit info) &&
               match key ≫= (fun k => usageRemaining c !! k) with
               | Some remaining => remaining <=? 0
               | None => false
               end in
             if exhausted then Error KEY_NOT_FOUND
             else match authorize info with
                  | Some code => Error code
                  | None => if create info then Operation key else Skip
                  end
       end
   end, st).

(** ** deleteKey, updateSubcomponent *)

Definition deleteKey_pre (uid : Z) (descriptor : option KeyDescriptor) st : answer R * daemon R :=
  match descriptor ≫= d_alias with
  | None => (Continue, st)
  | Some alias =>
      let key := MkKey uid alias in
      let c := d_caches st in
      let isSoftware :=
        bool_decide (is_Some (keys c !! key)) && negb (bool_decide (is_Some (skipLeafHacks c !! key))) in
      (if isSoftware then Success else Continue, with_caches (cleanupKey uid alias c) st)
  end.

(** The status of the transaction is 0; the reply may still be an exception. *)
Definition deleteKey_post (uid : Z) (descriptor : option KeyDescriptor) st : answer R * daemon R :=
  (Skip, match descriptor ≫= d_alias with
         | Some alias => with_caches (cleanupKey uid alias (d_caches st)) st
         | None => st
         end).

(** The key an update is for: the caller's, or one granted to it. *)
Definition update_target (uid : Z) (d : KeyDescriptor) (c : caches R) : option (option Key) :=
  match resolveKey uid d c with
  | Some k => Some (Some k)
  | None =>
      if d_nspace d =? 0 then Some None
      else match grants c !! d_nspace d with
           | Some g =>
               if negb (g_granteeUid g =? uid) then Some None
               else if Z.land (g_accessVector g) UPDATE =? 0 then None
               else Some (if isPatchedKey (g_key g) c then Some (g_key g) else None)
           | None => Some None
           end
  end.

Definition updateSubcomponent_pre (uid : Z) (descriptor : option KeyDescriptor)
    (publicCert certificateChain : option (list Z)) st : answer R * daemon R :=
  match descriptor with
  | None => (Continue, st)
  | Some d =>
      let c := d_caches st in
      match update_target uid d c with
      | None => (Error PERMISSION_DENIED, st)
      | Some None => (Continue, st)
      | Some (Some k) =>
          if bool_decide (is_Some (keys c !! k))
          then (Success, with_caches (updateKeyCertChain k publicCert certificateChain c) st)
          else (Continue,
                with_caches (invalidateCertificateResponseState uid (k_alias k) false c) st)
      end
  end.

Definition updateSubcomponent_post (uid : Z) (descriptor : option KeyDescriptor) st
  : answer R * daemon R :=
  (Skip,
   let c := d_caches st in
   match descriptor ≫= (fun d => match d_alias d with
                                 | Some a => Some a
                                 | None => findAliasForNspace uid (d_nspace d) c
                                 end) with
   | Some alias => with_caches (invalidateCertificateResponseState uid alias true c) st
   | None => st
   end).

(** ** grant, ungrant *)

(** [entries]: the grants in the order the map is iterated in; [fresh]: the random id. *)
Definition grant_pre (hasKeyboxes : bool) (entries : gmap Z GrantInfo -> list (Z * GrantInfo))
    (fresh : Z) (uid : Z) (descriptor : option KeyDescriptor) (granteeUid accessVector : Z) st
  : answer R * daemon R :=
  let c := d_caches st in
  match hasKeyboxes, descriptor ≫= (fun d => resolveKey uid d c) with
  | true, Some key =>
      if bool_decide (is_Some (keys c !! key)) then
        match filter (fun e => is_grant_of key granteeUid e.2 = true) (entries (grants c)) with
        | (id, g) :: _ =>
            (Granted id,
             with_caches
               (put_grant id (MkGrant (g_ownerUid g) (g_granteeUid g) (g_key g) accessVector) c) st)
        | [] => (Granted fresh,
                 with_caches (put_grant fresh (MkGrant uid granteeUid key accessVector) c) st)
        end
      else (if isPatchedKey key c then Continue else Skip, st)
  | _, _ => (Skip, st)
  end.

(** [granted]: the id in the reply. *)
Definition grant_post (hasKeyboxes : bool) (uid : Z) (descriptor : option KeyDescriptor)
    (granteeUid accessVector : Z) (granted : option Z) st : answer R * daemon R :=
  (Skip,
   let c := d_caches st in
   match hasKeyboxes, descriptor ≫= (fun d => resolveKey uid d c), granted with
   | true, Some key, Some id =>
       if isPatchedKey key c
       then with_caches (put_grant id (MkGrant uid granteeUid key accessVector) c) st else st
   | _, _, _ => st
   end).

Definition ungrant_pre (uid : Z) (descriptor : option KeyDescriptor) (granteeUid : Z) st
  : answer R * daemon R :=
  let c := d_caches st in
  match descriptor ≫= (fun d => resolveKey uid d c) with
  | None => (Skip, st)
  | Some key =>
      (if bool_decide (is_Some (keys c !! key)) then Success else Skip,
       with_caches (drop_grants key granteeUid c) st)
  end.

(** ** What the hooks may answer *)

Lemma ask_caches q st b st' : ask q st = (b, st') -> d_caches st' = d_caches st.
Proof. unfold ask. destruct (q (d_config st)). by intros [= _ <-]. Qed.

(** [uid] may read [k]: its own, or granted to it, under the id it names, with [GET_INFO]. *)
Definition entitled (uid : Z) (d : KeyDescriptor) (k : Key) (c : caches R) : Prop :=
  k_uid k = uid \/
  exists g, d_nspace d <> 0 /\ grants c !! d_nspace d = Some g /\ g_granteeUid g = uid /\
    g_key g = k /\ Z.land (g_accessVector g) GET_INFO <> 0.

(** The response of a key: forged or patched. *)
Definition response_of (k : Key) (r : R) (c : caches R) : Prop :=
  (exists i, keys c !! k = Some i /\ i_response i = r) \/ patchedResponses c !! k = Some r.

Lemma cached_response_of k r c : cached_response k c = Some r -> response_of k r c.
Proof.
  unfold cached_response, response_of. destruct (keys c !! k) as [i|]; [|auto].
  intros [= <-]. eauto.
Qed.

Lemma findGeneratedKey_of uid d c i :
  findGeneratedKey uid d c = Some i ->
  exists k, k ∈ resolveOwnerKeys uid d c /\ response_of k (i_response i) c.
Proof.
  intros (k & ? & ?)%first_of_Some. exists k. split; [done|]. left. eauto.
Qed.

Lemma resolvePatchedResponse_of uid d c r :
  resolvePatchedResponse uid d c = Some r ->
  exists k, k ∈ resolveOwnerKeys uid d c /\ response_of k r c.
Proof. intros (k & ? & ?)%first_of_Some. exists k. split; [done|]. by right. Qed.

Lemma owned_response_of uid d c r :
  owned_response uid d c = Some r ->
  exists k, k ∈ resolveOwnerKeys uid d c /\ response_of k r c.
Proof.
  unfold owned_response. destruct (findGeneratedKey uid d c) as [i|] eqn:E.
  - intros [= <-]. by apply findGeneratedKey_of.
  - apply resolvePatchedResponse_of.
Qed.

(** Past the shortcut a grant to the caller has [GET_INFO]. *)
Lemma past_shortcut serializes uid d st k :
  grant_shortcut serializes uid d st = None ->
  k ∈ resolveOwnerKeys uid d (d_caches st) -> entitled uid d k (d_caches st).
Proof.
  unfold grant_shortcut. intros H [?|(g & Hn & Hg & Hu & <-)]%resolveOwnerKeys_owner; [by left|].
  right. exists g. split_and!; try done. intros Hz. revert H.
  destruct (Z.eqb_spec (d_nspace d) 0); [done|]. rewrite Hg.
  destruct (Z.eqb_spec (g_granteeUid g) uid); [|done]. simpl. by rewrite Hz.
Qed.

Lemma shortcut_entitled serializes uid d st r :
  grant_shortcut serializes uid d st = Some (Entry r) ->
  exists k, response_of k r (d_caches st) /\ entitled uid d k (d_caches st).
Proof.
  unfold grant_shortcut. destruct (Z.eqb_spec (d_nspace d) 0); [done|].
  destruct (grants (d_caches st) !! d_nspace d) as [g|] eqn:Hg; [|done].
  destruct (Z.eqb_spec (g_granteeUid g) uid) as [Hu|]; simpl; [|done].
  destruct (Z.eqb_spec (Z.land (g_accessVector g) GET_INFO) 0) as [|Ha]; [done|].
  destruct (cached_response _ _) as [r'|] eqn:Hr; [|done].
  destruct (GetKeyEntryCurrentModeAuthority.shouldServeGrantCachedResponse _); [|done].
  unfold safeTypedObjectReply. destruct (serializes r'); [|done]. intros [= <-].
  exists (g_key g). split; [by apply cached_response_of|]. right. eauto 6.
Qed.

Lemma safeTypedObjectReply_Entry serializes r r' :
  safeTypedObjectReply serializes r = Entry r' -> r = r'.
Proof. unfold safeTypedObjectReply. destruct (serializes r); [by intros [= ->]|done]. Qed.

(** C12: access control of the pre-hook: whatever response it serves is the forged or the
    patched response of a key the caller owns, or of one granted to it with [GET_INFO] under
    the id it asks for; no mode, index entry or cached state gives a caller another uid's
    key. *)
Theorem getKeyEntry_pre_entitled hasKeyboxes serializes uid d st r st' :
  getKeyEntry_pre hasKeyboxes serializes uid (Some d) st = (Entry r, st') ->
  exists k, response_of k r (d_caches st) /\ entitled uid d k (d_caches st).
Proof.
  unfold getKeyEntry_pre. destruct hasKeyboxes; [|done].
  destruct (grant_shortcut serializes uid d st) as [a|] eqn:Hs.
  { intros [= -> _]. by eapply shortcut_entitled. }
  assert (Hk : forall k r0, k ∈ resolveOwnerKeys uid d (d_caches st) ->
    response_of k r0 (d_caches st) -> safeTypedObjectReply serializes r0 = Entry r ->
    exists k, response_of k r (d_caches st) /\ entitled uid d k (d_caches st)).
  { intros k r0 ? ? ->%safeTypedObjectReply_Entry. exists k. eauto using past_shortcut. }
  destruct (needGenerate uid st) as [g st1] eqn:E1. pose proof (ask_caches _ _ _ _ E1) as C1.
  destruct (needHack uid st1) as [h st2] eqn:E2. pose proof (ask_caches _ _ _ _ E2) as C2.
  rewrite C2, C1. intros H.
  repeat match type of H with
  | context [if ?b then _ else _] => destruct b
  | context [match owned_response ?u ?x ?c with _ => _ end] =>
      destruct (owned_response u x c) as [r0|] eqn:Ho
  | context [match findGeneratedKey ?u ?x ?c with _ => _ end] =>
      destruct (findGeneratedKey u x c) as [i|] eqn:Ho
  | context [match resolvePatchedResponse ?u ?x ?c with _ => _ end] =>
      destruct (resolvePatchedResponse u x c) as [r0|] eqn:Ho
  | context [let '(_, _) := ?e in _] => destruct e
  end; try discriminate H; injection H as H _;
  first [apply owned_response_of in Ho | apply findGeneratedKey_of in Ho
        | apply resolvePatchedResponse_of in Ho];
  destruct Ho as (k & ? & ?); eauto.
Qed.

(** A uid whose packages are not resolved yet is no plain AUTO uid for the hook, whatever
    [target.txt] says of it: the shortcut for grants, which asks before any question that
    resolves the packages, serves it the module's response. *)
Theorem unresolved_grantee_served serializes uid d g r st :
  PkgConfig.uidPackages (d_config st) !! uid = None ->
  d_nspace d <> 0 -> grants (d_caches st) !! d_nspace d = Some g -> g_granteeUid g = uid ->
  Z.land (g_accessVector g) GET_INFO <> 0 ->
  cached_response (g_key g) (d_caches st) = Some r -> serializes r = true ->
  getKeyEntry_pre true serializes uid (Some d) st = (Entry r, st).
Proof.
  intros Hu Hn Hg Hgu Ha Hr Hs.
  assert (isPlainAuto uid st = false) as Hp.
  { unfold isPlainAuto, PkgConfig.isPlainAuto, PkgConfig.isExplicitGenerate,
      PkgConfig.isExplicitLeafHack, PkgConfig.hasTargetMode. by rewrite Hu. }
  unfold getKeyEntry_pre, grant_shortcut. rewrite (proj2 (Z.eqb_neq _ _) Hn), Hg.
  rewrite (proj2 (Z.eqb_eq _ _) Hgu), (proj2 (Z.eqb_neq _ _) Ha), Hr, Hp. simpl.
  unfold safeTypedObjectReply. by rewrite Hs.
Qed.

(** A key that is generated again by the real keystore and has its chain patched leaves
    the forged key of its alias in memory but not on disk: the file survives, and the next
    start restores the forged key. *)
Theorem leaf_forward_keeps_file has_leaf patch serializes level uid d alias m p f rest st :
  d_alias d = Some alias -> (level, MkKey uid alias) ∉ d_pendingPassthrough st ->
  MkKey uid alias ∈ persisted (d_caches st) -> has_leaf m = true -> patch m = Some p ->
  p_key f = MkKey uid alias -> Forall (fun f' => p_key f' <> p_key f) rest ->
  let st' := (generateKey_post has_leaf patch serializes level uid (Some d) (Reply (Some m)) st).2 in
  keys (d_caches st') !! MkKey uid alias = None /\
  patchedResponses (d_caches st') !! MkKey uid alias = Some p /\
  MkKey uid alias ∈ persisted (d_caches st') /\
  cached_response (MkKey uid alias) (loadPersistedKeys (f :: rest) no_caches) = Some (p_response f).
Proof.
  intros Ha Hp Hf Hl Hpatch Hk Hrest st'. subst st'. unfold generateKey_post. simpl. rewrite Ha.
  rewrite bool_decide_eq_false_2 by done. rewrite Hl, Hpatch. simpl.
  assert (Hload : cached_response (MkKey uid alias) (loadPersistedKeys (f :: rest) no_caches)
                    = Some (p_response f)).
  { unfold cached_response. rewrite <-Hk. by rewrite (load_keeps f rest). }
  destruct (r_nspace m) as [n|]; [destruct (n =? 0)|]; simpl;
    rewrite lookup_delete_eq, lookup_insert_eq; by split_and!.
Qed.

(** The post-hook keeps the patched chain under the key that has the id of the real
    reply, without asking whose key it is: reading a key of another uid (by a grant of the
    real keystore) gives a patched response to a key that is tracked for its unmodified
    chain. *)
Theorem patch_leaf_any_owner patch serializes uid d r n k p st :
  GetKeyEntryPostPolicy.decide (post_input uid (Some d) st).1 = GetKeyEntryPostPolicy.PATCH_LEAF ->
  r_nspace r = Some n -> n <> 0 -> keysByNspace (d_caches st) !! n = Some k ->
  k_uid k <> uid -> k ∈ tracked (d_caches st) -> patch r = Some p ->
  let st' := (getKeyEntry_post patch serializes uid (Some d) (Reply (Some r)) st).2 in
  patchedResponses (d_caches st') !! k = Some p /\ k ∈ tracked (d_caches st').
Proof.
  intros Hd Hr Hn Hk Hu Ht Hp st'. subst st'. unfold getKeyEntry_post.
  assert (Hc : d_caches (post_input uid (Some d) st).2 = d_caches st).
  { unfold post_input. destruct (needHack uid st) as [h s1] eqn:E1.
    apply ask_caches in E1. destruct h; simpl; [|done].
    destruct (needGenerate uid s1) as [g s2] eqn:E2. apply ask_caches in E2. simpl. congruence. }
  destruct (post_input uid (Some d) st) as [input s1]. simpl in *. rewrite Hd.
  unfold patch_leaf. rewrite Hr, (proj2 (Z.eqb_neq _ _) Hn), Hc, Hk, Hp. simpl.
  by rewrite lookup_insert_eq.
Qed.

(** An update through a grant does not reach the owner's cache: the hooks clear the
    alias under the caller's uid, so the response patched before the update is what the
    owner goes on reading. *)
Theorem granted_update_stale uid d g pub chain st :
  d_alias d = None -> d_nspace d <> 0 -> keysByNspace (d_caches st) !! d_nspace d = None ->
  grants (d_caches st) !! d_nspace d = Some g -> g_granteeUid g = uid -> k_uid (g_key g) <> uid ->
  Z.land (g_accessVector g) UPDATE <> 0 -> keys (d_caches st) !! g_key g = None ->
  is_Some (patchedResponses (d_caches st) !! g_key g) ->
  let pre := updateSubcomponent_pre uid (Some d) pub chain st in
  let st' := (updateSubcomponent_post uid (Some d) pre.2).2 in
  pre.1 = Continue /\
  patchedResponses (d_caches st') !! g_key g = patchedResponses (d_caches st) !! g_key g.
Proof.
  intros Ha Hn Hnone Hg Hu Ho Hup Hk Hp pre st'. subst pre st'.
  unfold updateSubcomponent_pre, update_target, resolveKey. rewrite Ha, Hnone, Hg.
  rewrite (proj2 (Z.eqb_neq _ _) Hn), (proj2 (Z.eqb_eq _ _) Hu), (proj2 (Z.eqb_neq _ _) Hup).
  unfold isPatchedKey. rewrite Hk, (bool_decide_eq_true_2 _ Hp). simpl.
  rewrite bool_decide_eq_false_2 by (rewrite Hk; apply is_Some_None). simpl.
  split; [done|]. unfold updateSubcomponent_post. simpl. rewrite Ha.
  destruct (findAliasForNspace uid _ _); simpl; by rewrite !lookup_delete_ne by (intros He; apply Ho; by rewrite <-He).
Qed.
End hooks.

(** ** Instances *)

#[export] Instance sample_response : Response Z :=
  {| r_nspace := fun r => Some r; r_with_chain := fun r _ _ => r |}.

Module Sample.
(** The package of uid 10001 is plain AUTO, that of 10002 [!], that of 10003 [?]. *)
Definition owner : Z := 10002.
Definition leaf : Z := 10003.
Definition plain : Z := 10001.

Definition pf : PkgConfig.platform :=
  {| PkgConfig.getPackagesForUid := fun uid => Some [[uid]]; PkgConfig.getState := WORKING |}.

Definition modes : gmap kstring PkgConfig.Mode :=
  {[ [plain] := PkgConfig.AUTO; [owner] := PkgConfig.GENERATE; [leaf] := PkgConfig.LEAF_HACK ]}.

Definition fresh : PkgConfig.t := PkgConfig.Make modes ∅ None.
Definition resolved : PkgConfig.t :=
  PkgConfig.Make modes {[ plain := [[plain]]; owner := [[owner]]; leaf := [[leaf]] ]} (Some false).

Definition the_key : Key := MkKey owner [107].
Definition by_id (n : Z) : KeyDescriptor := {| d_domain := 1; d_nspace := n; d_alias := None |}.
Definition by_alias : KeyDescriptor := {| d_domain := 0; d_nspace := 0; d_alias := Some [107] |}.

(** [the_key] is forged and granted to [plain] with [GET_INFO] under the id 77. *)
Definition with_grant (uid access : Z) (c : caches Z) : caches Z :=
  put_grant 77 (MkGrant owner uid the_key access) c.

Definition forged_caches : caches Z := put_generated the_key (MkInfo 500 0) false no_caches.
End Sample.

Lemma getKeyEntry_pre_entitled_witness :
  let st := Daemon Sample.resolved (Sample.with_grant Sample.leaf 4 Sample.forged_caches) ∅ in
  exists k, response_of k 500 (d_caches st) /\
    entitled Sample.leaf (Sample.by_id 77) k (d_caches st).
Proof.
  intros st. apply (getKeyEntry_pre_entitled Sample.pf true (fun _ => true) Sample.leaf
    (Sample.by_id 77) st 500 st). by vm_compute.
Defined.

Lemma unresolved_grantee_served_witness :
  let st := Daemon Sample.fresh (Sample.with_grant Sample.plain 4 Sample.forged_caches) ∅ in
  getKeyEntry_pre Sample.pf true (fun _ => true) Sample.plain (Some (Sample.by_id 77)) st =
    (Entry 500, st).
Proof.
  intros st. by apply (unresolved_grantee_served Sample.pf (fun _ => true) Sample.plain
    (Sample.by_id 77) (MkGrant Sample.owner Sample.plain Sample.the_key 4) 500 st).
Defined.

Lemma leaf_forward_keeps_file_witness :
  let f := {| p_key := Sample.the_key; p_hasPair := true; p_response := 500;
              p_usageCountLimit := 0; p_nspace := 9; p_skipLeafHack := false |} in
  let st := Daemon Sample.resolved Sample.forged_caches ∅ in
  let st' := (generateKey_post (fun _ => true) (fun r => Some (r + 1)) (fun _ => true) 1
                Sample.owner (Some Sample.by_alias) (Reply (Some 8)) st).2 in
  keys (d_caches st') !! Sample.the_key = None /\
  patchedResponses (d_caches st') !! Sample.the_key = Some 9 /\
  Sample.the_key ∈ persisted (d_caches st') /\
  cached_response Sample.the_key (loadPersistedKeys [f] no_caches) = Some 500.
Proof.
  intros f st st'. by apply (leaf_forward_keeps_file (fun _ => true) (fun r => Some (r + 1))
    (fun _ => true) 1 Sample.owner Sample.by_alias [107] 8 9 f [] st).
Defined.

Lemma patch_leaf_any_owner_witness :
  let c := PassthroughKeyRegistry.promote Sample.owner [107] (Some 9)
             (put_nspace 9 Sample.the_key no_caches) in
  let st := Daemon Sample.resolved c ∅ in
  let st' := (getKeyEntry_post Sample.pf (fun r => Some (r + 1)) (fun _ => true) Sample.leaf
                (Some (Sample.by_id 77)) (Reply (Some 9)) st).2 in
  patchedResponses (d_caches st') !! Sample.the_key = Some 10 /\
  Sample.the_key ∈ tracked (d_caches st').
Proof.
  intros c st st'. by apply (patch_leaf_any_owner Sample.pf (fun r => Some (r + 1))
    (fun _ => true) Sample.leaf (Sample.by_id 77) 9 9 Sample.the_key 10 st).
Defined.

Lemma granted_update_stale_witness :
  let st := Daemon Sample.resolved
              (Sample.with_grant Sample.leaf 128 (put_patched Sample.the_key 10 no_caches)) ∅ in
  let pre := updateSubcomponent_pre Sample.leaf (Some (Sample.by_id 77)) None None st in
  let st' := (updateSubcomponent_post Sample.leaf (Some (Sample.by_id 77)) pre.2).2 in
  pre.1 = Continue /\
  patchedResponses (d_caches st') !! Sample.the_key =
    patchedResponses (d_caches st) !! Sample.the_key.
Proof.
  intros st. apply (granted_update_stale Sample.leaf (Sample.by_id 77)
    (MkGrant Sample.owner Sample.leaf Sample.the_key 128) None None st); try done.
Defined.
