(* ===== verification/KeystoreRuns.v ===== *)
(** * Transactions and runs of the keystore hooks

    The hooks of KeystoreHooks.v in the order the stub and the peer call them
    (Protocol.v, Peer.v): one transaction is pre-hook, keystore, post-hook; a run is any
    sequence of hooks and of changes to the configuration. *)

From S2P Require Import Prelude KeyModes AliasCache KeystoreHooks.
Local Open Scope Z_scope.

(** ** One transaction *)

(** What the caller receives: the reply of the real keystore, or the module's. *)
Inductive outcome (R : Type) := Real (rep : reply R) | Answered (a : answer R).
Arguments Real {R} rep.
Arguments Answered {R} a.

Section runs.
Context {R : Type} `{!Response R}.
Variable pf : PkgConfig.platform.
Implicit Types (st : daemon R) (c : caches R).

Definition transaction (pre post : daemon R -> answer R * daemon R) (keystore : reply R) st
  : outcome R * daemon R :=
  let '(a, st) := pre st in
  match a with
  | Skip => (Real keystore, st)
  | Continue =>
      let '(b, st) := post st in
      (match b with Skip | Continue => Real keystore | _ => Answered b end, st)
  | _ => (Answered a, st)
  end.

Definition getKeyEntry (hasKeyboxes : bool) (serializes : R -> bool) (patch : R -> option R)
    (uid : Z) (d : option KeyDescriptor) (keystore : reply R) : daemon R -> outcome R * daemon R :=
  transaction (getKeyEntry_pre pf hasKeyboxes serializes uid d)
    (getKeyEntry_post pf patch serializes uid d keystore) keystore.

Definition generateKey (grants_phone_state : kstring -> bool) (serializes has_leaf : R -> bool)
    (patch : R -> option R) (f : option forged) (level uid : Z) (q : keygen) (keystore : reply R)
  : daemon R -> outcome R * daemon R :=
  transaction (generateKey_pre pf grants_phone_state serializes f level uid (Some q))
    (generateKey_post has_leaf patch serializes level uid (Some (kg_descriptor q)) keystore)
    keystore.

(** ** Plain AUTO *)

Lemma plain_needGenerate uid st :
  isPlainAuto uid st = true ->
  exists st', needGenerate pf uid st = (false, st') /\ isPlainAuto uid st' = true /\
    d_caches st' = d_caches st /\ d_pendingPassthrough st' = d_pendingPassthrough st.
Proof.
  intros H. destruct (plain_auto_needGenerate pf uid (d_config st) H) as (c' & E & Hc).
  unfold needGenerate, ask. rewrite E. eexists. split; [done|]. split; [|done].
  unfold isPlainAuto in *. simpl. by rewrite <-(same_modes_plain uid _ _ Hc).
Qed.

Lemma plain_needHack uid st :
  isPlainAuto uid st = true ->
  exists st', needHack pf uid st = (true, st') /\ isPlainAuto uid st' = true /\
    d_caches st' = d_caches st /\ d_pendingPassthrough st' = d_pendingPassthrough st.
Proof.
  intros H. destruct (plain_auto_needHack pf uid (d_config st) H) as (c' & E & Hc).
  unfold needHack, ask. rewrite E. eexists. split; [done|]. split; [|done].
  unfold isPlainAuto in *. simpl. by rewrite <-(same_modes_plain uid _ _ Hc).
Qed.

Lemma plain_no_leaf uid st : isPlainAuto uid st = true -> isExplicitLeafHack uid st = false.
Proof. by intros (ps & _ & _ & ? & _)%plain_auto_resolved. Qed.

(** The descriptor names a grant to [uid] that lacks [GET_INFO]. *)
Definition grant_without_info (uid : Z) (d : KeyDescriptor) (c : caches R) : Prop :=
  exists g, d_nspace d <> 0 /\ grants c !! d_nspace d = Some g /\ g_granteeUid g = uid /\
    Z.land (g_accessVector g) GET_INFO = 0.

Lemma plain_shortcut serializes uid d st :
  isPlainAuto uid st = true ->
  (grant_shortcut serializes uid d st = Some (Error PERMISSION_DENIED) /\
   grant_without_info uid d (d_caches st)) \/
  (grant_shortcut serializes uid d st = None /\ ~ grant_without_info uid d (d_caches st)).
Proof.
  unfold grant_shortcut, grant_without_info. intros H. rewrite H.
  destruct (Z.eqb_spec (d_nspace d) 0); [right; naive_solver|].
  destruct (grants _ !! _) as [g|] eqn:Hg; [|right; naive_solver].
  destruct (Z.eqb_spec (g_granteeUid g) uid); simpl; [|right; naive_solver].
  destruct (Z.eqb_spec (Z.land (g_accessVector g) GET_INFO) 0); [left; eauto 10|right].
  split; [by destruct (cached_response _ _)|naive_solver].
Qed.

(** The hook refuses these requests of a plain AUTO caller, and no others. *)
Definition denied (hasKeyboxes : bool) (uid : Z) (descriptor : option KeyDescriptor)
    (c : caches R) : Prop :=
  hasKeyboxes = true /\ exists d, descriptor = Some d /\ grant_without_info uid d c.

Lemma plain_pre hasKeyboxes serializes uid d st :
  isPlainAuto uid st = true ->
  exists a st', getKeyEntry_pre pf hasKeyboxes serializes uid d st = (a, st') /\
    ((a = Error PERMISSION_DENIED /\ denied hasKeyboxes uid d (d_caches st)) \/
     (~ denied hasKeyboxes uid d (d_caches st) /\
      (a = Skip \/ (a = Continue /\ isPlainAuto uid st' = true)))).
Proof.
  intros H. unfold getKeyEntry_pre, denied.
  destruct hasKeyboxes; [|eexists _, _; split; [done|]; right; naive_solver].
  destruct d as [d|]; [|eexists _, _; split; [done|]; right; naive_solver].
  destruct (plain_shortcut serializes uid d st H) as [[-> Hg]|[-> Hg]].
  { eexists _, _. split; [done|]. left. eauto. }
  assert (Hn : ~ (true = true /\ exists d0, Some d = Some d0 /\
                 grant_without_info uid d0 (d_caches st))) by naive_solver.
  destruct (plain_needGenerate uid st H) as (st1 & -> & H1 & _).
  destruct (plain_needHack uid st1 H1) as (st2 & -> & H2 & _).
  destruct (isPassthroughDescriptor uid d (d_caches st2));
    [eexists _, _; split; [done|]; right; auto|].
  rewrite H2. destruct (rejectHistoricalOwners uid d (d_caches st2)) as [b c].
  eexists _, _. split; [done|]. right. auto.
Qed.

Lemma plain_post patch serializes uid d rep st :
  isPlainAuto uid st = true ->
  exists st', getKeyEntry_post pf patch serializes uid d rep st = (Skip, st').
Proof.
  intros H. unfold getKeyEntry_post. destruct rep as [|r]; [eauto|].
  unfold post_input. rewrite H.
  destruct (plain_needHack uid st H) as (st1 & -> & H1 & _).
  destruct (plain_needGenerate uid st1 H1) as (st2 & -> & _).
  unfold GetKeyEntryPostPolicy.decide. simpl. destruct d as [d|]; simpl; [|eauto].
  destruct (isPassthroughDescriptor _ _ _); eauto.
Qed.

(** What a plain AUTO caller receives for [getKeyEntry] is the reply of the real
    keystore, untouched, or the refusal of a grant without [GET_INFO]: no forged and no
    patched response reaches it, whatever the caches hold from earlier modes and whatever
    the TEE's state is. *)
Theorem plain_auto_reads_real hasKeyboxes serializes patch uid d keystore st :
  isPlainAuto uid st = true ->
  let o := (getKeyEntry hasKeyboxes serializes patch uid d keystore st).1 in
  (o = Real keystore /\ ~ denied hasKeyboxes uid d (d_caches st)) \/
  (o = Answered (Error PERMISSION_DENIED) /\ denied hasKeyboxes uid d (d_caches st)).
Proof.
  intros H o. subst o. unfold getKeyEntry, transaction.
  destruct (plain_pre hasKeyboxes serializes uid d st H) as (a & st1 & -> & Ha).
  destruct Ha as [[-> Hd]|(Hd & [->|[-> H1]])]; [by right|by left|].
  destruct (plain_post patch serializes uid d keystore st1 H1) as (st2 & ->). by left.
Qed.

(** A request of a plain AUTO caller is refused or forwarded, its alias cleared and marked. *)
Lemma plain_generate_pre gps serializes f level uid q alias st :
  isPlainAuto uid st = true -> d_alias (kg_descriptor q) = Some alias ->
  exists a st', generateKey_pre pf gps serializes f level uid (Some q) st = (a, st') /\
    ((exists e, a = Error e) \/
     (a = Continue /\ isPlainAuto uid st' = true /\
      d_caches st' = clearSyntheticCertificateState uid alias false (d_caches st) /\
      d_pendingPassthrough st' = {[(level, MkKey uid alias)]} ∪ d_pendingPassthrough st)).
Proof.
  intros H Ha. unfold generateKey_pre. rewrite Ha.
  destruct (match kg_challenge q with Some n => _ | None => _ end); [eauto 6|].
  destruct (kg_creationDatetime q); [eauto 6|].
  destruct (if kg_deviceId q then _ else _) as [ok st1] eqn:E.
  assert (isPlainAuto uid st1 = true /\ d_caches st1 = d_caches st /\
          d_pendingPassthrough st1 = d_pendingPassthrough st) as (H1 & C1 & P1).
  { destruct (kg_deviceId q); [|by injection E as _ <-]. revert E.
    unfold hasPermissionForUid, PkgConfig.packages_of.
    destruct (plain_auto_resolved _ _ H) as (ps & -> & _). by intros [= _ <-]. }
  clear E. destruct ok; [|eauto 6]. unfold route_keygen.
  destruct (plain_needGenerate uid st1 H1) as (st2 & -> & H2 & C2 & P2). simpl.
  destruct (plain_needHack uid st2 H2) as (st3 & -> & H3 & C3 & P3).
  rewrite (plain_no_leaf uid st3 H3). simpl. eexists _, _. split; [done|]. right.
  simpl. rewrite C3, C2, C1, P3, P2, P1. by split_and!.
Qed.


(** The mark of a forwarded request does not count requests: of two requests of a plain
    AUTO caller for one alias that are both sent before either is answered, the second reply
    is patched as if the caller were in leaf mode, and the alias is no longer tracked. *)
Theorem second_reply_is_patched gps serializes has_leaf patch f level uid q alias m1 m2 p st :
  isPlainAuto uid st = true -> d_alias (kg_descriptor q) = Some alias ->
  has_leaf m2 = true -> patch m2 = Some p -> serializes p = true ->
  let pre := generateKey_pre pf gps serializes f level uid (Some q) in
  let post r := generateKey_post has_leaf patch serializes level uid
                  (Some (kg_descriptor q)) (Reply (Some r)) in
  (pre st).1 = Continue -> (pre (pre st).2).1 = Continue ->
  let '(a, st') := post m2 (post m1 (pre (pre st).2).2).2 in
  a = Metadata p /\ (MkKey uid alias ∉ tracked (d_caches st')).
Proof.
  intros H Ha Hl Hp Hs pre post. subst pre post. cbv beta.
  destruct (plain_generate_pre gps serializes f level uid q alias st H Ha)
    as (a1 & st1 & -> & [[e ->]|(-> & H1 & C1 & P1)]); [done|]. intros _. cbn [fst snd].
  destruct (plain_generate_pre gps serializes f level uid q alias st1 H1 Ha)
    as (a2 & st2 & -> & [[e ->]|(-> & H2 & C2 & P2)]); [done|]. intros _. cbn [fst snd].
  unfold generateKey_post. simpl. rewrite Ha. simpl.
  rewrite (bool_decide_eq_true_2 ((level, MkKey uid alias) ∈ d_pendingPassthrough st2))
    by (rewrite P2; set_solver). simpl.
  rewrite bool_decide_eq_false_2 by set_solver. simpl. rewrite Hl, Hp, Hs. simpl.
  split; [done|]. destruct (r_nspace m2) as [n|]; [destruct (n =? 0)|]; simpl; set_solver.
Qed.
End runs.

(** ** Runs *)

(** [SoftwareOperationBinder.consumeUsage]: whether the use is denied *)
Definition consumeUsage {R} (key : Key) (usageCountLimit : Z) (c : caches R) : bool * caches R :=
  if usageCountLimit <=? 0 then (false, c)
  else
    let cur := default usageCountLimit (usageRemaining c !! key) in
    let after := if cur <=? 0 then cur else cur - 1 in
    (cur <=? 0,
     MkCaches (keys c) (keyPairs c) (skipLeafHacks c) (keysByNspace c) (patchedResponses c)
       (grants c) (<[key := after]> (usageRemaining c)) (tracked c) (byNspace c)
       (leafAlgorithms c) (persisted c)).

(** A hook that runs, or something that happens to the daemon. *)
Inductive event (R : Type) :=
| TargetsChanged (text : option kstring)
| KeyboxChanged
| TeeProbed (state : TeeState)
| PackageManagerDied
| UsageConsumed (key : Key) (usageCountLimit : Z)
| PreGetKeyEntry (hasKeyboxes : bool) (serializes : R -> bool) (uid : Z) (d : option KeyDescriptor)
| PostGetKeyEntry (patch : R -> option R) (serializes : R -> bool) (uid : Z)
    (d : option KeyDescriptor) (rep : reply R)
| PreGenerateKey (gps : kstring -> bool) (serializes : R -> bool) (f : option (@forged R))
    (level uid : Z) (q : option keygen)
| PostGenerateKey (has_leaf : R -> bool) (patch : R -> option R) (serializes : R -> bool)
    (level uid : Z) (d : option KeyDescriptor) (rep : reply R)
| PreImportKey (uid : Z)
| PostImportKey (uid : Z) (d : option KeyDescriptor) (rep : reply R)
| PreDeleteKey (uid : Z) (d : option KeyDescriptor)
| PostDeleteKey (uid : Z) (d : option KeyDescriptor)
| PreUpdateSubcomponent (uid : Z) (d : option KeyDescriptor) (pub chain : option (list Z))
| PostUpdateSubcomponent (uid : Z) (d : option KeyDescriptor)
| PreGrant (hasKeyboxes : bool) (entries : gmap Z GrantInfo -> list (Z * GrantInfo)) (fresh : Z)
    (uid : Z) (d : option KeyDescriptor) (granteeUid accessVector : Z)
| PostGrant (hasKeyboxes : bool) (uid : Z) (d : option KeyDescriptor)
    (granteeUid accessVector : Z) (granted : option Z)
| PreUngrant (uid : Z) (d : option KeyDescriptor) (granteeUid : Z).
Arguments TargetsChanged {R}.
Arguments KeyboxChanged {R}.
Arguments TeeProbed {R}.
Arguments PackageManagerDied {R}.
Arguments UsageConsumed {R}.
Arguments PreGetKeyEntry {R}.
Arguments PostGetKeyEntry {R}.
Arguments PreGenerateKey {R}.
Arguments PostGenerateKey {R}.
Arguments PreImportKey {R}.
Arguments PostImportKey {R}.
Arguments PreDeleteKey {R}.
Arguments PostDeleteKey {R}.
Arguments PreUpdateSubcomponent {R}.
Arguments PostUpdateSubcomponent {R}.
Arguments PreGrant {R}.
Arguments PostGrant {R}.
Arguments PreUngrant {R}.

Section invariant.
Context {R : Type} `{!Response R}.
Variable pf : PkgConfig.platform.
Implicit Types (st : daemon R) (c : caches R).

Definition handle (e : event R) st : daemon R :=
  match e with
  | TargetsChanged text => with_config (PkgConfig.updateTargetPackages text (d_config st)) st
  | KeyboxChanged => with_caches (cleanupAll (d_caches st)) st
  | TeeProbed s => with_config (PkgConfig.storeTEEStatus s (d_config st)) st
  | PackageManagerDied => with_config (PkgConfig.binderDied (d_config st)) st
  | UsageConsumed k n => with_caches (consumeUsage k n (d_caches st)).2 st
  | PreGetKeyEntry h s u d => (getKeyEntry_pre pf h s u d st).2
  | PostGetKeyEntry p s u d r => (getKeyEntry_post pf p s u d r st).2
  | PreGenerateKey g s f l u q => (generateKey_pre pf g s f l u q st).2
  | PostGenerateKey hl p s l u d r => (generateKey_post hl p s l u d r st).2
  | PreImportKey u => (importKey_pre pf u st).2
  | PostImportKey u d r => (importKey_post u d r st).2
  | PreDeleteKey u d => (deleteKey_pre u d st).2
  | PostDeleteKey u d => (deleteKey_post u d st).2
  | PreUpdateSubcomponent u d p ch => (updateSubcomponent_pre u d p ch st).2
  | PostUpdateSubcomponent u d => (updateSubcomponent_post u d st).2
  | PreGrant h es f u d g a => (grant_pre h es f u d g a st).2
  | PostGrant h u d g a i => (grant_post h u d g a i st).2
  | PreUngrant u d g => (ungrant_pre u d g st).2
  end.

Definition run (es : list (event R)) st : daemon R := foldl (fun st e => handle e st) st es.

(** The grants are iterated in some order. *)
Definition event_ok (e : event R) : Prop :=
  match e with
  | PreGrant _ entries _ _ _ _ _ => forall m, entries m ≡ₚ map_to_list m
  | _ => True
  end.

(** What the caches agree on: a key tracked for its real chain has no forged material; the
    registry's index leads to tracked keys; a grant is by the owner of a key the module has
    a response of; a key whose leaf hack is skipped is a forged one. *)
Record caches_ok c : Prop := {
  ok_tracked : forall k, k ∈ tracked c -> keys c !! k = None;
  ok_byNspace : forall n k, byNspace c !! n = Some k -> k ∈ tracked c;
  ok_grants : forall n g, grants c !! n = Some g ->
    isPatchedKey (g_key g) c = true /\ g_ownerUid g = k_uid (g_key g);
  ok_skip : forall k, is_Some (skipLeafHacks c !! k) -> is_Some (keys c !! k)
}.

Lemma isPatchedKey_spec k c :
  isPatchedKey k c = true <-> is_Some (keys c !! k) \/ is_Some (patchedResponses c !! k).
Proof. unfold isPatchedKey. by rewrite orb_true_iff, !bool_decide_eq_true. Qed.

Lemma ok_clear uid alias b c : caches_ok c -> caches_ok (clearSyntheticCertificateState uid alias b c).
Proof.
  intros [T N G S]. split; simpl.
  - intros k Hk. apply lookup_delete_None. right. by apply T.
  - done.
  - intros n g [Hg Hne]%map_lookup_filter_Some. simpl in Hne.
    destruct (G n g Hg) as [Hp Ho]. split; [|done]. revert Hp. rewrite !isPatchedKey_spec. simpl.
    by rewrite !lookup_delete_ne by done.
  - intros k Hk. destruct (decide (k = MkKey uid alias)) as [->|Hne].
    + rewrite lookup_delete_eq in Hk. by destruct Hk.
    + rewrite lookup_delete_ne in Hk by done. rewrite lookup_delete_ne by done. by apply S.
Qed.

Lemma ok_relinquish uid alias c : caches_ok c -> caches_ok (relinquishPassthroughOwnership uid alias c).
Proof.
  intros [T N G S]. split; simpl; [|..|done|done].
  - intros k [? _]%elem_of_difference. by apply T.
  - intros n k [Hn Hne]%map_lookup_filter_Some. apply elem_of_difference.
    split; [by eapply N|]. by intros ->%elem_of_singleton.
Qed.

Lemma ok_invalidate uid alias b c : caches_ok c -> caches_ok (invalidateCertificateResponseState uid alias b c).
Proof.
  intros H. unfold invalidateCertificateResponseState. destruct b; auto using ok_clear, ok_relinquish.
Qed.

Lemma ok_cleanupKey uid alias c : caches_ok c -> caches_ok (cleanupKey uid alias c).
Proof. intros H. by apply ok_relinquish, ok_clear. Qed.

Lemma ok_promote uid alias n c :
  caches_ok c -> keys c !! MkKey uid alias = None -> caches_ok (PassthroughKeyRegistry.promote uid alias n c).
Proof.
  intros [T N G S] Hk. split; simpl; [|..|done|done].
  - intros k [->%elem_of_singleton|?]%elem_of_union; [done|by apply T].
  - assert (Hs : forall n k, byNspace c !! n = Some k -> k ∈ {[MkKey uid alias]} ∪ tracked c)
      by (intros; apply elem_of_union_r; by eapply N).
    intros n' k. destruct n as [n|]; [|by apply Hs]. destruct (n =? 0); [by apply Hs|].
    rewrite lookup_insert_Some. intros [[_ <-]|[_ ?]]; [set_solver|by eapply Hs].
Qed.

Lemma ok_put_nspace n k c : caches_ok c -> caches_ok (put_nspace n k c).
Proof. by intros [T N G S]; split. Qed.

Lemma ok_put_keyPair k c : caches_ok c -> caches_ok (put_keyPair k c).
Proof. by intros [T N G S]; split. Qed.

Lemma ok_drop_skip k c : caches_ok c -> caches_ok (drop_skipLeafHack k c).
Proof.
  intros [T N G S]; split; try done. simpl. intros k' [x [_ Hx]%lookup_delete_Some]. apply S. by exists x.
Qed.

Lemma ok_consumeUsage k n c : caches_ok c -> caches_ok (consumeUsage k n c).2.
Proof. unfold consumeUsage. destruct (n <=? 0); [done|]. by intros [T N G S]; split. Qed.

Lemma ok_put_patched k r c : caches_ok c -> caches_ok (put_patched k r c).
Proof.
  intros [T N G S]; split; try done. intros n g Hg. destruct (G n g Hg) as [Hp Ho]. split; [|done].
  revert Hp. rewrite !isPatchedKey_spec. simpl. rewrite lookup_insert_is_Some'. tauto.
Qed.

Lemma ok_put_generated k i b c : caches_ok c -> (k ∉ tracked c) -> caches_ok (put_generated k i b c).
Proof.
  intros [T N G S] Hk; split; simpl; [|done|..].
  - intros k' Hk'. rewrite lookup_insert_ne by (by intros <-). by apply T.
  - intros n g Hg. destruct (G n g Hg) as [Hp Ho]. split; [|done].
    revert Hp. rewrite !isPatchedKey_spec. simpl. rewrite lookup_insert_is_Some'. tauto.
  - intros k' Hk'. rewrite lookup_insert_is_Some'.
    destruct b; [rewrite lookup_insert_is_Some' in Hk'; destruct Hk'; [by left|]|]; auto.
Qed.

Lemma ok_put_grant n g c :
  caches_ok c -> isPatchedKey (g_key g) c = true -> g_ownerUid g = k_uid (g_key g) ->
  caches_ok (put_grant n g c).
Proof.
  intros [T N G S] Hp Ho; split; try done. simpl. intros n' g'.
  rewrite lookup_insert_Some. intros [[_ <-]|[_ Hg]]; [done|]. by apply (G n').
Qed.

Lemma ok_drop_grants k u c : caches_ok c -> caches_ok (drop_grants k u c).
Proof.
  intros [T N G S]; split; try done. simpl. intros n g [Hg _]%map_lookup_filter_Some. by apply (G n).
Qed.

Lemma ok_updateKeyCertChain k p ch c : caches_ok c -> caches_ok (updateKeyCertChain k p ch c).
Proof.
  intros [T N G S]; split; simpl; [|done|..].
  - intros k' Hk'. destruct (decide (k' = k)) as [->|?].
    + rewrite lookup_alter_eq. by rewrite (T k Hk').
    + rewrite lookup_alter_ne by done. by apply T.
  - intros n g Hg. destruct (G n g Hg) as [Hp Ho]. split; [|done].
    revert Hp. rewrite !isPatchedKey_spec. simpl. by rewrite !lookup_alter_is_Some.
  - intros k' [x [_ Hx]%lookup_delete_Some]. rewrite lookup_alter_is_Some. apply S. by exists x.
Qed.

Lemma ok_cleanupAll c : caches_ok (cleanupAll c).
Proof.
  split; simpl; intros *; rewrite ?lookup_empty; try done; try set_solver.
Qed.

Lemma ok_load fs : caches_ok (loadPersistedKeys fs (no_caches : caches R)).
Proof.
  unfold loadPersistedKeys.
  assert (H : forall c, caches_ok c -> tracked c = ∅ -> grants c = ∅ -> byNspace c = ∅ ->
            caches_ok (foldl load_one c fs)).
  { induction fs as [|f fs IH]; intros c [T N G S] Ht Hg Hn; [done|]. simpl. apply IH; [|done..].
    split; simpl; rewrite ?Ht, ?Hg, ?Hn.
    - set_solver.
    - intros n k. by rewrite lookup_empty.
    - intros n g. by rewrite lookup_empty.
    - intros k Hk. rewrite lookup_insert_is_Some'.
      destruct (p_skipLeafHack f); [rewrite lookup_insert_is_Some' in Hk; destruct Hk; [by left|]|];
        auto. }
  apply H; [|done..]. split; simpl; intros *; rewrite ?lookup_empty; try done; try set_solver.
Qed.

Create HintDb hooks.
#[local] Hint Resolve ok_clear ok_relinquish ok_invalidate ok_cleanupKey ok_put_nspace
  ok_put_keyPair ok_drop_skip ok_consumeUsage ok_put_patched ok_drop_grants
  ok_updateKeyCertChain ok_cleanupAll : hooks.

Lemma ok_reject uid d c : caches_ok c -> caches_ok (rejectHistoricalOwners uid d c).2.
Proof.
  intros H. unfold rejectHistoricalOwners. destruct (d_alias d); [|done].
  destruct (_ && _); simpl; auto with hooks.
Qed.

Lemma ok_storeGeneratedKey serializes uid alias n f b st :
  caches_ok (d_caches st) ->
  caches_ok (d_caches (storeGeneratedKey serializes uid alias n f b st).2).
Proof.
  intros H. unfold storeGeneratedKey. destruct (f_response f); simpl; [|auto with hooks].
  apply ok_put_generated; [auto 6 with hooks|]. simpl. set_solver.
Qed.

Lemma ok_getKeyEntry_pre h s uid d st :
  caches_ok (d_caches st) -> caches_ok (d_caches (getKeyEntry_pre pf h s uid d st).2).
Proof.
  intros H. unfold getKeyEntry_pre. destruct h; [|done]. destruct d as [d|]; [|done].
  destruct (grant_shortcut s uid d st); [done|].
  destruct (needGenerate pf uid st) as [g st1] eqn:E1. apply ask_caches in E1.
  destruct (needHack pf uid st1) as [k st2] eqn:E2. apply ask_caches in E2.
  rewrite E1 in E2. pose proof (ok_reject uid d _ H).
  destruct g; [by destruct (isPassthroughDescriptor _ _ _); simpl; rewrite E1|].
  destruct k; [|by simpl; rewrite E2].
  destruct (isPassthroughDescriptor _ _ _); [by simpl; rewrite E2|].
  destruct (isPlainAuto uid st2); [rewrite E2; by destruct (rejectHistoricalOwners uid d _)|].
  destruct (shouldSkipLeafHackFor _ _ _); simpl; by rewrite E2.
Qed.

Lemma post_input_caches uid d st : d_caches (post_input pf uid d st).2 = d_caches st.
Proof.
  unfold post_input. destruct (needHack pf uid st) as [h s1] eqn:E1. apply ask_caches in E1.
  destruct h; simpl; [|done].
  destruct (needGenerate pf uid s1) as [g s2] eqn:E2. apply ask_caches in E2. simpl. congruence.
Qed.

Lemma ok_getKeyEntry_post p s uid d r st :
  caches_ok (d_caches st) -> caches_ok (d_caches (getKeyEntry_post pf p s uid d r st).2).
Proof.
  intros H. unfold getKeyEntry_post. destruct r as [|r]; [done|].
  pose proof (post_input_caches uid d st) as Hc.
  destruct (post_input pf uid d st) as [i s1]. simpl in Hc. rewrite <-Hc in H.
  destruct (GetKeyEntryPostPolicy.decide i); simpl; [done|done|].
  unfold patch_leaf. destruct r as [r|]; [|done]. destruct (p r); [|done]. simpl.
  destruct (r_nspace r) as [n|]; [destruct (n =? 0); [done|destruct (_ !! n)]|]; simpl;
    auto with hooks.
Qed.

Lemma ok_generateKey_pre g s f l uid q st :
  caches_ok (d_caches st) -> caches_ok (d_caches (generateKey_pre pf g s f l uid q st).2).
Proof.
  intros H. unfold generateKey_pre. destruct q as [q|]; [|done].
  destruct (match kg_challenge q with Some n => _ | None => _ end); [done|].
  destruct (d_alias (kg_descriptor q)) as [alias|]; [|done].
  destruct (kg_creationDatetime q); [done|].
  destruct (if kg_deviceId q then _ else _) as [ok st1] eqn:E.
  assert (d_caches st1 = d_caches st) as C1.
  { destruct (kg_deviceId q); [|by injection E as _ <-]. revert E. unfold hasPermissionForUid.
    destruct (PkgConfig.packages_of _ _ _). by intros [= _ <-]. }
  destruct ok; simpl; [|by rewrite C1]. unfold route_keygen.
  destruct (needGenerate pf uid st1) as [gen st2] eqn:E2. apply ask_caches in E2.
  destruct (needHack pf uid st2) as [hack st3] eqn:E3. apply ask_caches in E3.
  rewrite <-C1, <-E2 in H. unfold GenerateKeyRoute.computeForceForge. destruct gen.
  - destruct (kg_symmetric q); [done|]. destruct (negb _); [done|]. rewrite <-E3 in H.
    destruct f; [by apply ok_storeGeneratedKey|done].
  - rewrite <-E3 in H. destruct hack; simpl; [|done].
    destruct (GenerateKeyRoute.isPassthroughRoute _); simpl; auto with hooks.
Qed.

Lemma ok_generateKey_post hl p s l uid d r st :
  caches_ok (d_caches st) -> caches_ok (d_caches (generateKey_post hl p s l uid d r st).2).
Proof.
  intros H. unfold generateKey_post. destruct (d ≫= d_alias) as [alias|]; [|done].
  destruct r as [|r]; [done|]. destruct (bool_decide _).
  - simpl. apply ok_promote.
    + destruct (r ≫= r_nspace) as [n|]; [destruct (n =? 0)|]; auto with hooks.
    + destruct (r ≫= r_nspace) as [n|]; [destruct (n =? 0)|]; simpl; by rewrite lookup_delete_eq.
  - destruct r as [r|]; [|done]. destruct (negb _); [done|].
    destruct (p r); simpl; [|auto with hooks].
    destruct (r_nspace r) as [n|]; [destruct (n =? 0)|]; simpl; auto 6 with hooks.
Qed.

Lemma ok_updates uid d p ch st :
  caches_ok (d_caches st) ->
  caches_ok (d_caches (updateSubcomponent_pre uid d p ch st).2) /\
  caches_ok (d_caches (updateSubcomponent_post uid d st).2).
Proof.
  intros H. split.
  - unfold updateSubcomponent_pre. destruct d as [d|]; [|done].
    destruct (update_target _ _ _) as [[k|]|]; [|done..].
    destruct (bool_decide _); simpl; auto with hooks.
  - unfold updateSubcomponent_post. simpl. destruct (d ≫= _); simpl; auto with hooks.
Qed.

Lemma resolve_uid uid d c k : d ≫= (fun d => resolveKey uid d c) = Some k -> k_uid k = uid.
Proof. destruct d as [d|]; [|done]. apply resolveKey_uid. Qed.

Lemma ok_grants_hooks h entries f uid d g a i st :
  (forall m, entries m ≡ₚ map_to_list m) -> caches_ok (d_caches st) ->
  caches_ok (d_caches (grant_pre h entries f uid d g a st).2) /\
  caches_ok (d_caches (grant_post h uid d g a i st).2).
Proof.
  intros He H. split; unfold grant_pre, grant_post; destruct h; try done;
    destruct (d ≫= _) as [key|] eqn:Hk; try done; apply resolve_uid in Hk.
  - case_bool_decide as Hi; [|by destruct (isPatchedKey _ _)].
    destruct (filter _ _) as [|[id g'] l] eqn:Hf; simpl.
    + apply ok_put_grant; [done| |by simpl]. simpl. apply isPatchedKey_spec. by left.
    + assert ((id, g') ∈ entries (grants (d_caches st)) /\ is_grant_of key g g' = true) as [Hin Hg].
      { assert ((id, g') ∈ (id, g') :: l) as Hin by left. rewrite <-Hf in Hin.
        apply list_elem_of_filter in Hin as [? ?]. done. }
      rewrite He, elem_of_map_to_list in Hin.
      destruct (ok_grants _ H id g' Hin). by apply ok_put_grant.
  - destruct i as [i|]; [|done]. destruct (isPatchedKey key _) eqn:Hp; [|done].
    by apply ok_put_grant.
Qed.

Lemma handle_ok e st : event_ok e -> caches_ok (d_caches st) -> caches_ok (d_caches (handle e st)).
Proof.
  destruct e; simpl; intros He H; auto with hooks;
    auto using ok_getKeyEntry_pre, ok_getKeyEntry_post, ok_generateKey_pre, ok_generateKey_post.
  - unfold importKey_pre. destruct (needHack pf uid st) as [h st1] eqn:E1. apply ask_caches in E1.
    destruct h; simpl; [by rewrite E1|].
    destruct (needGenerate pf uid st1) as [g st2] eqn:E2. apply ask_caches in E2. simpl. congruence.
  - destruct rep; [done|]. destruct (d ≫= d_alias); simpl; auto with hooks.
  - unfold deleteKey_pre. destruct (d ≫= d_alias); simpl; auto with hooks.
  - destruct (d ≫= d_alias); simpl; auto with hooks.
  - by apply ok_updates.
  - by apply (ok_updates uid d None None).
  - by apply (ok_grants_hooks _ _ _ _ _ _ _ None).
  - by apply (ok_grants_hooks _ map_to_list 0).
  - unfold ungrant_pre. destruct (d ≫= _); simpl; auto with hooks.
Qed.

(** C11: whatever files the daemon starts from and whatever sequence of hooks, in any order
    and with any replies, of changes to [target.txt], of a new keybox and of deaths of the
    package manager follows, the caches agree: a key tracked for its real chain never has
    forged material, and every grant the module answers for is its owner's and on a key the
    module has a response of. *)
Theorem hooks_keep_caches_ok fs config es :
  Forall event_ok es ->
  caches_ok (d_caches (run es (Daemon config (loadPersistedKeys fs no_caches) ∅))).
Proof.
  intros Hes. unfold run.
  assert (H : caches_ok (d_caches (Daemon config (loadPersistedKeys fs (no_caches : caches R)) ∅)))
    by apply ok_load.
  revert H. generalize (Daemon config (loadPersistedKeys fs (no_caches : caches R)) ∅).
  induction Hes as [|e es He _ IH]; intros st Hst; [done|]. simpl. by apply IH, handle_ok.
Qed.
End invariant.

Lemma plain_auto_reads_real_witness :
  let st := Daemon Sample.resolved (Sample.with_grant Sample.plain 4 Sample.forged_caches) ∅ in
  let o := (getKeyEntry Sample.pf true (fun _ => true) Some Sample.plain (Some (Sample.by_id 77))
              (Reply (Some 9)) st).1 in
  (o = Real (Reply (Some 9)) /\
    ~ denied true Sample.plain (Some (Sample.by_id 77)) (d_caches st)) \/
  (o = Answered (Error PERMISSION_DENIED) /\
    denied true Sample.plain (Some (Sample.by_id 77)) (d_caches st)).
Proof.
  intros st. by apply (plain_auto_reads_real Sample.pf true (fun _ => true) Some Sample.plain
    (Some (Sample.by_id 77)) (Reply (Some 9)) st).
Defined.

(** A request for [by_alias] with a challenge. *)
Definition sample_request : keygen :=
  {| kg_descriptor := Sample.by_alias; kg_attestationKeySet := false; kg_challenge := Some 32;
     kg_creationDatetime := false; kg_deviceId := false; kg_attestPurpose := false;
     kg_symmetric := false; kg_usageCountLimit := 0 |}.


Lemma second_reply_is_patched_witness :
  let st := Daemon Sample.resolved no_caches ∅ in
  let pre := generateKey_pre Sample.pf (fun _ => false) (fun _ => true) None 1 Sample.plain
               (Some sample_request) in
  let post r := generateKey_post (fun _ => true) (fun r => Some (r + 100)) (fun _ => true) 1
                  Sample.plain (Some Sample.by_alias) (Reply (Some r)) in
  let '(a, st') := post 8 (post 7 (pre (pre st).2).2).2 in
  a = Metadata 108 /\ (MkKey Sample.plain [107] ∉ tracked (d_caches st')).
Proof.
  intros st. by apply (second_reply_is_patched Sample.pf (fun _ => false) (fun _ => true)
    (fun _ => true) (fun r => Some (r + 100)) None 1 Sample.plain sample_request [107] 7 8 108 st).
Defined.

(** A key of [owner] is restored, granted to [leaf] and deleted. *)
Lemma hooks_keep_caches_ok_witness :
  let f := {| p_key := Sample.the_key; p_hasPair := true; p_response := 500;
              p_usageCountLimit := 0; p_nspace := 9; p_skipLeafHack := false |} in
  let es := [PreGrant true map_to_list 77 Sample.owner (Some Sample.by_alias) Sample.leaf 4;
             PreDeleteKey Sample.owner (Some Sample.by_alias)] in
  caches_ok (d_caches (run Sample.pf es (Daemon Sample.fresh (loadPersistedKeys [f] no_caches) ∅))).
Proof.
  intros f es. apply (hooks_keep_caches_ok Sample.pf [f] Sample.fresh es).
  subst es. rewrite !Forall_cons, Forall_nil. simpl. split_and!; done.
Defined.
