(* ===== verification/KeystoreEnd.v ===== *)
(** * From the caller to the keystore and back

    The keystore hooks (KeystoreHooks.v) as the interceptor object (Peer.v) behind the native
    stub (Interceptor.v): what a caller of [getKeyEntry] gets through all three.  Reading
    the request and the reply from their parcels, and writing an answer to one, are
    parameters; so are the hooks of the other transactions, and what other transactions do
    to the module's state while the keystore runs. *)

From S2P Require Import Prelude Prog RefBase Parcel Registry Interceptor Protocol Peer.
From S2P Require Import KeyModes AliasCache.
From S2P Require KeystoreHooks KeystoreRuns.
Local Open Scope Z_scope.

Section keystore.
Context {P : Type} `{!ParcelOps P} `{!ParcelLaws P} `{!JavaParcel P} `{!JavaLaws P} `{!ParcelTotal P}.
Context {R : Type} `{!Response R}.
#[local] Abbreviation daemon := (KeystoreHooks.daemon R).
#[local] Abbreviation answer := (KeystoreHooks.answer R).

Variable pf : PkgConfig.platform.
Variables (hasKeyboxes : bool) (serializes : R -> bool) (patch : R -> option R).
Variable getKeyEntryTransaction : Z.
(** The keystore's binder, which the interceptor was started for. *)
Variable keystore : Z.

(** [enforceInterface] and [readTypedObject(KeyDescriptor.CREATOR)] of a request. *)
Variable readDescriptor : list tok -> option KeyDescriptor.
(** [readException] and [readTypedObject(KeyEntryResponse.CREATOR)] of a reply. *)
Variable readReply : list tok -> KeystoreHooks.reply R.
(** The parcels of InterceptorUtils.kt. *)
Variable render : answer -> P.

Variable other_pre : Z -> Z -> Z -> Z -> Z -> P -> option (Kt.Result P).
Variable other_post : Z -> Z -> Z -> Z -> Z -> P -> option P -> Z -> option (Kt.Result P).
Variable other_codes : list Z.
Variable superTransact : Z -> P -> option P -> Z -> bool * option P.

(** The module's state when the transaction arrives, and what the rest of the module does to
    it between the two hooks. *)
Variable st : daemon.
Variable between : daemon -> daemon.

(** The [Result] of a hook's answer. *)
Definition result_of (a : answer) : Kt.Result P :=
  match a with
  | KeystoreHooks.Skip => Kt.Skip
  | KeystoreHooks.Continue => Kt.Continue
  | _ => Kt.OverrideReply 0 (render a)
  end.

Definition pre_hook (uid : Z) (data : P) : answer * daemon :=
  KeystoreHooks.getKeyEntry_pre pf hasKeyboxes serializes uid (readDescriptor (unread data)) st.

Definition Keystore2Interceptor : Kt.Interceptor P := {|
  Kt.interceptedCodes := getKeyEntryTransaction :: other_codes;
  Kt.onPreTransact := fun target code flags callingUid callingPid data =>
    if code =? getKeyEntryTransaction then Some (result_of (pre_hook callingUid data).1)
    else other_pre target code flags callingUid callingPid data;
  Kt.onPostTransact := fun target code flags callingUid callingPid data reply resultCode =>
    match reply with
    | None => Some Kt.Skip
    | Some r =>
        if negb (target =? keystore) then Some Kt.Skip
        else if code =? getKeyEntryTransaction then
          Some (result_of (KeystoreHooks.getKeyEntry_post pf patch serializes callingUid
                  (readDescriptor (unread data)) (readReply (unread r))
                  (between (pre_hook callingUid data).2)).1)
        else other_post target code flags callingUid callingPid data reply resultCode
    end;
  Kt.super_onTransact := superTransact
|}.

Hypothesis other_ok :
  (forall target code flags uid pid d r,
     other_pre target code flags uid pid d = Some r -> result_ok r) /\
  (forall target code flags uid pid d reply rc r,
     other_post target code flags uid pid d reply rc = Some r -> result_ok r).
Hypothesis render_ok : forall a, java_size (contents (render a)).

Lemma result_of_ok a : result_ok (result_of a).
Proof. destruct a; simpl; try done; apply render_ok. Qed.

Lemma keystore_hooks_ok : hooks_ok Keystore2Interceptor.
Proof.
  destruct other_ok as [H1 H2]. split; simpl.
  - intros t c f u p d r. destruct (c =? _); [intros [= <-]; apply result_of_ok|apply H1].
  - intros t c f u p d [q|] rc r; [|by intros [= <-]].
    destruct (t =? keystore); simpl; [|by intros [= <-]].
    destruct (c =? _); [intros [= <-]; apply result_of_ok|apply H2].
Qed.

Variables (W : Z) (owner : Z -> Z).
Hypothesis wide : 32 <= W.
Variable deliver : list tok -> P.
Hypothesis deliver_starts : forall ts, starts (deliver ts) ts.

(** One run of the target, on the caller's request, whose answer is the caller's. *)
Definition target_answers (code flags : Z) (request : P) (reply : option P) (st' : Z)
    (r : option P) (calls : list (target_call P)) : Prop :=
  exists d, contents d = contents request /\ calls = [TargetCall code d reply flags (st', r)].

(** The target is not run, and the caller's reply is the refusal. *)
Definition refused (reply : option P) (st' : Z) (r : option P) (calls : list (target_call P)) : Prop :=
  calls = [] /\ st' = 0 /\
  reply_contents r =
    (fun p => contents p ++ contents (render (KeystoreHooks.Error KeystoreHooks.PERMISSION_DENIED))) <$> reply.

(** The request names a grant to the caller that lacks [GET_INFO], as the grants are when the
    transaction arrives. *)
Definition denies (uid : Z) (request : P) : Prop :=
  KeystoreRuns.denied hasKeyboxes (sext 32 uid) (readDescriptor (contents request))
    (KeystoreHooks.d_caches st).

(** C9: the whole way of a [getKeyEntry] of a plain AUTO caller, through the native stub, the
    two messages of the interceptor protocol and the Java hooks, whatever the module
    remembers from other modes and whatever other transactions do in between that leaves the
    caller plain AUTO.  A request that names a grant to the caller without [GET_INFO] is
    refused without the keystore being run.  For every other request the keystore runs exactly
    once, on the caller's request, and the caller gets its status and its reply as they are.
    (A keystore that died first gives [DEAD_OBJECT].) *)
Theorem plain_auto_reads_through (g : Z) (reg : registry) (w : wp_t) (code flags uid pid : Z)
    (request : P) (reply : option P) (interceptor : Z) :
  g <> 0 -> interceptor <> 0 -> m_ptr w <> 0 -> interceptor <> m_ptr w ->
  intercepts owner reg (m_ptr w) interceptor ->
  java_size (contents request) -> (forall r, reply = Some r -> unread r = []) ->
  sext 32 code = getKeyEntryTransaction ->
  KeystoreHooks.isPlainAuto (sext 32 uid) st = true ->
  (forall s, KeystoreHooks.isPlainAuto (sext 32 uid) s = true ->
             KeystoreHooks.isPlainAuto (sext 32 uid) (between s) = true) ->
  wpc (peer_env owner deliver Keystore2Interceptor interceptor (m_ptr w) uid pid) transacts
      (stub_dispatch W g reg w code request reply flags)
      (fun '(st', r) log =>
         (st' = DEAD_OBJECT /\ r = reply /\ log = []) \/
         (~ denies uid request /\
          target_answers code flags request reply st' r (to_object (m_ptr w) log)) \/
         (denies uid request /\ refused reply st' r (to_object (m_ptr w) log))).
Proof.
  intros Hg Hi Hw Hne Hreg Hreq Hrep Hcode Hplain Hbetween.
  eapply wpc_mono.
  { apply (stub_dispatch_hooked W owner wide deliver deliver_starts Keystore2Interceptor
             keystore_hooks_ok g reg w code flags uid pid request reply interceptor); done. }
  intros [st' r] log [Hdead|(p & Hp & H)]; [by left|right].
  simpl in H. rewrite Hcode, Z.eqb_refl in H. cbn [default from_option id] in H.
  destruct (KeystoreRuns.plain_pre pf hasKeyboxes serializes (sext 32 uid)
              (readDescriptor (unread p)) st Hplain) as (a & st1 & Ha & Hcases).
  unfold pre_hook at 1 in H. rewrite Ha in H. simpl in H.
  unfold denies. rewrite <-(proj2 Hp).
  destruct Hcases as [[-> Hden]|(Hden & [->|[-> H1]])]; simpl in H.
  - right. destruct H as (-> & -> & Hr). split; [done|]. by split_and!.
  - left. split; [done|]. by exists request.
  - left. split; [done|]. destruct H as (d & ans & -> & Hd & (p2 & r' & Hp2 & Hr' & Hpost)).
    exists d. split; [done|].
    enough ((st', r) = ans) as -> by done.
    destruct r' as [q|]; simpl in Hpost; [|done].
    destruct (m_ptr w =? keystore); simpl in Hpost; [|done].
    rewrite Hcode, Z.eqb_refl in Hpost. cbn [default from_option id] in Hpost.
    assert (Hst : pre_hook (sext 32 uid) p2 = pre_hook (sext 32 uid) p).
    { unfold pre_hook. by rewrite (proj2 Hp), (proj2 Hp2). }
    unfold pre_hook at 2 in Hst. rewrite Ha in Hst. rewrite Hst in Hpost. simpl in Hpost.
    destruct (KeystoreRuns.plain_post pf patch serializes (sext 32 uid)
                (readDescriptor (unread p2)) (readReply (unread q)) _ (Hbetween _ H1)) as (st2 & E).
    rewrite E in Hpost. exact Hpost.
Qed.
End keystore.

(** ** A concrete run

    The caller is plain AUTO and was granted a forged key, whose response is in the caches;
    the request names the grant.  The keystore's reply is 42. *)
#[local] Existing Instance KeystoreHooks.sample_response.

Module SampleEnd.
Import Registry.Sample.
Abbreviation keys := KeystoreHooks.Sample.forged_caches.

Definition readDescriptor (ts : list tok) : option KeyDescriptor :=
  match ts with T64 n :: _ => Some (KeystoreHooks.Sample.by_id n) | _ => None end.

Definition readReply (ts : list tok) : KeystoreHooks.reply Z :=
  match ts with T32 n :: _ => KeystoreHooks.Reply (Some n) | _ => KeystoreHooks.Exception end.

Definition render (a : KeystoreHooks.answer Z) : P :=
  match a with
  | KeystoreHooks.Error code => written [T32 1; T32 code]
  | KeystoreHooks.Entry r => written [T32 0; T32 r]
  | _ => written []
  end.

Definition caller : Z := KeystoreHooks.Sample.plain.

Definition state (access : Z) : KeystoreHooks.daemon Z :=
  KeystoreHooks.Daemon KeystoreHooks.Sample.resolved
    (KeystoreHooks.Sample.with_grant caller access keys) ∅.

Definition self (access : Z) : Kt.Interceptor P :=
  Keystore2Interceptor KeystoreHooks.Sample.pf true (fun _ => true) Some 3 service readDescriptor readReply
    render (fun _ _ _ _ _ _ => None) (fun _ _ _ _ _ _ _ _ => None) [] (fun _ _ r _ => (false, r))
    (state access) id.

Definition get_request : P := message [T64 77].

Definition answer (access : Z) (X : Type) (e : binderE P X) (s : unit) : X * unit :=
  (match e in binderE _ X return X with
   | RefCall r => ref_answer r
   | LocalBinder o => o
   | Transact o code data reply flags =>
       if o =? interceptor then
         (OK, (fun q => SamplePeer.deliver (contents q)) <$>
                (Kt.onTransact (self access) code (SamplePeer.deliver (contents data)) (Some p_new) flags).2)
       else (OK, (fun r => (p_writeInt32 r 42).2) <$> reply)
   | GetCallingUid => caller
   | GetCallingPid => 777
   | Allocate _ => true
   end, s).

Definition dispatch (access : Z) :=
  run (answer access) (stub_dispatch 64 1 reg key 3 get_request (Some reply) 16) tt.

(** With [GET_INFO] the keystore answers, without it the module refuses. *)
Example answered : (dispatch 4).1.1 = Done (OK, Some (written [T32 42])).
Proof. by vm_compute. Qed.

Example refusal : (dispatch 0).1.1 = Done (0, Some (written [T32 1; T32 6])).
Proof. by vm_compute. Qed.
End SampleEnd.

Lemma plain_auto_reads_through_witness :
  exists st r, (SampleEnd.dispatch 4).1.1 = Done (st, r) /\
    target_answers 3 16 SampleEnd.get_request (Some Registry.Sample.reply) st r
      (to_object Registry.Sample.service ((SampleEnd.dispatch 4).2 ≫= transacts)).
Proof.
  destruct (wpc_run
    (peer_env Registry.Sample.owner SamplePeer.deliver (SampleEnd.self 4)
       Registry.Sample.interceptor Registry.Sample.service SampleEnd.caller 777)
    transacts _ _ (SampleEnd.answer 4) tt
    (plain_auto_reads_through KeystoreHooks.Sample.pf true (fun _ => true) Some 3 Registry.Sample.service
       SampleEnd.readDescriptor SampleEnd.readReply SampleEnd.render (fun _ _ _ _ _ _ => None)
       (fun _ _ _ _ _ _ _ _ => None) [] (fun _ _ r _ => (false, r)) (SampleEnd.state 4) id
       ltac:(split; by intros) ltac:(by intros [| | | | | | | |]) 64 Registry.Sample.owner ltac:(lia) SamplePeer.deliver ltac:(done)
       1 Registry.Sample.reg Registry.Sample.key 3 16 SampleEnd.caller 777 SampleEnd.get_request
       (Some Registry.Sample.reply) Registry.Sample.interceptor
       ltac:(done) ltac:(done) ltac:(done) ltac:(done) Dispatch.reg_intercepts
       ltac:(by vm_compute) ltac:(by intros ? [= <-]) ltac:(by vm_compute) ltac:(by vm_compute)
       ltac:(done)))
    as ([st r] & Hrun & Hlog).
  - sample_trace.
  - exists st, r. split; [exact Hrun|].
    destruct Hlog as [(-> & _)|[(_ & H)|((_ & d & [= <-] & g & _ & Hg & _ & Ha) & _)]];
      [by vm_compute in Hrun|exact H|].
    exfalso. revert Hg Ha. simpl. vm_compute. by intros [= <-].
Defined.
