(* ===== verification/SoftwareOps.v ===== *)
(** * Operations of forged keys (interceptors/SoftwareOperationBinder.kt)

    What [createOperation] checks of a request, and the life of the operation it answers
    with: an engine of the Java cryptography behind a flag and the usage counter of the key.
    The engine is a parameter; so is the clock. *)

From S2P Require Import Prelude KeyModes AliasCache KeystoreHooks KeystoreRuns.
Local Open Scope Z_scope.

(** ** Constants of the platform *)

Definition RSA : Z := 1.
Definition EC : Z := 3.

Definition ENCRYPT : Z := 0.
Definition DECRYPT : Z := 1.
Definition SIGN : Z := 2.
Definition VERIFY : Z := 3.
Definition AGREE_KEY : Z := 6.

Definition TAG_PURPOSE : Z := 536870913.
Definition TAG_BLOCK_MODE : Z := 536870916.
Definition TAG_DIGEST : Z := 536870917.
Definition TAG_PADDING : Z := 536870918.
Definition TAG_RSA_OAEP_MGF_DIGEST : Z := 536871115.
Definition TAG_NONCE : Z := -1879047191.
Definition TAG_MAC_LENGTH : Z := 805307371.

Definition KM_DIGEST_SHA1 : Z := 2.
Definition KM_ERROR_UNSUPPORTED_PURPOSE : Z := -2.
Definition KM_ERROR_INCOMPATIBLE_PURPOSE : Z := -3.
Definition KM_ERROR_UNSUPPORTED_BLOCK_MODE : Z := -7.
Definition KM_ERROR_UNSUPPORTED_PADDING_MODE : Z := -10.
Definition KM_ERROR_UNSUPPORTED_DIGEST : Z := -12.
Definition KM_ERROR_KEY_NOT_YET_VALID : Z := -24.
Definition KM_ERROR_KEY_EXPIRED : Z := -25.
Definition KM_ERROR_INVALID_OPERATION_HANDLE : Z := -28.
Definition KM_ERROR_VERIFICATION_FAILED : Z := -30.
Definition KM_ERROR_INVALID_ARGUMENT : Z := -38.
Definition KM_ERROR_CALLER_NONCE_PROHIBITED : Z := -55.
Definition KM_ERROR_UNSUPPORTED_MGF_DIGEST : Z := -79.
Definition TOO_MUCH_DATA : Z := 21.
Definition MAX_RECEIVE_DATA : Z := 0x8000.

(** ** Requests *)

(** [KeyParameterValue]: the members of the union the request uses; reading another member
    than the one it holds throws. *)
Inductive KeyParameterValue :=
| keyPurpose (v : Z)
| digest (v : Z)
| paddingMode (v : Z)
| blockMode (v : Z)
| blob (v : list Z)
| integer (v : Z)
| other.

Record OpRequest := MkRequest {
  o_purpose : Z;
  o_digest : Z;
  o_padding : Z;
  o_blockMode : Z;
  o_nonce : option (list Z);
  o_macLength : option Z;
  o_mgfDigest : Z
}.

(** One parameter; a read that throws leaves the request. *)
Definition parse_one (r : OpRequest) (p : Z * KeyParameterValue) : OpRequest :=
  let '(tag, v) := p in
  let '(MkRequest pu di pa bm no ml mg) := r in
  if tag =? TAG_PURPOSE then
    match v with keyPurpose x => MkRequest x di pa bm no ml mg | _ => r end
  else if tag =? TAG_DIGEST then
    match v with digest x => MkRequest pu x pa bm no ml mg | _ => r end
  else if tag =? TAG_PADDING then
    match v with paddingMode x => MkRequest pu di x bm no ml mg | _ => r end
  else if tag =? TAG_BLOCK_MODE then
    match v with blockMode x => MkRequest pu di pa x no ml mg | _ => r end
  else if tag =? TAG_NONCE then
    match v with blob x => MkRequest pu di pa bm (Some x) ml mg | _ => r end
  else if tag =? TAG_MAC_LENGTH then
    match v with integer x => MkRequest pu di pa bm no (Some x) mg | _ => r end
  else if tag =? TAG_RSA_OAEP_MGF_DIGEST then
    match v with digest x => MkRequest pu di pa bm no ml x | _ => r end
  else r.

Definition parse (params : list (Z * KeyParameterValue)) : OpRequest :=
  foldl parse_one (MkRequest (-1) 0 0 0 None None 0) params.

(** The parameters of the key that are looked at. *)
Record KeyGenParameters := {
  k_algorithm : Z;
  k_purpose : list Z;
  k_digest : list Z;
  k_padding : list Z;
  k_blockMode : list Z;
  k_mgfDigest : list Z;
  k_callerNonce : option bool;
  k_activeDateTime : option Z;
  k_originationExpireDateTime : option Z;
  k_usageExpireDateTime : option Z
}.

Definition isAsymmetric (k : KeyGenParameters) : bool :=
  (k_algorithm k =? EC) || (k_algorithm k =? RSA).

Definition mem (x : Z) (l : list Z) : bool := bool_decide (x ∈ l).

(** [allowed.isNotEmpty() && x !in allowed] *)
Definition excluded (x : Z) (allowed : list Z) : bool :=
  negb (bool_decide (allowed = [])) && negb (mem x allowed).

Definition effectiveMgfDigest (op : OpRequest) : Z :=
  if o_mgfDigest op =? 0 then KM_DIGEST_SHA1 else o_mgfDigest op.

Definition authorizeOperation (now : Z) (k : KeyGenParameters) (op : OpRequest) : option Z :=
  let purpose := o_purpose op in
  if purpose <? 0 then Some KM_ERROR_INVALID_ARGUMENT
  else if isAsymmetric k && ((purpose =? VERIFY) || (purpose =? ENCRYPT))
  then Some KM_ERROR_UNSUPPORTED_PURPOSE
  else if (purpose =? AGREE_KEY) && negb (k_algorithm k =? EC)
  then Some KM_ERROR_UNSUPPORTED_PURPOSE
  else if negb (mem purpose (k_purpose k)) then Some KM_ERROR_INCOMPATIBLE_PURPOSE
  else if match k_activeDateTime k with Some t => now <? t | None => false end
  then Some KM_ERROR_KEY_NOT_YET_VALID
  else if ((purpose =? SIGN) || (purpose =? ENCRYPT)) &&
          match k_originationExpireDateTime k with Some t => t <? now | None => false end
  then Some KM_ERROR_KEY_EXPIRED
  else if ((purpose =? DECRYPT) || (purpose =? VERIFY)) &&
          match k_usageExpireDateTime k with Some t => t <? now | None => false end
  then Some KM_ERROR_KEY_EXPIRED
  else if bool_decide (is_Some (o_nonce op)) && ((purpose =? ENCRYPT) || (purpose =? SIGN)) &&
          negb (bool_decide (k_callerNonce k = Some true))
  then Some KM_ERROR_CALLER_NONCE_PROHIBITED
  else if excluded (o_digest op) (k_digest k) then Some KM_ERROR_UNSUPPORTED_DIGEST
  else if excluded (o_padding op) (k_padding k) then Some KM_ERROR_UNSUPPORTED_PADDING_MODE
  else if excluded (o_blockMode op) (k_blockMode k) then Some KM_ERROR_UNSUPPORTED_BLOCK_MODE
  else if excluded (effectiveMgfDigest op) (k_mgfDigest k)
  then Some KM_ERROR_UNSUPPORTED_MGF_DIGEST
  else None.

(** ** Operations *)

(** What a call may throw. *)
Inductive thrown := ServiceSpecific (code : Z) | AEADBadTag | OtherThrown.

Definition bytes : Type := list Z.
Definition result : Type := thrown + option bytes.

(** [OpEngine], over a state of its own *)
Record OpEngine (S : Type) := {
  e_update : option bytes -> S -> result * S;
  e_updateAad : option bytes -> S -> result * S;
  e_finish : option bytes -> option bytes -> S -> result * S
}.
Arguments e_update {S}.
Arguments e_updateAad {S}.
Arguments e_finish {S}.

(** [SoftwareOperationBinder]: its fields and the state of its engine *)
Record operation (S : Type) := MkOp {
  op_active : bool;
  op_engine : S;
  op_usageKey : option Key;
  op_usageCountLimit : Z
}.
Arguments MkOp {S}.
Arguments op_active {S}.
Arguments op_engine {S}.
Arguments op_usageKey {S}.
Arguments op_usageCountLimit {S}.

Section operations.
Context {S R : Type}.
Variable engine : OpEngine S.
Implicit Types (op : operation S) (c : caches R).

Definition set_op (active : bool) (s : S) op : operation S :=
  MkOp active s (op_usageKey op) (op_usageCountLimit op).

Definition oversized (data : option bytes) : bool :=
  match data with Some d => MAX_RECEIVE_DATA <? Z.of_nat (length d) | None => false end.

(** [checkActive] and [checkInput] *)
Definition check (data : option bytes) op : option thrown :=
  if negb (op_active op) then Some (ServiceSpecific KM_ERROR_INVALID_OPERATION_HANDLE)
  else if oversized data then Some (ServiceSpecific TOO_MUCH_DATA) else None.

Definition update (input : option bytes) op : result * operation S :=
  match check input op with
  | Some e => (inl e, op)
  | None => let '(r, s) := e_update engine input (op_engine op) in (r, set_op true s op)
  end.

Definition updateAad (input : option bytes) op : result * operation S :=
  match check input op with
  | Some e => (inl e, op)
  | None =>
      let '(r, s) := e_updateAad engine input (op_engine op) in
      (r, set_op (match r with inl _ => false | inr _ => true end) s op)
  end.

(** [consumeUsage], with its early return *)
Definition consume op c : bool * caches R :=
  match op_usageKey op with
  | Some key => consumeUsage key (op_usageCountLimit op) c
  | None => (false, c)
  end.

(** Exceptions of the engine become [KM_ERROR_VERIFICATION_FAILED]. *)
Definition finish_result (r : result) : result :=
  match r with
  | inl (ServiceSpecific code) => inl (ServiceSpecific code)
  | inl _ => inl (ServiceSpecific KM_ERROR_VERIFICATION_FAILED)
  | inr x => inr x
  end.

Definition finish (input signature : option bytes) op c : result * operation S * caches R :=
  match check input op with
  | Some e => (inl e, op, c)
  | None =>
      let '(deny, c) := consume op c in
      if deny then (inl (ServiceSpecific KM_ERROR_KEY_EXPIRED), op, c)
      else
        let '(r, s) := e_finish engine input signature (op_engine op) in
        (finish_result r, set_op false s op, c)
  end.

Definition abort op : operation S := set_op false (op_engine op) op.

Inductive call :=
| Update (input : option bytes)
| UpdateAad (input : option bytes)
| Finish (input signature : option bytes)
| Abort.

(** [synchronized]: one call of an operation at a time. *)
Definition invoke (m : call) op c : result * operation S * caches R :=
  match m with
  | Update i => (update i op, c)
  | UpdateAad i => (updateAad i op, c)
  | Finish i s => finish i s op c
  | Abort => (inr None, abort op, c)
  end.

(** The call runs the engine's last step. *)
Definition completes (m : call) op c : bool :=
  match m with
  | Finish i _ => bool_decide (check i op = None) && negb (consume op c).1
  | _ => false
  end.

(** Calls on the operations of a daemon, by the number of the operation: the operations
    and caches they leave, and how often an operation that [P] selects was completed. *)
Fixpoint calls (P : Z -> operation S -> bool) (ms : list (Z * call))
    (ops : gmap Z (operation S)) c : nat * gmap Z (operation S) * caches R :=
  match ms with
  | [] => (0%nat, ops, c)
  | (i, m) :: ms =>
      match ops !! i with
      | None => calls P ms ops c
      | Some op =>
          let '(_, op', c') := invoke m op c in
          let '(n, ops', c'') := calls P ms (<[i := op']> ops) c' in
          (((if P i op && completes m op c then 1 else 0) + n)%nat, ops', c'')
      end
  end.

(** ** Properties *)

Lemma invoke_keeps m op c :
  let '(_, op', _) := invoke m op c in
  op_usageKey op' = op_usageKey op /\ op_usageCountLimit op' = op_usageCountLimit op.
Proof.
  destruct m; simpl; unfold update, updateAad, finish, abort; try done.
  - destruct (check input op); [done|]. by destruct (e_update engine input (op_engine op)).
  - destruct (check input op); [done|]. by destruct (e_updateAad engine input (op_engine op)).
  - destruct (check input op); [done|]. destruct (consume op c) as [[] ?]; [done|].
    by destruct (e_finish engine input signature (op_engine op)).
Qed.

(** What is left of a key's uses. *)
Definition uses_left (k : Key) (limit : Z) c : Z := Z.max 0 (default limit (usageRemaining c !! k)).

Lemma consume_left k limit op c :
  0 < limit -> (op_usageKey op = Some k -> op_usageCountLimit op = limit) ->
  let '(deny, c') := consume op c in
  uses_left k limit c' = (if bool_decide (op_usageKey op = Some k) && negb deny
                     then uses_left k limit c - 1 else uses_left k limit c) /\
  (op_usageKey op = Some k -> deny = false -> 0 < uses_left k limit c).
Proof.
  intros Hl Hop. unfold consume. destruct (op_usageKey op) as [k'|] eqn:Hk; [|done].
  case_bool_decide as E.
  - injection E as ->. rewrite (Hop eq_refl). unfold consumeUsage, uses_left.
    destruct (Z.leb_spec limit 0); [lia|]. simpl. rewrite lookup_insert_eq. simpl.
    destruct (Z.leb_spec (default limit (usageRemaining c !! k)) 0); simpl; split; try done; lia.
  - simpl. assert (k <> k') by congruence. unfold consumeUsage, uses_left.
    destruct (op_usageCountLimit op <=? 0); simpl; [by split|].
    rewrite lookup_insert_ne by done. by split; [|congruence].
Qed.

Lemma invoke_left k limit m op c :
  0 < limit -> (op_usageKey op = Some k -> op_usageCountLimit op = limit) ->
  let '(_, _, c') := invoke m op c in
  Z.of_nat (if bool_decide (op_usageKey op = Some k) && completes m op c then 1 else 0)
    + uses_left k limit c' <= uses_left k limit c.
Proof.
  intros Hl Hop.
  destruct m; simpl; rewrite ?andb_false_r; simpl;
    [destruct (update input op); lia|destruct (updateAad input op); lia| |lia]. unfold finish.
  destruct (check input op) as [e|] eqn:Hc; simpl.
  { rewrite andb_false_r. simpl. lia. }
  pose proof (consume_left k limit op c Hl Hop) as Hcons. destruct (consume op c) as [deny c'].
  destruct Hcons as [Hleft _]. destruct deny; simpl in *.
  - rewrite andb_false_r in *. lia.
  - destruct (e_finish engine input signature (op_engine op)). simpl. rewrite andb_true_r in *.
    destruct (bool_decide (op_usageKey op = Some k)); lia.
Qed.

(** C33: a key with a usage limit: however many operations are open on it and however their
    calls follow each other, no more of them are completed than the counter of the key had
    left; the counter is set to the limit when the key is made. *)
Theorem usage_limit_respected (k : Key) (limit : Z) ms ops c :
  0 < limit ->
  (forall i op, ops !! i = Some op -> op_usageKey op = Some k -> op_usageCountLimit op = limit) ->
  let n := (calls (fun _ op => bool_decide (op_usageKey op = Some k)) ms ops c).1.1 in
  Z.of_nat n <= uses_left k limit c.
Proof.
  intros Hl. revert ops c. induction ms as [|[i m] ms IH]; intros ops c Hops; simpl.
  { unfold uses_left. lia. }
  destruct (ops !! i) as [op|] eqn:Hi; [|by apply IH].
  pose proof (invoke_keeps m op c) as Hkeep. pose proof (invoke_left k limit m op c Hl (Hops i op Hi)).
  destruct (invoke m op c) as [[r op'] c']. destruct Hkeep as [Hk Hlim].
  assert (Hops' : forall j op1, <[i := op']> ops !! j = Some op1 -> op_usageKey op1 = Some k ->
            op_usageCountLimit op1 = limit).
  { intros j op1. rewrite lookup_insert_Some. intros [[_ <-]|[_ Hj]]; [|by apply (Hops j)].
    rewrite Hk, Hlim. by apply (Hops i). }
  specialize (IH (<[i := op']> ops) c' Hops'). simpl in IH.
  destruct (calls _ ms (<[i := op']> ops) c') as [[n' ops'] c'']. simpl in *. lia.
Qed.

Lemma completes_ends m op c :
  let '(_, op', _) := invoke m op c in
  (op_active op = false -> op_active op' = false) /\
  (completes m op c = true -> op_active op = true /\ op_active op' = false).
Proof.
  destruct m; simpl; unfold update, updateAad, finish, abort, check; destruct (op_active op) eqn:Ha;
    simpl; try done.
  - destruct (oversized input); [done|]. by destruct (e_update engine input (op_engine op)).
  - destruct (oversized input); [done|]. by destruct (e_updateAad engine input (op_engine op)).
  - destruct (oversized input); [done|]. destruct (consume op c) as [[] ?]; simpl; [done|].
    by destruct (e_finish engine input signature (op_engine op)).
Qed.

(** An operation is completed at most once, and never after it was aborted or failed. *)
Theorem completed_once (i : Z) ms ops c :
  ((calls (fun j _ => j =? i)%Z ms ops c).1.1 <=
     match ops !! i with Some op => if op_active op then 1 else 0 | None => 0 end)%nat.
Proof.
  revert ops c. induction ms as [|[j m] ms IH]; intros ops c; simpl; [lia|].
  destruct (ops !! j) as [op|] eqn:Hj; [|by apply IH].
  pose proof (completes_ends m op c) as Hends. destruct (invoke m op c) as [[r op'] c'].
  specialize (IH (<[j := op']> ops) c'). destruct (calls _ ms _ c') as [[n ops'] c'']. simpl in *.
  destruct (Z.eqb_spec j i) as [->|Hne]; simpl.
  - rewrite lookup_insert_eq in IH. rewrite Hj. destruct Hends as [H1 H2].
    destruct (completes m op c); [destruct (H2 eq_refl) as [-> Hoff]; rewrite Hoff in IH; lia|].
    destruct (op_active op); [destruct (op_active op'); lia|]. rewrite (H1 eq_refl) in IH. lia.
  - by rewrite lookup_insert_ne in IH by done.
Qed.
End operations.

Lemma guard_None {A} (b : bool) (e : A) r :
  (if b then Some e else r) = None <-> b = false /\ r = None.
Proof. destruct b; naive_solver. Qed.

Lemma excluded_spec x l : excluded x l = false <-> (l <> [] -> x ∈ l).
Proof.
  unfold excluded, mem. rewrite andb_false_iff, !negb_false_iff, !bool_decide_eq_true.
  destruct l; [naive_solver|]. split; [by intros [?|?]|]. auto.
Qed.

Lemma date_spec (p : bool) (o : option Z) (late : Z -> bool) :
  p && match o with Some t => late t | None => false end = false <->
  (forall t, o = Some t -> p = true -> late t = false).
Proof.
  rewrite andb_false_iff. destruct o as [t|]; [|naive_solver].
  destruct p; naive_solver.
Qed.

Lemma purpose_spec (p a b : Z) : (p =? a) || (p =? b) = true <-> p = a \/ p = b.
Proof. by rewrite orb_true_iff, !Z.eqb_eq. Qed.

(** The counter is not among what [loadPersistedKeys] restores: after a start every key has
    all its uses again. *)
Lemma restart_restores_uses {R} (k : Key) (limit : Z) (fs : list (@persisted_key R)) :
  uses_left k limit (loadPersistedKeys fs no_caches) = Z.max 0 limit.
Proof.
  unfold loadPersistedKeys, uses_left.
  assert (H : forall c : caches R, usageRemaining (foldl load_one c fs) = usageRemaining c).
  { induction fs as [|f fs IH]; intros c; simpl; [done|]. by rewrite IH. }
  by rewrite H.
Qed.

(** What [createOperation] lets through: an operation is authorised exactly when its
    purpose is one of the key's and one a forged key of the algorithm serves, now lies
    within the dates that bind the purpose, a nonce of the caller is allowed, and digest,
    padding, block mode and MGF digest are among those of the key where it names any. *)
Theorem authorizeOperation_accepts (now : Z) (k : KeyGenParameters) (op : OpRequest) :
  authorizeOperation now k op = None <->
    0 <= o_purpose op /\
    (k_algorithm k = EC \/ k_algorithm k = RSA -> o_purpose op <> VERIFY /\ o_purpose op <> ENCRYPT) /\
    (o_purpose op = AGREE_KEY -> k_algorithm k = EC) /\
    o_purpose op ∈ k_purpose k /\
    (forall t, k_activeDateTime k = Some t -> t <= now) /\
    (forall t, k_originationExpireDateTime k = Some t ->
       o_purpose op = SIGN \/ o_purpose op = ENCRYPT -> now <= t) /\
    (forall t, k_usageExpireDateTime k = Some t ->
       o_purpose op = DECRYPT \/ o_purpose op = VERIFY -> now <= t) /\
    (is_Some (o_nonce op) -> o_purpose op = ENCRYPT \/ o_purpose op = SIGN ->
       k_callerNonce k = Some true) /\
    (k_digest k <> [] -> o_digest op ∈ k_digest k) /\
    (k_padding k <> [] -> o_padding op ∈ k_padding k) /\
    (k_blockMode k <> [] -> o_blockMode op ∈ k_blockMode k) /\
    (k_mgfDigest k <> [] -> effectiveMgfDigest op ∈ k_mgfDigest k).
Proof.
  unfold authorizeOperation. rewrite !guard_None, !excluded_spec.
  repeat apply Morphisms_Prop.and_iff_morphism; try done.
  - apply Z.ltb_ge.
  - unfold isAsymmetric. rewrite andb_false_iff, !orb_false_iff, !Z.eqb_neq. split; [tauto|].
    intros H. destruct (decide (k_algorithm k = EC)), (decide (k_algorithm k = RSA)); tauto.
  - rewrite andb_false_iff, negb_false_iff, Z.eqb_neq, Z.eqb_eq.
    destruct (decide (o_purpose op = AGREE_KEY)); tauto.
  - unfold mem. by rewrite negb_false_iff, bool_decide_eq_true.
  - destruct (k_activeDateTime k) as [t|]; [rewrite Z.ltb_ge|]; naive_solver.
  - rewrite date_spec. setoid_rewrite purpose_spec. by setoid_rewrite Z.ltb_ge.
  - rewrite date_spec. setoid_rewrite purpose_spec. by setoid_rewrite Z.ltb_ge.
  - rewrite !andb_false_iff, negb_false_iff, bool_decide_eq_true, bool_decide_eq_false,
      <-not_true_iff_false, purpose_spec.
    destruct (decide (is_Some (o_nonce op))), (decide (k_callerNonce k = Some true)); tauto.
  - naive_solver.
Qed.

(** Two operations are open on a key of one use, and both are finished twice. *)
Lemma usage_limit_respected_witness :
  let k := Sample.the_key in
  let engine := Build_OpEngine unit (fun _ s => (inr None, s)) (fun _ s => (inr None, s))
                  (fun _ _ s => (inr None, s)) in
  let c := put_generated k (MkInfo 500 1) false (no_caches : caches Z) in
  let ops : gmap Z (operation unit) := {[ 1 := MkOp true tt (Some k) 1; 2 := MkOp true tt (Some k) 1 ]} in
  let f := Finish None None in
  let n := (calls engine (fun _ op => bool_decide (op_usageKey op = Some k))
              [(1, f); (2, f); (1, f); (2, f)] ops c).1.1 in
  n = 1%nat /\ Z.of_nat n <= 1.
Proof.
  intros k engine c ops f n. split; [by vm_compute|].
  apply (usage_limit_respected engine k 1 [(1, f); (2, f); (1, f); (2, f)] ops c); [done|].
  intros i op. unfold ops. rewrite lookup_insert_Some, lookup_singleton_Some.
  by intros [[_ <-]|[_ [_ <-]]].
Defined.
