(* ===== verification/ListEntries.v ===== *)
(** * Listing entries (Keystore2Interceptor.kt, mergeListEntries)

    The post-hook of [listEntries] and [listEntriesBatched] merges the aliases of the
    caller's forged keys into the reply of the real keystore. *)

From stdpp Require Import sorting.
From S2P Require Import Prelude KeyModes AliasCache KeystoreHooks.
Local Open Scope Z_scope.

(** [String.compareTo]: by UTF-16 code units; [a <= b]. *)
Fixpoint alias_le (a b : kstring) : bool :=
  match a, b with
  | [], _ => true
  | _ :: _, [] => false
  | x :: a', y :: b' => (x <? y) || ((x =? y) && alias_le a' b')
  end.

Definition alias_of (d : KeyDescriptor) : kstring := default [] (d_alias d).

Definition by_alias_order (d e : KeyDescriptor) : Prop := alias_le (alias_of d) (alias_of e) = true.

#[export] Instance by_alias_order_dec : RelDecision by_alias_order.
Proof. intros d e. unfold by_alias_order. apply _. Defined.

(** [sortedBy]: a stable sort. *)
Fixpoint insert_by_alias (d : KeyDescriptor) (l : list KeyDescriptor) : list KeyDescriptor :=
  match l with
  | [] => [d]
  | e :: l' => if alias_le (alias_of d) (alias_of e) then d :: l else e :: insert_by_alias d l'
  end.

Definition sortedBy_alias (l : list KeyDescriptor) : list KeyDescriptor :=
  foldr insert_by_alias [] l.

Definition forged_descriptor (uid : Z) (alias : kstring) : KeyDescriptor :=
  {| d_domain := 0; d_nspace := uid; d_alias := Some alias |}.

(** The loop over the caller's forged keys: [seen] is [existingAliases]. *)
Fixpoint to_add (uid : Z) (past : option kstring) (seen : list kstring) (aliases : list kstring)
  : list KeyDescriptor :=
  match aliases with
  | [] => []
  | a :: rest =>
      if match past with Some p => alias_le a p | None => false end
      then to_add uid past seen rest
      else if bool_decide (a ∈ seen) then to_add uid past seen rest
      else forged_descriptor uid a :: to_add uid past (a :: seen) rest
  end.

Definition forged_aliases {R} (uid : Z) (c : caches R) : list kstring :=
  map (fun e => k_alias e.1) (filter (fun e => k_uid e.1 = uid) (map_to_list (keys c))).

(** [past]: [startPastAlias] of a batched listing; [existing]: the reply, which may have
    null entries; [None] leaves it alone. *)
Definition mergeListEntries {R} (uid domain : Z) (past : option kstring)
    (existing : reply (list (option KeyDescriptor))) (c : caches R) : option (list KeyDescriptor) :=
  if negb (domain =? 0) then None
  else match existing with
  | Exception => None
  | Reply l =>
      let present := omap id (default [] l) in
      let added := to_add uid past (omap d_alias present) (forged_aliases uid c) in
      if bool_decide (added = []) then None else Some (sortedBy_alias (present ++ added))
  end.

(** ** The merged list *)

Lemma alias_le_refl a : alias_le a a = true.
Proof. induction a as [|x a IH]; simpl; [done|]. by rewrite Z.eqb_refl, IH, orb_true_r. Qed.

Lemma alias_le_total a b : alias_le a b = false -> alias_le b a = true.
Proof.
  revert b. induction a as [|x a IH]; intros [|y b]; simpl; try done.
  rewrite orb_false_iff, andb_false_iff, orb_true_iff, andb_true_iff.
  rewrite Z.ltb_ge, Z.ltb_lt, Z.eqb_neq, Z.eqb_eq. intros [H1 [H2|H2]]; [left; lia|].
  destruct (Z.eq_dec x y) as [->|]; [right; auto|left; lia].
Qed.

Lemma alias_le_trans a b c : alias_le a b = true -> alias_le b c = true -> alias_le a c = true.
Proof.
  revert b c. induction a as [|x a IH]; intros [|y b] [|z c]; simpl; try done.
  rewrite !orb_true_iff, !andb_true_iff, !Z.ltb_lt, !Z.eqb_eq.
  intros [?|[-> Ha]] [?|[-> Hb]]; [left; lia..|]. right. eauto.
Qed.

#[export] Instance by_alias_order_trans : Transitive by_alias_order.
Proof. intros d e f. apply alias_le_trans. Qed.

Lemma insert_by_alias_perm d l : insert_by_alias d l ≡ₚ d :: l.
Proof.
  induction l as [|e l IH]; simpl; [done|]. destruct (alias_le _ _); [done|].
  by rewrite IH, Permutation_swap.
Qed.

Lemma sortedBy_alias_perm l : sortedBy_alias l ≡ₚ l.
Proof. induction l as [|d l IH]; simpl; [done|]. by rewrite insert_by_alias_perm, IH. Qed.

Lemma insert_by_alias_sorted d l :
  StronglySorted by_alias_order l -> StronglySorted by_alias_order (insert_by_alias d l).
Proof.
  induction 1 as [|e l Hl IH He]; simpl; [by repeat constructor|].
  destruct (alias_le (alias_of d) (alias_of e)) eqn:E.
  - constructor; [by constructor|]. constructor; [done|].
    eapply Forall_impl; [exact He|]. intros f. by apply alias_le_trans.
  - constructor; [done|]. rewrite insert_by_alias_perm. constructor; [|done].
    by apply alias_le_total.
Qed.

Lemma sortedBy_alias_sorted l : StronglySorted by_alias_order (sortedBy_alias l).
Proof. induction l; simpl; [constructor|]. by apply insert_by_alias_sorted. Qed.

(** The alias belongs on this page. *)
Definition on_page (past : option kstring) (a : kstring) : Prop :=
  match past with Some p => alias_le a p = false | None => True end.

#[export] Instance on_page_dec past a : Decision (on_page past a).
Proof. unfold on_page. destruct past; apply _. Defined.

Lemma to_add_spec uid past seen aliases d :
  d ∈ to_add uid past seen aliases <->
  exists a, d = forged_descriptor uid a /\ a ∈ aliases /\ (a ∉ seen) /\ on_page past a.
Proof.
  revert seen. induction aliases as [|b rest IH]; intros seen; simpl.
  { split; [by intros ?%elem_of_nil|]. by intros (a & _ & ?%elem_of_nil & _). }
  setoid_rewrite elem_of_cons.
  destruct (match past with Some p => alias_le b p | None => false end) eqn:E.
  { rewrite IH. split; [naive_solver|]. intros (a & -> & [->|?] & Ha & Hp); [|eauto].
    unfold on_page in Hp. destruct past; [congruence|done]. }
  case_bool_decide as Hb.
  { rewrite IH. split; [naive_solver|]. intros (a & -> & [->|?] & Ha & Hp); [done|eauto]. }
  rewrite elem_of_cons, IH. setoid_rewrite not_elem_of_cons. split.
  - intros [->|(a & -> & ? & [? ?] & ?)]; [|eauto 6]. exists b. split_and!; auto.
    unfold on_page. by destruct past.
  - intros (a & -> & [->|?] & Ha & Hp); [by left|].
    destruct (decide (a = b)) as [->|]; [by left|right; eauto 8].
Qed.

Lemma to_add_NoDup uid past seen aliases : NoDup (to_add uid past seen aliases).
Proof.
  revert seen. induction aliases as [|b rest IH]; intros seen; simpl; [constructor|].
  destruct (match past with Some p => _ | None => _ end); [done|]. case_bool_decide; [done|].
  constructor; [|done]. intros (a & [= <-] & _ & Ha & _)%to_add_spec. set_solver.
Qed.

Lemma forged_aliases_spec {R} uid (c : caches R) a :
  a ∈ forged_aliases uid c <-> is_Some (keys c !! MkKey uid a).
Proof.
  unfold forged_aliases. rewrite list_elem_of_fmap. split.
  - intros ([[u b] i] & -> & [Hu Hin]%list_elem_of_filter). simpl in *. subst.
    apply elem_of_map_to_list in Hin. by exists i.
  - intros [i Hi]. exists (MkKey uid a, i). split; [done|]. apply list_elem_of_filter.
    split; [done|]. by apply elem_of_map_to_list.
Qed.

(** C34: a merged listing is sorted by alias and consists of the real keystore's entries and
    of one entry, with the caller's uid, for each of its forged keys that belongs on the
    page and that the keystore does not list itself: none is lost, none listed twice, and
    no forged key of another uid appears. *)
Theorem mergeListEntries_lists {R} uid domain past existing (c : caches R) merged :
  mergeListEntries uid domain past existing c = Some merged ->
  exists l added, existing = Reply l /\ merged ≡ₚ omap id (default [] l) ++ added /\
    StronglySorted by_alias_order merged /\ NoDup added /\
    forall d, d ∈ added <->
      exists a, d = forged_descriptor uid a /\ is_Some (keys c !! MkKey uid a) /\
        (a ∉ omap d_alias (omap id (default [] l))) /\ on_page past a.
Proof.
  unfold mergeListEntries. destruct (negb (domain =? 0)); [done|].
  destruct existing as [|l]; [done|]. case_bool_decide; [done|]. intros [= <-].
  eexists l, _. split; [done|]. split; [apply sortedBy_alias_perm|].
  split; [apply sortedBy_alias_sorted|]. split; [apply to_add_NoDup|].
  intros d. rewrite to_add_spec. by setoid_rewrite forged_aliases_spec.
Qed.

Lemma mergeListEntries_lists_witness :
  let real := {| d_domain := 0; d_nspace := 4; d_alias := Some [98] |} in
  let merged := [real; forged_descriptor Sample.owner [107]] in
  exists l added, Reply (Some [Some real]) = Reply l /\ merged ≡ₚ omap id (default [] l) ++ added /\
    StronglySorted by_alias_order merged /\ NoDup added /\
    forall d, d ∈ added <->
      exists a, d = forged_descriptor Sample.owner a /\
        is_Some (keys Sample.forged_caches !! MkKey Sample.owner a) /\
        (a ∉ omap d_alias (omap id (default [] l))) /\ on_page (Some [97]) a.
Proof.
  intros real merged. apply (mergeListEntries_lists Sample.owner 0 (Some [97])).
  by vm_compute.
Defined.

(** ** Paging *)

(** A client that lists in batches asks for what comes after the last alias it was given.
    [real_batch] is a keystore that answers with at most [n] aliases. *)
Definition real_batch (n : nat) (aliases : list kstring) (past : option kstring) : list kstring :=
  take n (filter (fun a => on_page past a) aliases).

Fixpoint list_all {R} (fuel n : nat) (uid : Z) (aliases : list kstring) (past : option kstring)
    (c : caches R) : list kstring :=
  match fuel with
  | O => []
  | S fuel =>
      let batch := map (forged_descriptor uid) (real_batch n aliases past) in
      let page := map alias_of
        (default batch (mergeListEntries uid 0 past (Reply (Some (map Some batch))) c)) in
      match last page with
      | None => []
      | Some a => page ++ list_all fuel n uid aliases (Some a) c
      end
  end.

(** A page is merged with all forged aliases after its start, also with those beyond the
    last alias of the real batch: the client goes on after them, and the real aliases in
    between are on no page. *)
Example paging_skips_real_keys :
  list_all 10 2 Sample.owner [[97]; [98]; [99]] None Sample.forged_caches = [[97]; [98]; [107]].
Proof. by vm_compute. Qed.
