(* ===== verification/TypeHelpers.v ===== *)
(** * Typed storage (utils/TypeHelpers.h, and the hooks of utils/Vector.h)

    The traits of element types, and the loops that construct, destroy, copy and move the
    elements of untyped storage.  An address is the index of an element.  A cell holds a
    value or is raw; for a type whose destructor does something, reading or destroying a raw
    cell and constructing over an object are faults ([None]). *)

From stdpp Require Import gmap.
From S2P Require Import Prelude.

(** ** Traits *)

(** The types that have traits: the basic ones, pointers, pairs, and classes, with what the
    macros declare of them. *)
Inductive ctype :=
| Basic
| Pointer (t : ctype)
| KeyValuePair (k v : ctype)
| Class_ (ctor dtor copy move : bool).

Record trait_values := Traits {
  has_trivial_ctor : bool;
  has_trivial_dtor : bool;
  has_trivial_copy : bool;
  has_trivial_move : bool
}.

Definition trait_pointer (t : ctype) : bool := match t with Pointer _ => true | _ => false end.

Definition aggregate_traits (a b : trait_values) : trait_values :=
  Traits (has_trivial_ctor a && has_trivial_ctor b) (has_trivial_dtor a && has_trivial_dtor b)
    (has_trivial_copy a && has_trivial_copy b) (has_trivial_move a && has_trivial_move b).

(** The [trait_trivial_*] of a type: its own specialisations. *)
Fixpoint trait_trivial (t : ctype) : trait_values :=
  match t with
  | Basic | Pointer _ => Traits true true true true
  | Class_ c d p m => Traits c d p m
  | KeyValuePair k v =>
      let own u := let w := trait_trivial u in
        Traits (trait_pointer u || has_trivial_ctor w) (trait_pointer u || has_trivial_dtor w)
          (trait_pointer u || has_trivial_copy w) (trait_pointer u || has_trivial_move w) in
      aggregate_traits (own k) (own v)
  end.

Definition traits (t : ctype) : trait_values :=
  let w := trait_trivial t in
  Traits (trait_pointer t || has_trivial_ctor w) (trait_pointer t || has_trivial_dtor w)
    (trait_pointer t || has_trivial_copy w) (trait_pointer t || has_trivial_move w).

Definition use_trivial_move (w : trait_values) : bool :=
  (has_trivial_dtor w && has_trivial_copy w) || has_trivial_move w.

(** ** Order *)

Section order.
Context {T : Type} (lt : T -> T -> bool).

Definition strictly_order_type (lhs rhs : T) : Z := if lt lhs rhs then 1 else 0.

Definition compare_type (lhs rhs : T) : Z :=
  strictly_order_type rhs lhs - strictly_order_type lhs rhs.
End order.

Record key_value_pair_t (K V : Type) := Pair { key : K; value : V }.
Arguments Pair {K V}.
Arguments key {K V}.
Arguments value {K V}.

(** [operator <] *)
Definition pair_lt {K V} (lt : K -> K -> bool) (a b : key_value_pair_t K V) : bool :=
  negb (strictly_order_type lt (key a) (key b) =? 0).

(** ** Hash codes *)

Definition hash_int32 (v : Z) : Z := wrap 32 v.
Definition hash_int64 (v : Z) : Z := wrap 32 (Z.lxor (Z.shiftr v 32) v).

(** Floating-point numbers by their bits. *)
Definition hash_float (bits : Z) : Z := hash_int32 bits.
Definition hash_double (bits : Z) : Z := hash_int64 bits.

(** [uintptr_t] has [w] bits. *)
Definition hash_pointer (w p : Z) : Z := if w =? 64 then hash_int64 p else hash_int32 p.

(** ** Storage *)

Section storage.
Context {A : Type}.
Variable w : trait_values.
(** The value of the default constructor. *)
Variable fresh : A.

#[local] Abbreviation storage := (gmap Z A).
Implicit Types m : storage.

(** [new(p) TYPE(v)] *)
Definition new_at (p : Z) (v : A) m : option storage :=
  if negb (has_trivial_dtor w) && bool_decide (is_Some (m !! p)) then None
  else Some (<[p := v]> m).

(** [p->~TYPE()] *)
Definition destroy_at (p : Z) m : option storage :=
  match m !! p with Some _ => Some (delete p m) | None => None end.

(** [new(d) TYPE( *s)] and [*d = *s] *)
Definition copy_construct (d s : Z) m : option storage := v ← m !! s; new_at d v m.
Definition assign (d s : Z) m : option storage := v ← m !! s; Some (<[d := v]> m).

Fixpoint construct_loop (n : nat) (p : Z) m : option storage :=
  match n with
  | O => Some m
  | S n => m ← new_at p fresh m; construct_loop n (p + 1) m
  end.

Definition construct_type (p : Z) (n : nat) m : option storage :=
  if negb (has_trivial_ctor w) then construct_loop n p m else Some m.

Fixpoint destroy_loop (n : nat) (p : Z) m : option storage :=
  match n with
  | O => Some m
  | S n => m ← destroy_at p m; destroy_loop n (p + 1) m
  end.

Definition destroy_type (p : Z) (n : nat) m : option storage :=
  if negb (has_trivial_dtor w) then destroy_loop n p m else Some m.

(** [memmove] of [n] elements: every cell of the destination takes what the source cell
    held before. *)
Definition memmove (d s : Z) (n : nat) m : storage :=
  foldr (fun i m' => match m !! (s + Z.of_nat i) with
                     | Some v => <[d + Z.of_nat i := v]> m'
                     | None => delete (d + Z.of_nat i) m'
                     end) m (seq 0 n).

Definition overlap (d s : Z) (n : nat) : bool := (d <? s + Z.of_nat n) && (s <? d + Z.of_nat n).

(** [memcpy]: overlapping ranges are undefined. *)
Definition memcpy (d s : Z) (n : nat) m : option storage :=
  if overlap d s n then None else Some (memmove d s n m).

Fixpoint copy_loop (n : nat) (d s : Z) m : option storage :=
  match n with
  | O => Some m
  | S n => m ← copy_construct d s m; copy_loop n (d + 1) (s + 1) m
  end.

Definition copy_type (d s : Z) (n : nat) m : option storage :=
  if has_trivial_copy w then memcpy d s n m else copy_loop n d s m.

Fixpoint splat_loop (n : nat) (where_ what : Z) m : option storage :=
  match n with
  | O => Some m
  | S n =>
      m ← (if negb (has_trivial_copy w) then copy_construct where_ what m
           else assign where_ what m);
      splat_loop n (where_ + 1) what m
  end.

Definition splat_type (where_ what : Z) (n : nat) m : option storage := splat_loop n where_ what m.

(** One round of the moving loops. *)
Definition move_one (d s : Z) m : option storage :=
  m ← (if negb (has_trivial_copy w) then copy_construct d s m else assign d s m);
  if negb (has_trivial_dtor w) then destroy_at s m else Some m.

(** From the ends down: [d] and [s] point behind the last element. *)
Fixpoint forward_loop (n : nat) (d s : Z) m : option storage :=
  match n with
  | O => Some m
  | S n => m ← move_one (d - 1) (s - 1) m; forward_loop n (d - 1) (s - 1) m
  end.

Fixpoint backward_loop (n : nat) (d s : Z) m : option storage :=
  match n with
  | O => Some m
  | S n => m ← move_one d s m; backward_loop n (d + 1) (s + 1) m
  end.

Definition move_forward_type (d s : Z) (n : nat) m : option storage :=
  if use_trivial_move w then Some (memmove d s n m)
  else forward_loop n (d + Z.of_nat n) (s + Z.of_nat n) m.

Definition move_backward_type (d s : Z) (n : nat) m : option storage :=
  if use_trivial_move w then Some (memmove d s n m) else backward_loop n d s m.
End storage.

(** ** Vector *)

Definition HAS_TRIVIAL_CTOR : Z := 0x00000001.
Definition HAS_TRIVIAL_DTOR : Z := 0x00000002.
Definition HAS_TRIVIAL_COPY : Z := 0x00000004.

(** The flags the constructor of [Vector] hands to [VectorImpl]. *)
Definition Vector_flags (t : ctype) : Z :=
  Z.lor (Z.lor (if has_trivial_ctor (traits t) then HAS_TRIVIAL_CTOR else 0)
               (if has_trivial_dtor (traits t) then HAS_TRIVIAL_DTOR else 0))
        (if has_trivial_copy (traits t) then HAS_TRIVIAL_COPY else 0).

Section vector.
Context {A : Type} (t : ctype) (fresh : A).

Definition do_construct (storage : Z) (num : nat) := construct_type (traits t) fresh storage num.
Definition do_destroy (storage : Z) (num : nat) := destroy_type (A := A) (traits t) storage num.
Definition do_copy (dest from : Z) (num : nat) := copy_type (A := A) (traits t) dest from num.
Definition do_splat (dest item : Z) (num : nat) := splat_type (A := A) (traits t) dest item num.
Definition do_move_forward (dest from : Z) (num : nat) :=
  move_forward_type (A := A) (traits t) dest from num.
Definition do_move_backward (dest from : Z) (num : nat) :=
  move_backward_type (A := A) (traits t) dest from num.
End vector.

(** ** Moving is one simultaneous move *)

(** The cells after a move of [n] elements from [s] to [d]; [gone]: what was moved away
    from is raw. *)
Definition moved {A} (gone : bool) (d s : Z) (n : nat) (m : gmap Z A) (a : Z) : option A :=
  if (d <=? a) && (a <? d + Z.of_nat n) then m !! (a - d + s)
  else if gone && (s <=? a) && (a <? s + Z.of_nat n) then None
  else m !! a.

(** The elements are objects. *)
Definition live {A} (p : Z) (n : nat) (m : gmap Z A) : Prop :=
  forall i, 0 <= i < Z.of_nat n -> is_Some (m !! (p + i)).

(** The part of the destination outside the source holds no objects. *)
Definition room {A} (d s : Z) (n : nat) (m : gmap Z A) : Prop :=
  forall a, d <= a < d + Z.of_nat n -> ~ s <= a < s + Z.of_nat n -> m !! a = None.

Lemma memmove_lookup {A} d s n (m : gmap Z A) a : memmove d s n m !! a = moved false d s n m a.
Proof.
  unfold memmove.
  enough (H : forall k j, (j + k <= n)%nat ->
    foldr (fun i m' => match m !! (s + Z.of_nat i) with
                       | Some v => <[d + Z.of_nat i := v]> m' | None => delete (d + Z.of_nat i) m' end)
      m (seq j k) !! a =
    if (d + Z.of_nat j <=? a) && (a <? d + Z.of_nat (j + k)) then m !! (a - d + s) else m !! a).
  { etransitivity; [apply (H n 0%nat); lia|]. unfold moved. simpl. by rewrite Z.add_0_r. }
  induction k as [|k IH]; intros j Hj; simpl.
  { destruct (Z.leb_spec (d + Z.of_nat j) a), (Z.ltb_spec a (d + Z.of_nat (j + 0))); simpl; try done; lia. }
  assert (IH' := IH (S j) ltac:(lia)).
  destruct (decide (a = d + Z.of_nat j)) as [->|Hne].
  - replace (d + Z.of_nat j - d + s) with (s + Z.of_nat j) by lia.
    destruct (Z.leb_spec (d + Z.of_nat j) (d + Z.of_nat j)); [|lia].
    destruct (Z.ltb_spec (d + Z.of_nat j) (d + Z.of_nat (j + S k))); [|lia]. simpl.
    destruct (m !! (s + Z.of_nat j)); [by rewrite lookup_insert_eq|by rewrite lookup_delete_eq].
  - destruct (m !! (s + Z.of_nat j)); rewrite ?lookup_insert_ne, ?lookup_delete_ne by done;
      rewrite IH'; replace (S j + k)%nat with (j + S k)%nat by lia;
      destruct (Z.leb_spec (d + Z.of_nat (S j)) a), (Z.leb_spec (d + Z.of_nat j) a); simpl;
      try done; lia.
Qed.

Section moves.
Context {A : Type}.
Variable w : trait_values.
Implicit Types m : gmap Z A.

(** One round moves one value: into a raw cell, if the type has a destructor. *)
Lemma move_one_spec d s v m :
  m !! s = Some v -> d <> s -> (has_trivial_dtor w = false -> m !! d = None) ->
  use_trivial_move w = false ->
  move_one w d s m = Some (if has_trivial_dtor w then <[d := v]> m else delete s (<[d := v]> m)).
Proof.
  intros Hs Hne Hd Hu. unfold move_one.
  assert (Hc : (if negb (has_trivial_copy w) then copy_construct w d s m else assign d s m)
               = Some (<[d := v]> m)).
  { unfold copy_construct, assign, new_at. rewrite Hs. simpl.
    destruct (has_trivial_copy w); [done|]. simpl.
    destruct (has_trivial_dtor w); [done|]. by rewrite Hd. }
  rewrite Hc. simpl. destruct (has_trivial_dtor w); [done|]. simpl. unfold destroy_at.
  by rewrite lookup_insert_ne, Hs by done.
Qed.

Lemma forward_loop_spec n d s m :
  use_trivial_move w = false -> s < d -> live s n m ->
  (has_trivial_dtor w = false -> room d s n m) ->
  exists m', forward_loop w n (d + Z.of_nat n) (s + Z.of_nat n) m = Some m' /\
    forall a, m' !! a = moved (negb (has_trivial_dtor w)) d s n m a.
Proof.
  intros Hu Hlt. revert m. induction n as [|n IH]; intros m Hl Hr; simpl.
  { exists m. split; [done|]. intros a. unfold moved. simpl.
    rewrite !Z.add_0_r. destruct (Z.leb_spec d a), (Z.ltb_spec a d); simpl; try lia;
      destruct (has_trivial_dtor w), (Z.leb_spec s a), (Z.ltb_spec a s); simpl; done || lia. }
  replace (d + Z.of_nat (S n) - 1) with (d + Z.of_nat n) by lia.
  replace (s + Z.of_nat (S n) - 1) with (s + Z.of_nat n) by lia.
  destruct (Hl (Z.of_nat n) ltac:(lia)) as [v Hv].
  rewrite (move_one_spec _ _ v) by (done || lia || (intros; apply Hr; [done|lia..])). simpl.
  match goal with |- context [forward_loop w n _ _ ?x] => set (m1 := x) end.
  assert (Hm1 : forall a, m1 !! a =
    if a =? d + Z.of_nat n then Some v
    else if negb (has_trivial_dtor w) && (a =? s + Z.of_nat n) then None else m !! a).
  { intros a. subst m1. destruct (Z.eqb_spec a (d + Z.of_nat n)) as [->|].
    - destruct (has_trivial_dtor w); rewrite ?lookup_delete_ne by lia; by rewrite lookup_insert_eq.
    - destruct (has_trivial_dtor w); simpl; [by rewrite lookup_insert_ne|].
      destruct (Z.eqb_spec a (s + Z.of_nat n)) as [->|]; [by rewrite lookup_delete_eq|].
      by rewrite lookup_delete_ne, lookup_insert_ne. }
  destruct (IH m1) as (m' & -> & Hm').
  - intros i Hi. rewrite Hm1. destruct (Z.eqb_spec (s + i) (d + Z.of_nat n)); [lia|].
    destruct (Z.eqb_spec (s + i) (s + Z.of_nat n)); [lia|]. rewrite andb_false_r. apply Hl. lia.
  - intros Hd a Ha Hs. rewrite Hm1, Hd. simpl. destruct (Z.eqb_spec a (d + Z.of_nat n)); [lia|].
    destruct (Z.eqb_spec a (s + Z.of_nat n)); [done|]. apply Hr; [done|lia..].
  - exists m'. split; [done|]. intros a. rewrite Hm'. unfold moved. rewrite !Hm1.
    destruct (has_trivial_dtor w); simpl;
    repeat match goal with
    | |- context [?x <=? ?y] => destruct (Z.leb_spec x y); simpl; try lia
    | |- context [?x <? ?y] => destruct (Z.ltb_spec x y); simpl; try lia
    | |- context [?x =? ?y] => destruct (Z.eqb_spec x y); simpl; try lia
    end; try done; subst;
    rewrite <-?Hv; f_equal; lia.
Qed.

Lemma backward_loop_spec n d s m :
  use_trivial_move w = false -> d < s -> live s n m ->
  (has_trivial_dtor w = false -> room d s n m) ->
  exists m', backward_loop w n d s m = Some m' /\
    forall a, m' !! a = moved (negb (has_trivial_dtor w)) d s n m a.
Proof.
  intros Hu. revert d s m. induction n as [|n IH]; intros d s m Hlt Hl Hr; simpl.
  { exists m. split; [done|]. intros a. unfold moved. simpl.
    rewrite !Z.add_0_r. destruct (Z.leb_spec d a), (Z.ltb_spec a d); simpl; try lia;
      destruct (has_trivial_dtor w), (Z.leb_spec s a), (Z.ltb_spec a s); simpl; done || lia. }
  destruct (Hl 0 ltac:(lia)) as [v Hv]. rewrite Z.add_0_r in Hv.
  rewrite (move_one_spec _ _ v) by (done || lia || (intros; apply Hr; [done|lia..])). simpl.
  match goal with |- context [backward_loop w n _ _ ?x] => set (m1 := x) end.
  assert (Hm1 : forall a, m1 !! a =
    if a =? d then Some v
    else if negb (has_trivial_dtor w) && (a =? s) then None else m !! a).
  { intros a. subst m1. destruct (Z.eqb_spec a d) as [->|].
    - destruct (has_trivial_dtor w); rewrite ?lookup_delete_ne by lia; by rewrite lookup_insert_eq.
    - destruct (has_trivial_dtor w); simpl; [by rewrite lookup_insert_ne|].
      destruct (Z.eqb_spec a s) as [->|]; [by rewrite lookup_delete_eq|].
      by rewrite lookup_delete_ne, lookup_insert_ne. }
  destruct (IH (d + 1) (s + 1) m1) as (m' & -> & Hm').
  - lia.
  - intros i Hi. rewrite Hm1. destruct (Z.eqb_spec (s + 1 + i) d); [lia|].
    destruct (Z.eqb_spec (s + 1 + i) s); [lia|]. rewrite andb_false_r.
    replace (s + 1 + i) with (s + (1 + i)) by lia. apply Hl. lia.
  - intros Hd a Ha Hs. rewrite Hm1, Hd. simpl. destruct (Z.eqb_spec a d); [lia|].
    destruct (Z.eqb_spec a s); [done|]. apply Hr; [done|lia..].
  - exists m'. split; [done|]. intros a. rewrite Hm'. unfold moved. rewrite !Hm1.
    destruct (has_trivial_dtor w); simpl;
    repeat match goal with
    | |- context [?x <=? ?y] => destruct (Z.leb_spec x y); simpl; try lia
    | |- context [?x <? ?y] => destruct (Z.ltb_spec x y); simpl; try lia
    | |- context [?x =? ?y] => destruct (Z.eqb_spec x y); simpl; try lia
    end; try done; subst;
    rewrite <-?Hv; f_equal; lia.
Qed.
End moves.

(** What is moved away from is destroyed. *)
Definition leaves_raw (t : ctype) : bool :=
  negb (use_trivial_move (traits t)) && negb (has_trivial_dtor (traits t)).

(** C39: the moving loops are a simultaneous move.  Whatever traits the element type has, and
    however the two ranges overlap, moving forward to a higher address and backward to a
    lower one succeed without reading raw storage, destroying an element twice or
    constructing over one, and leave in every cell of the destination what the source cell
    held before, everything else unchanged and, for types with a destructor, the source raw:
    the loops do what [memmove] does for the types that need no constructor calls. *)
Theorem moves_are_simultaneous {A} (t : ctype) (d s : Z) (n : nat) (m : gmap Z A) :
  live s n m -> (leaves_raw t = true -> room d s n m) ->
  (s < d -> exists m', do_move_forward t d s n m = Some m' /\
     forall a, m' !! a = moved (leaves_raw t) d s n m a) /\
  (d < s -> exists m', do_move_backward t d s n m = Some m' /\
     forall a, m' !! a = moved (leaves_raw t) d s n m a).
Proof.
  intros Hl Hr. unfold do_move_forward, do_move_backward, move_forward_type, move_backward_type.
  unfold leaves_raw in *. destruct (use_trivial_move (traits t)) eqn:Hu; simpl in *.
  - split; intros _; exists (memmove d s n m); (split; [done|]); apply memmove_lookup.
  - assert (Hr' : has_trivial_dtor (traits t) = false -> room d s n m).
    { intros Hd. apply Hr. by apply negb_true_iff. }
    split; intros; [by apply forward_loop_spec|by apply backward_loop_spec].
Qed.

(** A class with a destructor and no traits: three elements are moved up by one and down by
    two, each over itself. *)
Lemma moves_are_simultaneous_witness :
  let t := Class_ false false false false in
  let m : gmap Z Z := {[ 5 := 50; 6 := 60; 7 := 70 ]} in
  (exists m', do_move_forward t 6 5 3 m = Some m' /\
     forall a, m' !! a = moved (leaves_raw t) 6 5 3 m a) /\
  (exists m', do_move_backward t 3 5 3 m = Some m' /\
     forall a, m' !! a = moved (leaves_raw t) 3 5 3 m a).
Proof.
  intros t m.
  assert (Hl : live 5 3 m).
  { intros i Hi. assert (i = 0 \/ i = 1 \/ i = 2) as [->|[->| ->]] by lia; by eexists. }
  assert (Hr : forall d, d = 6 \/ d = 3 -> room d 5 3 m).
  { intros d Hd a Ha Hs. unfold m. rewrite !lookup_insert_ne, lookup_singleton_ne; lia || done. }
  split.
  - apply (moves_are_simultaneous t 6 5 3 m Hl (fun _ => Hr 6 ltac:(lia))). lia.
  - apply (moves_are_simultaneous t 3 5 3 m Hl (fun _ => Hr 3 ltac:(lia))). lia.
Defined.

(** In the other direction an element is constructed over one that is still to be moved. *)
Example forward_down_clobbers :
  do_move_forward (Class_ false false false false) 5 6 3
    ({[ 6 := 60; 7 := 70; 8 := 80 ]} : gmap Z Z) = None.
Proof. by vm_compute. Qed.

(** ** Construction, copies, order and hashes *)

Lemma construct_destroy {A} (w : trait_values) (fresh : A) n p (m : gmap Z A) :
  has_trivial_ctor w = false -> has_trivial_dtor w = false ->
  (forall i, 0 <= i < Z.of_nat n -> m !! (p + i) = None) ->
  construct_type w fresh p n m ≫= destroy_type w p n = Some m.
Proof.
  intros Hc Hd. unfold construct_type, destroy_type. rewrite Hc, Hd. simpl. clear Hc.
  revert p m. induction n as [|n IH]; intros p m Hm; simpl; [done|].
  unfold new_at at 1. rewrite Hd. pose proof (Hm 0 ltac:(lia)) as H0. rewrite Z.add_0_r in H0.
  rewrite H0. simpl.
  assert (Hcomm : forall k q (x : gmap Z A), p < q -> x !! p = None ->
    construct_loop w fresh k q (<[p := fresh]> x) = (fun y => <[p := fresh]> y) <$> construct_loop w fresh k q x).
  { induction k as [|k IHk]; intros q x Hq Hx; simpl; [done|]. unfold new_at. rewrite Hd. simpl.
    rewrite lookup_insert_ne by lia. destruct (bool_decide _); simpl; [done|].
    rewrite insert_insert_ne by lia. apply IHk; [lia|]. by rewrite lookup_insert_ne by lia. }
  rewrite Hcomm by (done || lia).
  specialize (IH (p + 1) m ltac:(intros i Hi; replace (p + 1 + i) with (p + (1 + i)) by lia; apply Hm; lia)).
  destruct (construct_loop w fresh n (p + 1) m) as [y|] eqn:Hy; [|done]. simpl in *.
  unfold destroy_at at 1. rewrite lookup_insert_eq. simpl.
  assert (Hyp : y !! p = None).
  { clear IH Hcomm. revert Hy. assert (Hq : p < p + 1) by lia. revert Hq H0. generalize (p + 1) as q.
    revert m Hm. clear. intros m _ q. revert q m. induction n as [|n IHn]; intros q m Hq H0; simpl.
    - by intros [= <-].
    - unfold new_at. destruct (_ && _); simpl; [done|]. apply IHn; [lia|].
      by rewrite lookup_insert_ne by lia. }
  by rewrite delete_insert_id.
Qed.

Lemma compare_type_sign {T} (lt : T -> T -> bool) x y :
  (forall a b, lt a b = true -> lt b a = false) ->
  (compare_type lt x y < 0 <-> lt x y = true) /\ (compare_type lt x y > 0 <-> lt y x = true) /\
  compare_type lt x y = - compare_type lt y x.
Proof.
  intros H. unfold compare_type, strictly_order_type.
  pose proof (H x y). pose proof (H y x). destruct (lt x y), (lt y x); intuition (lia || discriminate).
Qed.

Lemma hash_in_word v w : in_word 32 (hash_int32 v) /\ in_word 32 (hash_int64 v) /\ in_word 32 (hash_pointer w v).
Proof.
  unfold hash_pointer, hash_int32, hash_int64. destruct (w =? 64); split_and!; by apply wrap_range.
Qed.
