(* ===== verification/LightRefBase.v ===== *)
(** * Light reference counts (utils/LightRefBase.h)

    An object with one atomic counter, shared by threads: every atomic operation on the
    counter is a step, and so is the deletion that may follow [decStrong]'s, so that other
    threads run in between.  A thread counts up only through a reference it holds, and down
    once for each it gives up; references may be handed to another thread. *)

From stdpp Require Import relations.
From S2P Require Import Prelude.

(** [std::atomic<int32_t>]: the old value, and the new one. *)
Definition fetch_add (n count : Z) : Z * Z := (count, sext 32 (count + n)).
Definition fetch_sub (n count : Z) : Z * Z := (count, sext 32 (count - n)).

(** The object and its holders: [held] references per thread, [deleting] the threads that
    saw the last reference go and have not deleted yet. *)
Record conf := Conf {
  mCount : Z;
  deleted : nat;
  held : list nat;
  deleting : list nat;
  used_after_delete : bool;
  reported : nat
}.

(** The constructor sets 0; the first [sp] counts it up. *)
Definition constructed : Z := 0.

Definition initial (threads : nat) : conf :=
  Conf (fetch_add 1 constructed).2 0 (1%nat :: replicate (pred threads) 0%nat) [] false 0.

(** The effect of an access to the counter. *)
Definition touch (c : conf) : bool := used_after_delete c || negb (Nat.eqb (deleted c) 0).

Definition incStrong (i : nat) (c : conf) : conf :=
  Conf (fetch_add 1 (mCount c)).2 (deleted c) (alter S i (held c)) (deleting c) (touch c) (reported c).

(** It reports a counter that was 0. *)
Definition incStrongRequireStrong (i : nat) (c : conf) : conf :=
  let '(old, new) := fetch_add 1 (mCount c) in
  Conf new (deleted c) (alter S i (held c)) (deleting c) (touch c)
    (if old =? 0 then S (reported c) else reported c).

(** The atomic part of [decStrong]; the thread that got 1 goes on to delete. *)
Definition decStrong (i : nat) (c : conf) : conf :=
  let '(old, new) := fetch_sub 1 (mCount c) in
  Conf new (deleted c) (alter pred i (held c))
    (if old =? 1 then i :: deleting c else deleting c) (touch c) (reported c).

(** [delete static_cast<const T*>(this)] *)
Definition delete_object (before after : list nat) (c : conf) : conf :=
  Conf (mCount c) (S (deleted c)) (held c) (before ++ after) (used_after_delete c) (reported c).

Definition getStrongCount (c : conf) : Z := mCount c.

Inductive step : conf -> conf -> Prop :=
| step_inc c i k : held c !! i = Some (S k) -> step c (incStrong i c)
| step_inc_require c i k : held c !! i = Some (S k) -> step c (incStrongRequireStrong i c)
| step_dec c i k : held c !! i = Some (S k) -> step c (decStrong i c)
| step_give c i j k l :
    held c !! i = Some (S k) -> held c !! j = Some l -> i <> j ->
    step c (Conf (mCount c) (deleted c) (alter S j (alter pred i (held c))) (deleting c)
              (used_after_delete c) (reported c))
| step_delete c before i after :
    deleting c = before ++ i :: after -> step c (delete_object before after c).

(** ** Safety *)

Definition total (l : list nat) : Z := Z.of_nat (sum_list l).

Lemma total_cons x l : total (x :: l) = Z.of_nat x + total l.
Proof. unfold total. rewrite <- Nat2Z.inj_add. reflexivity. Qed.

Lemma total_nonneg l : 0 <= total l.
Proof. unfold total. lia. Qed.

(** One thread's references change by [f]: the total by as much. *)
Lemma total_alter f l i k :
  l !! i = Some k -> total (alter f i l) = total l + Z.of_nat (f k) - Z.of_nat k.
Proof.
  revert i. induction l as [|x l IH]; intros [|i]; try done; cbn [lookup list_lookup].
  - intros [= ->]. change (alter f 0%nat (k :: l)) with (f k :: l). rewrite !total_cons. lia.
  - intros H. change (alter f (S i) (x :: l)) with (x :: alter f i l).
    rewrite !total_cons, (IH i H). lia.
Qed.

Lemma total_alter_S l i k : l !! i = Some k -> total (alter S i l) = total l + 1.
Proof. intros H. rewrite (total_alter _ _ _ _ H). lia. Qed.

Lemma total_alter_pred l i k : l !! i = Some (S k) -> total (alter pred i l) = total l - 1.
Proof. intros H. rewrite (total_alter _ _ _ _ H). simpl. lia. Qed.

Lemma total_pos l i k : l !! i = Some (S k) -> 0 < total l.
Proof.
  intros H. pose proof (total_alter_pred l i k H) as He.
  pose proof (total_nonneg (alter pred i l)). lia.
Qed.

(** The counter is the number of references; the object is deleted, or about to be by one
    thread, exactly when there is none. *)
Definition light_ok (c : conf) : Prop :=
  mCount c = total (held c) /\
  (deleted c + length (deleting c) = if (total (held c) =? 0)%Z then 1 else 0)%nat /\
  used_after_delete c = false /\ reported c = 0%nat.

Lemma light_ok_step c c' :
  light_ok c -> total (held c) + 1 < 2 ^ 31 -> step c c' -> light_ok c'.
Proof.
  intros (Hc & Hd & Hu & Hr) Hb Hs.
  assert (Htouch : forall i k, held c !! i = Some (S k) ->
    0 < total (held c) /\ deleted c = 0%nat /\ deleting c = [] /\ touch c = false).
  { intros i k Hi. pose proof (total_pos _ _ _ Hi) as Hp. split; [done|].
    destruct (Z.eqb_spec (total (held c)) 0); [lia|].
    destruct (deleting c); simpl in Hd; [|lia]. unfold touch. rewrite Hu.
    destruct (deleted c); [by split_and!|simpl in Hd; lia]. }
  assert (Hword : forall z, 0 <= z < 2 ^ 31 -> sext 32 z = z).
  { intros z Hz. unfold sext. rewrite wrap_small by (unfold in_word; lia).
    destruct (Z.ltb_spec z (2 ^ (32 - 1))); lia. }
  destruct Hs as [c i k Hi|c i k Hi|c i k Hi|c i j k l Hi Hj Hij|c before i after He];
    unfold light_ok; simpl.
  - destruct (Htouch i k Hi) as (Hp & Hd0 & Hdl & Ht).
    rewrite (total_alter_S _ _ _ Hi), Hc, Hword, Hd0, Hdl, Ht by lia.
    destruct (Z.eqb_spec (total (held c) + 1) 0); [lia|]. by split_and!.
  - destruct (Htouch i k Hi) as (Hp & Hd0 & Hdl & Ht).
    rewrite (total_alter_S _ _ _ Hi), Hc, Hword, Hd0, Hdl, Ht by lia.
    destruct (Z.eqb_spec (total (held c) + 1) 0), (Z.eqb_spec (total (held c)) 0); try lia.
    by split_and!.
  - destruct (Htouch i k Hi) as (Hp & Hd0 & Hdl & Ht).
    rewrite (total_alter_pred _ _ _ Hi), Hc, Hword, Hd0, Hdl, Ht by lia.
    destruct (Z.eqb_spec (total (held c) - 1) 0), (Z.eqb_spec (total (held c)) 1); try lia;
      by split_and!.
  - assert (Hj' : alter pred i (held c) !! j = Some l) by (by rewrite list_lookup_alter_ne).
    rewrite (total_alter_S _ _ _ Hj'), (total_alter_pred _ _ _ Hi).
    replace (total (held c) - 1 + 1) with (total (held c)) by lia. by split_and!.
  - rewrite He, length_app in Hd. simpl in Hd. split_and!; try done.
    rewrite length_app. lia.
Qed.

Lemma step_total c c' : step c c' -> total (held c') <= total (held c) + 1.
Proof.
  destruct 1 as [c i k Hi|c i k Hi|c i k Hi|c i j k l Hi Hj Hij|c before i after He]; simpl.
  - rewrite (total_alter_S _ _ _ Hi). lia.
  - rewrite (total_alter_S _ _ _ Hi). lia.
  - rewrite (total_alter_pred _ _ _ Hi). lia.
  - rewrite (total_alter_S _ _ l), (total_alter_pred _ _ _ Hi); [lia|by rewrite list_lookup_alter_ne].
  - lia.
Qed.

Lemma initial_ok threads : light_ok (initial threads) /\ total (held (initial threads)) = 1.
Proof.
  assert (total (held (initial threads)) = 1) as Ht.
  { unfold total. simpl. replace (sum_list (replicate (pred threads) 0%nat)) with 0%nat; [done|].
    by induction (pred threads). }
  split; [|done]. unfold light_ok. rewrite Ht. by split_and!.
Qed.

Lemma run_ok n threads c :
  Z.of_nat n < 2 ^ 31 - 2 -> nsteps step n (initial threads) c ->
  light_ok c /\ total (held c) <= 1 + Z.of_nat n.
Proof.
  intros Hn. revert c. induction n as [|n IH]; intros c Hsteps.
  - inversion Hsteps; subst. destruct (initial_ok threads) as [H1 H2]. rewrite H2. by split.
  - apply nsteps_inv_r in Hsteps as (c' & Hc' & Hs). destruct (IH ltac:(lia) c' Hc') as [H1 H2].
    split; [eapply light_ok_step; [done|lia|done]|]. apply step_total in Hs. lia.
Qed.

(** C38: the count under any interleaving of the threads' operations, as long as there are
    fewer than 2^31 references: the counter is the number of references held, nobody touches
    the object after its deletion, it is deleted at most once and never while a reference is
    held, and when the last one is gone exactly one thread has deleted it or is about to. *)
Theorem light_deleted_once (threads n : nat) (c : conf) :
  Z.of_nat n < 2 ^ 31 - 2 -> nsteps step n (initial threads) c ->
  getStrongCount c = total (held c) /\ used_after_delete c = false /\ reported c = 0%nat /\
  (deleted c + length (deleting c) = if (total (held c) =? 0)%Z then 1 else 0)%nat.
Proof.
  intros Hn Hs. destruct (run_ok n threads c Hn Hs) as [(H1 & H2 & H3 & H4) _]. by split_and!.
Qed.

(** Two threads: the second is given a copy, the first gives its own up, then the second;
    the second deletes. *)
Lemma light_deleted_once_witness :
  let c := Conf 0 1 [0; 0]%nat [] false 0 in
  nsteps step 5 (initial 2) c /\
  getStrongCount c = total (held c) /\ used_after_delete c = false /\ reported c = 0%nat /\
  (deleted c + length (deleting c) = if (total (held c) =? 0)%Z then 1 else 0)%nat.
Proof.
  intros c.
  assert (H : nsteps step 5 (initial 2) c).
  { eapply nsteps_l; [apply (step_inc _ 0 0); reflexivity|].
    eapply nsteps_l; [apply (step_give _ 0 1 1 0); done|].
    eapply nsteps_l; [apply (step_dec _ 0 0); reflexivity|].
    eapply nsteps_l; [apply (step_dec _ 1 0); reflexivity|].
    eapply nsteps_l; [apply (step_delete _ [] 1 []); reflexivity|].
    change (nsteps step 0 c c). constructor. }
  split; [exact H|]. apply (light_deleted_once 2 5 c); [lia|exact H].
Defined.

(** The bound is needed: at 2^32 references the counter is 0 again. *)
Lemma count_wraps count : 0 <= count < 2 ^ 31 -> sext 32 (count + 2 ^ 32) = count.
Proof.
  intros H. unfold sext, wrap. replace (count + 2 ^ 32) with (count + 1 * 2 ^ 32) by lia.
  rewrite Z.mod_add, Z.mod_small by lia. destruct (Z.ltb_spec count (2 ^ (32 - 1))); lia.
Qed.
