(* ===== verification/StringTypes.v ===== *)
(** * Strings of the platform headers (utils/String8.h, utils/String16.h)

    The comparison operators of [String8] and [String16], the wrappers the headers define
    around the functions of the library, and the static strings interface descriptors are
    made of.  A string is the list of its units; its buffer has one more, which is NUL, and
    the list may have NULs inside.  The functions of libutils that the headers only declare
    are parameters; [strcmp] is the C library's. *)

From Stdlib Require Import List.
From S2P Require Import Prelude.

(** ** Orders on lists of units *)

Definition lex : list Z -> list Z -> comparison := list_compare Z.compare.

(** What a C string is of a buffer: the units before the first NUL. *)
Fixpoint c_part (s : list Z) : list Z :=
  match s with
  | [] => []
  | x :: s' => if x =? 0 then [] else x :: c_part s'
  end.

Definition nul_free (s : list Z) : Prop := Forall (fun x => 0 < x) s.

(** The seven answers of a pair of strings. *)
Record relations := Relations {
  lt : bool; le : bool; eq : bool; ne : bool; ge : bool; gt : bool; three_way : comparison
}.

(** ... as an order gives them. *)
Definition of_order (c : comparison) : relations :=
  match c with
  | Eq => Relations false true true false true false Eq
  | Lt => Relations true true false true false false Lt
  | Gt => Relations false false false true true true Gt
  end.

(** [strcmp]: the difference of the first units that differ, the end of the list being the
    NUL after it. *)
Fixpoint strcmp (a b : list Z) : Z :=
  match a, b with
  | [], [] => 0
  | [], y :: _ => - y
  | x :: _, [] => x
  | x :: a', y :: b' => if x =? y then (if x =? 0 then 0 else strcmp a' b') else x - y
  end.

(** ** String8 *)

Module String8.

(** [mString] *)
Definition t8 : Type := list Z.

Definition compare8 (s other : t8) : Z := strcmp s other.
Definition compare_type8 (lhs rhs : t8) : Z := compare8 lhs rhs.
Definition strictly_order_type8 (lhs rhs : t8) : Z := if compare_type8 lhs rhs <? 0 then 1 else 0.

Definition op_lt8 (s other : t8) : bool := strcmp s other <? 0.
Definition op_le8 (s other : t8) : bool := strcmp s other <=? 0.
Definition op_eq8 (s other : t8) : bool := strcmp s other =? 0.
Definition op_ne8 (s other : t8) : bool := negb (strcmp s other =? 0).
Definition op_ge8 (s other : t8) : bool := 0 <=? strcmp s other.
Definition op_gt8 (s other : t8) : bool := 0 <? strcmp s other.

Definition op_three_way8 (s other : t8) : comparison :=
  let result := strcmp s other in
  if result =? 0 then Eq else if result <? 0 then Lt else Gt.

(** The overloads with a [const char*]: [other] is the buffer it points to. *)
Definition op_lt_c8 (s : t8) (other : list Z) : bool := strcmp s other <? 0.
Definition op_le_c8 (s : t8) (other : list Z) : bool := strcmp s other <=? 0.
Definition op_eq_c8 (s : t8) (other : list Z) : bool := strcmp s other =? 0.
Definition op_ne_c8 (s : t8) (other : list Z) : bool := negb (strcmp s other =? 0).
Definition op_ge_c8 (s : t8) (other : list Z) : bool := 0 <=? strcmp s other.
Definition op_gt_c8 (s : t8) (other : list Z) : bool := 0 <? strcmp s other.

Definition op_three_way_c8 (s : t8) (other : list Z) : comparison :=
  let result := strcmp s other in
  if result =? 0 then Eq else if result <? 0 then Lt else Gt.

Definition relations_of8 (s other : t8) : relations :=
  Relations (op_lt8 s other) (op_le8 s other) (op_eq8 s other) (op_ne8 s other)
    (op_ge8 s other) (op_gt8 s other) (op_three_way8 s other).

Definition relations_of_c8 (s : t8) (other : list Z) : relations :=
  Relations (op_lt_c8 s other) (op_le_c8 s other) (op_eq_c8 s other) (op_ne_c8 s other)
    (op_ge_c8 s other) (op_gt_c8 s other) (op_three_way_c8 s other).

(** The wrappers.  The library's functions, with the buffer they work on: *)
Section wrappers.
Variable setTo_String8 append_String8 : t8 -> t8 -> t8.
Variable setTo_chars append_chars : t8 -> list Z -> t8.
Variable find_chars : t8 -> list Z -> nat -> Z.
Variable removeAll_chars : t8 -> list Z -> t8 * bool.
Variable length8 : t8 -> nat.

Definition c_str8 (s : t8) : list Z := s.
Definition size8 (s : t8) : nat := length8 s.
Definition bytes (s : t8) : nat := length8 s.
Definition empty8 (s : t8) : bool := Nat.eqb (length8 s) 0.
Definition isEmpty (s : t8) : bool := Nat.eqb (length8 s) 0.

Definition assign8 (s other : t8) : t8 := setTo_String8 s other.
Definition assign_chars (s : t8) (other : list Z) : t8 := setTo_chars s other.

(** [operator+=] drops the status of [append]. *)
Definition op_append8 (s other : t8) : t8 := append_String8 s other.
Definition op_append_chars (s : t8) (other : list Z) : t8 := append_chars s other.

Definition op_plus8 (s other : t8) : t8 := let tmp := s in op_append8 tmp other.
Definition op_plus_chars (s : t8) (other : list Z) : t8 := let tmp := s in op_append_chars tmp other.

Definition find (s other : t8) (start : nat) : Z := find_chars s (c_str8 other) start.
Definition contains_chars (s : t8) (other : list Z) : bool := 0 <=? find_chars s other 0.
Definition contains8 (s other : t8) : bool := contains_chars s (c_str8 other).
Definition removeAll (s other : t8) : t8 * bool := removeAll_chars s (c_str8 other).
End wrappers.
End String8.

(** ** String16 *)

Module String16.
Section library.
(** Unicode.h: "Standard string functions on char16_t strings"; "Version of comparison that
    supports embedded NULs", with the lengths of both. *)
Variable strcmp16 : list Z -> list Z -> Z.
Variable strzcmp16 : list Z -> nat -> list Z -> nat -> Z.

(** The units, without the NUL after them: [size()] is their number. *)
Definition t16 : Type := list Z.
Definition size16 (s : t16) : nat := length s.
Definition length16 (s : t16) : nat := size16 s.
Definition empty16 (s : t16) : bool := Nat.eqb (length16 s) 0.

Definition compare16 (s other : t16) : Z := strzcmp16 s (size16 s) other (size16 other).
Definition compare_type16 (lhs rhs : t16) : Z := compare16 lhs rhs.
Definition strictly_order_type16 (lhs rhs : t16) : Z := if compare_type16 lhs rhs <? 0 then 1 else 0.

Definition op_lt16 (s other : t16) : bool := strzcmp16 s (size16 s) other (size16 other) <? 0.
Definition op_le16 (s other : t16) : bool := strzcmp16 s (size16 s) other (size16 other) <=? 0.
Definition op_eq16 (s other : t16) : bool := strzcmp16 s (size16 s) other (size16 other) =? 0.
Definition op_ne16 (s other : t16) : bool := negb (strzcmp16 s (size16 s) other (size16 other) =? 0).
Definition op_ge16 (s other : t16) : bool := 0 <=? strzcmp16 s (size16 s) other (size16 other).
Definition op_gt16 (s other : t16) : bool := 0 <? strzcmp16 s (size16 s) other (size16 other).

Definition op_three_way16 (s other : t16) : comparison :=
  let result := strzcmp16 s (size16 s) other (size16 other) in
  if result =? 0 then Eq else if result <? 0 then Lt else Gt.

(** The overloads with a [const char16_t*]. *)
Definition op_lt_c16 (s : t16) (other : list Z) : bool := strcmp16 s other <? 0.
Definition op_le_c16 (s : t16) (other : list Z) : bool := strcmp16 s other <=? 0.
Definition op_eq_c16 (s : t16) (other : list Z) : bool := strcmp16 s other =? 0.
Definition op_ne_c16 (s : t16) (other : list Z) : bool := negb (strcmp16 s other =? 0).
Definition op_ge_c16 (s : t16) (other : list Z) : bool := 0 <=? strcmp16 s other.
Definition op_gt_c16 (s : t16) (other : list Z) : bool := 0 <? strcmp16 s other.

Definition op_three_way_c16 (s : t16) (other : list Z) : comparison :=
  let result := strcmp16 s other in
  if result =? 0 then Eq else if result <? 0 then Lt else Gt.

Definition relations_of16 (s other : t16) : relations :=
  Relations (op_lt16 s other) (op_le16 s other) (op_eq16 s other) (op_ne16 s other)
    (op_ge16 s other) (op_gt16 s other) (op_three_way16 s other).

Definition relations_of_c16 (s : t16) (other : list Z) : relations :=
  Relations (op_lt_c16 s other) (op_le_c16 s other) (op_eq_c16 s other) (op_ne_c16 s other)
    (op_ge_c16 s other) (op_gt_c16 s other) (op_three_way_c16 s other).

(** The wrappers of [setTo] and [append]. *)
Section wrappers.
Variable setTo append : t16 -> t16 -> t16.
Variable contains_chars : t16 -> list Z -> bool.

Definition c_str16 (s : t16) : list Z := s.
Definition assign16 (s other : t16) : t16 := setTo s other.
Definition op_append16 (s other : t16) : t16 := append s other.
Definition op_plus16 (s other : t16) : t16 := let tmp := s in op_append16 tmp other.
Definition contains16 (s other : t16) : bool := contains_chars s (c_str16 other).
End wrappers.

(** [u16string_view]: the pointer and the length. *)
Definition view (s : t16) : list Z * nat := (s, length16 s).
End library.

(** *** Static strings *)

(** [StaticData<N>]: the size word and the units, all zero at first. *)
Record static_data := StaticData { static_size : Z; data : list Z }.

Definition kIsSharedBufferAllocated : Z := 0x80000000.

(** The size is checked by the compiler; [s] is the array, NUL included. *)
Definition new_static_data (n : nat) : option static_data :=
  if Z.of_nat n - 1 <? kIsSharedBufferAllocated
  then Some (StaticData (Z.of_nat n - 1) (replicate n 0)) else None.

Fixpoint copy_units (i : nat) (todo : nat) (s : list Z) (r : static_data) : static_data :=
  match todo with
  | O => r
  | S k => copy_units (S i) k s (StaticData (static_size r) (<[i := s !!! i]> (data r)))
  end.

Definition makeStaticData (s : list Z) : option static_data :=
  r ← new_static_data (length s); Some (copy_units 0 (length s - 1) s r).

(** [StaticString16]: its units are those before the last; the flag is clear, so that the
    size is the word itself. *)
Definition static_string (d : static_data) : t16 := take (Z.to_nat (static_size d)) (data d).
End String16.

(** ** Orders *)

Lemma lex_refl a b : lex a b = Eq <-> a = b.
Proof. apply list_compare_refl, Z.compare_eq_iff. Qed.

Lemma lex_antisym a b : lex b a = CompOpp (lex a b).
Proof. apply list_compare_antisym; [apply Z.compare_eq_iff|apply Z.compare_antisym]. Qed.

Lemma lex_trans a b c : lex a b = Lt -> lex b c = Lt -> lex a c = Lt.
Proof.
  apply list_compare_trans; [apply Z.compare_eq_iff| |apply Z.compare_antisym].
  intros x y z [] H1 H2; rewrite ?Z.compare_eq_iff, ?Z.compare_lt_iff, ?Z.compare_gt_iff in *; lia.
Qed.

(** The sign [strcmp] gives is the order of the C strings. *)
Lemma strcmp_sign a b :
  Forall (fun x => 0 <= x) a -> Forall (fun x => 0 <= x) b ->
  (strcmp a b ?= 0) = lex (c_part a) (c_part b).
Proof.
  intros Ha. revert b. induction Ha as [|x a Hx Ha IH]; intros b Hb;
    destruct Hb as [|y b Hy Hb]; cbn [strcmp c_part].
  - done.
  - destruct (Z.eqb_spec y 0) as [->|]; [done|]. apply Z.compare_lt_iff. lia.
  - destruct (Z.eqb_spec x 0) as [->|]; [done|]. apply Z.compare_gt_iff. lia.
  - destruct (Z.eqb_spec x y) as [->|Hne].
    + destruct (Z.eqb_spec y 0) as [->|]; [done|]. rewrite (IH b Hb). unfold lex.
      by rewrite list_compare_cons by apply Z.compare_eq_iff.
    + destruct (Z.eqb_spec x 0) as [->|], (Z.eqb_spec y 0) as [->|]; try lia; simpl.
      * apply Z.compare_lt_iff. lia.
      * apply Z.compare_gt_iff. lia.
      * rewrite <- (Z.compare_sub x y). by destruct (Z.compare_spec x y).
Qed.

(** The seven operators read one sign. *)
Lemma relations_of_sign z :
  Relations (z <? 0) (z <=? 0) (z =? 0) (negb (z =? 0)) (0 <=? z) (0 <? z)
    (if z =? 0 then Eq else if z <? 0 then Lt else Gt) = of_order (z ?= 0).
Proof. by destruct z. Qed.

Lemma c_part_nul_free s : nul_free s -> c_part s = s.
Proof.
  induction 1 as [|x s Hx _ IH]; simpl; [done|]. destruct (Z.eqb_spec x 0); [lia|]. by rewrite IH.
Qed.

(** What Unicode.h says of the two comparisons. *)
Definition strcmp16_spec (f : list Z -> list Z -> Z) : Prop :=
  forall a b, (f a b ?= 0) = lex (c_part a) (c_part b).
Definition strzcmp16_spec (f : list Z -> nat -> list Z -> nat -> Z) : Prop :=
  forall a n b m, (f a n b m ?= 0) = lex (take n a) (take m b).

(** The comparison operators: whatever the two strings, [<], [<=], [==], [!=], [>=], [>]
    and [<=>] are the seven answers of one lexicographic order.  For [String8], with another
    [String8] or with a [const char*], it is the order of the strings up to their first NUL;
    for two [String16] the order of the whole strings, and for a [String16] and a
    [const char16_t*] that of the parts before a NUL again.  The four agree where there is
    no NUL inside. *)
Theorem string_operators (strcmp16 : list Z -> list Z -> Z)
    (strzcmp16 : list Z -> nat -> list Z -> nat -> Z) (a b : list Z) :
  strcmp16_spec strcmp16 -> strzcmp16_spec strzcmp16 ->
  Forall (fun x => 0 <= x) a -> Forall (fun x => 0 <= x) b ->
  let cut := of_order (lex (c_part a) (c_part b)) in
  let whole := of_order (lex a b) in
  String8.relations_of8 a b = cut /\ String8.relations_of_c8 a b = cut /\
  String16.relations_of16 strzcmp16 a b = whole /\ String16.relations_of_c16 strcmp16 a b = cut /\
  (nul_free a -> nul_free b -> cut = whole).
Proof.
  intros H16 Hz Ha Hb cut whole. unfold cut, whole. split_and!.
  - rewrite <- strcmp_sign by done. apply relations_of_sign.
  - rewrite <- strcmp_sign by done. apply relations_of_sign.
  - specialize (Hz a (length a) b (length b)). rewrite !firstn_all in Hz.
    rewrite <- Hz. apply relations_of_sign.
  - rewrite <- H16. apply relations_of_sign.
  - intros Na Nb. by rewrite !c_part_nul_free.
Qed.

Definition sign_of (c : comparison) : Z := match c with Eq => 0 | Lt => -1 | Gt => 1 end.

(** "ab" with and without a NUL and a letter after it: equal as C strings, not as UTF-16
    strings. *)
Lemma string_operators_witness :
  String8.op_eq8 [97; 98; 0; 99] [97; 98] = true /\
  let f a b := sign_of (lex (c_part a) (c_part b)) in
  let g a (n : nat) b (m : nat) := sign_of (lex (take n a) (take m b)) in
  let a := [97; 98; 0; 99] in let b := [97; 98] in
  String16.op_eq16 g a b = false /\ String16.op_eq_c16 f a b = true /\
  String8.relations_of8 a b = of_order (lex (c_part a) (c_part b)) /\
  String8.relations_of_c8 a b = of_order (lex (c_part a) (c_part b)) /\
  String16.relations_of16 g a b = of_order (lex a b) /\
  String16.relations_of_c16 f a b = of_order (lex (c_part a) (c_part b)) /\
  (nul_free a -> nul_free b -> of_order (lex (c_part a) (c_part b)) = of_order (lex a b)).
Proof.
  split; [reflexivity|]. intros f g a b. split; [reflexivity|]. split; [reflexivity|].
  apply (string_operators f g a b).
  - intros x y. unfold f. by destruct (lex (c_part x) (c_part y)).
  - intros x n y m. unfold g. by destruct (lex (take n x) (take m y)).
  - repeat constructor; lia.
  - repeat constructor; lia.
Defined.

(** The orders sorted containers ask for. *)
Lemma String8_strict_order a b c :
  Forall (fun x => 0 <= x) a -> Forall (fun x => 0 <= x) b -> Forall (fun x => 0 <= x) c ->
  String8.strictly_order_type8 a a = 0 /\
  (String8.strictly_order_type8 a b = 1 -> String8.strictly_order_type8 b c = 1 ->
   String8.strictly_order_type8 a c = 1).
Proof.
  intros Ha Hb Hc.
  assert (H : forall x y, Forall (fun x => 0 <= x) x -> Forall (fun x => 0 <= x) y ->
    String8.strictly_order_type8 x y = 1 <-> lex (c_part x) (c_part y) = Lt).
  { intros x y Hx Hy. rewrite <- strcmp_sign by done.
    unfold String8.strictly_order_type8, String8.compare_type8, String8.compare8.
    rewrite Z.compare_lt_iff. destruct (Z.ltb_spec (strcmp x y) 0); split; (done || lia). }
  split.
  - pose proof (H a a Ha Ha) as Haa. rewrite (proj2 (lex_refl (c_part a) (c_part a)) eq_refl) in Haa.
    unfold String8.strictly_order_type8 in *. destruct (_ <? 0); [|done]. naive_solver.
  - rewrite !H by done. apply lex_trans.
Qed.

(** ** Static strings *)

Lemma copy_units_spec s done_ todo rest (n : Z) :
  s = done_ ++ todo ++ rest ->
  forall old, length old = length todo ->
  forall tail,
  String16.copy_units (length done_) (length todo) s
    (String16.StaticData n (done_ ++ old ++ tail)) = String16.StaticData n (done_ ++ todo ++ tail).
Proof.
  revert done_. induction todo as [|x todo IH]; intros done_ Hs [|y old] Hl tail; try done.
  cbn [length String16.copy_units String16.data String16.static_size].
  replace (s !!! length done_) with x; cycle 1.
  { subst s. by rewrite lookup_total_app_r, Nat.sub_diag. }
  replace (<[length done_ := x]> (done_ ++ (y :: old) ++ tail))
    with ((done_ ++ [x]) ++ old ++ tail); cycle 1.
  { rewrite insert_app_r_alt, Nat.sub_diag by done. by rewrite <- app_assoc. }
  replace (S (length done_)) with (length (done_ ++ [x])) by (rewrite length_app; simpl; lia).
  rewrite (IH (done_ ++ [x])); [|by rewrite <- app_assoc|by injection Hl].
  by rewrite <- app_assoc.
Qed.

(** A literal of [N] units, NUL included: the static string is the literal. *)
Lemma static_string_of_literal s :
  Z.of_nat (length s) < String16.kIsSharedBufferAllocated ->
  exists d, String16.makeStaticData (s ++ [0]) = Some d /\
    String16.data d = s ++ [0] /\ String16.static_string d = s.
Proof.
  intros Hn. unfold String16.makeStaticData, String16.new_static_data.
  rewrite length_app. cbn [length]. rewrite Nat.add_sub.
  destruct (Z.ltb_spec (Z.of_nat (length s + 1) - 1) String16.kIsSharedBufferAllocated); [|lia].
  cbn [mbind option_bind]. eexists. split; [reflexivity|].
  rewrite replicate_add.
  pose proof (copy_units_spec (s ++ [0]) [] s [0] (Z.of_nat (length s + 1) - 1) eq_refl
    (replicate (length s) 0) ltac:(apply length_replicate) (replicate 1 0)) as Hc.
  cbn [length app] in Hc. rewrite Hc. cbn [String16.data String16.static_string String16.static_size].
  split; [done|]. unfold String16.static_string. cbn [String16.data String16.static_size].
  replace (Z.to_nat (Z.of_nat (length s + 1) - 1)) with (length s) by lia. by rewrite take_app_length.
Qed.
