(* ===== verification/Interfaces.v ===== *)
(** * Interfaces on binder objects (binder/IInterface.h)

    What the interface macros define for an interface class: its descriptor, the casts
    between binder objects and interface pointers, the default implementation and the check
    that a manually written interface is on the allow list.  The objects of libbinder that
    are no [BnInterface] answer [queryLocalInterface] and [getInterfaceDescriptor] by
    parameters. *)

From stdpp Require Import strings.
From Stdlib Require Import Ascii.
From S2P Require Import Prelude StringTypes.

(** ** The allow list *)

(** The units of a literal, without the NUL after them. *)
Definition units (s : string) : list Z :=
  map (fun c => Z.of_N (Ascii.N_of_ascii c)) (String.list_ascii_of_string s).

Definition manual_names : list string :=
  [
   "android.app.IActivityManager";
   "android.app.IUidObserver";
   "android.gfx.tests.ICallback";
   "android.gfx.tests.IIPCTest";
   "android.gfx.tests.ISafeInterfaceTest";
   "android.graphicsenv.IGpuService";
   "android.gui.IConsumerListener";
   "android.gui.IGraphicBufferConsumer";
   "android.gui.ITransactionComposerListener";
   "android.gui.SensorEventConnection";
   "android.gui.SensorServer";
   "android.hardware.ICamera";
   "android.hardware.ICameraClient";
   "android.hardware.ICameraRecordingProxy";
   "android.hardware.ICameraRecordingProxyListener";
   "android.hardware.IOMXObserver";
   "android.hardware.IStreamListener";
   "android.hardware.IStreamSource";
   "android.media.IAudioService";
   "android.media.IDataSource";
   "android.media.IMediaCodecList";
   "android.media.IMediaExtractor";
   "android.media.IMediaHTTPConnection";
   "android.media.IMediaHTTPService";
   "android.media.IMediaLogService";
   "android.media.IMediaMetadataRetriever";
   "android.media.IMediaPlayer";
   "android.media.IMediaPlayerClient";
   "android.media.IMediaPlayerService";
   "android.media.IMediaRecorder";
   "android.media.IMediaRecorderClient";
   "android.media.IMediaResourceMonitor";
   "android.media.IMediaSource";
   "android.media.IRemoteDisplay";
   "android.media.IRemoteDisplayClient";
   "android.os.IPermissionController";
   "android.os.IProcessInfoService";
   "android.os.ISchedulingPolicyService";
   "android.os.storage.IObbActionListener";
   "android.os.storage.IStorageEventListener";
   "android.os.storage.IStorageManager";
   "android.os.storage.IStorageShutdownObserver";
   "android.ui.ISurfaceComposer";
   "android.utils.IMemory";
   "android.utils.IMemoryHeap";
   "com.android.car.procfsinspector.IProcfsInspector";
   "com.android.internal.app.IAppOpsService";
   "com.android.internal.app.IBatteryStats";
   "com.android.internal.os.IResultReceiver";
   "com.android.internal.os.IShellCallback";
   "drm.IDrmManagerService";
   "drm.IDrmServiceListener"
  ]%string.

Definition kManualInterfaces : list (option (list Z)) :=
  map (fun s => Some (units s)) manual_names ++ [None].

Definition kDownstreamManualInterfaces : list (option (list Z)) := [None].

(** [*p] and [p + 1] of a C string whose list ends before the NUL. *)
Definition char_at (s : list Z) : Z := hd 0 s.

Fixpoint equals (a b : list Z) : bool :=
  if negb (char_at a =? char_at b) then false
  else if char_at a =? 0 then true
  else match a with [] => true | _ :: a' => equals a' (tl b) end.

Fixpoint inList (a : list Z) (allowlist : list (option (list Z))) : bool :=
  match allowlist with
  | [] => false
  | None :: _ => false
  | Some s :: rest => if equals a s then true else inList a rest
  end.

Definition allowedManualInterface (name : list Z) : bool :=
  inList name kManualInterfaces || inList name kDownstreamManualInterfaces.

(** ** Objects and interface pointers *)

(** [BnInterface<INTERFACE>] is both; any other binder object (a proxy of libbinder's, or
    another [BBinder]) is known by its identity. *)
Inductive IBinder :=
| LocalBinder (id : Z) (descriptor : list Z)
| OtherBinder (id : Z).

Inductive IInterface :=
| BnInterface (id : Z) (descriptor : list Z)
| BpInterface (remote : IBinder).

(** [fromExisting(this)] *)
Definition as_interface_of_local (id : Z) (descriptor : list Z) : IInterface :=
  BnInterface id descriptor.

Section casts.
Variable strzcmp16 : list Z -> nat -> list Z -> nat -> Z.
(** libbinder's answers of the objects that are not local. *)
Variable other_query : Z -> list Z -> option IInterface.
Variable other_descriptor : Z -> list Z.

Definition queryLocalInterface (b : IBinder) (_descriptor : list Z) : option IInterface :=
  match b with
  | LocalBinder id d =>
      if String16.op_eq16 strzcmp16 _descriptor d then Some (as_interface_of_local id d) else None
  | OtherBinder id => other_query id _descriptor
  end.

Definition getInterfaceDescriptor (b : IBinder) : list Z :=
  match b with LocalBinder _ d => d | OtherBinder id => other_descriptor id end.

Definition onAsBinder (i : IInterface) : IBinder :=
  match i with BnInterface id d => LocalBinder id d | BpInterface remote => remote end.

(** [ITYPE::asInterface], for the interface with that descriptor; a null pointer is [None]. *)
Definition asInterface (descriptor : list Z) (obj : option IBinder) : option IInterface :=
  match obj with
  | None => None
  | Some o =>
      match queryLocalInterface o descriptor with
      | Some intr => Some intr
      | None => Some (BpInterface o)
      end
  end.

Definition interface_cast (descriptor : list Z) (obj : option IBinder) : option IInterface :=
  asInterface descriptor obj.

(** It follows the pointer: [obj] is not null. *)
Definition checked_interface_cast (descriptor : list Z) (obj : IBinder) : option IInterface :=
  if String16.op_ne16 strzcmp16 (getInterfaceDescriptor obj) descriptor then None
  else interface_cast descriptor (Some obj).
End casts.

(** ** The default implementation *)

Inductive outcome A := Returned (a : A) | AssertionFailed.
Arguments Returned {A}.
Arguments AssertionFailed {A}.

(** [default_impl] before the call to [default_impl] after it, and the result. *)
Definition setDefaultImpl (default_impl impl : option IInterface) :
    outcome (option IInterface * bool) :=
  match default_impl with
  | Some _ => AssertionFailed
  | None => match impl with Some i => Returned (Some i, true) | None => Returned (None, false) end
  end.

Definition getDefaultImpl (default_impl : option IInterface) : option IInterface := default_impl.

(** ** The macros *)

(** [IMPLEMENT_META_INTERFACE]: the static assertion and the descriptor; [NAME] is a
    literal. *)
Definition IMPLEMENT_META_INTERFACE (NAME : list Z) : option (list Z) :=
  if allowedManualInterface NAME
  then d ← String16.makeStaticData (NAME ++ [0]); Some (String16.static_string d)
  else None.

Definition PERMISSION_DENIED : Z := -1.

(** [CHECK_INTERFACE] at the head of a handler: what [Parcel::checkInterface] said, and the
    handler. *)
Definition CHECK_INTERFACE {A} (check : bool) (denied : Z -> A) (handler : A) : A :=
  if negb check then denied PERMISSION_DENIED else handler.

(** ** Lemmas *)

Lemma equals_spec a b : equals a b = true <-> c_part a = c_part b.
Proof.
  revert b. induction a as [|x a IH]; intros [|y b]; cbn [equals char_at hd tl c_part].
  - done.
  - destruct (Z.eqb_spec 0 y), (Z.eqb_spec y 0); simpl; done || lia.
  - destruct (Z.eqb_spec x 0); simpl; done.
  - destruct (Z.eqb_spec x y) as [<-|]; simpl.
    + destruct (Z.eqb_spec x 0); [done|]. rewrite IH. split; congruence.
    + destruct (Z.eqb_spec x 0), (Z.eqb_spec y 0); split; congruence.
Qed.

(** The list up to its null pointer. *)
Lemma inList_spec a names rest :
  inList a (map Some names ++ None :: rest) = true <->
  exists s, In s names /\ c_part a = c_part s.
Proof.
  induction names as [|s names IH]; simpl.
  - split; [done|]. intros (? & [] & _).
  - destruct (equals a s) eqn:He.
    + split; [|done]. intros _. exists s. split; [by left|by apply equals_spec].
    + rewrite IH. split.
      * intros (t & Ht & Hc). exists t. auto.
      * intros (t & [<-|Ht] & Hc); [|by eauto]. apply equals_spec in Hc. congruence.
Qed.

Lemma units_inj s t : units s = units t -> s = t.
Proof.
  unfold units. intros H.
  assert (Hi : forall x y, Z.of_N (N_of_ascii x) = Z.of_N (N_of_ascii y) -> x = y).
  { intros x y Hxy. rewrite <- (ascii_N_embedding x), <- (ascii_N_embedding y). f_equal. lia. }
  rewrite <- (String.string_of_list_ascii_of_string s), <- (String.string_of_list_ascii_of_string t).
  f_equal. revert H. generalize (String.list_ascii_of_string s), (String.list_ascii_of_string t).
  clear s t. induction l as [|x l IH]; intros [|y k]; simpl; try done. intros [= H1 H2]. f_equal; auto.
Qed.

Lemma nul_free_dec_units s :
  forallb (fun x => 0 <? x) (units s) = true -> nul_free (units s).
Proof.
  unfold nul_free. rewrite forallb_forall, Forall_forall. intros H x Hx.
  apply list_elem_of_In, H in Hx. lia.
Qed.

Lemma manual_names_nul_free s : In s manual_names -> nul_free (units s).
Proof.
  intros H. apply nul_free_dec_units. revert s H. apply forallb_forall. by vm_compute.
Qed.

Lemma allowed_spec name :
  nul_free (units name) -> allowedManualInterface (units name) = true <-> In name manual_names.
Proof.
  intros Hn. unfold allowedManualInterface. simpl inList at 2. rewrite orb_false_r.
  unfold kManualInterfaces. rewrite <- (map_map units Some), inList_spec, (c_part_nul_free _ Hn). split.
  - intros (s & Hs & He). apply in_map_iff in Hs as (t & <- & Ht).
    rewrite (c_part_nul_free _ (manual_names_nul_free t Ht)) in He. by apply units_inj in He as ->.
  - intros H. exists (units name). split; [by apply in_map|].
    by rewrite c_part_nul_free by apply manual_names_nul_free, H.
Qed.

(** The descriptor of an allowed interface is the literal. *)
Lemma meta_descriptor name :
  nul_free (units name) -> In name manual_names ->
  IMPLEMENT_META_INTERFACE (units name) = Some (units name).
Proof.
  intros Hn Hin. unfold IMPLEMENT_META_INTERFACE. rewrite (proj2 (allowed_spec name Hn) Hin).
  destruct (static_string_of_literal (units name)) as (d & Hd & _ & Hs); [|by rewrite Hd; simpl; rewrite Hs].
  assert (Hl : forall s, In s manual_names -> (length (units s) <? 1000)%nat = true).
  { apply forallb_forall. by vm_compute. }
  apply Hl, Nat.ltb_lt in Hin. unfold String16.kIsSharedBufferAllocated. lia.
Qed.

(** The equality of the headers is equality of the units. *)
Lemma op_eq_spec f a b : strzcmp16_spec f -> String16.op_eq16 f a b = true <-> a = b.
Proof.
  intros Hz. specialize (Hz a (length a) b (length b)). rewrite !firstn_all in Hz.
  rewrite <- lex_refl, <- Hz. unfold String16.op_eq16, String16.size16. rewrite Z.eqb_eq.
  by rewrite Z.compare_eq_iff.
Qed.

Lemma op_ne_spec f a b : strzcmp16_spec f -> String16.op_ne16 f a b = false <-> a = b.
Proof.
  intros Hz. rewrite <- (op_eq_spec f a b Hz). unfold String16.op_ne16, String16.op_eq16.
  by rewrite negb_false_iff.
Qed.

(** C40: the casts between binder objects and interfaces.  With libbinder's objects that hold
    no interface of this process:
    - a cast of a binder object is never null, and the interface's binder object is the one
      that was cast, local or not, whatever its descriptor;
    - a local object cast to its own interface is itself, so that casting the binder object
      of any interface pointer back to the interface gives that pointer;
    - the checked cast is the cast where the descriptors are equal and null elsewhere; the
      plain cast of a local object of another interface is a proxy to it. *)
Theorem casts_keep_the_object strzcmp16 other_query other_descriptor (descriptor : list Z) :
  strzcmp16_spec strzcmp16 -> (forall id d, other_query id d = None) ->
  (forall b, exists i, interface_cast strzcmp16 other_query descriptor (Some b) = Some i /\
     onAsBinder i = b) /\
  (forall id, interface_cast strzcmp16 other_query descriptor
     (Some (LocalBinder id descriptor)) = Some (BnInterface id descriptor)) /\
  (forall id, let i := BpInterface (OtherBinder id) in
     interface_cast strzcmp16 other_query descriptor (Some (onAsBinder i)) = Some i) /\
  (forall b, checked_interface_cast strzcmp16 other_query other_descriptor descriptor b =
     if decide (getInterfaceDescriptor other_descriptor b = descriptor)
     then interface_cast strzcmp16 other_query descriptor (Some b) else None) /\
  (forall id d, d <> descriptor ->
     interface_cast strzcmp16 other_query descriptor (Some (LocalBinder id d))
       = Some (BpInterface (LocalBinder id d))).
Proof.
  intros Hz Hq.
  assert (Heq : forall d, String16.op_eq16 strzcmp16 descriptor d = bool_decide (descriptor = d)).
  { intros d. apply eq_bool_prop_intro. rewrite !Is_true_true, bool_decide_eq_true.
    by apply op_eq_spec. }
  unfold interface_cast, asInterface. split_and!.
  - intros [id d|id]; simpl; [|rewrite Hq; by eexists].
    rewrite Heq. case_bool_decide; by eexists.
  - intros id. simpl. rewrite Heq. by rewrite bool_decide_true.
  - intros id. simpl. by rewrite Hq.
  - intros b. unfold checked_interface_cast, interface_cast, asInterface.
    destruct (String16.op_ne16 strzcmp16 (getInterfaceDescriptor other_descriptor b) descriptor) eqn:E.
    + rewrite decide_False; [done|]. intros He. apply (op_ne_spec _ _ _ Hz) in He. congruence.
    + apply (op_ne_spec _ _ _ Hz) in E. by rewrite decide_True.
  - intros id d Hd. simpl. rewrite Heq. by rewrite bool_decide_false.
Qed.

(** Nine units, and an object of another interface. *)
Lemma casts_keep_the_object_witness :
  let f a (n : nat) b (m : nat) := sign_of (lex (take n a) (take m b)) in
  let q (id : Z) (d : list Z) := @None IInterface in
  let own (id : Z) := units "drm.IDrmManagerService" in
  let d := units "android.media.IMediaPlayer" in
  (checked_interface_cast f q own d (LocalBinder 1 (units "x")) = None /\
   checked_interface_cast f q own d (OtherBinder 7) = None /\
   checked_interface_cast f q own d (LocalBinder 1 d) = Some (BnInterface 1 d)) /\
  (forall b, exists i, interface_cast f q d (Some b) = Some i /\ onAsBinder i = b).
Proof.
  intros f q own d. split; [split_and!; vm_compute; reflexivity|].
  refine (proj1 (casts_keep_the_object f q own d _ _)).
  - intros x n y m. unfold f. by destruct (lex (take n x) (take m y)).
  - done.
Defined.

(** Calls of [setDefaultImpl] in a row: the one that sets it is the last that returns. *)
Fixpoint set_calls (default_impl : option IInterface) (impls : list (option IInterface)) :
    outcome (option IInterface) :=
  match impls with
  | [] => Returned default_impl
  | i :: rest =>
      match setDefaultImpl default_impl i with
      | Returned (d, _) => set_calls d rest
      | AssertionFailed => AssertionFailed
      end
  end.

Lemma default_set_once impls d :
  set_calls None impls = Returned d <->
  (d = None /\ Forall (fun i => i = None) impls) \/
  (exists i n, d = Some i /\ impls = replicate n None ++ [Some i]).
Proof.
  induction impls as [|[i|] impls IH]; simpl.
  - split; [intros [= <-]; left; by split|]. intros [[-> _]|(i & [|n] & _ & H)]; done.
  - split.
    + destruct impls; simpl; [|done]. intros [= <-]. right. by exists i, 0%nat.
    + intros [[_ H]|(j & [|n] & -> & H)]; simplify_eq/=; [by apply Forall_cons_1 in H as [? _]|done].
  - rewrite IH. split.
    + intros [[-> H]|(i & n & -> & ->)]; [left; split; [done|by constructor]|right; by exists i, (S n)].
    + intros [[-> H]|(i & [|n] & -> & H)]; simplify_eq/=.
      * left. split; [done|]. by apply Forall_cons_1 in H as [_ ?].
      * right. by exists i, n.
Qed.
