(* ===== verification/Tee.v ===== *)
(** * Probing the TEE (AttestUtils.kt, tee/TeeRetryPolicy.kt, TeeProbeClassifier.kt,
      TeeProbeBootstrap.kt, TeeProbeAttemptCoordinator.kt)

    The thread that finds out whether the device can attest keys: a first probe, then nine
    more with growing delays as long as the answer is not known, each classified from the
    error codes and messages of its failure.  What the platform answers is the environment:
    the outcome of each probe, whether initialising the provider works, when the boot is
    completed, and how much longer than asked each sleep takes.  The clock does not run
    backwards. *)

From stdpp Require Import strings.
From Stdlib Require Import Ascii.
From S2P Require Import Prelude KeyModes.

(** ** The retry policy *)

Module TeeRetryPolicy.
Definition MAX_ATTEMPTS : Z := 9.
Definition INITIAL_DELAY_MS : Z := 2000.
Definition MAX_DELAY_MS : Z := 15000.
Definition BOOT_COMPLETED_POLL_MS : Z := 500.
Definition BOOT_COMPLETED_TIMEOUT_MS : Z := 90000.

(** [Long.shl] takes the low six bits of the count. *)
Definition shl (x count : Z) : Z := sext 64 (Z.shiftl x (count mod 64)).

Definition delayMs (attempt : Z) : Z :=
  let shift := Z.min (attempt - 1) 3 in
  Z.min (shl INITIAL_DELAY_MS shift) MAX_DELAY_MS.

Definition shouldContinueRetrying (state : TeeState) (attempt : Z) : bool :=
  bool_decide (state = UNKNOWN) && (attempt <=? MAX_ATTEMPTS).

Definition maxPostBootCompletedWindowMs : Z :=
  foldr (fun a s => delayMs a + s) 0 (seqZ 1 MAX_ATTEMPTS).
End TeeRetryPolicy.
Import TeeRetryPolicy.

(** ** Classification of a probe's failure *)

Inductive TeeProbeResult := P_WORKING | P_TRANSIENT | P_BROKEN.

#[export] Instance TeeProbeResult_eq_dec : EqDecision TeeProbeResult.
Proof. solve_decision. Defined.

Definition BACKEND_BUSY : Z := 18.
Definition OUT_OF_KEYS_REQUIRES_SYSTEM_UPGRADE : Z := 23.
Definition OUT_OF_KEYS_PENDING_INTERNET_CONNECTIVITY : Z := 24.
Definition OUT_OF_KEYS_TRANSIENT_ERROR : Z := 25.
Definition OUT_OF_KEYS_PERMANENT_ERROR : Z := 26.
Definition KM_ERROR_KEYMINT_NOT_CONFIGURED : Z := -64.
Definition KM_ERROR_ATTESTATION_KEYS_NOT_PROVISIONED : Z := -74.
Definition KM_ERROR_ATTESTATION_IDS_NOT_PROVISIONED : Z := -75.

(** The code units of a literal. *)
Definition literal (s : string) : kstring :=
  map (fun c => Z.of_N (N_of_ascii c)) (String.list_ascii_of_string s).

(** [lowercase()], as far as it gives letters of ASCII: the other characters it changes become
    characters no literal here has. *)
Definition lower_unit (c : Z) : kstring :=
  if (65 <=? c) && (c <=? 90) then [c + 32]
  else if c =? 0x212A then [107]
  else if c =? 0x130 then [105; 0x307]
  else [c].

Definition lowercase (s : kstring) : kstring := concat (map lower_unit s).

Fixpoint has_prefix (p s : kstring) : bool :=
  match p, s with
  | [], _ => true
  | x :: p', y :: s' => (x =? y) && has_prefix p' s'
  | _ :: _, [] => false
  end.

Fixpoint contains (s p : kstring) : bool :=
  has_prefix p s || match s with [] => false | _ :: s' => contains s' p end.

(** The [when] over one code: [None] goes on to the next. *)
Definition classify_code (code : Z) (bootCompleted : bool) : option TeeProbeResult :=
  if (code =? OUT_OF_KEYS_TRANSIENT_ERROR) || (code =? OUT_OF_KEYS_PENDING_INTERNET_CONNECTIVITY)
     || (code =? BACKEND_BUSY) then Some P_TRANSIENT
  else if (code =? OUT_OF_KEYS_PERMANENT_ERROR) || (code =? OUT_OF_KEYS_REQUIRES_SYSTEM_UPGRADE)
  then Some P_BROKEN
  else if (code =? KM_ERROR_ATTESTATION_KEYS_NOT_PROVISIONED)
          || (code =? KM_ERROR_ATTESTATION_IDS_NOT_PROVISIONED)
          || (code =? KM_ERROR_KEYMINT_NOT_CONFIGURED)
  then Some (if bootCompleted then P_BROKEN else P_TRANSIENT)
  else None.

(** The [when] over one message. *)
Definition classify_message (message : kstring) (bootCompleted : bool) : option TeeProbeResult :=
  let lower := lowercase message in
  let has s := contains lower (literal s) in
  if has "out_of_keys"%string && has "transient"%string then Some P_TRANSIENT
  else if has "remoteprovisioning"%string || has "rkpd"%string
          || has "no system services were found hosting"%string
          || has "failed to get registration"%string || has "failed to get rkpd"%string
          || has "trying to get attestation key from rkpd"%string
  then Some P_TRANSIENT
  else if has "attestation keys not provisioned"%string
          || has "attestation ids not provisioned"%string
          || has "keymint not configured"%string
  then Some (if bootCompleted then P_BROKEN else P_TRANSIENT)
  else None.

(** A loop that returns from its body. *)
Fixpoint first_some {A B} (f : A -> option B) (l : list A) : option B :=
  match l with
  | [] => None
  | x :: l' => match f x with Some b => Some b | None => first_some f l' end
  end.

Definition classifySignals (messages : list kstring) (errorCodes : list Z) (bootCompleted : bool) :
    TeeProbeResult :=
  match first_some (fun c => classify_code c bootCompleted) errorCodes with
  | Some r => r
  | None =>
      match first_some (fun m => classify_message m bootCompleted) messages with
      | Some r => r
      | None => P_TRANSIENT
      end
  end.

(** An exception and its causes, outermost first: the message and the error code of each, if
    it has one. *)
Definition exception : Type := list (option kstring * option Z).

(** At most twelve levels are looked at. *)
Fixpoint extractSignals_loop (depth : nat) (e : exception) : list kstring * list Z :=
  match depth, e with
  | S d, (m, c) :: cause =>
      let '(ms, cs) := extractSignals_loop d cause in
      (option_list m ++ ms, option_list c ++ cs)
  | _, _ => ([], [])
  end.

Definition extractSignals (e : exception) : list kstring * list Z := extractSignals_loop 12 e.

Definition classifyException (e : exception) (bootCompleted : bool) : TeeProbeResult :=
  let signals := extractSignals e in
  classifySignals signals.1 signals.2 bootCompleted.

Definition extractPrimaryErrorCode (e : exception) : option Z := head (extractSignals e).2.

Definition resolveState (current : TeeState) (probeResult : TeeProbeResult) : TeeState :=
  match probeResult with
  | P_WORKING => WORKING
  | P_TRANSIENT => UNKNOWN
  | P_BROKEN => BROKEN
  end.

(** ** The one-shot bootstrap *)

Inductive BootstrapState := PENDING | READY | FAILED.

#[export] Instance BootstrapState_eq_dec : EqDecision BootstrapState.
Proof. solve_decision. Defined.

(** The coordinator: an operation is attempted when the bootstrap worked, which is tried
    once. *)
Record coordinator := Coordinator {
  bootstrapState : BootstrapState;
  bootstrapInvocationCount : nat;
  operationInvocationCount : nat
}.

(** [bootstrap] is whether it returns, rather than throws. *)
Definition ensureBootstrap (bootstrap : bool) (c : coordinator) : bool * coordinator :=
  match bootstrapState c with
  | READY => (true, c)
  | FAILED => (false, c)
  | PENDING =>
      (bootstrap, Coordinator (if bootstrap then READY else FAILED)
         (S (bootstrapInvocationCount c)) (operationInvocationCount c))
  end.

Definition runOperationAttempt (bootstrap : bool) (operate : TeeProbeResult) (c : coordinator) :
    option TeeProbeResult * coordinator :=
  let '(ok, c) := ensureBootstrap bootstrap c in
  if negb ok then (None, c)
  else (Some operate,
        Coordinator (bootstrapState c) (bootstrapInvocationCount c) (S (operationInvocationCount c))).

(** ** The probing thread *)

Record environment := Environment {
  initialize_ok : bool;             (** initializeMainlineModules and install return *)
  outcome : nat -> option exception; (** of the n-th probe; [None] is a key pair *)
  duration : nat -> Z;
  boot_completed : Z -> bool;       (** the property sys.boot_completed, at a time *)
  late : nat -> Z                   (** of the n-th sleep *)
}.

Section thread.
Context {AttestationData : Type}.

Record thread_state := Thread {
  state : TeeState;
  cachedAttestData : option AttestationData;
  bootstrap : BootstrapState;
  inits : nat;
  config : PkgConfig.t;
  now : Z;
  sleeps : nat;
  delays : list Z;                  (** those between the probes *)
  results : list TeeProbeResult
}.

Variable env : environment.
Implicit Types s : thread_state.

Definition sleep (ms : Z) s : thread_state :=
  Thread (state s) (cachedAttestData s) (bootstrap s) (inits s) (config s)
    (now s + ms + late env (sleeps s)) (S (sleeps s)) (delays s) (results s).

Definition isBootCompleted s : bool := boot_completed env (now s).

(** [TeeProbeBootstrap.ensureInitialized] *)
Definition ensureInitialized s : bool * thread_state :=
  match bootstrap s with
  | READY => (true, s)
  | FAILED => (false, s)
  | PENDING =>
      (initialize_ok env,
       Thread (state s) (cachedAttestData s) (if initialize_ok env then READY else FAILED)
         (S (inits s)) (config s) (now s) (sleeps s) (delays s) (results s))
  end.

Fixpoint wait_loop (fuel : nat) (deadline : Z) s : option thread_state :=
  match fuel with
  | O => None
  | S fuel =>
      if now s <? deadline then
        if isBootCompleted s then Some s
        else wait_loop fuel deadline (sleep BOOT_COMPLETED_POLL_MS s)
      else Some s
  end.

(** One turn per poll: [fuel] is one more than the polls there is time for. *)
Definition wait_fuel : nat := S (Z.to_nat (BOOT_COMPLETED_TIMEOUT_MS / BOOT_COMPLETED_POLL_MS)).

Definition waitForBootCompleted s : option thread_state :=
  if isBootCompleted s then Some s
  else wait_loop wait_fuel (now s + BOOT_COMPLETED_TIMEOUT_MS) s.

(** The listener of [Config.installTeeStateListener] keeps the state. *)
Definition transitionTo (newState : TeeState) s : thread_state :=
  if decide (state s = newState) then s
  else Thread newState (if decide (newState = WORKING) then cachedAttestData s else None)
         (bootstrap s) (inits s) (PkgConfig.storeTEEStatus newState (config s))
         (now s) (sleeps s) (delays s) (results s).

(** The probe: the failure is classified when it arrives. *)
Definition probeHardwareAttestationOnce s : TeeProbeResult * thread_state :=
  let n := length (results s) in
  let later := now s + duration env n in
  let r := match outcome env n with
           | None => P_WORKING
           | Some e => classifyException e (boot_completed env later)
           end in
  (r, Thread (state s) (cachedAttestData s) (bootstrap s) (inits s) (config s) later (sleeps s)
        (delays s) (results s ++ [r])).

(** Its caller passes false for [waitForBootCompleted], whose other answer is only logged. *)
Definition applyProbeResult (result : TeeProbeResult) s : thread_state :=
  transitionTo (resolveState (state s) result) s.

Definition runProbeAttempt s : thread_state :=
  let '(ready, s) := ensureInitialized s in
  if negb ready then s
  else let '(r, s) := probeHardwareAttestationOnce s in applyProbeResult r s.

Definition record_delay (ms : Z) s : thread_state :=
  Thread (state s) (cachedAttestData s) (bootstrap s) (inits s) (config s) (now s) (sleeps s)
    (delays s ++ [ms]) (results s).

Fixpoint runRetryLoop (fuel : nat) (attempt : Z) s : option thread_state :=
  match fuel with
  | O => None
  | S fuel =>
      if shouldContinueRetrying (state s) attempt then
        s ← waitForBootCompleted s;
        let delay := delayMs attempt in
        let s := sleep delay (record_delay delay s) in
        if negb (bool_decide (state s = UNKNOWN)) then Some s
        else runRetryLoop fuel (attempt + 1) (runProbeAttempt s)
      else Some s
  end.

(** The body of the thread of [startTeeStateInitialization]. *)
Definition startTeeStateInitialization s : option thread_state :=
  let s := runProbeAttempt s in runRetryLoop (S (Z.to_nat MAX_ATTEMPTS)) 1 s.

(** The objects as they are constructed. *)
Definition started (config : PkgConfig.t) (now : Z) : thread_state :=
  Thread UNKNOWN None PENDING 0 config now 0 [] [].
End thread.
Arguments thread_state : clear implicits.

(** ** Lemmas: the policy *)

Example delays_1_to_9 :
  map delayMs (seqZ 1 9) = [2000; 4000; 8000; 15000; 15000; 15000; 15000; 15000; 15000].
Proof. reflexivity. Qed.

Example window : maxPostBootCompletedWindowMs = 104000.
Proof. reflexivity. Qed.

Example delay_0 : delayMs 0 = 0 /\ delayMs 100 = 15000.
Proof. by vm_compute. Qed.

Lemma delay_nonneg a : 1 <= a -> 0 < delayMs a <= 15000.
Proof.
  intros H. unfold delayMs.
  assert (Z.min (a - 1) 3 = 0 \/ Z.min (a - 1) 3 = 1 \/ Z.min (a - 1) 3 = 2 \/ Z.min (a - 1) 3 = 3)
    as [-> |[-> |[-> | ->]]] by lia; by vm_compute.
Qed.

(** ** Lemmas: classification *)

Lemma first_some_Some {A B} (f : A -> option B) l b :
  first_some f l = Some b -> exists x, In x l /\ f x = Some b.
Proof.
  induction l as [|x l IH]; simpl; [done|]. destruct (f x) eqn:E; [|naive_solver].
  intros [= ->]. exists x. auto.
Qed.

Definition permanent_code (c : Z) : Prop :=
  c = OUT_OF_KEYS_PERMANENT_ERROR \/ c = OUT_OF_KEYS_REQUIRES_SYSTEM_UPGRADE.

Definition unprovisioned_code (c : Z) : Prop :=
  c = KM_ERROR_ATTESTATION_KEYS_NOT_PROVISIONED \/ c = KM_ERROR_ATTESTATION_IDS_NOT_PROVISIONED \/
  c = KM_ERROR_KEYMINT_NOT_CONFIGURED.

Definition unprovisioned_message (m : kstring) : Prop :=
  exists s, In s ["attestation keys not provisioned"; "attestation ids not provisioned";
                  "keymint not configured"]%string /\ contains (lowercase m) (literal s) = true.

Lemma classify_code_broken c b :
  classify_code c b = Some P_BROKEN ->
  permanent_code c \/ (b = true /\ unprovisioned_code c).
Proof.
  unfold classify_code, permanent_code, unprovisioned_code. intros H. repeat case_match; simplify_eq;
    repeat match goal with
    | H : (_ || _) = true |- _ => apply orb_true_iff in H as [H|H]
    | H : (_ =? _) = true |- _ => apply Z.eqb_eq in H
    end; auto 6.
Qed.

Lemma classify_message_broken m b :
  classify_message m b = Some P_BROKEN -> b = true /\ unprovisioned_message m.
Proof.
  unfold classify_message, unprovisioned_message. intros H.
  destruct (_ && _); [done|]. destruct (_ || _ || _ || _ || _ || _); [done|].
  destruct b; [|by destruct (_ || _ || _)]. split; [done|].
  destruct (contains (lowercase m) (literal "attestation keys not provisioned")) eqn:E1;
    [eexists; split; [by left|exact E1]|].
  destruct (contains (lowercase m) (literal "attestation ids not provisioned")) eqn:E2;
    [eexists; split; [by right; left|exact E2]|].
  destruct (contains (lowercase m) (literal "keymint not configured")) eqn:E3;
    [eexists; split; [by right; right; left|exact E3]|done].
Qed.

Lemma never_working messages codes b : classifySignals messages codes b <> P_WORKING.
Proof.
  unfold classifySignals. destruct (first_some _ codes) as [r|] eqn:E; [|destruct (first_some _ messages) as [r|] eqn:E'].
  - apply first_some_Some in E as (c & _ & E). unfold classify_code in E. repeat case_match; congruence.
  - apply first_some_Some in E' as (m & _ & E'). unfold classify_message in E'. repeat case_match; congruence.
  - done.
Qed.

(** The platform says so: a failure is permanent only by a permanent code, or, after the boot,
    by a code or message saying that the keys were not provisioned. *)
Lemma broken_is_reported e b :
  classifyException e b = P_BROKEN ->
  let '(messages, codes) := extractSignals e in
  (exists c, In c codes /\ permanent_code c) \/
  (b = true /\ ((exists c, In c codes /\ unprovisioned_code c) \/
                exists m, In m messages /\ unprovisioned_message m)).
Proof.
  unfold classifyException, classifySignals. destruct (extractSignals e) as [ms cs]. simpl.
  destruct (first_some (fun c => classify_code c b) cs) as [r|] eqn:E.
  - intros ->. apply first_some_Some in E as (c & Hc & E).
    destruct (classify_code_broken _ _ E) as [|[]]; [left; eauto|right; eauto].
  - destruct (first_some _ ms) as [r|] eqn:E'; [|done].
    intros ->. apply first_some_Some in E' as (m & Hm & E').
    destruct (classify_message_broken _ _ E') as []. right. eauto.
Qed.

(** The coordinator bootstraps once, and operates only after it worked. *)
Lemma coordinator_runs_once bootstrap operations c rs :
  foldl (fun '(rs, c) r => let '(o, c) := runOperationAttempt bootstrap r c in (rs ++ [o], c))
    ([], Coordinator PENDING 0 0) operations = (rs, c) ->
  rs = map (fun r => if bootstrap then Some r else None) operations /\
  (bootstrapInvocationCount c <= 1)%nat /\
  operationInvocationCount c = if bootstrap then length operations else 0%nat.
Proof.
  intros H.
  enough (He : (rs, c) = (map (fun r => if bootstrap then Some r else None) operations,
    match operations with [] => Coordinator PENDING 0 0 | _ =>
      Coordinator (if bootstrap then READY else FAILED) 1
        (if bootstrap then length operations else 0%nat) end)).
  { injection He as -> ->. destruct operations, bootstrap; simpl; split_and!; done || lia. }
  rewrite <- H. clear H rs c. induction operations as [|r ops IH] using rev_ind; [done|].
  rewrite foldl_app, IH, map_app, length_app. simpl. unfold runOperationAttempt, ensureBootstrap.
  destruct ops as [|r' ops]; destruct bootstrap; simpl; by rewrite ?Nat.add_1_r.
Qed.

(** ** Lemmas: the thread *)

Section runs.
Context {AttestationData : Type} (env : environment) (cfg : PkgConfig.t).
#[local] Abbreviation thr := (thread_state AttestationData).
Implicit Types s : thr.
Hypothesis late_nonneg : forall n, 0 <= late env n.

(** Waiting changes the time only. *)
Definition same_but_time s s' : Prop :=
  state s' = state s /\ cachedAttestData s' = cachedAttestData s /\ bootstrap s' = bootstrap s /\
  inits s' = inits s /\ config s' = config s /\ delays s' = delays s /\ results s' = results s.

Lemma wait_loop_returns fuel deadline s :
  deadline - now s <= (Z.of_nat fuel - 1) * BOOT_COMPLETED_POLL_MS -> (0 < fuel)%nat ->
  exists s', wait_loop env fuel deadline s = Some s' /\ same_but_time s s' /\ now s <= now s'.
Proof.
  unfold BOOT_COMPLETED_POLL_MS. revert s. induction fuel as [|fuel IH]; intros s Hd Hf; [lia|].
  simpl. destruct (Z.ltb_spec (now s) deadline); [|by exists s].
  destruct (isBootCompleted env s); [by exists s|].
  pose proof (late_nonneg (sleeps s)) as Hl.
  destruct (IH (sleep env 500 s)) as (s' & Hs' & Hsame & Hn); simpl in *; try lia.
  exists s'. split_and!; [done| |lia]. by destruct s.
Qed.

Lemma wait_returns s :
  exists s', waitForBootCompleted env s = Some s' /\ same_but_time s s'.
Proof.
  unfold waitForBootCompleted. destruct (isBootCompleted env s); [by exists s|].
  destruct (wait_loop_returns wait_fuel (now s + BOOT_COMPLETED_TIMEOUT_MS) s) as (s' & H & Hs & _);
    [|unfold wait_fuel; lia|by exists s'].
  unfold wait_fuel. rewrite Nat2Z.inj_succ, Z2Nat.id by done. vm_compute (_ / _).
  unfold BOOT_COMPLETED_TIMEOUT_MS, BOOT_COMPLETED_POLL_MS. lia.
Qed.

(** The result of the n-th probe made. *)
Definition explained (n : nat) (r : TeeProbeResult) : Prop :=
  match outcome env n with
  | None => r = P_WORKING
  | Some e => exists bootCompleted, r = classifyException e bootCompleted
  end.

(** Nothing decided: every probe so far was transient, or there is no probing at all. *)
Definition undecided (probes : nat) s : Prop :=
  state s = UNKNOWN /\ inits s = 1%nat /\ config s = cfg /\
  (forall i, (i < length (results s))%nat -> explained i P_TRANSIENT) /\
  if initialize_ok env
  then bootstrap s = READY /\ results s = replicate probes P_TRANSIENT
  else bootstrap s = FAILED /\ results s = [].

(** The last probe decided. *)
Definition decided (probes : nat) s : Prop :=
  initialize_ok env = true /\ inits s = 1%nat /\
  exists r, r <> P_TRANSIENT /\ results s = replicate probes P_TRANSIENT ++ [r] /\
    state s = resolveState UNKNOWN r /\ config s = PkgConfig.storeTEEStatus (state s) cfg /\
    explained probes r /\ (forall i, (i < probes)%nat -> explained i P_TRANSIENT).

Lemma undecided_same probes s s' :
  same_but_time s s' -> undecided probes s -> undecided probes s'.
Proof.
  intros (H1 & _ & H3 & H4 & H5 & _ & H7). unfold undecided. by rewrite H1, H3, H4, H5, H7.
Qed.

(** A probe of an initialised thread. *)
Lemma probe_ready probes s :
  state s = UNKNOWN -> inits s = 1%nat -> config s = cfg -> bootstrap s = READY ->
  initialize_ok env = true -> results s = replicate probes P_TRANSIENT ->
  (forall i, (i < probes)%nat -> explained i P_TRANSIENT) ->
  let '(r, s1) := probeHardwareAttestationOnce env s in
  undecided (S probes) (applyProbeResult r s1) \/ decided probes (applyProbeResult r s1).
Proof.
  intros Hst Hi Hc Hb Hok Hr Hex. unfold probeHardwareAttestationOnce.
  set (r := match outcome env (length (results s)) with Some _ => _ | None => _ end).
  assert (He : explained probes r).
  { unfold explained, r. rewrite Hr, length_replicate. destruct (outcome env probes); [by eexists|done]. }
  clearbody r. destruct r.
  - right. unfold applyProbeResult, transitionTo. simpl. rewrite Hst. simpl.
    split_and!; [done|done|]. exists P_WORKING. simpl. rewrite Hr, Hc. by split_and!.
  - left. unfold applyProbeResult, transitionTo. simpl. rewrite Hst. simpl.
    unfold undecided. simpl. rewrite Hr, Hok. split_and!; try done.
    + rewrite length_app, length_replicate. simpl. intros i H.
      destruct (decide (i = probes)) as [->|]; [done|]. apply Hex. lia.
    + by rewrite <- replicate_S_end.
  - right. unfold applyProbeResult, transitionTo. simpl. rewrite Hst. simpl.
    split_and!; [done|done|]. exists P_BROKEN. simpl. rewrite Hr, Hc. by split_and!.
Qed.

(** One more attempt. *)
Lemma attempt_step probes s :
  undecided probes s ->
  undecided (S probes) (runProbeAttempt env s) \/ decided probes (runProbeAttempt env s).
Proof.
  intros (Hst & Hi & Hc & Hex & Hb). unfold runProbeAttempt, ensureInitialized.
  destruct (initialize_ok env) eqn:Hok.
  - destruct Hb as [Hb Hr]. rewrite Hb. simpl.
    refine (probe_ready probes s Hst Hi Hc Hb Hok Hr _).
    intros i H. apply Hex. by rewrite Hr, length_replicate.
  - destruct Hb as [Hb Hr]. rewrite Hb. simpl. left. unfold undecided. by rewrite Hok.
Qed.

Lemma first_attempt t :
  let s := runProbeAttempt env (started cfg t) in
  delays s = [] /\ (undecided 1 s \/ decided 0 s).
Proof.
  unfold runProbeAttempt, ensureInitialized, started. cbn [bootstrap].
  destruct (initialize_ok env) eqn:Hok; cbn [negb].
  - set (s := Thread _ _ _ _ _ _ _ _ _).
    pose proof (probe_ready 0 s eq_refl eq_refl eq_refl eq_refl Hok eq_refl ltac:(lia)) as H.
    destruct (probeHardwareAttestationOnce env s) as [r s1] eqn:E. split; [|exact H].
    unfold probeHardwareAttestationOnce in E. injection E as <- <-.
    unfold applyProbeResult, transitionTo. by case_decide.
  - split; [done|]. left. unfold undecided. simpl. rewrite Hok. split_and!; try done. simpl. lia.
Qed.

Lemma probe_delays s : delays (runProbeAttempt env s) = delays s.
Proof.
  unfold runProbeAttempt, ensureInitialized. destruct (bootstrap s); simpl; try done;
    [destruct (initialize_ok env); simpl; [|done]|];
    unfold applyProbeResult, transitionTo; by case_decide.
Qed.

Lemma retry_returns fuel (k : nat) s :
  undecided (S k) s -> delays s = map delayMs (seqZ 1 (Z.of_nat k)) ->
  (k <= 9)%nat -> (10 - k <= fuel)%nat ->
  exists s' (j : nat), runRetryLoop env fuel (Z.of_nat k + 1) s = Some s' /\
    (k <= j <= 9)%nat /\ delays s' = map delayMs (seqZ 1 (Z.of_nat j)) /\
    (undecided 10 s' /\ j = 9%nat \/ decided j s').
Proof.
  revert k s. induction fuel as [|fuel IH]; intros k s Hu Hd Hk Hf; [lia|].
  cbn [runRetryLoop]. unfold shouldContinueRetrying. rewrite (proj1 Hu), bool_decide_true by done.
  unfold MAX_ATTEMPTS. destruct (Z.leb_spec (Z.of_nat k + 1) 9) as [Hle|Hgt]; cbn [andb].
  2:{ assert (k = 9)%nat as -> by lia. exists s, 9%nat. split_and!; auto; lia. }
  destruct (wait_returns s) as (s1 & -> & Hs1). cbn [mbind option_bind].
  set (s2 := sleep env _ _).
  assert (Hu2 : undecided (S k) s2) by exact (undecided_same _ _ _ Hs1 Hu).
  assert (Hd2 : delays s2 = map delayMs (seqZ 1 (Z.of_nat (S k)))).
  { unfold s2. simpl. destruct Hs1 as (_ & _ & _ & _ & _ & -> & _). rewrite Hd.
    rewrite Nat2Z.inj_succ, <- Z.add_1_r, seqZ_app by lia. rewrite map_app. simpl. do 3 f_equal. lia. }
  rewrite (proj1 Hu2), bool_decide_true by done. cbn [negb].
  rewrite <- (probe_delays s2) in Hd2.
  destruct (attempt_step _ _ Hu2) as [H|H].
  - destruct (IH (S k) _ H Hd2) as (s' & j & Hs' & Hj & Hdj & Hr); [lia|lia|].
    exists s', j. rewrite Nat2Z.inj_succ, <- Z.add_1_r in Hs'. split_and!; [done|lia|lia|done|done].
  - destruct fuel as [|fuel]; [lia|]. exists (runProbeAttempt env s2), (S k). cbn [runRetryLoop].
    unfold shouldContinueRetrying. rewrite bool_decide_false.
    + cbn [andb]. split_and!; try done; [lia|lia|by right].
    + destruct H as (_ & _ & r & Hr & _ & -> & _). by destruct r.
Qed.
End runs.

(** ** The whole thread *)

Lemma sum_delays (j : nat) :
  (j <= 9)%nat -> foldr Z.add 0 (map delayMs (seqZ 1 (Z.of_nat j))) <= 104000.
Proof.
  intros H. assert (forallb (fun j => foldr Z.add 0 (map delayMs (seqZ 1 (Z.of_nat j))) <=? 104000)
    (seq 0 10) = true) as Hall by reflexivity.
  rewrite forallb_forall in Hall. apply Z.leb_le, Hall, in_seq. lia.
Qed.

(** C36: the probing thread always ends, whatever the platform does.  It initialises the
    provider exactly once.  If that works it makes between one and ten probes, waiting at
    most 104 seconds in all between them; every probe but the last was transient, and each
    result is what the platform's outcome is classified as; the last one decides the state,
    which stays unknown only after ten transient probes, and what the configuration keeps of
    it.  If the provider cannot be initialised nothing is probed and nothing is decided. *)
Theorem startTeeStateInitialization_decides {A} (env : environment) (cfg : PkgConfig.t) (t : Z) :
  (forall n, 0 <= late env n) ->
  exists s : thread_state A,
    startTeeStateInitialization env (started cfg t) = Some s /\
    inits s = 1%nat /\
    (delays s = map delayMs (seqZ 1 (Z.of_nat (length (delays s)))) /\
     foldr Z.add 0 (delays s) <= 104000) /\
    config s = PkgConfig.storeTEEStatus (state s) cfg /\
    if initialize_ok env then
      (1 <= length (results s) <= 10)%nat /\ (length (results s) <= S (length (delays s)))%nat /\
      (forall i r, results s !! i = Some r -> explained env i r) /\
      (forall i, (S i < length (results s))%nat -> results s !! i = Some P_TRANSIENT) /\
      (exists r, last (results s) = Some r /\ state s = resolveState UNKNOWN r) /\
      (state s = UNKNOWN -> length (results s) = 10%nat)
    else results s = [] /\ state s = UNKNOWN.
Proof.
  intros Hlate. unfold startTeeStateInitialization.
  assert (S (Z.to_nat MAX_ATTEMPTS) = 10%nat) as -> by reflexivity.
  destruct (first_attempt (AttestationData := A) env cfg t) as [Hd Hfirst].
  set (s0 := runProbeAttempt env (started cfg t)) in *.
  assert (Hrun : exists s (j : nat), runRetryLoop env 10 1 s0 = Some s /\ (j <= 9)%nat /\
    delays s = map delayMs (seqZ 1 (Z.of_nat j)) /\
    (undecided env cfg 10 s /\ j = 9%nat \/ decided env cfg j s)).
  { destruct Hfirst as [Hu|Hu].
    - destruct (retry_returns env cfg Hlate 10 0 s0 Hu Hd) as (s & j & Hs & Hj & Hr); [lia|lia|].
      exists s, j. split; [exact Hs|]. split; [lia|exact Hr].
    - exists s0, 0%nat. split_and!; [|lia|done|by right].
      destruct Hu as (_ & _ & r & Hr & _ & Hst & _). cbn [runRetryLoop].
      unfold shouldContinueRetrying. rewrite Hst. by destruct r. }
  clearbody s0. destruct Hrun as (s & j & Hs & Hj & Hdj & Hend).
  exists s. assert (Hlen : length (delays s) = j).
  { rewrite Hdj, length_map, length_seqZ. lia. }
  assert (Hdel : delays s = map delayMs (seqZ 1 (Z.of_nat (length (delays s)))) /\
     foldr Z.add 0 (delays s) <= 104000).
  { rewrite Hlen. split; [done|]. rewrite Hdj. by apply sum_delays. }
  split; [done|]. destruct Hend as [[(Hst & Hi & Hc & Hex & Hb) ->]|(Hok & Hi & r & Hr & Hres & Hst & Hc & He & Hex)].
  - split; [done|]. split; [done|]. split; [by rewrite Hst|].
    destruct (initialize_ok env); [|tauto]. destruct Hb as [_ Hres].
    rewrite Hlen, Hres, length_replicate. split_and!; try lia.
    + intros i r H. apply lookup_replicate in H as [-> H]. apply Hex. by rewrite Hres, length_replicate.
    + intros i H. apply lookup_replicate_2. lia.
    + exists P_TRANSIENT. by rewrite Hst.
  - split; [done|]. split; [done|]. split; [done|]. rewrite Hok, Hlen, Hres, length_app, length_replicate.
    cbn [length]. split_and!; try lia.
    + intros i r' H. apply lookup_app_Some in H as [H|[H1 H]].
      * apply lookup_replicate in H as [-> H]. by apply Hex.
      * rewrite length_replicate in *. apply list_lookup_singleton_Some in H as [H <-].
        by replace i with j by lia.
    + intros i H. rewrite lookup_app_l by (rewrite length_replicate; lia).
      apply lookup_replicate_2. lia.
    + exists r. split; [apply last_snoc|done].
    + rewrite Hst. by destruct r.
Qed.

(** Three probes that are too early and one that works, the boot being completed after the
    second; the messages are those of a device whose provisioning daemon starts late. *)
Lemma startTeeStateInitialization_decides_witness :
  let too_early := [(Some (literal "Failed to generate key pair"), None);
                    (Some (literal "Attestation keys not provisioned"), Some (-74))] in
  let busy := [(None, Some 18)] in
  let env := Environment true
    (fun n => match n with 0 => Some too_early | 1 => Some busy | 2 => Some busy | _ => None end)%nat
    (fun _ => 40) (fun t => 5000 <=? t) (fun _ => 3) in
  let cfg := PkgConfig.Make ∅ ∅ None in
  match startTeeStateInitialization (AttestationData := unit) env (started cfg 1000) with
  | Some s => results s = [P_TRANSIENT; P_TRANSIENT; P_TRANSIENT; P_WORKING] /\ state s = WORKING /\
              delays s = [2000; 4000; 8000] /\ PkgConfig.teeBroken (config s) = Some false
  | None => False
  end /\
  exists s : thread_state unit,
    startTeeStateInitialization env (started cfg 1000) = Some s /\ inits s = 1%nat.
Proof.
  intros early busy env cfg. split; [by vm_compute|].
  destruct (startTeeStateInitialization_decides (A := unit) env cfg 1000) as (s & H1 & H2 & _).
  - intros n. simpl. lia.
  - by exists s.
Defined.
