(* ===== verification/Persistence.v ===== *)
(** * Persisted keys (PersistenceManager.kt)

    The file format of a forged key, as the [DataOutputStream] and [DataInputStream] of Java
    write and read it, and the directory of key files with the temporary file each is
    written to before it is renamed.  A file is its bytes; a byte is its unsigned value.  The
    key factories, certificates and the digest of the file name are parameters; the
    executor runs one operation after the other. *)

From S2P Require Import Prelude KeyModes.
Local Open Scope Z_scope.

Abbreviation bytes := (list Z).

(** ** java.io.DataOutputStream

    A writer is the bytes it wrote and whether it returned, rather than threw. *)

Definition writer : Type := bytes * bool.

Definition seq_w (w1 w2 : writer) : writer := if w1.2 then (w1.1 ++ w2.1, w2.2) else w1.

Notation "w1 +> w2" := (seq_w w1 w2) (at level 60, right associativity).

Definition nothing : writer := ([], true).
Definition throws : writer := ([], false).

(** The [n] low bytes, the highest first. *)
Fixpoint big_endian (n : nat) (z : Z) : bytes :=
  match n with
  | O => []
  | S n => big_endian n (z / 256) ++ [z mod 256]
  end.

Definition write (bs : bytes) : writer := (bs, true).
Definition writeByte (z : Z) : writer := write (big_endian 1 z).
Definition writeInt (z : Z) : writer := write (big_endian 4 z).
Definition writeLong (z : Z) : writer := write (big_endian 8 z).
Definition writeBoolean (b : bool) : writer := write [if b then 1 else 0].

(** Modified UTF-8, of one UTF-16 unit. *)
Definition utf_unit (c : Z) : bytes :=
  if (1 <=? c) && (c <=? 0x7F) then [c]
  else if c <=? 0x7FF then [0xC0 + c / 64; 0x80 + c mod 64]
  else [0xE0 + c / 4096; 0x80 + (c / 64) mod 64; 0x80 + c mod 64].

(** It throws before it writes when the encoding is too long. *)
Definition writeUTF (s : kstring) : writer :=
  let body := concat (map utf_unit s) in
  if 65535 <? Z.of_nat (length body) then throws
  else write (big_endian 2 (Z.of_nat (length body)) ++ body).

(** [out.writeInt(b.size); out.write(b)] *)
Definition write_sized (bs : bytes) : writer := writeInt (Z.of_nat (length bs)) +> write bs.

(** [out.writeBoolean(x != null); if (x != null) ...] *)
Definition write_nullable {A} (w : A -> writer) (x : option A) : writer :=
  writeBoolean (bool_decide (is_Some x)) +> match x with Some a => w a | None => nothing end.

Fixpoint write_each {A} (w : A -> writer) (l : list A) : writer :=
  match l with [] => nothing | a :: l' => w a +> write_each w l' end.

Definition writeIntList (l : list Z) : writer :=
  writeInt (Z.of_nat (length l)) +> write_each writeInt l.

(** ** java.io.DataInputStream

    A reader takes bytes from the front; [None] is an exception. *)

Definition reader (A : Type) : Type := bytes -> option (A * bytes).

Definition ret {A} (a : A) : reader A := fun bs => Some (a, bs).
Definition fail {A} : reader A := fun _ => None.
Definition bind {A B} (r : reader A) (k : A -> reader B) : reader B :=
  fun bs => match r bs with Some (a, rest) => k a rest | None => None end.

Notation "'let*' x ':=' r 'in' k" := (bind r (fun x => k))
  (at level 10, x name, k at level 200).

(** [ByteArray(n).also { ins.readFully(it) }]: a negative size and the end of the file throw. *)
Definition readFully (n : Z) : reader bytes :=
  fun bs => if (n <? 0) || (Z.of_nat (length bs) <? n) then None
            else Some (take (Z.to_nat n) bs, drop (Z.to_nat n) bs).

Fixpoint from_big_endian (acc : Z) (bs : bytes) : Z :=
  match bs with [] => acc | b :: bs' => from_big_endian (acc * 256 + b) bs' end.

Definition read_signed (n : Z) : reader Z :=
  let* bs := readFully n in ret (sext (8 * n) (from_big_endian 0 bs)).

Definition readByte : reader Z := read_signed 1.
Definition readInt : reader Z := read_signed 4.
Definition readLong : reader Z := read_signed 8.
Definition readUnsignedShort : reader Z := let* bs := readFully 2 in ret (from_big_endian 0 bs).
Definition readBoolean : reader bool := let* bs := readFully 1 in ret (negb (bool_decide (bs = [0]))).

Definition continuation (b : Z) : bool := (0x80 <=? b) && (b <? 0xC0).

(** One to three bytes per unit; the rest is malformed. *)
Fixpoint utf_decode (bs : bytes) : option kstring :=
  match bs with
  | [] => Some []
  | b :: bs1 =>
      if b <? 0x80 then cons b <$> utf_decode bs1
      else if (0xC0 <=? b) && (b <? 0xE0) then
        match bs1 with
        | b2 :: bs2 =>
            if continuation b2 then cons ((b - 0xC0) * 64 + (b2 - 0x80)) <$> utf_decode bs2 else None
        | [] => None
        end
      else if (0xE0 <=? b) && (b <? 0xF0) then
        match bs1 with
        | b2 :: b3 :: bs3 =>
            if continuation b2 && continuation b3
            then cons ((b - 0xE0) * 4096 + (b2 - 0x80) * 64 + (b3 - 0x80)) <$> utf_decode bs3
            else None
        | _ => None
        end
      else None
  end.

Definition readUTF : reader kstring :=
  let* n := readUnsignedShort in
  let* bs := readFully n in
  match utf_decode bs with Some s => ret s | None => fail end.

Definition read_sized : reader bytes := let* n := readInt in readFully n.

Definition read_nullable {A} (r : reader A) : reader (option A) :=
  let* present := readBoolean in
  if present then let* a := r in ret (Some a) else ret None.

(** [(1..n).map { ... }]: nothing when [n] is not positive. *)
Fixpoint read_times {A} (r : reader A) (n : nat) : reader (list A) :=
  match n with
  | O => ret []
  | S n => let* a := r in let* l := read_times r n in ret (a :: l)
  end.

Definition readIntList : reader (list Z) := let* n := readInt in read_times readInt (Z.to_nat n).

(** ** java.math.BigInteger *)

Definition bitLength (z : Z) : Z :=
  let m := if z <? 0 then Z.lnot z else z in if m =? 0 then 0 else Z.log2 m + 1.

Definition toByteArray (z : Z) : bytes := big_endian (Z.to_nat (bitLength z / 8 + 1)) z.

(** [BigInteger(b)]: two's complement; an empty array throws. *)
Definition BigInteger (bs : bytes) : option Z :=
  match bs with
  | [] => None
  | _ => Some (sext (8 * Z.of_nat (length bs)) (from_big_endian 0 bs))
  end.

(** ** A persisted key *)

(** [CertificateGen.KeyGenParameters], in its order.  A date is its milliseconds, a subject
    name its encoding. *)
Record KeyGenParameters := Params {
  p_keySize : Z;
  p_algorithm : Z;
  p_certificateSerial : option Z;
  p_certificateNotBefore : option Z;
  p_certificateNotAfter : option Z;
  p_certificateSubject : option bytes;
  p_rsaPublicExponent : option Z;
  p_ecCurve : Z;
  p_ecCurveName : option kstring;
  p_purpose : list Z;
  p_digest : list Z;
  p_padding : list Z;
  p_blockMode : list Z;
  p_mgfDigest : list Z;
  p_usageCountLimit : Z;
  p_callerNonce : option bool;
  p_unlockedDeviceRequired : option bool;
  p_activeDateTime : option Z;
  p_originationExpireDateTime : option Z;
  p_usageExpireDateTime : option Z;
  p_attestationChallenge : option bytes;
  p_brand : option bytes;
  p_device : option bytes;
  p_product : option bytes;
  p_manufacturer : option bytes;
  p_model : option bytes;
  p_imei1 : option bytes;
  p_imei2 : option bytes;
  p_meid : option bytes;
  p_serialno : option bytes;
  p_includeUniqueId : option bool;
  p_noAuthRequired : option bool;
  p_origin : option Z
}.

(** The curves the code knows: number, name, size. *)
Record EcCurveInfo := MkEcCurveInfo { c_curve : Z; c_name : kstring; c_size : Z }.

(** A Kotlin string of ASCII characters. *)
Definition ascii_text (s : string) : kstring :=
  map (fun a => Z.of_N (Ascii.N_of_ascii a)) (String.list_ascii_of_string s).

Definition EC_CURVES : list EcCurveInfo :=
  [MkEcCurveInfo 0 (ascii_text "secp224r1") 224; MkEcCurveInfo 1 (ascii_text "secp256r1") 256;
   MkEcCurveInfo 2 (ascii_text "secp384r1") 384; MkEcCurveInfo 3 (ascii_text "secp521r1") 521;
   MkEcCurveInfo 4 (ascii_text "CURVE_25519") 256].

Definition Algorithm_RSA : Z := 1.
Definition Algorithm_EC : Z := 3.

(** The size of a key its metadata and its attestation report. *)
Definition effectiveKeySize (params : KeyGenParameters) : Z :=
  if 0 <? p_keySize params then p_keySize params
  else if negb (p_algorithm params =? Algorithm_EC) then 0
  else match List.find (fun c => bool_decide (Some (c_name c) = p_ecCurveName params)) EC_CURVES with
       | Some c => c_size c
       | None => 256
       end.

Record SecretKey := MkSecretKey { sk_algorithm : kstring; sk_encoded : bytes }.

(** It refuses an empty key. *)
Definition SecretKeySpec (key : bytes) (algorithm : kstring) : option SecretKey :=
  match key with [] => None | _ => Some (MkSecretKey algorithm key) end.

Definition FORMAT_VERSION : Z := 3.

Definition raises {A} (o : option A) : reader A := match o with Some a => ret a | None => fail end.

Section format.
(** java.security: keys and certificates, their encodings and the factories ([true] for
    "RSA", [false] for "EC"). *)
Context {PrivateKey PublicKey Certificate : Type}.
Variable private_encoded : PrivateKey -> bytes.
Variable public_encoded : PublicKey -> bytes.
Variable cert_encoded : Certificate -> bytes.
Variable generatePrivate : bool -> bytes -> option PrivateKey.
Variable generatePublic : bool -> bytes -> option PublicKey.
Variable generateCertificate : bytes -> option Certificate.

Record PersistedKey := MkPersistedKey {
  uid : Z;
  alias : kstring;
  securityLevel : Z;
  skipLeafHack : bool;
  nspace : Z;
  domain : Z;
  keyPair : option (PrivateKey * PublicKey);
  secretKey : option SecretKey;
  chain : list Certificate;
  params : KeyGenParameters;
  metadataBytes : option bytes
}.

Definition write_params (p : KeyGenParameters) : writer :=
  writeInt (p_algorithm p) +> writeInt (p_keySize p) +> writeInt (p_ecCurve p) +>
  writeIntList (p_purpose p) +> writeIntList (p_digest p) +> writeIntList (p_padding p) +>
  writeIntList (p_blockMode p) +> writeIntList (p_mgfDigest p) +>
  writeInt (p_usageCountLimit p) +>
  write_nullable writeBoolean (p_callerNonce p) +>
  write_nullable writeBoolean (p_unlockedDeviceRequired p) +>
  write_nullable writeLong (p_activeDateTime p) +>
  write_nullable writeLong (p_originationExpireDateTime p) +>
  write_nullable writeLong (p_usageExpireDateTime p) +>
  write_nullable writeBoolean (p_noAuthRequired p) +>
  write_nullable writeInt (p_origin p) +>
  write_nullable (fun e => write_sized (toByteArray e)) (p_rsaPublicExponent p).

Definition write_key_pair (kp : PrivateKey * PublicKey) : writer :=
  write_sized (private_encoded kp.1) +> write_sized (public_encoded kp.2).

Definition write_secret (k : SecretKey) : writer :=
  writeUTF (sk_algorithm k) +> write_sized (sk_encoded k).

(** The body of [saveKeySync]; [chain ?: emptyList()] is its caller's. *)
Definition write_key (k : PersistedKey) : writer :=
  writeByte FORMAT_VERSION +> writeInt (uid k) +> writeUTF (alias k) +>
  writeInt (securityLevel k) +> writeBoolean (skipLeafHack k) +> writeLong (nspace k) +>
  writeInt (domain k) +>
  write_nullable write_key_pair (keyPair k) +>
  write_nullable write_secret (secretKey k) +>
  (writeInt (Z.of_nat (length (chain k))) +> write_each (fun c => write_sized (cert_encoded c)) (chain k)) +>
  write_nullable write_sized (metadataBytes k) +>
  write_params (params k).

Definition read_key_pair : reader (bytes * bytes) :=
  let* privBytes := read_sized in let* pubBytes := read_sized in ret (privBytes, pubBytes).

Definition read_secret : reader SecretKey :=
  let* algo := readUTF in
  let* secretBytes := read_sized in
  raises (SecretKeySpec secretBytes algo).

Definition read_cert : reader Certificate :=
  let* b := read_sized in raises (generateCertificate b).

Definition read_params : reader KeyGenParameters :=
  let* algorithm := readInt in
  let* keySize := readInt in
  let* ecCurve := readInt in
  let* purpose := readIntList in
  let* digest := readIntList in
  let* padding := readIntList in
  let* blockMode := readIntList in
  let* mgfDigest := readIntList in
  let* usageCountLimit := readInt in
  let* callerNonce := read_nullable readBoolean in
  let* unlockedDeviceRequired := read_nullable readBoolean in
  let* activeDateTime := read_nullable readLong in
  let* originationExpireDateTime := read_nullable readLong in
  let* usageExpireDateTime := read_nullable readLong in
  let* noAuthRequired := read_nullable readBoolean in
  let* origin := read_nullable readInt in
  let* rsaExp := read_nullable (let* b := read_sized in raises (BigInteger b)) in
  ret {| p_keySize := keySize; p_algorithm := algorithm;
         p_certificateSerial := None; p_certificateNotBefore := None;
         p_certificateNotAfter := None; p_certificateSubject := None;
         p_rsaPublicExponent := rsaExp; p_ecCurve := ecCurve; p_ecCurveName := None;
         p_purpose := purpose; p_digest := digest; p_padding := padding;
         p_blockMode := blockMode; p_mgfDigest := mgfDigest;
         p_usageCountLimit := usageCountLimit; p_callerNonce := callerNonce;
         p_unlockedDeviceRequired := unlockedDeviceRequired;
         p_activeDateTime := activeDateTime;
         p_originationExpireDateTime := originationExpireDateTime;
         p_usageExpireDateTime := usageExpireDateTime;
         p_attestationChallenge := None; p_brand := None; p_device := None;
         p_product := None; p_manufacturer := None; p_model := None; p_imei1 := None;
         p_imei2 := None; p_meid := None; p_serialno := None; p_includeUniqueId := None;
         p_noAuthRequired := noAuthRequired; p_origin := origin |}.

(** The public key is generated first. *)
Definition make_key_pair (algorithm : Z) (b : option (bytes * bytes)) :
    reader (option (PrivateKey * PublicKey)) :=
  match b with
  | Some (privBytes, pubBytes) =>
      let rsa := algorithm =? Algorithm_RSA in
      let* pub := raises (generatePublic rsa pubBytes) in
      let* priv := raises (generatePrivate rsa privBytes) in
      ret (Some (priv, pub))
  | None => ret None
  end.

(** The body of [loadAll] for one file: [None] for one that is skipped or fails. *)
Definition read_key : reader PersistedKey :=
  let* version := readByte in
  if negb (version =? FORMAT_VERSION) then fail
  else
    let* uid := readInt in
    let* alias := readUTF in
    let* securityLevel := readInt in
    let* skipLeafHack := readBoolean in
    let* nspace := readLong in
    let* domain := readInt in
    let* pairBytes := read_nullable read_key_pair in
    let* secretKey := read_nullable read_secret in
    let* chainSize := readInt in
    let* chain := read_times read_cert (Z.to_nat chainSize) in
    let* metadataBytes := read_nullable read_sized in
    let* params := read_params in
    let* keyPair := make_key_pair (p_algorithm params) pairBytes in
    ret (MkPersistedKey uid alias securityLevel skipLeafHack nspace domain keyPair secretKey chain
           params metadataBytes).

Definition load_file (contents : bytes) : option PersistedKey := fst <$> read_key contents.

(** ** The directory of key files *)

(** A directory per uid, and a file name. *)
Definition path : Type := Z * kstring.
Definition files : Type := gmap path bytes.

(** The digest of the alias, in hexadecimal. *)
Variable sha256_hex : kstring -> kstring.

Definition dot_bin : kstring := [46; 98; 105; 110].
Definition dot_tmp : kstring := [46; 116; 109; 112].

Definition fileFor (uid : Z) (alias : kstring) : path := (uid, sha256_hex alias ++ dot_bin).
Definition tmp_of (p : path) : path := (p.1, p.2 ++ dot_tmp).

(** [name.endsWith(".bin")] *)
Definition is_bin (p : path) : bool :=
  bool_decide (drop (length p.2 - 4) p.2 = dot_bin).

(** What can fail around the writing: opening the temporary file, the bytes of it the storage
    takes, renaming it, and the bytes of the copy it takes when it could not be renamed
    ([None]: all of them). *)
Record platform := Platform {
  open_ok : bool;
  room : option nat;
  rename_ok : bool;
  copy_room : option nat
}.

(** A writer that throws when the storage is full. *)
Definition limited (n : option nat) (w : writer) : writer :=
  match n with
  | Some n => if (n <? length w.1)%nat then (take n w.1, false) else w
  | None => w
  end.

(** The states of the directory during [saveKeySync], in order: a file that is written holds
    ever longer parts of its bytes, a rename is one step, and [copyTo] deletes its target
    before it writes it.  A state is what the file system answers, in the order of the calls:
    the code asks for no [fsync], so what a loss of power leaves is not among what is said. *)
Definition growing (p : path) (bs : bytes) (fs : files) : list files :=
  map (fun n => <[p := take n bs]> fs) (seq 0 (S (length bs))).

Definition copyTo (pf : platform) (tmp file : path) (bs : bytes) (fs : files) : list files :=
  let '(part, copied) := limited (copy_room pf) (bs, true) in
  [delete file fs] ++ growing file part fs ++
  if copied then [delete tmp (<[file := bs]> fs)] else [].

Definition saveKeySync (pf : platform) (k : PersistedKey) (fs : files) : list files :=
  if negb (open_ok pf) then [fs]
  else
    let file := fileFor (uid k) (alias k) in
    let tmp := tmp_of file in
    let '(bs, ok) := limited (room pf) (write_key k) in
    let written := <[tmp := bs]> fs in
    [fs] ++ growing tmp bs fs ++
    if negb ok then []
    else if rename_ok pf then [<[file := bs]> (delete tmp written)]
    else copyTo pf tmp file bs written.

Definition after (states : list files) (fs : files) : files := default fs (last states).

Definition deleteKey (uid : Z) (alias : kstring) (fs : files) : files := delete (fileFor uid alias) fs.
Definition clearAll (fs : files) : files := ∅.

Definition loadAll (fs : files) : list PersistedKey :=
  omap (fun pc : path * bytes => if is_bin pc.1 then load_file pc.2 else None) (map_to_list fs).

(** The tasks of the executor. *)
Inductive task := SaveKey (k : PersistedKey) | DeleteKey (uid : Z) (alias : kstring) | ClearAll.

Definition run_task (pf : platform) (t : task) (fs : files) : files :=
  match t with
  | SaveKey k => after (saveKeySync pf k fs) fs
  | DeleteKey u a => deleteKey u a fs
  | ClearAll => clearAll fs
  end.

Definition run_tasks (pf : platform) (ts : list task) (fs : files) : files :=
  foldl (fun fs t => run_task pf t fs) fs ts.
End format.

(** ** Round trips *)

(** What [w] wrote, if it returned, [r] reads as [a], whatever follows. *)
Definition reads {A} (w : writer) (r : reader A) (a : A) : Prop :=
  w.2 = true -> forall rest, r (w.1 ++ rest) = Some (a, rest).

Lemma reads_ret {A} (a : A) : reads nothing (ret a) a.
Proof. done. Qed.

Lemma reads_seq {A B} w1 w2 (r : reader A) (k : A -> reader B) a b :
  reads w1 r a -> reads w2 (k a) b -> reads (w1 +> w2) (bind r k) b.
Proof.
  unfold reads, seq_w, bind. intros H1 H2. destruct w1 as [b1 []]; simpl; [|done].
  intros Hok rest. rewrite <- app_assoc, H1 by done. by apply H2.
Qed.

(** The last field of a record. *)
Lemma reads_last {A B} w (r : reader A) (k : A -> reader B) a b :
  reads w r a -> (forall rest, k a rest = Some (b, rest)) -> reads w (bind r k) b.
Proof. unfold reads, bind. intros H1 H2 Hok rest. by rewrite H1. Qed.

(** Fields that are read together. *)
Lemma reads_group {A B C} w (r : reader A) (k : A -> reader B) (k' : B -> reader C) c :
  reads w (bind (bind r k) k') c -> reads w (bind r (fun a => bind (k a) k')) c.
Proof.
  unfold reads, bind. intros H Hok rest. specialize (H Hok rest). by destruct (r _) as [[]|].
Qed.

Definition fits (n z : Z) : Prop := - 2 ^ (8 * n - 1) <= z < 2 ^ (8 * n - 1).

Lemma length_big_endian n z : length (big_endian n z) = n.
Proof. revert z. induction n as [|n IH]; intros z; simpl; [done|]. rewrite length_app, IH. simpl. lia. Qed.

Lemma from_big_endian_app acc a b :
  from_big_endian acc (a ++ b) = from_big_endian (from_big_endian acc a) b.
Proof. revert acc. by induction a; intros; simpl. Qed.

Lemma from_big_endian_spec n acc z :
  from_big_endian acc (big_endian n z) = acc * 256 ^ Z.of_nat n + z mod 256 ^ Z.of_nat n.
Proof.
  revert acc z. induction n as [|n IH]; intros acc z; [simpl; rewrite Z.mod_1_r; lia|].
  cbn [big_endian]. rewrite from_big_endian_app, IH. cbn [from_big_endian].
  rewrite Nat2Z.inj_succ, Z.pow_succ_r by lia.
  rewrite (Z.rem_mul_r z 256 (256 ^ Z.of_nat n)) by (try apply Z.pow_pos_nonneg; lia). ring.
Qed.

Lemma sext_mod w z : 0 < w -> - 2 ^ (w - 1) <= z < 2 ^ (w - 1) -> sext w (z mod 2 ^ w) = z.
Proof.
  intros Hw Hz. unfold sext, wrap. rewrite Z.mod_mod by (apply Z.pow_nonzero; lia).
  assert (He : 2 ^ w = 2 * 2 ^ (w - 1)) by (rewrite <- Z.pow_succ_r by lia; f_equal; lia).
  destruct (decide (0 <= z)).
  - rewrite Z.mod_small by lia. destruct (Z.ltb_spec z (2 ^ (w - 1))); lia.
  - rewrite <- (Z.mod_add z 1) by lia. rewrite Z.mod_small by lia.
    destruct (Z.ltb_spec (z + 1 * 2 ^ w) (2 ^ (w - 1))); lia.
Qed.

Lemma pow_256 n : 0 <= n -> 256 ^ n = 2 ^ (8 * n).
Proof. intros. rewrite Z.pow_mul_r by lia. done. Qed.

Lemma sext_big_endian n z :
  (0 < n)%nat -> fits (Z.of_nat n) z ->
  sext (8 * Z.of_nat n) (from_big_endian 0 (big_endian n z)) = z.
Proof.
  intros Hn Hz. rewrite from_big_endian_spec, pow_256 by lia. simpl. apply sext_mod; [lia|exact Hz].
Qed.

Lemma readFully_app bs rest :
  readFully (Z.of_nat (length bs)) (bs ++ rest) = Some (bs, rest).
Proof.
  unfold readFully. destruct (Z.ltb_spec (Z.of_nat (length bs)) 0); [lia|]. simpl.
  rewrite length_app. destruct (Z.ltb_spec (Z.of_nat (length bs + length rest)) (Z.of_nat (length bs))); [lia|].
  by rewrite Nat2Z.id, take_app_length, drop_app_length.
Qed.

Lemma reads_signed n z : (0 < n)%nat -> fits (Z.of_nat n) z ->
  reads (write (big_endian n z)) (read_signed (Z.of_nat n)) z.
Proof.
  intros Hn Hz _ rest. unfold read_signed, bind. simpl.
  pose proof (readFully_app (big_endian n z) rest) as H. rewrite length_big_endian in H. rewrite H.
  unfold ret. by rewrite sext_big_endian.
Qed.

Lemma reads_int z : fits 4 z -> reads (writeInt z) readInt z.
Proof. apply (reads_signed 4). lia. Qed.

Lemma reads_long z : fits 8 z -> reads (writeLong z) readLong z.
Proof. apply (reads_signed 8). lia. Qed.

Lemma reads_boolean b : reads (writeBoolean b) readBoolean b.
Proof.
  intros _ rest. unfold readBoolean, bind.
  pose proof (readFully_app [if b then 1 else 0] rest) as H. change (Z.of_nat _) with 1 in H.
  cbn [fst writeBoolean write]. rewrite H. by destruct b.
Qed.

Lemma reads_sized bs : Z.of_nat (length bs) < 2 ^ 31 -> reads (write_sized bs) read_sized bs.
Proof.
  intros H. eapply reads_seq; [apply reads_int; unfold fits; lia|].
  intros _ rest. apply readFully_app.
Qed.

Ltac decide_bounds :=
  repeat match goal with
  | |- context [?a <? ?b] => destruct (Z.ltb_spec a b); try lia
  | |- context [?a <=? ?b] => destruct (Z.leb_spec a b); try lia
  end.

Lemma utf_decode_2 h l bs :
  0 <= h < 32 -> 0 <= l < 64 ->
  utf_decode (0xC0 + h :: 0x80 + l :: bs) = cons (h * 64 + l) <$> utf_decode bs.
Proof.
  intros Hh Hl. cbn [utf_decode]. unfold continuation. decide_bounds. cbn [andb].
  do 2 f_equal. lia.
Qed.

Lemma utf_decode_3 h m l bs :
  0 <= h < 16 -> 0 <= m < 64 -> 0 <= l < 64 ->
  utf_decode (0xE0 + h :: 0x80 + m :: 0x80 + l :: bs)
    = cons (h * 4096 + m * 64 + l) <$> utf_decode bs.
Proof.
  intros Hh Hm Hl. cbn [utf_decode]. unfold continuation. decide_bounds. cbn [andb].
  do 2 f_equal. lia.
Qed.

Lemma utf_decode_unit c bs :
  0 <= c < 65536 -> utf_decode (utf_unit c ++ bs) = cons c <$> utf_decode bs.
Proof.
  intros Hc. unfold utf_unit.
  assert (Hl : 0 <= c mod 64 < 64) by (apply Z.mod_pos_bound; lia).
  pose proof (Z.div_mod c 64 ltac:(lia)) as Hd.
  destruct ((1 <=? c) && (c <=? 0x7F)) eqn:H1; [|destruct (Z.leb_spec c 0x7FF)].
  - boolp. cbn [app utf_decode]. destruct (Z.ltb_spec c 0x80); [done|lia].
  - cbn [app]. rewrite utf_decode_2 by lia. do 2 f_equal. lia.
  - cbn [app].
    assert (Hm : 0 <= (c / 64) mod 64 < 64) by (apply Z.mod_pos_bound; lia).
    pose proof (Z.div_mod (c / 64) 64 ltac:(lia)) as Hd2.
    rewrite Z.div_div in Hd2 by lia. change (64 * 64) with 4096 in Hd2.
    assert (0 <= c / 4096 < 16) by (split; [apply Z.div_pos|apply Z.div_lt_upper_bound]; lia).
    rewrite utf_decode_3 by lia. do 2 f_equal. lia.
Qed.

Lemma utf_decode_encode s :
  Forall (fun c => 0 <= c < 65536) s -> utf_decode (concat (map utf_unit s)) = Some s.
Proof.
  induction 1 as [|c s Hc _ IH]; [done|]. simpl. by rewrite utf_decode_unit, IH.
Qed.

Lemma reads_utf s : Forall (fun c => 0 <= c < 65536) s -> reads (writeUTF s) readUTF s.
Proof.
  intros Hs Hok rest. unfold writeUTF in *.
  destruct (Z.ltb_spec 65535 (Z.of_nat (length (concat (map utf_unit s))))) as [|Hl]; [done|].
  set (body := concat (map utf_unit s)) in *. cbn [fst write].
  unfold readUTF, readUnsignedShort, bind. rewrite <- app_assoc.
  pose proof (readFully_app (big_endian 2 (Z.of_nat (length body))) (body ++ rest)) as H.
  rewrite length_big_endian in H. change (Z.of_nat 2) with 2 in H. rewrite H. unfold ret at 1.
  rewrite from_big_endian_spec, Z.mod_small by lia. rewrite Z.add_0_l, readFully_app.
  unfold body. by rewrite utf_decode_encode.
Qed.

Lemma reads_nullable {A} (w : A -> writer) r (x : option A) :
  (forall a, x = Some a -> reads (w a) r a) -> reads (write_nullable w x) (read_nullable r) x.
Proof.
  intros H. unfold write_nullable, read_nullable.
  eapply reads_seq; [apply reads_boolean|]. destruct x as [a|]; simpl.
  - eapply reads_last; [by apply H|done].
  - apply reads_ret.
Qed.

Lemma reads_each {A} (w : A -> writer) r l :
  Forall (fun a => reads (w a) r a) l -> reads (write_each w l) (read_times r (length l)) l.
Proof.
  induction 1 as [|a l Ha _ IH]; simpl; [apply reads_ret|].
  eapply reads_seq; [exact Ha|]. eapply reads_last; [exact IH|done].
Qed.

(** A length and the elements. *)
Lemma reads_sequence {A} (w : A -> writer) r l :
  Z.of_nat (length l) < 2 ^ 31 -> Forall (fun a => reads (w a) r a) l ->
  reads (writeInt (Z.of_nat (length l)) +> write_each w l)
    (let* n := readInt in read_times r (Z.to_nat n)) l.
Proof.
  intros Hn H. eapply reads_seq; [apply reads_int; unfold fits; lia|].
  rewrite Nat2Z.id. by apply reads_each.
Qed.

Lemma reads_int_list l :
  Z.of_nat (length l) < 2 ^ 31 -> Forall (fits 4) l -> reads (writeIntList l) readIntList l.
Proof.
  intros Hn H. unfold writeIntList, readIntList.
  refine (reads_sequence _ _ _ Hn _). eapply Forall_impl; [exact H|apply reads_int].
Qed.

Lemma bitLength_fits z : fits (bitLength z / 8 + 1) z /\ 0 <= bitLength z.
Proof.
  unfold fits, bitLength. set (m := if z <? 0 then Z.lnot z else z).
  assert (Hm : 0 <= m) by (unfold m; destruct (Z.ltb_spec z 0); unfold Z.lnot; lia).
  set (b := if m =? 0 then 0 else Z.log2 m + 1).
  assert (Hb : 0 <= b /\ m < 2 ^ b).
  { unfold b. destruct (Z.eqb_spec m 0); [lia|]. pose proof (Z.log2_spec m ltac:(lia)).
    pose proof (Z.log2_nonneg m). rewrite Z.add_1_r. lia. }
  split; [|lia].
  assert (Hle : 2 ^ b <= 2 ^ (8 * (b / 8 + 1) - 1)).
  { apply Z.pow_le_mono_r; [lia|]. pose proof (Z.div_mod b 8 ltac:(lia)).
    pose proof (Z.mod_pos_bound b 8 ltac:(lia)). lia. }
  unfold m in *. destruct (Z.ltb_spec z 0); unfold Z.lnot in *; lia.
Qed.

Lemma BigInteger_toByteArray z : BigInteger (toByteArray z) = Some z.
Proof.
  destruct (bitLength_fits z) as [Hf Hb]. unfold toByteArray.
  assert (0 <= bitLength z / 8) by (apply Z.div_pos; lia).
  set (n := Z.to_nat (bitLength z / 8 + 1)).
  assert (Hn : Z.of_nat n = bitLength z / 8 + 1) by lia.
  pose proof (length_big_endian n z) as Hlen.
  unfold BigInteger. destruct (big_endian n z) as [|b bs] eqn:E; [simpl in Hlen; lia|].
  rewrite <- E, length_big_endian, sext_big_endian; [done|lia|by rewrite Hn].
Qed.

(** ** The whole file *)

Section format_theorems.
Context {PrivateKey PublicKey Certificate : Type}.
Variable private_encoded : PrivateKey -> bytes.
Variable public_encoded : PublicKey -> bytes.
Variable cert_encoded : Certificate -> bytes.
Variable generatePrivate : bool -> bytes -> option PrivateKey.
Variable generatePublic : bool -> bytes -> option PublicKey.
Variable generateCertificate : bytes -> option Certificate.
Variable sha256_hex : kstring -> kstring.

#[local] Abbreviation key := (@PersistedKey PrivateKey PublicKey Certificate).
#[local] Abbreviation write_key := (write_key private_encoded public_encoded cert_encoded).
#[local] Abbreviation read_key := (read_key generatePrivate generatePublic generateCertificate).
#[local] Abbreviation load_file := (load_file generatePrivate generatePublic generateCertificate).

Definition small {A} (l : list A) : Prop := Z.of_nat (length l) < 2 ^ 31.
Definition all_fit (n : Z) (o : option Z) : Prop := forall z, o = Some z -> fits n z.
Definition units_ok (s : kstring) : Prop := Forall (fun c => 0 <= c < 65536) s.

(** The parameters are Java values: words of their width, arrays. *)
Definition params_ok (p : KeyGenParameters) : Prop :=
  Forall (fits 4) [p_algorithm p; p_keySize p; p_ecCurve p; p_usageCountLimit p] /\
  Forall (fun l => small l /\ Forall (fits 4) l)
    [p_purpose p; p_digest p; p_padding p; p_blockMode p; p_mgfDigest p] /\
  Forall (all_fit 8) [p_activeDateTime p; p_originationExpireDateTime p; p_usageExpireDateTime p] /\
  all_fit 4 (p_origin p) /\
  (forall e, p_rsaPublicExponent p = Some e -> small (toByteArray e)).

(** The key's values are Java values, and the factories make of the encodings of its key
    pair, for the algorithm of its parameters, and of its certificates what was encoded. *)
Definition key_ok (k : key) : Prop :=
  Forall (fits 4) [uid k; securityLevel k; domain k] /\ fits 8 (nspace k) /\ units_ok (alias k) /\
  (forall priv pub, keyPair k = Some (priv, pub) ->
     let rsa := p_algorithm (params k) =? Algorithm_RSA in
     small (private_encoded priv) /\ small (public_encoded pub) /\
     generatePrivate rsa (private_encoded priv) = Some priv /\
     generatePublic rsa (public_encoded pub) = Some pub) /\
  (forall s, secretKey k = Some s ->
     units_ok (sk_algorithm s) /\ small (sk_encoded s) /\ sk_encoded s <> []) /\
  small (chain k) /\
  Forall (fun c => small (cert_encoded c) /\ generateCertificate (cert_encoded c) = Some c) (chain k) /\
  (forall m, metadataBytes k = Some m -> small m) /\
  params_ok (params k).

Lemma reads_raises {A} (bs : bytes) (f : bytes -> option A) a :
  small bs -> f bs = Some a -> reads (write_sized bs) (let* b := read_sized in raises (f b)) a.
Proof. intros Hs Hf. eapply reads_last; [by apply reads_sized|]. by rewrite Hf. Qed.

(** One field, by its type; what is left is that the value fits, which is assumed. *)
Ltac read_field :=
  lazymatch goal with
  | |- reads (writeInt _) _ _ => apply reads_int; auto with nocore
  | |- reads (writeLong _) _ _ => apply reads_long; auto with nocore
  | |- reads (writeBoolean _) _ _ => apply reads_boolean
  | |- reads (writeIntList _) _ _ => apply reads_int_list; assumption
  | |- reads (write_sized _) _ _ => apply reads_sized; auto with nocore
  | |- reads (writeUTF _) _ _ => apply reads_utf; assumption
  | |- reads (write_nullable _ _) _ _ => apply reads_nullable; intros ? ?; read_field
  end.

(** What a file keeps of the parameters; the rest is the default of the class. *)
Definition kept_params (p : KeyGenParameters) : KeyGenParameters :=
  {| p_keySize := p_keySize p; p_algorithm := p_algorithm p;
     p_certificateSerial := None; p_certificateNotBefore := None;
     p_certificateNotAfter := None; p_certificateSubject := None;
     p_rsaPublicExponent := p_rsaPublicExponent p; p_ecCurve := p_ecCurve p;
     p_ecCurveName := None; p_purpose := p_purpose p; p_digest := p_digest p;
     p_padding := p_padding p; p_blockMode := p_blockMode p; p_mgfDigest := p_mgfDigest p;
     p_usageCountLimit := p_usageCountLimit p; p_callerNonce := p_callerNonce p;
     p_unlockedDeviceRequired := p_unlockedDeviceRequired p;
     p_activeDateTime := p_activeDateTime p;
     p_originationExpireDateTime := p_originationExpireDateTime p;
     p_usageExpireDateTime := p_usageExpireDateTime p;
     p_attestationChallenge := None; p_brand := None; p_device := None; p_product := None;
     p_manufacturer := None; p_model := None; p_imei1 := None; p_imei2 := None;
     p_meid := None; p_serialno := None; p_includeUniqueId := None;
     p_noAuthRequired := p_noAuthRequired p; p_origin := p_origin p |}.

Definition kept (k : key) : key :=
  MkPersistedKey (uid k) (alias k) (securityLevel k) (skipLeafHack k) (nspace k) (domain k)
    (keyPair k) (secretKey k) (chain k) (kept_params (params k)) (metadataBytes k).

Lemma reads_params p : params_ok p -> reads (write_params p) read_params (kept_params p).
Proof.
  unfold params_ok, all_fit. rewrite !Forall_cons.
  intros (Hw & Hl & Ht & Ho & Hr). destruct Hw as (? & ? & ? & ? & _).
  destruct Hl as ([] & [] & [] & [] & [] & _). destruct Ht as (? & ? & ? & _).
  destruct p; simpl in *. unfold write_params, read_params, kept_params. simpl.
  repeat (eapply reads_seq; [read_field|]).
  eapply reads_last; [|done].
  apply reads_nullable. intros e He. apply reads_raises; [by apply Hr|apply BigInteger_toByteArray].
Qed.

Lemma reads_secret s :
  units_ok (sk_algorithm s) -> small (sk_encoded s) -> sk_encoded s <> [] ->
  reads (write_secret s) read_secret s.
Proof.
  intros Hu Hs Hne. destruct s as [a bs]; simpl in *. eapply reads_seq; [by apply reads_utf|]. simpl.
  eapply (reads_raises bs (fun b => SecretKeySpec b a)); [done|by destruct bs].
Qed.

Definition encoded_pair (kp : PrivateKey * PublicKey) : bytes * bytes :=
  (private_encoded kp.1, public_encoded kp.2).

(** The key pair's bytes are read long before the pair is made of them. *)
Lemma reads_pair_bytes (kp : option (PrivateKey * PublicKey)) :
  (forall priv pub, kp = Some (priv, pub) -> small (private_encoded priv) /\ small (public_encoded pub)) ->
  reads (write_nullable (write_key_pair private_encoded public_encoded) kp)
    (read_nullable read_key_pair) (encoded_pair <$> kp).
Proof.
  intros H. unfold write_nullable, read_nullable. eapply reads_seq; [apply reads_boolean|].
  destruct kp as [[priv pub]|]; [|apply reads_ret].
  destruct (H priv pub eq_refl) as [H1 H2]. simpl. eapply reads_last; [|done].
  eapply reads_seq; [by apply reads_sized|]. eapply reads_last; [by apply reads_sized|done].
Qed.

Lemma reads_key k : key_ok k -> reads (write_key k) read_key (kept k).
Proof.
  unfold key_ok. rewrite !Forall_cons.
  intros ((Hu & Hl & Hd & _) & Hn & Ha & Hkp & Hsk & Hcn & Hc & Hm & Hp).
  destruct k as [u a l sk n d kp sec ch ps md]; simpl in *. unfold write_key, read_key, kept. simpl.
  eapply reads_seq; [apply (reads_signed 1); [lia|done]|]. simpl.
  do 6 (eapply reads_seq; [read_field|]).
  eapply reads_seq; [apply reads_pair_bytes; intros ? ? H; by destruct (Hkp _ _ H) as (? & ? & _)|].
  eapply reads_seq; [apply reads_nullable; intros s Hs; apply reads_secret; by apply Hsk|].
  assert (Hchain : reads
    (writeInt (Z.of_nat (length ch)) +> write_each (fun c => write_sized (cert_encoded c)) ch)
    (let* n := readInt in read_times (read_cert generateCertificate) (Z.to_nat n)) ch).
  { refine (reads_sequence _ _ _ Hcn _). eapply Forall_impl; [exact Hc|].
    intros c [H1 H2]. by apply reads_raises. }
  eapply reads_group, reads_seq; [exact Hchain|].
  eapply reads_seq; [read_field; by apply Hm|].
  eapply reads_last; [by apply reads_params|]. intros rest.
  unfold bind, make_key_pair. destruct kp as [[priv pub]|]; [|done].
  destruct (Hkp priv pub eq_refl) as (_ & _ & H1 & H2). simpl. by rewrite H1, H2.
Qed.

Lemma load_written k : key_ok k -> (write_key k).2 = true -> load_file (write_key k).1 = Some (kept k).
Proof.
  intros Hk Hw. pose proof (reads_key k Hk Hw []) as H. rewrite app_nil_r in H.
  unfold load_file. by rewrite H.
Qed.

(** ** The directory *)

#[local] Abbreviation saveKeySync :=
  (saveKeySync private_encoded public_encoded cert_encoded sha256_hex).
#[local] Abbreviation loadAll := (loadAll generatePrivate generatePublic generateCertificate).
#[local] Abbreviation run_task := (run_task private_encoded public_encoded cert_encoded sha256_hex).
#[local] Abbreviation run_tasks := (run_tasks private_encoded public_encoded cert_encoded sha256_hex).
#[local] Abbreviation fileFor := (fileFor sha256_hex).
#[local] Abbreviation file_of k := (fileFor (uid k) (alias k)).

Lemma ends_with (name suffix : kstring) : drop (length (name ++ suffix) - length suffix) (name ++ suffix) = suffix.
Proof. rewrite length_app, Nat.add_sub. apply drop_app_length. Qed.

Lemma fileFor_bin u a : is_bin (fileFor u a) = true.
Proof. apply bool_decide_eq_true. exact (ends_with (sha256_hex a) dot_bin). Qed.

Lemma tmp_not_bin p : is_bin (tmp_of p) = false.
Proof. apply bool_decide_eq_false. pose proof (ends_with p.2 dot_tmp) as H. simpl in *. by rewrite H. Qed.

(** The bytes of [k] are all in its temporary file. *)
Definition wrote (pf : platform) (k : key) : bool :=
  open_ok pf && (limited (room pf) (write_key k)).2.

(** It is copied, not renamed. *)
Definition copies (pf : platform) (k : key) : bool := wrote pf k && negb (rename_ok pf).

Definition saves (pf : platform) (k : key) : bool :=
  wrote pf k && (rename_ok pf || (limited (copy_room pf) ((write_key k).1, true)).2).

Lemma limited_ok n w : (limited n w).2 = true -> limited n w = w.
Proof. unfold limited. destruct n as [n|]; [|done]. by destruct (n <? _)%nat. Qed.

Lemma limited_prefix n w : exists m, (limited n w).1 = take m w.1.
Proof.
  destruct n as [n|]; unfold limited; [destruct (n <? length w.1)%nat; [by exists n|]|];
    exists (length w.1); by rewrite take_ge.
Qed.

(** Every key file of [fs'] is as in [fs], or is [p0] and satisfies [P]. *)
Definition but_for (p0 : path) (P : option bytes -> Prop) (fs fs' : files) : Prop :=
  forall p, is_bin p = true -> fs' !! p = fs !! p \/ (p = p0 /\ P (fs' !! p)).

Lemma tmp_insert (fs : files) p bs q :
  is_bin q = true -> (<[tmp_of p := bs]> fs : files) !! q = fs !! q.
Proof. intros Hq. apply lookup_insert_ne. intros <-. by rewrite tmp_not_bin in Hq. Qed.

Lemma tmp_delete (fs : files) p q : is_bin q = true -> (delete (tmp_of p) fs : files) !! q = fs !! q.
Proof. intros Hq. apply lookup_delete_ne. intros <-. by rewrite tmp_not_bin in Hq. Qed.

Lemma other_insert (fs : files) (p q : path) bs : q <> p -> (<[p := bs]> fs : files) !! q = fs !! q.
Proof. intros H. by apply lookup_insert_ne. Qed.

Lemma same_insert (fs : files) (p : path) bs : (<[p := bs]> fs : files) !! p = Some bs.
Proof. apply lookup_insert_eq. Qed.

Lemma deleted (fs : files) (p q : path) :
  (delete p fs : files) !! q = if decide (q = p) then None else fs !! q.
Proof. case_decide as H; [subst; apply lookup_delete_eq|by apply lookup_delete_ne]. Qed.

(** What becomes of the file of a key while it is saved. *)
Definition new_contents (copied : bool) (bs : bytes) (c : option bytes) : Prop :=
  c = Some bs \/ (copied = true /\ (c = None \/ exists n, c = Some (take n bs))).

Lemma but_for_refl p0 P fs : but_for p0 P fs fs.
Proof. intros p _. by left. Qed.

Lemma growing_tmp p0 P p bs fs : Forall (but_for p0 P fs) (growing (tmp_of p) bs fs).
Proof. apply Forall_map, Forall_forall. intros n _ q Hq. left. by apply tmp_insert. Qed.

(** A step that sets the file of the key, over a change of its temporary file. *)
Lemma set_but_for (p0 : path) (P : option bytes -> Prop) (fs fs1 : files) bs :
  P (Some bs) -> (forall q, is_bin q = true -> fs1 !! q = fs !! q) ->
  but_for p0 P fs (<[p0 := bs]> fs1).
Proof.
  intros HP H q Hq. destruct (decide (q = p0)) as [->|Hne].
  - right. split; [done|]. by rewrite same_insert.
  - left. by rewrite other_insert, H.
Qed.

Lemma copy_states pf p0 bs fs fs1 :
  (forall q, is_bin q = true -> fs1 !! q = fs !! q) ->
  Forall (but_for p0 (new_contents true bs) fs) (copyTo pf (tmp_of p0) p0 bs fs1).
Proof.
  intros H. unfold copyTo.
  destruct (limited_prefix (copy_room pf) (bs, true)) as [m Hm].
  destruct (limited (copy_room pf) (bs, true)) as [part copied]. cbn [fst] in Hm. subst part.
  apply Forall_app. split; [|apply Forall_app; split].
  - apply Forall_singleton. intros q Hq. rewrite deleted. case_decide; [|left; by apply H].
    right. split; [done|]. right. split; [done|by left].
  - apply Forall_map, Forall_forall. intros n _. apply set_but_for; [|done].
    right. split; [done|]. right. exists (n `min` m)%nat. by rewrite take_take.
  - destruct copied; [|apply Forall_nil_2]. apply Forall_singleton. intros q Hq.
    destruct (set_but_for p0 (new_contents true bs) fs fs1 bs ltac:(by left) H q Hq) as [E|[E HP]];
      [left|right]; by rewrite tmp_delete.
Qed.

Lemma save_states pf k fs :
  Forall (but_for (file_of k) (new_contents (copies pf k) (write_key k).1) fs) (saveKeySync pf k fs).
Proof.
  unfold copies, wrote, Persistence.saveKeySync. destruct (open_ok pf); cbn [negb andb].
  2:{ apply Forall_singleton, but_for_refl. }
  pose proof (limited_ok (room pf) (write_key k)) as Hl.
  destruct (limited (room pf) (write_key k)) as [bs ok]. cbn [snd] in *.
  apply Forall_app. split; [apply Forall_singleton, but_for_refl|].
  apply Forall_app. split; [apply growing_tmp|]. destruct ok; cbn [negb andb]; [|apply Forall_nil_2].
  rewrite <- (Hl eq_refl). cbn [fst]. destruct (rename_ok pf); cbn [negb].
  - apply Forall_singleton, set_but_for; [by left|].
    intros q Hq. by rewrite tmp_delete, tmp_insert.
  - apply copy_states. intros q Hq. by apply tmp_insert.
Qed.

Lemma last_growing p bs fs : last (growing p bs fs) = Some (<[p := bs]> fs).
Proof.
  unfold growing. rewrite seq_S, map_app. cbn [map]. rewrite last_snoc, Nat.add_0_l, take_ge by lia. done.
Qed.

(** A save that goes through. *)
Lemma save_final pf k fs :
  saves pf k = true ->
  forall p, is_bin p = true ->
    after (saveKeySync pf k fs) fs !! p =
      if decide (p = file_of k) then Some (write_key k).1 else fs !! p.
Proof.
  unfold saves, wrote, after, Persistence.saveKeySync, copyTo. intros Hs p Hp.
  apply andb_prop in Hs as [Hw Hr]. apply andb_prop in Hw as [-> Hw]. cbn [negb].
  pose proof (limited_ok _ _ Hw) as E. rewrite E in Hw |- *. clear E.
  destruct (write_key k) as [bs ok]. cbn [fst snd] in *. subst ok.
  cbn [negb]. rewrite !last_app. destruct (rename_ok pf).
  - cbn [last default from_option id]. case_decide as He; [rewrite He; apply lookup_insert_eq|].
    by rewrite other_insert, tmp_delete, tmp_insert.
  - cbn [orb] in Hr. rewrite (limited_ok _ _ Hr). rewrite !last_app. cbn [last default from_option id].
    rewrite tmp_delete by done. case_decide as He; [rewrite He; apply lookup_insert_eq|].
    by rewrite other_insert, tmp_insert.
Qed.

(** Nothing of the key files changes before the temporary file is complete. *)
Lemma unwritten pf k fs p :
  wrote pf k = false -> is_bin p = true -> after (saveKeySync pf k fs) fs !! p = fs !! p.
Proof.
  unfold wrote, after, Persistence.saveKeySync. intros Hw Hp.
  destruct (open_ok pf); cbn [negb andb] in *; [|done].
  destruct (limited (room pf) (write_key k)) as [bs ok]. cbn [snd] in Hw. subst ok. cbn [negb].
  rewrite app_nil_r, last_app, last_growing. cbn [default from_option id]. by apply tmp_insert.
Qed.

(** While it is copied there is a moment with no file of the key. *)
Lemma copy_gap pf k fs :
  copies pf k = true ->
  exists fs1, In fs1 (saveKeySync pf k fs) /\ fs1 !! file_of k = None.
Proof.
  unfold copies, wrote, Persistence.saveKeySync. intros H.
  apply andb_prop in H as [H Hr]. apply andb_prop in H as [-> Hw]. cbn [negb].
  destruct (limited (room pf) (write_key k)) as [bs ok]. cbn [snd] in Hw. subst ok. cbn [negb].
  destruct (rename_ok pf); [done|]. exists (delete (file_of k) (<[tmp_of (file_of k) := bs]> fs)).
  split; [|apply lookup_delete_eq].
  rewrite !in_app_iff. right. right. unfold copyTo. destruct (limited (copy_room pf) (bs, true)). by left.
Qed.

Lemma loadAll_spec fs k :
  In k (loadAll fs) <-> exists p bs, fs !! p = Some bs /\ is_bin p = true /\ load_file bs = Some k.
Proof.
  unfold Persistence.loadAll. rewrite <- list_elem_of_In, list_elem_of_omap. split.
  - intros ([p bs] & Hin & H). apply elem_of_map_to_list in Hin. simpl in H.
    exists p, bs. by destruct (is_bin p).
  - intros (p & bs & H1 & H2 & H3). exists (p, bs).
    split; [by apply elem_of_map_to_list|simpl; by rewrite H2].
Qed.

(** A copy the storage does not take whole leaves what it took where [loadAll] looks, and the
    key's old file is gone. *)
Lemma aborted_copy pf k fs n :
  copies pf k = true -> copy_room pf = Some n -> (n < length (write_key k).1)%nat ->
  after (saveKeySync pf k fs) fs !! file_of k = Some (take n (write_key k).1).
Proof.
  unfold copies, wrote, after, Persistence.saveKeySync, copyTo. intros H Hn Hlt.
  apply andb_prop in H as [H Hr]. apply andb_prop in H as [-> Hw]. cbn [negb].
  pose proof (limited_ok _ _ Hw) as E. rewrite E in Hw |- *. clear E.
  destruct (write_key k) as [bs ok]. cbn [fst snd] in *. subst ok. cbn [negb].
  destruct (rename_ok pf); [done|]. rewrite Hn. unfold limited. cbn [fst].
  destruct (Nat.ltb_spec n (length bs)); [|lia]. rewrite app_nil_r, !last_app, last_growing.
  cbn [default from_option id]. apply same_insert.
Qed.

(** C37: a key that is saved comes back.  For every key of Java values, once [saveKeySync] has
    written its file, by renaming or by copying, the file loads as what is kept of that key:
    every field, but for the parameters [kept_params] resets to their defaults (the serial,
    validity and subject of a certificate, the name of the curve, the attestation challenge
    and identifiers), which the format has no place for.  That key is among what [loadAll]
    returns.  At every moment of a save, every other key's file is the old one; the key's own
    file is the old one or the complete new one, unless the temporary file could not be
    renamed.  When it is copied instead, there is a moment with no file for the key, and
    afterwards it may hold any prefix of the new one.  A save that fails before the copy leaves
    every key file as it was.  The moments are states of the file system between calls; what a
    loss of power leaves without an [fsync] is not part of the claim. *)
Theorem saved_key_is_loaded (pf : platform) (k : key) (fs : files) :
  key_ok k ->
  let fs' := after (saveKeySync pf k fs) fs in
  (saves pf k = true ->
     fs' !! file_of k ≫= load_file = Some (kept k) /\ In (kept k) (loadAll fs')) /\
  (wrote pf k = false -> forall p, is_bin p = true -> fs' !! p = fs !! p) /\
  (forall fs1, In fs1 (saveKeySync pf k fs) -> forall p, is_bin p = true ->
     fs1 !! p = fs !! p \/
     (p = file_of k /\
      (fs1 !! p = Some (write_key k).1 \/
       (copies pf k = true /\
        (fs1 !! p = None \/ exists n, fs1 !! p = Some (take n (write_key k).1)))))) /\
  (copies pf k = true ->
     exists fs1, In fs1 (saveKeySync pf k fs) /\ fs1 !! file_of k = None).
Proof.
  intros Hk fs'. pose proof (save_states pf k fs) as Ha. rewrite Forall_forall in Ha. split_and!.
  - intros Hs.
    assert (Hl : load_file (write_key k).1 = Some (kept k)).
    { apply load_written; [done|]. apply andb_prop in Hs as [Hw _]. apply andb_prop in Hw as [_ Hw].
      by rewrite (limited_ok _ _ Hw) in Hw. }
    pose proof (save_final pf k fs Hs _ (fileFor_bin (uid k) (alias k))) as Hb.
    rewrite decide_True in Hb by done. split; [by unfold fs'; rewrite Hb|].
    apply loadAll_spec. exists (file_of k), (write_key k).1. split_and!; [done|apply fileFor_bin|done].
  - intros Hw p Hp. by apply unwritten.
  - intros fs1 Hin. by apply Ha, list_elem_of_In.
  - apply copy_gap.
Qed.

(** The keys in the directory. *)
Definition keys_in (fs : files) (p : path) : option key :=
  if is_bin p then fs !! p ≫= load_file else None.

(** What the tasks of the executor mean. *)
Definition spec_task (t : @task PrivateKey PublicKey Certificate) (m : path -> option key) :
    path -> option key :=
  match t with
  | SaveKey k => fun p => if decide (p = file_of k) then Some (kept k) else m p
  | DeleteKey u a => fun p => if decide (p = fileFor u a) then None else m p
  | ClearAll => fun _ => None
  end.

Definition task_ok (pf : platform) (t : @task PrivateKey PublicKey Certificate) : Prop :=
  match t with SaveKey k => key_ok k /\ saves pf k = true | _ => True end.

Lemma run_task_spec pf t fs p :
  task_ok pf t -> keys_in (run_task pf t fs) p = spec_task t (keys_in fs) p.
Proof.
  intros Ht. unfold keys_in. destruct t as [k|u a|]; cbn [Persistence.run_task spec_task].
  - destruct Ht as [Hk Hs]. destruct (is_bin p) eqn:Hp.
    + rewrite (save_final pf k fs Hs p Hp). case_decide as He; [|done].
      apply load_written; [done|]. apply andb_prop in Hs as [Hw _]. apply andb_prop in Hw as [_ Hw].
      by rewrite (limited_ok _ _ Hw) in Hw.
    + rewrite decide_False; [done|]. intros ->. by rewrite fileFor_bin in Hp.
  - unfold deleteKey. rewrite deleted. by case_decide as He; destruct (is_bin p).
  - unfold clearAll. assert ((∅ : files) !! p = None) as -> by apply lookup_empty. by destruct (is_bin p).
Qed.

(** The executor's tasks, in the order they were submitted, do to the directory what they
    mean for a map from file names to keys. *)
Lemma run_tasks_spec pf ts fs p :
  Forall (task_ok pf) ts ->
  keys_in (run_tasks pf ts fs) p = foldl (fun m t => spec_task t m) (keys_in fs) ts p.
Proof.
  intros Hts. revert fs p.
  enough (H : forall fs m, (forall p, keys_in fs p = m p) ->
    forall p, keys_in (run_tasks pf ts fs) p = foldl (fun m t => spec_task t m) m ts p) by eauto.
  induction Hts as [|t ts Ht _ IH]; intros fs m Hm p; simpl; [done|]. apply IH.
  intros q. rewrite run_task_spec by done. unfold spec_task. destruct t; try case_decide; done.
Qed.
End format_theorems.

(** An EC key asked for by its curve alone, P-384, has the size 384 when it is generated and
    256 once it was loaded from its file: the name of the curve is not kept. *)
Lemma loaded_curve_size p :
  p_algorithm p = Algorithm_EC -> p_keySize p = 0 -> p_ecCurveName p = Some (ascii_text "secp384r1") ->
  effectiveKeySize p = 384 /\ effectiveKeySize (kept_params p) = 256.
Proof.
  intros Ha Hk Hn. unfold effectiveKeySize, kept_params. simpl p_keySize. simpl p_algorithm.
  simpl p_ecCurveName. rewrite Ha, Hk, Hn. by split; vm_compute.
Qed.

(** The conditions on a concrete key: bounds of numbers and lengths, by computation. *)
Lemma fits_dec n z : (- 2 ^ (8 * n - 1) <=? z) && (z <? 2 ^ (8 * n - 1)) = true -> fits n z.
Proof. intros H. apply andb_prop in H as [H1 H2]. split; [by apply Z.leb_le|by apply Z.ltb_lt]. Qed.

Lemma small_dec {A} (l : list A) : (Z.of_nat (length l) <? 2 ^ 31) = true -> small l.
Proof. apply Z.ltb_lt. Qed.

Lemma unit_dec c : (0 <=? c) && (c <? 65536) = true -> 0 <= c < 65536.
Proof. lia. Qed.

Ltac split_fields :=
  cbv beta zeta;
  lazymatch goal with
  | |- fits _ _ => apply fits_dec; vm_compute; reflexivity
  | |- small _ => apply small_dec; vm_compute; reflexivity
  | |- 0 <= _ < 65536 => apply unit_dec; vm_compute; reflexivity
  | |- _ /\ _ => split; split_fields
  | |- Forall _ [] => apply Forall_nil_2
  | |- Forall _ (_ :: _) => apply Forall_cons_2; split_fields
  | |- None = Some _ -> _ => discriminate
  | |- Some (_, _) = Some _ -> _ => let H := fresh in intros H; injection H as <- <-; split_fields
  | |- Some _ = Some _ -> _ => let H := fresh in intros H; injection H as <- ; split_fields
  | |- forall _, _ => intro; split_fields
  | |- _ = _ => reflexivity
  end.

(** An RSA key with a chain of one certificate, an attestation challenge and a serial, saved
    over an older key of the alias. *)
Lemma saved_key_is_loaded_witness :
  let id (bs : bytes) := bs in
  let some (_ : bool) (bs : bytes) := Some bs in
  let p := {| p_keySize := 2048; p_algorithm := 1; p_certificateSerial := Some 77;
              p_certificateNotBefore := None; p_certificateNotAfter := None;
              p_certificateSubject := None; p_rsaPublicExponent := Some 65537; p_ecCurve := 0;
              p_ecCurveName := None; p_purpose := [2; 3]; p_digest := [4]; p_padding := [];
              p_blockMode := []; p_mgfDigest := []; p_usageCountLimit := 0;
              p_callerNonce := Some false; p_unlockedDeviceRequired := None;
              p_activeDateTime := Some (-1); p_originationExpireDateTime := None;
              p_usageExpireDateTime := None; p_attestationChallenge := Some [5; 5];
              p_brand := None; p_device := None; p_product := None; p_manufacturer := None;
              p_model := None; p_imei1 := None; p_imei2 := None; p_meid := None;
              p_serialno := None; p_includeUniqueId := None; p_noAuthRequired := Some true;
              p_origin := Some 0 |} in
  let k := MkPersistedKey 10123 [107; 0x20AC; 0] 1 false (-5) 0 (Some ([1; 2; 3], [4; 5]))
             None [[7; 8]] p (Some [9]) in
  let file := fileFor id 10123 [107; 0x20AC; 0] in
  let states room renames copy :=
    saveKeySync id id id id (Platform true room renames copy) k {[ file := [3; 0] ]} in
  last (states None true None) = Some ({[ file := (write_key id id id k).1 ]} : files) /\
  last (states (Some 5%nat) true None) ≫= (.!! file) = Some [3; 0] /\
  last (states None false (Some 3%nat)) ≫= (.!! file) = Some (take 3 (write_key id id id k).1) /\
  (after (states None true None) ∅ !! file ≫= load_file some some Some = Some (kept k)).
Proof.
  intros id some p k file states.
  assert (Hl : last (states None true None) = Some ({[ file := (write_key id id id k).1 ]} : files))
    by (vm_compute; reflexivity).
  split; [exact Hl|]. split; [vm_compute; reflexivity|]. split; [vm_compute; reflexivity|].
  assert (Hk : key_ok id id id some some Some k).
  { unfold key_ok, params_ok, units_ok, all_fit.
    cbn [k p uid securityLevel domain nspace alias keyPair secretKey chain metadataBytes params
      p_algorithm p_keySize p_ecCurve p_usageCountLimit p_purpose p_digest p_padding p_blockMode
      p_mgfDigest p_activeDateTime p_originationExpireDateTime p_usageExpireDateTime p_origin
      p_rsaPublicExponent].
    split_fields. }
  destruct (saved_key_is_loaded id id id some some Some id (Platform true None true None) k
    {[ file := [3; 0] ]} Hk) as (H & _). destruct H as [H _]; [vm_compute; reflexivity|].
  unfold after in *. unfold states in Hl |- *. rewrite Hl in *. exact H.
Defined.
