(* ===== verification/PatchLevels.v ===== *)
(** * Patch levels (config/Config.kt, AndroidUtils.kt)

    The file security_patch.txt, which gives the patch levels an attestation reports for
    every app and for single packages, and how the level of one component is found for a
    caller: the choice between package and global block, the keywords, the placeholders of
    dates and the numbers they become.  The date, the system's patch level and the digits
    of other scripts are parameters. *)

From stdpp Require Import strings.
From S2P Require Import Prelude KeyModes Tee.
Local Open Scope Z_scope.

(** ** The file *)

Definition EQUALS : Z := 61.

Record CustomPatchLevel := MkLevel {
  system : option kstring;
  vendor : option kstring;
  boot : option kstring;
  all : option kstring
}.

(** A character of [[A-Za-z0-9_.-]]. *)
Definition section_char (c : Z) : bool :=
  ((65 <=? c) && (c <=? 90)) || ((97 <=? c) && (c <=? 122)) || ((48 <=? c) && (c <=? 57)) ||
  (c =? 95) || (c =? 46) || (c =? 45).

(** [patchSectionRegex]: the name between the brackets. *)
Definition patchSection (line : kstring) : option kstring :=
  match line with
  | 91 :: rest =>
      match reverse rest with
      | 93 :: rev =>
          let name := reverse rev in
          if bool_decide (name <> []) && forallb section_char name then Some name else None
      | _ => None
      end
  | _ => None
  end.

(** The loop over the lines: the lines of each block so far, and the block it is in. *)
Definition add_patch_line (s : gmap kstring (list kstring) * kstring) (line : kstring) :
    gmap kstring (list kstring) * kstring :=
  let '(contexts, current) := s in
  let trimmed := trim line in
  if bool_decide (trimmed = []) || startsWith trimmed HASH then (contexts, current)
  else match patchSection trimmed with
       | Some name => (contexts, name)
       | None => (<[current := default [] (contexts !! current) ++ [trimmed]]> contexts, current)
       end.

(** [indexOf] *)
Fixpoint indexOf (c : Z) (s : kstring) : option nat :=
  match s with
  | [] => None
  | x :: s' => if x =? c then Some O else S <$> indexOf c s'
  end.

Definition add_setting (m : gmap kstring kstring) (line : kstring) : gmap kstring kstring :=
  match indexOf EQUALS line with
  | Some (S _ as idx) => <[lowercase (trim (take idx line)) := trim (drop (S idx) line)]> m
  | _ => m
  end.

Definition orElse {A} (a b : option A) : option A := match a with Some _ => a | None => b end.

Definition parsePatchContext (lines : list kstring) : option CustomPatchLevel :=
  match lines with
  | [] => None
  | _ =>
      let settings :=
        let map := foldl add_setting ∅ lines in
        let all := map !! literal "all" in
        Some (MkLevel (orElse (map !! literal "system") all) (orElse (map !! literal "vendor") all)
                (orElse (map !! literal "boot") all) all) in
      match lines with
      | [line] =>
          if bool_decide (indexOf EQUALS line = None) then Some (MkLevel None None None (Some line))
          else settings
      | _ => settings
      end
  end.

Record patch_config := PatchConfig {
  globalPatchLevel : option CustomPatchLevel;
  packagePatchLevels : gmap kstring CustomPatchLevel
}.

(** [None] is a file that is not there. *)
Definition updatePatchLevel (text : option kstring) : patch_config :=
  match text with
  | None => PatchConfig None ∅
  | Some text =>
      let '(contexts, _) := foldl add_patch_line (∅, []) (readLines text) in
      let parsed := omap parsePatchContext contexts in
      PatchConfig (parsed !! []) (delete [] parsed)
  end.

(** [firstNotNullOfOrNull] over the packages of the uid. *)
Definition packagePatchLevel (packages : list kstring) (c : patch_config) : option CustomPatchLevel :=
  first_some (fun p => packagePatchLevels c !! p) packages.

Definition packagePatchLevelForUid (pf : PkgConfig.platform) (uid : Z) (c : patch_config)
    (st : PkgConfig.t) : option CustomPatchLevel * PkgConfig.t :=
  let '(packages, st) := PkgConfig.packages_of pf uid st in
  (match packages with Some ps => packagePatchLevel ps c | None => None end, st).

(** ** The level of a component *)

Inductive component := System | Vendor | Boot.

Definition of_component (k : component) (l : CustomPatchLevel) : option kstring :=
  match k with System => system l | Vendor => vendor l | Boot => boot l end.

(** The [when]: the package's own value, its [all], the global one, its [all]. *)
Definition selected (pkg global : option CustomPatchLevel) (k : component) : option kstring :=
  orElse (pkg ≫= of_component k) (orElse (pkg ≫= all)
    (orElse (global ≫= of_component k) (global ≫= all))).

(** [equals(ignoreCase = true)] with a literal of small letters: the characters whose upper or
    lower case is a letter of ASCII. *)
Definition fold_case (c : Z) : Z :=
  if (65 <=? c) && (c <=? 90) then c + 32
  else if (c =? 0x130) || (c =? 0x131) then 105
  else if c =? 0x212A then 107
  else if c =? 0x17F then 115
  else c.

Definition equalsIgnoreCase (s literal : kstring) : bool := bool_decide (map fold_case s = literal).

Fixpoint matches_prefix (old s : kstring) : bool :=
  match old, s with
  | [], _ => true
  | x :: old', y :: s' => (x =? fold_case y) && matches_prefix old' s'
  | _, [] => false
  end.

(** [replace(old, new, ignoreCase = true)], [old] in small letters: the occurrences from the
    left, one after the end of the other; [skip] characters belong to one already
    replaced. *)
Fixpoint replace_loop (old new : kstring) (skip : nat) (s : kstring) : kstring :=
  match s with
  | [] => []
  | c :: s' =>
      match skip with
      | S k => replace_loop old new k s'
      | O => if matches_prefix old s then new ++ replace_loop old new (length old - 1) s'
             else c :: replace_loop old new 0 s'
      end
  end.

Definition replace (old new s : kstring) : kstring := replace_loop old new 0 s.

(** [format] with leading zeros to at least [n] digits. *)
Fixpoint decimal (fuel : nat) (z : Z) (acc : kstring) : kstring :=
  match fuel with
  | O => acc
  | S fuel => if z <? 10 then (48 + z) :: acc else decimal fuel (z / 10) ((48 + z mod 10) :: acc)
  end.

Definition zero_padded (n : nat) (z : Z) : kstring :=
  let ds := decimal 20 z [] in replicate (n - length ds) 48 ++ ds.

Section values.
(** [LocalDate.now()]; [Build.VERSION.SECURITY_PATCH] as [convertPatchLevel] turns it into a
    number; [Character.digit] of characters outside ASCII. *)
Variables (year month day : Z).
Variable security_patch : bool -> Z.
Variable other_digit : Z -> option Z.

Definition DO_NOT_REPORT : Z := -1.

Definition resolveDateValue (value : kstring) : kstring :=
  replace (literal "dd") (zero_padded 2 day)
    (replace (literal "mm") (zero_padded 2 month)
      (replace (literal "yyyy") (zero_padded 4 year) value)).

Definition digit (c : Z) : option Z :=
  if (48 <=? c) && (c <=? 57) then Some (c - 48) else if c <? 128 then None else other_digit c.

Fixpoint digits (acc : Z) (s : kstring) : option Z :=
  match s with
  | [] => Some acc
  | c :: s' => d ← digit c; digits (acc * 10 + d) s'
  end.

(** [toInt] of a few characters: a sign and digits. *)
Definition toInt (s : kstring) : option Z :=
  match s with
  | [] => None
  | c :: s' =>
      if (c =? 45) || (c =? 43) then
        match s' with
        | [] => None
        | _ => z ← digits 0 s'; Some (if c =? 45 then - z else z)
        end
      else digits 0 s
  end.

(** [replace("-", "")] *)
Definition without_dashes (s : kstring) : kstring := List.filter (fun c => negb (c =? 45)) s.

(** [None] is the answer of a value that is no date. *)
Definition parsePatchLevelValue (value : kstring) (isLong : bool) : option Z :=
  let n := without_dashes value in
  if Nat.eqb (length n) 8 then
    y ← toInt (take 4 n); m ← toInt (take 2 (drop 4 n)); d ← toInt (take 2 (drop 6 n));
    Some (if isLong then y * 10000 + m * 100 + d else y * 100 + m)
  else if Nat.eqb (length n) 6 then
    y ← toInt (take 4 n); m ← toInt (take 2 (drop 4 n));
    Some (if isLong then y * 10000 + m * 100 else y * 100 + m)
  else None.

(** [None]: keep the value the device has. *)
Definition getCustomPatchLevel (pkg global : option CustomPatchLevel) (k : component)
    (isLong : bool) : option Z :=
  match selected pkg global k with
  | None => Some (security_patch isLong)
  | Some value =>
      if equalsIgnoreCase value (literal "prop") then Some (security_patch isLong)
      else if equalsIgnoreCase value (literal "no") then Some DO_NOT_REPORT
      else if equalsIgnoreCase value (literal "device_default") then None
      else parsePatchLevelValue (resolveDateValue value) isLong
  end.

(** The values for a patched certificate, and those for a forged one. *)
Definition patchLevelOverride pkg global := getCustomPatchLevel pkg global System false.
Definition vendorPatchLevelOverride pkg global := getCustomPatchLevel pkg global Vendor true.
Definition bootPatchLevelOverride pkg global := getCustomPatchLevel pkg global Boot true.

Definition patchLevel pkg global : Z :=
  default (security_patch false) (getCustomPatchLevel pkg global System false).
Definition patchLevelLong pkg global : Z :=
  default (security_patch true) (getCustomPatchLevel pkg global System true).
Definition vendorPatchLevelLong pkg global : Z :=
  default (security_patch true) (getCustomPatchLevel pkg global Vendor true).
Definition bootPatchLevelLong pkg global : Z :=
  default (security_patch true) (getCustomPatchLevel pkg global Boot true).
End values.

(** [convertPatchLevel] of SECURITY_PATCH, split at its dashes. *)
Fixpoint split_dashes (cur : kstring) (s : kstring) : list kstring :=
  match s with
  | [] => [reverse cur]
  | c :: s' => if c =? 45 then reverse cur :: split_dashes [] s' else split_dashes (c :: cur) s'
  end.

Definition convertPatchLevel (other_digit : Z -> option Z) (s : kstring) (isLong : bool) : Z :=
  default 202404
    match split_dashes [] s with
    | y :: m :: rest =>
        match isLong, rest with
        | true, d :: _ =>
            y ← toInt other_digit y; m ← toInt other_digit m; d ← toInt other_digit d;
            Some (y * 10000 + m * 100 + d)
        | _, _ => y ← toInt other_digit y; m ← toInt other_digit m; Some (y * 100 + m)
        end
    | _ => None
    end.

(** ** Files as they are documented *)

(** A line: nothing or a comment, the header of a block, or a setting with white space
    anywhere around its parts. *)
Inductive item :=
| Noise (l : kstring)
| Header (before name after : kstring)
| Setting (before key mid1 mid2 value after : kstring).

Definition print_item (i : item) : kstring :=
  match i with
  | Noise l => l
  | Header b n a => b ++ (91 :: n ++ [93]) ++ a
  | Setting b k m1 m2 v a => b ++ ((k ++ m1) ++ EQUALS :: m2 ++ v) ++ a
  end.

Definition print_items (l : list item) : kstring := l ≫= (fun i => print_item i ++ [LF]).

(** Keys have no equals sign and do not begin a comment. *)
Definition item_ok (i : item) : Prop :=
  match i with
  | Noise l =>
      Forall (fun c => c <> LF /\ c <> CR) l /\ (trim l = [] \/ startsWith (trim l) HASH = true)
  | Header b n a => blank b /\ blank a /\ n <> [] /\ Forall (fun c => section_char c = true) n
  | Setting b k m1 m2 v a =>
      blank b /\ blank m1 /\ blank m2 /\ blank a /\ name_ok k /\ name_ok v /\
      startsWith k HASH = false /\ Forall (fun c => c <> EQUALS) k
  end.

(** What the file says: the settings of each block, in order; "" is the block above every
    header. *)
Definition block_settings : Type := list (kstring * (kstring * kstring)).

Definition read_item (s : block_settings * kstring) (i : item) : block_settings * kstring :=
  match i with
  | Noise _ => s
  | Header _ n _ => (s.1, n)
  | Setting _ k _ _ v _ => (s.1 ++ [(s.2, (lowercase k, v))], s.2)
  end.

Definition settings_of (l : list item) : block_settings := (foldl read_item ([], []) l).1.

Definition block (b : kstring) (s : block_settings) : list (kstring * kstring) :=
  map snd (List.filter (fun e => bool_decide (e.1 = b)) s).

(** The value of a key: its last setting. *)
Definition value_of (key : kstring) (s : list (kstring * kstring)) : option kstring :=
  foldl (fun v e => if bool_decide (e.1 = key) then Some e.2 else v) None s.

(** ** Lemmas *)

Lemma indexOf_skip c a b :
  Forall (fun x => x <> c) a -> indexOf c (a ++ c :: b) = Some (length a).
Proof.
  induction 1 as [|x a Hx _ IH]; simpl; [by rewrite Z.eqb_refl|].
  destruct (Z.eqb_spec x c); [done|]. by rewrite IH.
Qed.

Lemma blank_no_equals s : blank s -> Forall (fun x => x <> EQUALS) s.
Proof. intros H. eapply Forall_impl; [exact H|]. intros c [Hc _] ->. by vm_compute in Hc. Qed.

Lemma solid_app_l (s t : kstring) c : head s = Some c -> head (s ++ t) = Some c.
Proof. by destruct s. Qed.

Lemma solid_last (s t : kstring) d : last t = Some d -> last (s ++ t) = Some d.
Proof. intros H. by rewrite last_app, H. Qed.

(** A setting, as the parser stores it. *)
Definition setting_line (k m1 m2 v : kstring) : kstring := (k ++ m1) ++ EQUALS :: m2 ++ v.

Lemma trim_setting b k m1 m2 v a :
  item_ok (Setting b k m1 m2 v a) ->
  trim (print_item (Setting b k m1 m2 v a)) = setting_line k m1 m2 v.
Proof.
  intros (Hb & _ & _ & Ha & (_ & c & _ & Hc & _ & Wc & _) & (_ & _ & d & _ & Hd & _ & Wd) & _).
  apply trim_around; [by apply blank_space..|]. exists c, d. split_and!; [| |done|done].
  - by do 2 apply solid_app_l.
  - apply solid_last. by apply (solid_last (EQUALS :: m2)).
Qed.

Lemma add_setting_line m b k m1 m2 v a :
  item_ok (Setting b k m1 m2 v a) ->
  add_setting m (setting_line k m1 m2 v) = <[lowercase k := v]> m.
Proof.
  intros (_ & H1 & H2 & _ & [_ Hk] & [_ Hv] & _ & Heq). unfold add_setting, setting_line.
  rewrite indexOf_skip by (apply Forall_app; split; [done|by apply blank_no_equals]).
  destruct (length (k ++ m1)) as [|n] eqn:El.
  { destruct Hk as (c & _ & Hc & _). by destruct k. }
  rewrite <- El, take_app_length, skipn_app, (Nat.sub_succ_l _ _ (Nat.le_refl _)), Nat.sub_diag.
  rewrite drop_ge by lia. simpl.
  assert (T1 : trim (k ++ m1) = k) by (apply (trim_around [] k m1); [done|by apply blank_space|done]).
  assert (T2 : trim (m2 ++ v) = v).
  { rewrite <- (app_nil_r (m2 ++ v)), <- app_assoc. apply trim_around; [by apply blank_space|done|done]. }
  by rewrite drop_0, T1, T2.
Qed.

Lemma section_char_plain c : section_char c = true -> c <> 93 /\ isWhitespace c = false /\ c <> LF /\ c <> CR.
Proof.
  unfold section_char, isWhitespace, LF, CR. intros H.
  assert (48 <= c <= 57 \/ 65 <= c <= 90 \/ 97 <= c <= 122 \/ c = 95 \/ c = 46 \/ c = 45) by lia.
  split_and!; lia.
Qed.

Lemma patchSection_header n :
  n <> [] -> Forall (fun c => section_char c = true) n -> patchSection (91 :: n ++ [93]) = Some n.
Proof.
  intros Hne Hn. cbn [patchSection]. rewrite reverse_snoc, reverse_involutive.
  rewrite bool_decide_true by done. cbn [andb].
  replace (forallb section_char n) with true; [done|]. symmetry. apply forallb_forall.
  intros c Hc. rewrite Forall_forall in Hn. by apply Hn, list_elem_of_In.
Qed.

(** A line with an equals sign is no header. *)
Lemma patchSection_setting k m1 m2 v :
  Forall (fun c => c <> EQUALS) k -> patchSection (setting_line k m1 m2 v) = None.
Proof.
  intros Hk. unfold patchSection, setting_line.
  destruct ((k ++ m1) ++ EQUALS :: m2 ++ v) as [|x rest] eqn:E; [done|].
  destruct (decide (x = 91)) as [->|]; [|by repeat case_match].
  assert (Hin : In EQUALS rest).
  { destruct (k ++ m1) as [|y l]; simpl in E; [by injection E|].
    injection E as _ <-. apply in_or_app. right. by left. }
  destruct (reverse rest) as [|z rev] eqn:Er; [done|].
  destruct (decide (z = 93)) as [->|]; [|by repeat case_match].
  replace (forallb section_char (reverse rev)) with false; [by rewrite andb_false_r|].
  symmetry. apply not_true_iff_false. rewrite forallb_forall. intros Hall.
  assert (Hr : rest = reverse rev ++ [93]).
  { rewrite <- (reverse_involutive rest), Er. apply reverse_cons. }
  rewrite Hr in Hin. apply in_app_or in Hin as [Hin|[Hin|[]]]; [|by vm_compute in Hin].
  by apply Hall in Hin.
Qed.

(** The parser's state against the settings read: the lines of each block are those of its
    settings. *)
Definition lines_match (contexts : gmap kstring (list kstring)) (s : block_settings) : Prop :=
  forall b, exists ls,
    contexts !! b = (match ls with [] => None | _ => Some ls end) /\
    Forall2 (fun l e => (forall m, add_setting m l = <[e.1 := e.2]> m) /\
                        indexOf EQUALS l <> None) ls (block b s).

Lemma block_snoc b s e :
  block b (s ++ [e]) = block b s ++ if bool_decide (e.1 = b) then [e.2] else [].
Proof. unfold block. rewrite List.filter_app, map_app. simpl. by case_bool_decide. Qed.

Lemma lines_match_setting contexts s cur k m1 m2 v b0 a0 :
  item_ok (Setting b0 k m1 m2 v a0) -> lines_match contexts s ->
  lines_match (<[cur := default [] (contexts !! cur) ++ [setting_line k m1 m2 v]]> contexts)
    (s ++ [(cur, (lowercase k, v))]).
Proof.
  intros Hok H b. destruct (H b) as (ls & Hls & Hf). rewrite block_snoc. simpl.
  destruct (decide (b = cur)) as [->|Hne].
  - rewrite bool_decide_true by done. exists (ls ++ [setting_line k m1 m2 v]). split.
    + rewrite lookup_insert_eq, Hls. by destruct ls.
    + apply Forall2_app; [done|]. constructor; [|constructor]. simpl. split.
      * intros m. by eapply add_setting_line.
      * destruct Hok as (_ & Hm & _ & _ & _ & _ & _ & Heq). unfold setting_line.
        rewrite indexOf_skip; [done|]. apply Forall_app. split; [done|by apply blank_no_equals].
  - rewrite bool_decide_false by done. rewrite app_nil_r. exists ls. split; [|done].
    by rewrite lookup_insert_ne.
Qed.

Lemma add_patch_line_item contexts cur s i :
  item_ok i -> lines_match contexts s ->
  let '(contexts', cur') := add_patch_line (contexts, cur) (print_item i) in
  let '(s', c') := read_item (s, cur) i in
  cur' = c' /\ lines_match contexts' s'.
Proof.
  intros Hok H. unfold add_patch_line. destruct i as [l|b n a|b k m1 m2 v a]; simpl.
  - destruct Hok as [_ [-> | Hh]]; simpl; [done|]. rewrite Hh, orb_true_r. done.
  - destruct Hok as (Hb & Ha & Hne & Hn).
    assert (Ht : trim (b ++ (91 :: n ++ [93]) ++ a) = 91 :: n ++ [93]).
    { apply trim_around; [by apply blank_space..|]. exists 91, 93.
      split_and!; [done|by apply (solid_last (91 :: n) [93])|done|done]. }
    simpl in Ht. rewrite Ht. change (startsWith (91 :: n ++ [93]) HASH) with false.
    rewrite bool_decide_false by done. cbn [orb]. by rewrite patchSection_header.
  - pose proof (trim_setting _ _ _ _ _ _ Hok) as Ht. simpl in Ht. rewrite Ht.
    pose proof Hok as (_ & _ & _ & _ & (_ & c & _ & Hc & _) & _ & Hh & Heq).
    assert (Hhead : head (setting_line k m1 m2 v) = Some c) by (by do 2 apply solid_app_l).
    rewrite bool_decide_false by (intros E; by rewrite E in Hhead).
    replace (startsWith (setting_line k m1 m2 v) HASH) with false; cycle 1.
    { unfold startsWith in *. by rewrite Hhead, <- Hc, Hh. }
    cbn [orb]. rewrite patchSection_setting by done. split; [done|]. by eapply lines_match_setting.
Qed.

Lemma print_item_line i : item_ok i -> Forall (fun c => c <> LF /\ c <> CR) (print_item i).
Proof.
  assert (Hblank : forall w, blank w -> Forall (fun c => c <> LF /\ c <> CR) w).
  { intros w H. eapply Forall_impl; [exact H|]. by intros c [_ ?]. }
  destruct i as [l|b n a|b k m1 m2 v a]; simpl.
  - by intros [].
  - intros (Hb & Ha & _ & Hn).
    assert (Hname : Forall (fun c => c <> LF /\ c <> CR) n).
    { eapply Forall_impl; [exact Hn|]. intros c Hc. by apply section_char_plain in Hc as (_ & _ & ?). }
    assert (Hbr : Forall (fun c => c <> LF /\ c <> CR) [93]) by by repeat constructor.
    rewrite Forall_app, Forall_cons, !Forall_app. split_and!; auto; done.
  - intros (Hb & H1 & H2 & Ha & [Hk _] & [Hv _] & _). rewrite !Forall_app, Forall_cons, Forall_app.
    split_and!; auto; done.
Qed.

Lemma parse_items l contexts cur s :
  Forall item_ok l -> lines_match contexts s ->
  let '(contexts', cur') := foldl add_patch_line (contexts, cur) (readLines (print_items l)) in
  let '(s', c') := foldl read_item (s, cur) l in
  cur' = c' /\ lines_match contexts' s'.
Proof.
  intros Hl. revert contexts cur s. unfold readLines, print_items.
  induction Hl as [|i l Hi _ IH]; intros contexts cur s H; [done|].
  rewrite bind_cons, <- app_assoc. cbn [app]. rewrite read_lines_line by (by apply print_item_line).
  rewrite reverse_nil. cbn [foldl app]. pose proof (add_patch_line_item contexts cur s i Hi H) as Hstep.
  destruct (add_patch_line (contexts, cur) (print_item i)) as [contexts' cur'].
  destruct (read_item (s, cur) i) as [s' c']. destruct Hstep as [-> H']. by apply IH.
Qed.

Lemma foldl_settings ls es key m v :
  Forall2 (fun l e => (forall m, add_setting m l = <[e.1 := e.2]> m) /\ indexOf EQUALS l <> None) ls es ->
  m !! key = v ->
  foldl add_setting m ls !! key = foldl (fun v e => if bool_decide (e.1 = key) then Some e.2 else v) v es.
Proof.
  intros H. revert m v. induction H as [|l e ls es [Hl _] _ IH]; intros m v Hm; simpl; [done|].
  apply IH. rewrite Hl. case_bool_decide as Hk; [rewrite Hk; apply lookup_insert_eq|by rewrite lookup_insert_ne].
Qed.

(** The level a block of settings gives. *)
Definition level_of (es : list (kstring * kstring)) : option CustomPatchLevel :=
  match es with
  | [] => None
  | _ =>
      let all := value_of (literal "all") es in
      Some (MkLevel (orElse (value_of (literal "system") es) all)
              (orElse (value_of (literal "vendor") es) all)
              (orElse (value_of (literal "boot") es) all) all)
  end.

Lemma parse_context ls es :
  Forall2 (fun l e => (forall m, add_setting m l = <[e.1 := e.2]> m) /\ indexOf EQUALS l <> None) ls es ->
  parsePatchContext ls = level_of es.
Proof.
  intros H. assert (Hv : forall key, foldl add_setting ∅ ls !! key = value_of key es).
  { intros key. by apply foldl_settings. }
  destruct H as [|l e ls es [Hl Hi] H]; [done|]. unfold parsePatchContext, level_of.
  rewrite !Hv. destruct ls; [|done]. by rewrite bool_decide_false.
Qed.

Lemma orElse_assoc {A} (a b c : option A) : orElse a (orElse b c) = orElse (orElse a b) c.
Proof. by destruct a. Qed.

Lemma first_some_ext {A B} (f g : A -> option B) l :
  (forall x, In x l -> f x = g x) -> first_some f l = first_some g l.
Proof.
  induction l as [|x l IH]; simpl; intros H; [done|]. rewrite (H x) by auto.
  destruct (g x); [done|]. apply IH. auto.
Qed.

(** The documented value of a component for an app with these packages: the block of its
    first package that sets anything, then the global block; in each the key of the
    component, then [all]. *)
Definition key_of (k : component) : kstring :=
  literal match k with System => "system" | Vendor => "vendor" | Boot => "boot" end.

Definition in_block (b : kstring) (k : component) (s : block_settings) : option kstring :=
  orElse (value_of (key_of k) (block b s)) (value_of (literal "all") (block b s)).

Definition app_block (packages : list kstring) (s : block_settings) : option kstring :=
  first_some (fun p => match block p s with [] => None | _ => Some p end) packages.

Definition documented (packages : list kstring) (k : component) (s : block_settings) : option kstring :=
  orElse (app_block packages s ≫= fun p => in_block p k s) (in_block [] k s).


(** The conditions on a concrete file, by computation. *)
Definition line_okb (s : kstring) : bool := forallb (fun c => negb (c =? LF) && negb (c =? CR)) s.
Definition blankb (s : kstring) : bool := forallb isWhitespace s && line_okb s.

Definition name_okb (s : kstring) : bool :=
  line_okb s &&
  match head s, last s with Some c, Some d => negb (isWhitespace c || isWhitespace d) | _, _ => false end.

Definition item_okb (i : item) : bool :=
  match i with
  | Noise l => line_okb l && (bool_decide (trim l = []) || startsWith (trim l) HASH)
  | Header b n a => blankb b && blankb a && negb (bool_decide (n = [])) && forallb section_char n
  | Setting b k m1 m2 v a =>
      blankb b && blankb m1 && blankb m2 && blankb a && name_okb k && name_okb v &&
      negb (startsWith k HASH) && forallb (fun c => negb (c =? EQUALS)) k
  end.

Lemma forallb_Forall_impl {A} (f : A -> bool) (P : A -> Prop) l :
  (forall x, f x = true -> P x) -> forallb f l = true -> Forall P l.
Proof.
  intros Hf H. rewrite forallb_forall in H. apply Forall_forall. intros x Hx%list_elem_of_In. auto.
Qed.

Lemma line_okb_ok s : line_okb s = true -> Forall (fun c => c <> LF /\ c <> CR) s.
Proof. apply forallb_Forall_impl. intros x. lia. Qed.

Lemma blankb_ok s : blankb s = true -> blank s.
Proof.
  intros [H1 H2]%andb_prop. apply line_okb_ok in H2. unfold blank.
  apply (forallb_Forall_impl _ (fun c => isWhitespace c = true)) in H1; [|done].
  rewrite Forall_forall in *. naive_solver.
Qed.

Lemma name_okb_ok s : name_okb s = true -> name_ok s.
Proof.
  intros [H1 H2]%andb_prop. split; [by apply line_okb_ok|].
  destruct (head s) as [c|]; [|done]. destruct (last s) as [d|]; [|done].
  apply negb_true_iff, orb_false_elim in H2 as [? ?]. by exists c, d.
Qed.

Lemma items_okb l : forallb item_okb l = true -> Forall item_ok l.
Proof.
  apply forallb_Forall_impl. intros [s|b n a|b k m1 m2 v a]; simpl; rewrite ?andb_true_iff, ?negb_true_iff.
  - intros [H1 H2]. split; [by apply line_okb_ok|].
    apply orb_true_iff in H2 as [H2|H2]; [left; by apply bool_decide_eq_true in H2|by right].
  - intros [[[H1 H2] H3] H4]. apply bool_decide_eq_false in H3.
    split_and!; [by apply blankb_ok..|done|by apply (forallb_Forall_impl section_char)].
  - intros [[[[[[[H1 H2] H3] H4] H5] H6] H7] H8].
    split_and!; [by apply blankb_ok..|by apply name_okb_ok|by apply name_okb_ok|done|].
    revert H8. apply forallb_Forall_impl. intros x. lia.
Qed.


(** ** Dates *)

Section dates.
Variable other_digit : Z -> option Z.

Definition is_digits (ds : list Z) : Prop := Forall (fun x => 0 <= x <= 9) ds.
Definition written (ds : list Z) : kstring := map (fun x => 48 + x) ds.
Definition number (ds : list Z) : Z := foldl (fun z d => z * 10 + d) 0 ds.

Lemma digits_written acc ds :
  is_digits ds -> digits other_digit acc (written ds) = Some (foldl (fun z d => z * 10 + d) acc ds).
Proof.
  intros H. revert acc. induction H as [|x ds Hx _ IH]; intros acc; [done|].
  cbn [written map digits foldl]. unfold digit.
  replace ((48 <=? 48 + x) && (48 + x <=? 57)) with true by (symmetry; lia).
  cbn [mbind option_bind]. replace (48 + x - 48) with x by lia. apply IH.
Qed.

Lemma toInt_written ds : is_digits ds -> ds <> [] -> toInt other_digit (written ds) = Some (number ds).
Proof.
  intros H Hne. unfold number. rewrite <- (digits_written 0 ds H). destruct H as [|x ds Hx H]; [done|].
  cbn [written map toInt]. replace ((48 + x =? 45) || (48 + x =? 43)) with false by (symmetry; lia). done.
Qed.

Lemma written_no_dash ds : is_digits ds -> without_dashes (written ds) = written ds.
Proof.
  induction 1 as [|x ds Hx _ IH]; [done|]. cbn [written map without_dashes List.filter].
  replace (48 + x =? 45) with false by (symmetry; lia). cbn [negb]. by f_equal.
Qed.

Lemma without_dashes_app a b : without_dashes (a ++ b) = without_dashes a ++ without_dashes b.
Proof. apply List.filter_app. Qed.

(** The three documented forms of a date: 2024-11-01, 20241101 and 202411. *)
Lemma date_forms y m d isLong :
  is_digits y -> is_digits m -> is_digits d ->
  length y = 4%nat -> length m = 2%nat -> length d = 2%nat ->
  let full := Some (if isLong : bool then number y * 10000 + number m * 100 + number d
                    else number y * 100 + number m) in
  parsePatchLevelValue other_digit (written y ++ 45 :: written m ++ 45 :: written d) isLong = full /\
  parsePatchLevelValue other_digit (written y ++ written m ++ written d) isLong = full /\
  parsePatchLevelValue other_digit (written y ++ written m) isLong
    = Some (if isLong then number y * 10000 + number m * 100 else number y * 100 + number m).
Proof.
  intros Hy Hm Hd Ly Lm Ld full.
  assert (Hlen : forall ds, length (written ds) = length ds) by (intros; apply length_map).
  assert (Hne : forall (ds : list Z) n, length ds = S n -> ds <> []) by (by intros [|]).
  assert (H8 : forall v, without_dashes v = written y ++ written m ++ written d ->
    parsePatchLevelValue other_digit v isLong = full).
  { intros v Hv. unfold parsePatchLevelValue. rewrite Hv.
    rewrite !length_app, !Hlen, Ly, Lm, Ld. cbn [Nat.eqb Nat.add].
    rewrite take_app_length' by (by rewrite Hlen, ?Ly, ?Lm, ?Ld). rewrite toInt_written by eauto. cbn [mbind option_bind].
    rewrite (drop_app_length' _ _ 4) by (by rewrite Hlen, ?Ly, ?Lm, ?Ld).
    rewrite take_app_length' by (by rewrite Hlen, ?Ly, ?Lm, ?Ld). rewrite toInt_written by eauto. cbn [mbind option_bind].
    rewrite app_assoc, (drop_app_length' _ _ 6) by (by rewrite length_app, !Hlen, Ly, Lm).
    rewrite take_ge by (by rewrite Hlen, Ld). rewrite toInt_written by eauto. done. }
  split_and!.
  - apply H8. change (45 :: written d) with ([45] ++ written d).
    change (45 :: written m ++ [45] ++ written d) with ([45] ++ written m ++ [45] ++ written d).
    rewrite !without_dashes_app. by rewrite !written_no_dash.
  - apply H8. by rewrite !without_dashes_app, !written_no_dash.
  - unfold parsePatchLevelValue. rewrite without_dashes_app, !written_no_dash by done.
    rewrite length_app, !Hlen, Ly, Lm. cbn [Nat.eqb Nat.add].
    rewrite take_app_length' by (by rewrite Hlen, ?Ly, ?Lm, ?Ld). rewrite toInt_written by eauto. cbn [mbind option_bind].
    rewrite (drop_app_length' _ _ 4) by (by rewrite Hlen, ?Ly, ?Lm, ?Ld).
    rewrite take_ge by (by rewrite Hlen, Lm). rewrite toInt_written by eauto. done.
Qed.

(** [device_default]: a patched certificate keeps the device's level of the component; a forged
    one reports the system's patch level for it. *)
Lemma device_default_forged year month day security_patch pkg global :
  selected pkg global Boot = Some (literal "device_default") ->
  bootPatchLevelOverride year month day security_patch other_digit pkg global = None /\
  bootPatchLevelLong year month day security_patch other_digit pkg global = security_patch true.
Proof.
  intros H. unfold bootPatchLevelOverride, bootPatchLevelLong, getCustomPatchLevel.
  by rewrite H.
Qed.
End dates.
